(** * nstd::memory — ownership handles and the aligned block pool

    A shallow embedding of [buffer_base], [released_buffer],
    [unique_buffer], [shared_buffer] and [MemPool], followed by the
    properties established about them.  The same is done for
    [nstd::types::singleton] and for [nstd::any].

    Conventions.
    - [std::size_t] values are integers in [Z]; every arithmetic operation
      that the source performs on [std::size_t] is reduced modulo [2^64]
      through [to_size_t].
    - A raw pointer is its address in [Z]; [nullptr] is address [0].
    - A [std::function] taking a [T] pointer is an [option D]: [None] is the empty
      function object, [Some d] holds the callable [d].  Calling [d] on a
      pointer acts on an outside world [W] through [invoke]; a callable that
      throws has its exception swallowed by the callers below, so only its
      effect on [W] remains. *)

From Stdlib Require Import ZArith Lia.
From stdpp Require Import gmap list fin_maps.

Local Open Scope Z_scope.

(* ===================================================================== *)
(** * Part I — definitions                                                *)
(* ===================================================================== *)

(** ** Machine integers *)

Definition size_modulus : Z := 2 ^ 64.
Definition SIZE_MAX : Z := size_modulus - 1.

(** Conversion to [std::size_t] (unsigned, 64 bits). *)
Definition to_size_t (z : Z) : Z := z mod size_modulus.

(** Conversion to [long] (two's complement, 64 bits). *)
Definition to_long (z : Z) : Z := (z + 2 ^ 63) mod size_modulus - 2 ^ 63.

(** ** memory_location.h *)

Inductive MemoryLocation : Set := Host | HostPinned | Device | Unified.

#[global] Instance MemoryLocation_eq_dec : EqDecision MemoryLocation.
Proof. solve_decision. Defined.

(** Raw pointers are addresses. *)
Abbreviation pointer := Z (only parsing).
Definition nullptr : pointer := 0.

(** ** buffer_base.hpp *)

Record buffer_base : Type := mk_buffer_base {
  data_ : pointer;
  count_ : Z;
  location_ : MemoryLocation
}.

(** [buffer_base() noexcept = default] with the in-class initialisers. *)
Definition buffer_base_default : buffer_base :=
  mk_buffer_base nullptr 0 Host.

Definition buffer_base_data (b : buffer_base) : pointer := data_ b.
Definition buffer_base_size (b : buffer_base) : Z := count_ b.
Definition buffer_base_empty (b : buffer_base) : bool := count_ b =? 0.
Definition buffer_base_location (b : buffer_base) : MemoryLocation :=
  location_ b.

(** The invariant the data model asks of a view. *)
Definition view_invariant (b : buffer_base) : Prop :=
  data_ b = nullptr ↔ count_ b = 0.

(** ** released_buffer.hpp *)

Record released_buffer (D : Type) : Type := mk_released_buffer {
  rb_ptr : pointer;
  rb_count : Z;
  rb_deleter : option D;
  rb_location : MemoryLocation
}.
Arguments mk_released_buffer {D} _ _ _ _.
Arguments rb_ptr {D} _.
Arguments rb_count {D} _.
Arguments rb_deleter {D} _.
Arguments rb_location {D} _.

(** ** unique_buffer.hpp *)

(** [unique_buffer<T>] derives from [buffer_base<T>] and adds [deleter_]. *)
Record unique_buffer (D : Type) : Type := mk_unique_buffer {
  ub_base : buffer_base;
  deleter_ : option D
}.
Arguments mk_unique_buffer {D} _ _.
Arguments ub_base {D} _.
Arguments deleter_ {D} _.

(** The exceptions the subsystem raises;
    [element_constructor_exception] stands for whatever the default
    constructor of an element throws, which [MemPool] passes on as it
    is. *)
Inductive exception : Set :=
  | std_invalid_argument
  | std_bad_alloc
  | std_length_error
  | std_runtime_error
  | element_constructor_exception.

(** A function declared [noexcept] throws nothing: an exception that
    reaches its boundary ends the program through [std::terminate].  The
    result of such a function is the value it returns or
    [std_terminate]; [None] stays undefined behaviour. *)
Inductive termination : Set := std_terminate.

Definition noexcept_boundary {A : Type} (r : option (exception + A))
    : option (termination + A) :=
  match r with
  | None => None
  | Some (inl _) => Some (inl std_terminate)
  | Some (inr a) => Some (inr a)
  end.

Section unique_buffer_ops.
Context {D W : Type}.
(** Effect on the outside world of calling a deleter on a pointer. *)
Variable invoke : D → pointer → W → W.

(** [unique_buffer() noexcept = default]. *)
Definition unique_buffer_default : unique_buffer D :=
  mk_unique_buffer buffer_base_default None.

(** [unique_buffer(size_type count, MemoryLocation loc)]:
    [new T[count]] is [operator_new count], which yields the address of
    the array or throws ([None]); [array_delete] is the lambda
    [[](T *p) { delete[] p; }]. *)
Definition unique_buffer_alloc (operator_new : Z → option pointer)
    (array_delete : D) (count : Z) (loc : MemoryLocation)
    : exception + unique_buffer D :=
  match operator_new count with
  | None => inl std_bad_alloc
  | Some p => inr (mk_unique_buffer (mk_buffer_base p count loc)
                                    (Some array_delete))
  end.

(** [unique_buffer(pointer ptr, size_type count, deleter_type deleter,
    MemoryLocation loc)]. *)
Definition unique_buffer_adopt (ptr : pointer) (count : Z)
    (deleter : option D) (loc : MemoryLocation) : unique_buffer D :=
  mk_unique_buffer (mk_buffer_base ptr count loc) deleter.

(** [explicit unique_buffer(released_buffer<T> rb)]. *)
Definition unique_buffer_from_released (rb : released_buffer D)
    : unique_buffer D :=
  mk_unique_buffer
    (mk_buffer_base (rb_ptr rb) (rb_count rb) (rb_location rb))
    (rb_deleter rb).

(** [steal_from(unique_buffer &&other)]: the new state of [*this] and the
    new state of [other]. *)
Definition unique_buffer_steal_from (this other : unique_buffer D)
    : unique_buffer D * unique_buffer D :=
  (mk_unique_buffer
     (mk_buffer_base (data_ (ub_base other)) (count_ (ub_base other))
                     (location_ (ub_base other)))
     (deleter_ other),
   mk_unique_buffer (mk_buffer_base nullptr 0 Host) None).

(** [unique_buffer(unique_buffer &&other)]: members are default
    initialised, then [steal_from]. *)
Definition unique_buffer_move_construct (other : unique_buffer D)
    : unique_buffer D * unique_buffer D :=
  unique_buffer_steal_from unique_buffer_default other.

(** [reset()]. *)
Definition unique_buffer_reset (u : unique_buffer D) (w : W)
    : unique_buffer D * W :=
  if decide (data_ (ub_base u) = nullptr) then
    (mk_unique_buffer (ub_base u) None, w)
  else
    let w' := match deleter_ u with
              | Some d => invoke d (data_ (ub_base u)) w
              | None => w
              end in
    (mk_unique_buffer (mk_buffer_base nullptr 0 Host) None, w').

(** [~unique_buffer() { reset(); }]: the object is gone afterwards. *)
Definition unique_buffer_destroy (u : unique_buffer D) (w : W) : W :=
  snd (unique_buffer_reset u w).

(** [release()]: the record handed out and the new state of [*this]. *)
Definition unique_buffer_release (u : unique_buffer D)
    : released_buffer D * unique_buffer D :=
  (mk_released_buffer (data_ (ub_base u)) (count_ (ub_base u))
                      (deleter_ u) (location_ (ub_base u)),
   mk_unique_buffer (mk_buffer_base nullptr 0 Host) None).

(** [swap(unique_buffer &other)] on two distinct objects. *)
Definition unique_buffer_swap (this other : unique_buffer D)
    : unique_buffer D * unique_buffer D :=
  (mk_unique_buffer
     (mk_buffer_base (data_ (ub_base other)) (count_ (ub_base other))
                     (location_ (ub_base other)))
     (deleter_ other),
   mk_unique_buffer
     (mk_buffer_base (data_ (ub_base this)) (count_ (ub_base this))
                     (location_ (ub_base this)))
     (deleter_ this)).

Definition unique_buffer_get (u : unique_buffer D) : pointer :=
  data_ (ub_base u).

(** [operator==(std::nullptr_t)]. *)
Definition unique_buffer_eq_nullptr (u : unique_buffer D) : bool :=
  bool_decide (data_ (ub_base u) = nullptr).

(** [explicit operator bool()]. *)
Definition unique_buffer_bool (u : unique_buffer D) : bool :=
  negb (bool_decide (data_ (ub_base u) = nullptr)).

Definition unique_buffer_view (u : unique_buffer D) : buffer_base :=
  mk_buffer_base (data_ (ub_base u)) (count_ (ub_base u))
                 (location_ (ub_base u)).

Definition unique_buffer_get_deleter (u : unique_buffer D) : option D :=
  deleter_ u.

(** *** Objects in memory

    Move assignment tests [this != &other], so it is modelled on a store
    of handle objects indexed by their addresses.  An address that names
    no live object makes the call undefined ([None]). *)
Definition unique_buffer_move_assign (this other : Z)
    (objs : gmap Z (unique_buffer D)) (w : W)
    : option (gmap Z (unique_buffer D) * W) :=
  match objs !! this, objs !! other with
  | Some t, Some o =>
      if decide (this = other) then Some (objs, w)
      else
        let '(t1, w1) := unique_buffer_reset t w in
        let '(t2, o2) := unique_buffer_steal_from t1 o in
        Some (<[this := t2]> (<[other := o2]> objs), w1)
  | _, _ => None
  end.
End unique_buffer_ops.

(** The outside world as a log of deleter calls, oldest first. *)
Definition call_log (D : Type) : Type := list (D * pointer).
Definition record_call {D : Type} (d : D) (p : pointer) (l : call_log D)
    : call_log D :=
  l ++ [(d, p)].

(** ** MemPool.hpp *)

(** The deleter [[this](T *p) { this->release_block(p); }] that [allocate]
    attaches to the handles it issues. *)
Inductive pool_deleter : Set := return_to_pool.

Record MemPool : Type := mk_MemPool {
  block_size_ : Z;
  stride_ : Z;
  block_count_ : Z;
  pool_location_ : MemoryLocation;
  pool_data_ : pointer;
  free_blocks_ : list pointer
}.

Section MemPool_ops.
(** [sizeof(T)] and the template argument [Alignment]. *)
Variable sizeof_T : Z.
Variable Alignment : Z.
(** [std::aligned_alloc]; it answers [nullptr] when it fails. *)
Variable aligned_alloc : Z → Z → pointer.
(** [std::is_trivially_default_constructible_v<T>], and whether
    [std::uninitialized_default_construct] over a block returns normally. *)
Variable trivially_default_constructible : bool.
Variable construct_block : pointer → Z → bool.
(** [free_blocks_.max_size()], and whether the allocator of the vector
    [free_blocks_] finds room for that many pointers. *)
Variable vector_max_size : Z.
Variable vector_allocate : Z → bool.

(** [p + n] on a [T*]. *)
Definition ptr_add (p : pointer) (n : Z) : pointer := p + n * sizeof_T.

Definition pool_byte_size (block_size : Z) : Z :=
  to_size_t (block_size * sizeof_T).

Definition pool_aligned_byte_size (block_size : Z) : Z :=
  to_size_t
    (to_size_t (pool_byte_size block_size + Alignment - 1) / Alignment
     * Alignment).

Definition pool_stride (block_size : Z) : Z :=
  pool_aligned_byte_size block_size / sizeof_T.

Definition pool_total_bytes (block_size block_count : Z) : Z :=
  to_size_t (to_size_t (pool_stride block_size * sizeof_T) * block_count).

(** Start of block [i]: [data_ + i * stride_]. *)
Definition block_start (data : pointer) (stride i : Z) : pointer :=
  ptr_add data (to_size_t (i * stride)).

(** The loop that default-constructs the blocks; [false] when one of the
    constructors throws (the blocks built so far are destroyed and the
    region is freed before the exception leaves the constructor). *)
Definition construct_blocks (data : pointer) (stride block_size
    block_count : Z) : bool :=
  forallb (λ i, construct_block (block_start data stride i) block_size)
          (seqZ 0 block_count).

(** The loop [for (i = 0; i < block_count_; ++i)
    free_blocks_.push_back(data_ + i * stride_)]. *)
Definition build_free_list (data : pointer) (stride block_count : Z)
    : list pointer :=
  fold_left (λ fl i, fl ++ [block_start data stride i])
            (seqZ 0 block_count) [].

(** [free_blocks_.reserve(n)] on the vector the constructor starts with,
    which is empty and has no capacity: [None] when it returns, and the
    exception when it throws, which is [std::length_error] for a request
    beyond [max_size()] and the [std::bad_alloc] of [std::allocator] when
    the allocation fails. *)
Definition vector_reserve (n : Z) : option exception :=
  if decide (vector_max_size < n) then Some std_length_error
  else if vector_allocate n then None
  else Some std_bad_alloc.

(** [MemPool(block_size, block_count, loc)].  An exception of [reserve]
    leaves the constructor as it is; after [reserve] has returned the
    capacity is [block_count_], so that no [push_back] of the loop
    allocates. *)
Definition MemPool_new (block_size block_count : Z) (loc : MemoryLocation)
    : exception + MemPool :=
  if decide (block_size = 0 ∨ block_count = 0) then
    inl std_invalid_argument
  else
    let stride := pool_stride block_size in
    let total_bytes := pool_total_bytes block_size block_count in
    let ptr := aligned_alloc Alignment total_bytes in
    if decide (ptr = nullptr) then inl std_bad_alloc
    else if negb trivially_default_constructible
            && negb (construct_blocks ptr stride block_size block_count)
    then inl element_constructor_exception
    else
      match vector_reserve block_count with
      | Some e => inl e
      | None =>
          inr (mk_MemPool block_size stride block_count loc ptr
                          (build_free_list ptr stride block_count))
      end.

(** [release_block(T *p)]. *)
Definition MemPool_release_block (p : pointer) (pool : MemPool)
    : MemPool :=
  mk_MemPool (block_size_ pool) (stride_ pool) (block_count_ pool)
             (pool_location_ pool) (pool_data_ pool)
             (free_blocks_ pool ++ [p]).

(** What calling a pool-issued deleter does to the pool. *)
Definition pool_invoke (d : pool_deleter) (p : pointer) (pool : MemPool)
    : MemPool :=
  match d with return_to_pool => MemPool_release_block p pool end.

(** [allocate()]: the handle or the exception, and the pool afterwards. *)
Definition MemPool_allocate (pool : MemPool)
    : (exception + unique_buffer pool_deleter) * MemPool :=
  match last (free_blocks_ pool) with
  | None => (inl std_runtime_error, pool)
  | Some ptr =>
      (inr (unique_buffer_adopt ptr (block_size_ pool)
              (Some return_to_pool) (pool_location_ pool)),
       mk_MemPool (block_size_ pool) (stride_ pool) (block_count_ pool)
                  (pool_location_ pool) (pool_data_ pool)
                  (removelast (free_blocks_ pool)))
  end.

Definition MemPool_block_size (pool : MemPool) : Z := block_size_ pool.
Definition MemPool_capacity (pool : MemPool) : Z := block_count_ pool.
Definition MemPool_available (pool : MemPool) : Z :=
  Z.of_nat (length (free_blocks_ pool)).
End MemPool_ops.

(** A client that leases [n] blocks in a row and keeps the handles, oldest
    first; [None] as soon as one [allocate] throws. *)
Fixpoint MemPool_allocate_n (n : nat) (pool : MemPool)
    : option (list (unique_buffer pool_deleter) * MemPool) :=
  match n with
  | O => Some ([], pool)
  | S k =>
      match MemPool_allocate pool with
      | (inl _, _) => None
      | (inr h, pool1) =>
          match MemPool_allocate_n k pool1 with
          | None => None
          | Some (hs, pool2) => Some (h :: hs, pool2)
          end
      end
  end.

(** *** Clients of a pool

    A client holds the pool and the handles it has leased and not yet given
    back.  It can lease one more block, fail to, or reset (or destroy) one
    of its handles. *)
Inductive pool_client_step
    : MemPool * list (unique_buffer pool_deleter)
      → MemPool * list (unique_buffer pool_deleter) → Prop :=
  | client_allocate pool live h pool' :
      MemPool_allocate pool = (inr h, pool') →
      pool_client_step (pool, live) (pool', h :: live)
  | client_allocate_throws pool live e pool' :
      MemPool_allocate pool = (inl e, pool') →
      pool_client_step (pool, live) (pool', live)
  | client_reset pool live1 h live2 h' pool' :
      unique_buffer_reset pool_invoke h pool = (h', pool') →
      pool_client_step (pool, live1 ++ h :: live2) (pool', live1 ++ live2).

(** The addresses of the blocks a list of handles holds. *)
Definition leased_blocks (live : list (unique_buffer pool_deleter))
    : list pointer :=
  map (λ h, data_ (ub_base h)) live.

(** A handle as [allocate] of the given pool issues them. *)
Definition issued_by (pool : MemPool) (h : unique_buffer pool_deleter)
    : Prop :=
  data_ (ub_base h) ≠ nullptr ∧
  count_ (ub_base h) = block_size_ pool ∧
  location_ (ub_base h) = pool_location_ pool ∧
  deleter_ h = Some return_to_pool.

(** ** shared_buffer.hpp *)

Record control_block (D : Type) : Type := mk_control_block {
  cb_ref : Z;
  cb_ptr : pointer;
  cb_size : Z;
  cb_deleter : option D;
  cb_location : MemoryLocation
}.
Arguments mk_control_block {D} _ _ _ _ _.
Arguments cb_ref {D} _.
Arguments cb_ptr {D} _.
Arguments cb_size {D} _.
Arguments cb_deleter {D} _.
Arguments cb_location {D} _.

(** The atomic operations performed on the [ref] member of the control
    block at the given address. *)
Inductive atomic_op : Set :=
  | op_fetch_add (c : Z)
  | op_fetch_sub (c : Z)
  | op_compare_exchange (c : Z) (expected desired : Z) (exchanged : bool).

(** The memory the shared handles live in: every live [shared_buffer]
    object (by address) with its [ctrl_] member, every live control block
    (by address), the outside world the deleters act on, and the history of
    atomic operations, oldest first. *)
Record shared_state (D W : Type) : Type := mk_shared_state {
  handles : gmap Z Z;
  ctrls : gmap Z (control_block D);
  ext : W;
  history : list atomic_op
}.
Arguments mk_shared_state {D W} _ _ _ _.
Arguments handles {D W} _.
Arguments ctrls {D W} _.
Arguments ext {D W} _.
Arguments history {D W} _.

Section shared_buffer_ops.
Context {D W : Type}.
Variable invoke : D → pointer → W → W.

Local Abbreviation state := (shared_state D W).

Definition set_handle (this c : Z) (σ : state) : state :=
  mk_shared_state (<[this := c]> (handles σ)) (ctrls σ) (ext σ)
                  (history σ).

Definition set_ref (c : Z) (cb : control_block D) (r : Z) (σ : state)
    : state :=
  mk_shared_state (handles σ)
    (<[c := mk_control_block r (cb_ptr cb) (cb_size cb) (cb_deleter cb)
                             (cb_location cb)]> (ctrls σ))
    (ext σ) (history σ).

Definition log_op (o : atomic_op) (σ : state) : state :=
  mk_shared_state (handles σ) (ctrls σ) (ext σ) (history σ ++ [o]).

(** [delete ctrl_]. *)
Definition delete_ctrl (c : Z) (σ : state) : state :=
  mk_shared_state (handles σ) (delete c (ctrls σ)) (ext σ) (history σ).

(** Calling the stored deleter, when there is one. *)
Definition call_deleter (d : option D) (p : pointer) (σ : state) : state :=
  match d with
  | Some f => mk_shared_state (handles σ) (ctrls σ) (invoke f p (ext σ))
                              (history σ)
  | None => σ
  end.

(** [ctrl_->ref.fetch_add(1)]. *)
Definition fetch_add_ref (c : Z) (σ : state) : option state :=
  cb ← ctrls σ !! c;
  Some (log_op (op_fetch_add c) (set_ref c cb (to_size_t (cb_ref cb + 1)) σ)).

(** [release_ctrl()]. *)
Definition shared_buffer_release_ctrl (this : Z) (σ : state)
    : option state :=
  c ← handles σ !! this;
  if decide (c = nullptr) then Some σ
  else
    cb ← ctrls σ !! c;
    let prev := cb_ref cb in
    let σ1 := log_op (op_fetch_sub c)
                     (set_ref c cb (to_size_t (prev - 1)) σ) in
    let σ2 := if decide (prev = 1)
              then delete_ctrl c (call_deleter (cb_deleter cb) (cb_ptr cb) σ1)
              else σ1 in
    Some (set_handle this nullptr σ2).

(** [shared_buffer() noexcept = default], for an object placed at the
    unoccupied address [this]. *)
Definition shared_buffer_default (this : Z) (σ : state) : option state :=
  match handles σ !! this with
  | Some _ => None
  | None => Some (set_handle this nullptr σ)
  end.

(** [shared_buffer(pointer ptr, size_type size, deleter_type deleter,
    MemoryLocation loc)]; [cnew] is what [new control_block] yields: the
    address of the fresh block, or [None] when it throws. *)
Definition shared_buffer_construct (this : Z) (cnew : option Z)
    (ptr : pointer) (size : Z) (deleter : option D) (loc : MemoryLocation)
    (σ : state) : option (exception + state) :=
  match handles σ !! this with
  | Some _ => None
  | None =>
      if decide (ptr = nullptr ∨ size = 0) then
        Some (inr (set_handle this nullptr σ))
      else
        match cnew with
        | None => Some (inl std_bad_alloc)
        | Some c =>
            if decide (c = nullptr ∨ is_Some (ctrls σ !! c)) then None
            else
              Some (inr (set_handle this c
                (mk_shared_state (handles σ)
                   (<[c := mk_control_block 1 ptr size deleter loc]>
                      (ctrls σ))
                   (ext σ) (history σ))))
        end
  end.

(** [explicit shared_buffer(released_buffer<T> rb) noexcept], which
    delegates to the constructor above.  The constructor is [noexcept]:
    when [new control_block] throws, the exception cannot leave it and
    the program ends in [std::terminate]. *)
Definition shared_buffer_from_released (this : Z) (cnew : option Z)
    (rb : released_buffer D) (σ : state) : option (termination + state) :=
  noexcept_boundary
    (shared_buffer_construct this cnew (rb_ptr rb) (rb_count rb)
                             (rb_deleter rb) (rb_location rb) σ).

(** [shared_buffer(unique_buffer<T> &&u_b)], which delegates to the
    [noexcept] constructor from a released buffer, so that a failing
    [new control_block] ends the program here too; also the state [u_b]
    is left in. *)
Definition shared_buffer_from_unique (this : Z) (cnew : option Z)
    (u_b : unique_buffer D) (σ : state)
    : option (termination + state) * unique_buffer D :=
  let '(rb, u') := unique_buffer_release u_b in
  (shared_buffer_from_released this cnew rb σ, u').

(** [shared_buffer(const shared_buffer &other)], for a new object at the
    unoccupied address [this]. *)
Definition shared_buffer_copy_construct (this other : Z) (σ : state)
    : option state :=
  match handles σ !! this with
  | Some _ => None
  | None =>
      c ← handles σ !! other;
      if decide (c = nullptr) then Some (set_handle this c σ)
      else σ1 ← fetch_add_ref c (set_handle this c σ); Some σ1
  end.

(** [operator=(const shared_buffer &other)]. *)
Definition shared_buffer_copy_assign (this other : Z) (σ : state)
    : option state :=
  _ ← handles σ !! this;
  new_ctrl ← handles σ !! other;
  if decide (this = other) then Some σ
  else
    σ1 ← (if decide (new_ctrl = nullptr) then Some σ
          else fetch_add_ref new_ctrl σ);
    σ2 ← shared_buffer_release_ctrl this σ1;
    Some (set_handle this new_ctrl σ2).

(** [shared_buffer(shared_buffer &&other)]. *)
Definition shared_buffer_move_construct (this other : Z) (σ : state)
    : option state :=
  match handles σ !! this with
  | Some _ => None
  | None =>
      c ← handles σ !! other;
      Some (set_handle other nullptr (set_handle this c σ))
  end.

(** [operator=(shared_buffer &&other)]. *)
Definition shared_buffer_move_assign (this other : Z) (σ : state)
    : option state :=
  _ ← handles σ !! this;
  _ ← handles σ !! other;
  if decide (this = other) then Some σ
  else
    σ1 ← shared_buffer_release_ctrl this σ;
    c ← handles σ1 !! other;
    Some (set_handle other nullptr (set_handle this c σ1)).

(** [~shared_buffer() { release_ctrl(); }]; the object is gone
    afterwards. *)
Definition shared_buffer_destroy (this : Z) (σ : state) : option state :=
  σ1 ← shared_buffer_release_ctrl this σ;
  Some (mk_shared_state (delete this (handles σ1)) (ctrls σ1) (ext σ1)
                        (history σ1)).

(** [reset()]. *)
Definition shared_buffer_reset (this : Z) (σ : state) : option state :=
  σ1 ← shared_buffer_release_ctrl this σ;
  Some (set_handle this nullptr σ1).

(** [swap(shared_buffer &other)]. *)
Definition shared_buffer_swap (this other : Z) (σ : state) : option state :=
  a ← handles σ !! this;
  b ← handles σ !! other;
  Some (set_handle other a (set_handle this b σ)).

(** [ref.compare_exchange_strong(expected, desired)]: whether the exchange
    took place, and the state afterwards. *)
Definition compare_exchange_ref (c expected desired : Z) (σ : state)
    : option (bool * state) :=
  cb ← ctrls σ !! c;
  if decide (cb_ref cb = expected) then
    Some (true, log_op (op_compare_exchange c expected desired true)
                       (set_ref c cb desired σ))
  else
    Some (false, log_op (op_compare_exchange c expected desired false) σ).

(** [release()]. *)
Definition shared_buffer_release (this : Z) (σ : state)
    : option (option (released_buffer D) * state) :=
  c ← handles σ !! this;
  if decide (c = nullptr) then Some (None, σ)
  else
    match compare_exchange_ref c 1 0 σ with
    | None => None
    | Some (false, σ1) => Some (None, σ1)
    | Some (true, σ1) =>
        cb ← ctrls σ1 !! c;
        Some (Some (mk_released_buffer (cb_ptr cb) (cb_size cb)
                                       (cb_deleter cb) (cb_location cb)),
              set_handle this nullptr (delete_ctrl c σ1))
    end.

(** *** Observers; [None] when the object or its control block is not
    live. *)
Definition read_ctrl {A : Type} (this : Z) (σ : state) (dflt : A)
    (f : control_block D → A) : option A :=
  c ← handles σ !! this;
  if decide (c = nullptr) then Some dflt else f <$> ctrls σ !! c.

Definition shared_buffer_data (this : Z) (σ : state) : option pointer :=
  read_ctrl this σ nullptr cb_ptr.

Definition shared_buffer_size (this : Z) (σ : state) : option Z :=
  read_ctrl this σ 0 cb_size.

Definition shared_buffer_empty (this : Z) (σ : state) : option bool :=
  (λ n, n =? 0) <$> shared_buffer_size this σ.

Definition shared_buffer_location (this : Z) (σ : state)
    : option MemoryLocation :=
  read_ctrl this σ Host cb_location.

Definition shared_buffer_view (this : Z) (σ : state) : option buffer_base :=
  p ← shared_buffer_data this σ;
  n ← shared_buffer_size this σ;
  l ← shared_buffer_location this σ;
  Some (mk_buffer_base p n l).

(** [use_count()]: the load is cast to [long], and the result of the
    conditional is converted to the [size_t] return type. *)
Definition shared_buffer_use_count (this : Z) (σ : state) : option Z :=
  read_ctrl this σ (to_size_t 0) (λ cb, to_size_t (to_long (cb_ref cb))).

(** [explicit operator bool()]. *)
Definition shared_buffer_bool (this : Z) (σ : state) : option bool :=
  (λ c, negb (bool_decide (c = nullptr))) <$> handles σ !! this.
End shared_buffer_ops.

(** ** Histories of shared handles

    The states that programs can reach by constructing, copying, moving,
    releasing, resetting, swapping and destroying [shared_buffer] objects. *)

(** A [shared_buffer] object is one pointer wide, so a 64-bit address space
    has room for at most this many of them at a time. *)
Definition max_live_handles : Z := size_modulus / 8.

Definition is_size_t (n : Z) : Prop := 0 ≤ n < size_modulus.

(** Number of live handles whose [ctrl_] is [c]. *)
Definition owners (c : Z) (hs : gmap Z Z) : nat :=
  size (filter (λ kv : Z * Z, kv.2 = c) hs).

Section shared_buffer_histories.
Context {D W : Type}.
Variable invoke : D → pointer → W → W.

Local Abbreviation state := (shared_state D W).

Definition room_for_handle (σ : state) : Prop :=
  Z.of_nat (size (handles σ)) < max_live_handles.

Definition shared_initial (w : W) : state := mk_shared_state ∅ ∅ w [].

Inductive shared_step : state → state → Prop :=
  | step_default this σ σ' :
      room_for_handle σ →
      shared_buffer_default this σ = Some σ' →
      shared_step σ σ'
  | step_construct this cnew ptr size deleter loc σ σ' :
      room_for_handle σ → is_size_t size →
      shared_buffer_construct this cnew ptr size deleter loc σ
        = Some (inr σ') →
      shared_step σ σ'
  | step_from_released this cnew rb σ σ' :
      room_for_handle σ → is_size_t (rb_count rb) →
      shared_buffer_from_released this cnew rb σ = Some (inr σ') →
      shared_step σ σ'
  | step_from_unique this cnew u_b u' σ σ' :
      room_for_handle σ → is_size_t (count_ (ub_base u_b)) →
      shared_buffer_from_unique this cnew u_b σ = (Some (inr σ'), u') →
      shared_step σ σ'
  | step_copy_construct this other σ σ' :
      room_for_handle σ →
      shared_buffer_copy_construct this other σ = Some σ' →
      shared_step σ σ'
  | step_copy_assign this other σ σ' :
      shared_buffer_copy_assign invoke this other σ = Some σ' →
      shared_step σ σ'
  | step_move_construct this other σ σ' :
      room_for_handle σ →
      shared_buffer_move_construct this other σ = Some σ' →
      shared_step σ σ'
  | step_move_assign this other σ σ' :
      shared_buffer_move_assign invoke this other σ = Some σ' →
      shared_step σ σ'
  | step_destroy this σ σ' :
      shared_buffer_destroy invoke this σ = Some σ' →
      shared_step σ σ'
  | step_release this r σ σ' :
      shared_buffer_release this σ = Some (r, σ') →
      shared_step σ σ'
  | step_reset this σ σ' :
      shared_buffer_reset invoke this σ = Some σ' →
      shared_step σ σ'
  | step_swap this other σ σ' :
      shared_buffer_swap this other σ = Some σ' →
      shared_step σ σ'.

Definition shared_reachable (σ : state) : Prop :=
  ∃ w, rtc shared_step (shared_initial w) σ.

(** What every reachable state satisfies: no handle dangles, and every
    live control block guards a real buffer and counts exactly the handles
    that point to it.  Between the two halves of a copy the block [x] that
    is being acquired counts one more than its handles. *)
Record shared_wf_plus (x : Z) (σ : state) : Prop := mk_shared_wf {
  wf_room : Z.of_nat (size (handles σ)) ≤ max_live_handles;
  wf_live : ∀ h c, handles σ !! h = Some c → c ≠ nullptr →
                   is_Some (ctrls σ !! c);
  wf_block : ∀ c cb, ctrls σ !! c = Some cb →
      c ≠ nullptr ∧ cb_ptr cb ≠ nullptr ∧ 0 < cb_size cb ∧
      cb_ref cb = Z.of_nat (owners c (handles σ))
                  + (if decide (c = x) then 1 else 0) ∧
      1 ≤ cb_ref cb
}.

Definition shared_wf (σ : state) : Prop := shared_wf_plus nullptr σ.

(** Two snapshots of a control block that agree on everything but the
    count. *)
Definition same_buffer (cb cb' : control_block D) : Prop :=
  cb_ptr cb' = cb_ptr cb ∧ cb_size cb' = cb_size cb ∧
  cb_deleter cb' = cb_deleter cb ∧ cb_location cb' = cb_location cb.

(** Every block that is live before and after still guards the same
    buffer. *)
Definition buffers_kept (σ σ' : state) : Prop :=
  ∀ c cb cb', ctrls σ !! c = Some cb → ctrls σ' !! c = Some cb' →
              same_buffer cb cb'.
End shared_buffer_histories.

(** *** Programs over unique handles

    The state of a program that works with unique handles: the live
    [unique_buffer] objects by address, the transfer records it has
    obtained from [release()] and not yet turned into a handle again, and
    the log of the deleter calls made so far.  A step is one operation of
    the class on live objects. *)
Inductive unique_step {D : Type}
    : gmap Z (unique_buffer D) * list (released_buffer D) * call_log D
      → gmap Z (unique_buffer D) * list (released_buffer D) * call_log D
      → Prop :=
  | ustep_default objs recs log this :
      objs !! this = None →
      unique_step (objs, recs, log)
                  (<[this := unique_buffer_default]> objs, recs, log)
  | ustep_from_released objs recs1 rb recs2 log this :
      objs !! this = None →
      unique_step (objs, recs1 ++ rb :: recs2, log)
                  (<[this := unique_buffer_from_released rb]> objs,
                   recs1 ++ recs2, log)
  | ustep_move_construct objs recs log this other o :
      objs !! this = None → objs !! other = Some o →
      unique_step (objs, recs, log)
                  (<[this := fst (unique_buffer_move_construct o)]>
                     (<[other := snd (unique_buffer_move_construct o)]> objs),
                   recs, log)
  | ustep_move_assign objs recs log this other objs' log' :
      unique_buffer_move_assign record_call this other objs log
        = Some (objs', log') →
      unique_step (objs, recs, log) (objs', recs, log')
  | ustep_release objs recs log this u :
      objs !! this = Some u →
      unique_step (objs, recs, log)
                  (<[this := snd (unique_buffer_release u)]> objs,
                   fst (unique_buffer_release u) :: recs, log)
  | ustep_reset objs recs log this u :
      objs !! this = Some u →
      unique_step (objs, recs, log)
                  (<[this := fst (unique_buffer_reset record_call u log)]> objs,
                   recs, snd (unique_buffer_reset record_call u log))
  | ustep_destroy objs recs log this u :
      objs !! this = Some u →
      unique_step (objs, recs, log)
                  (delete this objs, recs,
                   unique_buffer_destroy record_call u log)
  | ustep_swap objs recs log this other a b :
      this ≠ other → objs !! this = Some a → objs !! other = Some b →
      unique_step (objs, recs, log)
                  (<[this := fst (unique_buffer_swap a b)]>
                     (<[other := snd (unique_buffer_swap a b)]> objs),
                   recs, log).

(** How many live handles hold the pointer [p], how many pending records
    carry it, and how often it has been passed to a deleter. *)
Definition held {D : Type} (p : pointer) (objs : gmap Z (unique_buffer D))
    : nat :=
  owners p (unique_buffer_get <$> objs).

Definition in_flight {D : Type} (p : pointer)
    (recs : list (released_buffer D)) : nat :=
  length (filter (λ rb, rb_ptr rb = p) recs).

Definition deleted {D : Type} (p : pointer) (log : call_log D) : nat :=
  length (filter (λ call : D * Z, call.2 = p) log).

(** Every owner of a buffer can free it. *)
Definition armed {D : Type}
    (s : gmap Z (unique_buffer D) * list (released_buffer D) * call_log D)
    : Prop :=
  (∀ h u, s.1.1 !! h = Some u → unique_buffer_get u ≠ nullptr →
          is_Some (deleter_ u)) ∧
  (∀ rb, rb ∈ s.1.2 → rb_ptr rb ≠ nullptr → is_Some (rb_deleter rb)).

(** Where the pointer [p] is accounted for: with its owners, in transit,
    or freed. *)
Definition accounted {D : Type} (p : pointer)
    (s : gmap Z (unique_buffer D) * list (released_buffer D) * call_log D)
    : nat :=
  (held p s.1.1 + in_flight p s.1.2 + deleted p s.2)%nat.

(** Every owner of a buffer carries the deleter [f] assigns to the
    buffer, and every logged call used that deleter. *)
Definition paired {D : Type} (f : pointer → option D)
    (s : gmap Z (unique_buffer D) * list (released_buffer D) * call_log D)
    : Prop :=
  (∀ h u, s.1.1 !! h = Some u → unique_buffer_get u ≠ nullptr →
          deleter_ u = f (unique_buffer_get u)) ∧
  (∀ rb, rb ∈ s.1.2 → rb_ptr rb ≠ nullptr → rb_deleter rb = f (rb_ptr rb)) ∧
  (∀ d p, (d, p) ∈ s.2 → f p = Some d).

(** One shared handle at address 10 owning a buffer of five elements at
    4096 through the control block at address 100; the deleters are
    numbered, and the world is the log of their calls. *)
Ltac sample_memory_reachable :=
  exists (@nil (nat * Z));
  eapply rtc_l; [| apply rtc_refl];
  eapply (step_construct record_call 10 (Some 100) 4096 5 (Some 7%nat) Host);
  [ vm_compute; reflexivity
  | unfold is_size_t; split; [lia | reflexivity]
  | reflexivity ].

(** A client that leases two blocks in a row. *)
Ltac two_leases :=
  eapply rtc_l; [eapply client_allocate; vm_compute; reflexivity |];
  eapply rtc_l; [eapply client_allocate; vm_compute; reflexivity |];
  apply rtc_refl.

(** The same memory with a second, empty handle at address 11. *)
Ltac sample_pair_reachable :=
  exists (@nil (nat * Z));
  eapply rtc_l;
    [ eapply (step_construct record_call 10 (Some 100) 4096 5 (Some 7%nat)
                             Host);
      [ vm_compute; reflexivity
      | unfold is_size_t; split; [lia | reflexivity]
      | reflexivity ] |];
  eapply rtc_l;
    [ eapply (step_default record_call 11);
      [ vm_compute; reflexivity | reflexivity ] |];
  apply rtc_refl.

(** A unique handle at address 1 adopts five elements at 4096 with
    deleter 7; the buffer is released, taken up by a handle at address 2,
    move-assigned back to handle 1, and both handles are destroyed. *)
Ltac sample_unique_run :=
  eapply rtc_l;
    [ eapply (ustep_release _ _ _ 1
                (unique_buffer_adopt 4096 5 (Some 7%nat) Host));
      reflexivity |];
  eapply rtc_l;
    [ eapply (ustep_from_released _ [] _ [] _ 2); reflexivity |];
  eapply rtc_l;
    [ eapply (ustep_move_assign _ _ _ 1 2); vm_compute; reflexivity |];
  eapply rtc_l; [ eapply (ustep_destroy _ _ _ 1); reflexivity |];
  eapply rtc_l; [ eapply (ustep_destroy _ _ _ 2); reflexivity |];
  apply rtc_refl.

(** ** singleton (types/Singleton.h)

    [singleton<Derived>] has one static [std::shared_ptr<Derived>
    instance] for each class [Derived].  The statics are a map from the
    class to the address the pointer holds; a class without an entry has
    the initial [nullptr].  The objects live in a heap that the statics
    keep alive.  [std::make_shared<Derived>(arguments...)] allocates,
    then runs the constructor of [Derived]; either of them may throw. *)
Section singleton_ops.
Context {A O E : Type}.
(** The constructor of class [derived] on the call's arguments. *)
Variable construct : Z → A → E + O.
(** The allocation of [make_shared]: an address, or an exception. *)
Variable allocate : gmap Z O → E + pointer.

Definition make_shared (derived : Z) (arguments : A) (heap : gmap Z O)
    : E + (pointer * gmap Z O) :=
  match allocate heap with
  | inl e => inl e
  | inr p =>
      match construct derived arguments with
      | inl e => inl e
      | inr o => inr (p, <[p := o]> heap)
      end
  end.

Definition singleton_instance (derived : Z) (statics : gmap Z Z) : pointer :=
  default nullptr (statics !! derived).

(** [getInstance(Args... arguments)]: what the call returns or throws,
    and the statics and the heap afterwards. *)
Definition getInstance (derived : Z) (arguments : A)
    (st : gmap Z Z * gmap Z O) : (E + pointer) * (gmap Z Z * gmap Z O) :=
  if decide (singleton_instance derived st.1 = nullptr) then
    match make_shared derived arguments st.2 with
    | inl e => (inl e, st)
    | inr (p, heap') => (inr p, (<[derived := p]> st.1, heap'))
    end
  else (inr (singleton_instance derived st.1), st).

(** A program's calls of [getInstance], in order, with their results. *)
Fixpoint getInstance_calls (calls : list (Z * A)) (st : gmap Z Z * gmap Z O)
    : list (E + pointer) * (gmap Z Z * gmap Z O) :=
  match calls with
  | [] => ([], st)
  | (derived, arguments) :: rest =>
      let r := getInstance derived arguments st in
      let rs := getInstance_calls rest (snd r) in
      (fst r :: fst rs, snd rs)
  end.
End singleton_ops.

(** Every instance that is set points to a live object, and no two
    classes share one. *)
Definition singleton_wf {O : Type} (st : gmap Z Z * gmap Z O) : Prop :=
  (∀ d p, st.1 !! d = Some p → p ≠ nullptr ∧ is_Some (st.2 !! p)) ∧
  (∀ d1 d2 p, st.1 !! d1 = Some p → st.1 !! d2 = Some p → d1 = d2).

(** ** nstd::any (any/nstd_any.hpp)

    What the templates read off the contained type [T]: its [typeid], its
    size and alignment, and the two traits the class tests. *)
Record type_desc : Type := mk_type_desc {
  type_id : Z;
  type_sizeof : Z;
  type_alignof : Z;
  is_nothrow_move_constructible : bool;
  is_copy_constructible : bool
}.

#[global] Instance type_desc_eq_dec : EqDecision type_desc.
Proof. solve_decision. Defined.

(** [typeid(void)] and the [typeid] of an object type. *)
Inductive type_info : Set :=
  | typeid_void
  | typeid_of (id : Z).

#[global] Instance type_info_eq_dec : EqDecision type_info.
Proof. solve_decision. Defined.

(** Pointers are eight bytes, as [size_t] is. *)
Definition sizeof_void_ptr : Z := 8.
Definition alignof_void_ptr : Z := 8.
Definition any_BufferSize : Z := 4 * sizeof_void_ptr.
Definition any_Alignment : Z := alignof_void_ptr.

(** [IsSmall<T>]. *)
Definition IsSmall (t : type_desc) : bool :=
  bool_decide (type_sizeof t ≤ any_BufferSize)
  && bool_decide (type_alignof t ≤ any_Alignment)
  && is_nothrow_move_constructible t.

(** [union Storage]: the member written last is either [ptr] or
    [buffer]; the buffer holds an object of some type, or none. *)
Inductive Storage (V : Type) : Type :=
  | in_ptr (p : pointer)
  | in_buffer (o : option (type_desc * V)).
Arguments in_ptr {V} p.
Arguments in_buffer {V} o.

(** An [any]: [manager] is [&ManagerImpl<T>::Manage] for one [T], or
    [nullptr]. *)
Record any_object (V : Type) : Type := mk_any_object {
  manager : option type_desc;
  storage : Storage V
}.
Arguments mk_any_object {V} manager storage.
Arguments manager {V} a.
Arguments storage {V} a.

(** Where a contained object is: in the buffer of the [any] at an
    address, or on the free store. *)
Inductive location : Set :=
  | buffer_of (a : Z)
  | heap_at (p : pointer).

(** The [any] objects by address, the objects made by [new], and the
    objects whose destructor has run, oldest first. *)
Record any_memory (V : Type) : Type := mk_any_memory {
  anys : gmap Z (any_object V);
  free_store : gmap Z (type_desc * V);
  destroyed : list (type_desc * V)
}.
Arguments mk_any_memory {V} anys free_store destroyed.
Arguments anys {V} a.
Arguments free_store {V} a.
Arguments destroyed {V} a.

Inductive any_exception (E : Type) : Type :=
  | std_logic_error
  | bad_any_cast
  | new_bad_alloc
  | thrown_by_T (e : E).
Arguments std_logic_error {E}.
Arguments bad_any_cast {E}.
Arguments new_bad_alloc {E}.
Arguments thrown_by_T {E} e.

(** How a call ends: it returns, it throws, [std::terminate] is called
    (an exception reaches a [noexcept] boundary), or its behaviour is
    undefined. *)
Inductive outcome (S A X : Type) : Type :=
  | returned (r : A) (σ : S)
  | threw (x : X) (σ : S)
  | terminated
  | undefined.
Arguments returned {S A X} r σ.
Arguments threw {S A X} x σ.
Arguments terminated {S A X}.
Arguments undefined {S A X}.

Definition and_then {S A B X : Type} (m : outcome S A X)
    (k : A → S → outcome S B X) : outcome S B X :=
  match m with
  | returned r σ => k r σ
  | threw x σ => threw x σ
  | terminated => terminated
  | undefined => undefined
  end.

Definition noexcept {S A X : Type} (m : outcome S A X) : outcome S A X :=
  match m with
  | threw _ _ => terminated
  | o => o
  end.

(** What runs when a call throws: the handler sees the state at the
    throw. *)
Definition on_throw {S A X : Type} (m : outcome S A X) (h : S → S)
    : outcome S A X :=
  match m with
  | threw x σ => threw x (h σ)
  | o => o
  end.

(** [enum class Op] and [union Arg]. *)
Inductive Op : Set := Access | GetTypeInfo | Clone | Destroy | Xfer.

Inductive Arg : Set :=
  | arg_obj (l : location)
  | arg_typeinfo (ti : type_info)
  | arg_any_ptr (a : Z)
  | arg_unset.

(** The arguments [args...] of a call that constructs a [T].  They are
    forwarded by reference and read when the constructor of [T] runs.
    [args_values r] stands for arguments that refer to no object held by
    an [any]: what the constructor makes of them does not depend on the
    memory.  [args_lvalue l] is one lvalue of type [T] for the object at
    [l], such as the reference that [emplace] or [any_cast] returned; it
    selects the copy constructor of [T]. *)
Inductive ctor_args (R : Type) : Type :=
  | args_values (r : R)
  | args_lvalue (l : location).
Arguments args_values {R} r.
Arguments args_lvalue {R} l.

Section any_ops.
Context {V R E : Type}.
(** [T(args...)], [T(const T &)] and [T(T &&)]: the new object or the
    exception; the move constructor also says what it leaves in its
    source. *)
Variable construct : type_desc → R → E + V.
Variable copy_construct : type_desc → V → E + V.
Variable move_construct : type_desc → V → (E + V) * V.
(** [operator new]: an address, or [std::bad_alloc]. *)
Variable operator_new : gmap Z (type_desc * V) → option pointer.

Definition set_any (a : Z) (obj : any_object V) (σ : any_memory V)
    : any_memory V :=
  mk_any_memory (<[a := obj]> (anys σ)) (free_store σ) (destroyed σ).

Definition set_manager (a : Z) (m : option type_desc) (σ : any_memory V)
    : any_memory V :=
  match anys σ !! a with
  | Some obj => set_any a (mk_any_object m (storage obj)) σ
  | None => σ
  end.

Definition set_storage (a : Z) (s : Storage V) (σ : any_memory V)
    : any_memory V :=
  match anys σ !! a with
  | Some obj => set_any a (mk_any_object (manager obj) s) σ
  | None => σ
  end.

Definition forget_any (a : Z) (σ : any_memory V) : any_memory V :=
  mk_any_memory (delete a (anys σ)) (free_store σ) (destroyed σ).

Definition object_at (l : location) (σ : any_memory V)
    : option (type_desc * V) :=
  match l with
  | buffer_of a =>
      match anys σ !! a with
      | Some obj => match storage obj with
                    | in_buffer o => o
                    | in_ptr _ => None
                    end
      | None => None
      end
  | heap_at p => free_store σ !! p
  end.

(** Reading [*static_cast<T *>(l)]: there must be a [T] at [l]. *)
Definition read_object (t : type_desc) (l : location) (σ : any_memory V)
    : option V :=
  match object_at l σ with
  | Some (t', v) => if decide (t' = t) then Some v else None
  | None => None
  end.

(** What a move constructor leaves in the object it moved from. *)
Definition write_object (t : type_desc) (l : location) (v : V)
    (σ : any_memory V) : any_memory V :=
  match l with
  | buffer_of a => set_storage a (in_buffer (Some (t, v))) σ
  | heap_at p =>
      mk_any_memory (anys σ) (<[p := (t, v)]> (free_store σ)) (destroyed σ)
  end.

(** [ManagerImpl<T>::Access(const Storage &s)] for the storage [s] of the
    [any] at [a]; reading [s.ptr] while the buffer is in use is
    undefined. *)
Definition ManagerImpl_Access (t : type_desc) (a : Z) (s : Storage V)
    : option location :=
  if IsSmall t then Some (buffer_of a)
  else match s with
       | in_ptr p => Some (heap_at p)
       | in_buffer _ => None
       end.

(** [ManagerImpl<T>::Destroy(Storage &s)]: [ptr->~T()] or [delete ptr];
    there must be a [T] to destroy, except that [delete nullptr] does
    nothing. *)
Definition ManagerImpl_Destroy (t : type_desc) (a : Z) (σ : any_memory V)
    : option (any_memory V) :=
  match anys σ !! a with
  | None => None
  | Some obj =>
      if IsSmall t then
        match storage obj with
        | in_buffer (Some (t', v)) =>
            if decide (t' = t) then
              Some (mk_any_memory
                      (<[a := mk_any_object (manager obj) (in_buffer None)]>
                         (anys σ))
                      (free_store σ) (destroyed σ ++ [(t, v)]))
            else None
        | _ => None
        end
      else
        match storage obj with
        | in_ptr p =>
            if decide (p = nullptr) then Some σ
            else match free_store σ !! p with
                 | Some (t', v) =>
                     if decide (t' = t) then
                       Some (mk_any_memory (anys σ) (delete p (free_store σ))
                                           (destroyed σ ++ [(t, v)]))
                     else None
                 | None => None
                 end
        | in_buffer _ => None
        end
  end.

(** [ManagerImpl<T>::Create(Storage &s, Args &&...args)], given what the
    constructor of [T] does on the arguments: placement [new] in the
    buffer, or [s.ptr = new T(...)], which allocates first. *)
Definition ManagerImpl_Create (t : type_desc) (a : Z) (made : E + V)
    (σ : any_memory V) : outcome (any_memory V) unit (any_exception E) :=
  match anys σ !! a with
  | None => undefined
  | Some obj =>
      if IsSmall t then
        match made with
        | inl e => threw (thrown_by_T e) σ
        | inr v => returned tt (set_storage a (in_buffer (Some (t, v))) σ)
        end
      else
        match operator_new (free_store σ) with
        | None => threw new_bad_alloc σ
        | Some p =>
            match made with
            | inl e => threw (thrown_by_T e) σ
            | inr v =>
                returned tt
                  (set_storage a (in_ptr p)
                     (mk_any_memory (anys σ) (<[p := (t, v)]> (free_store σ))
                                    (destroyed σ)))
            end
        end
  end.

(** [T(std::forward<Args>(args)...)] in the memory it runs in: the new
    object or the exception.  An lvalue argument is read there; when no
    [T] is alive at its place any more, the behaviour is undefined. *)
Definition construct_from (t : type_desc) (args : ctor_args R)
    (σ : any_memory V) : option (E + V) :=
  match args with
  | args_values r => Some (construct t r)
  | args_lvalue l =>
      match read_object t l σ with
      | Some v => Some (copy_construct t v)
      | None => None
      end
  end.

(** [ManagerImpl<T>::Create(Storage &s, Args &&...args)] on forwarded
    arguments: the constructor of [T] reads them when it runs, which for
    a [T] that is not small is after [operator new] has returned. *)
Definition ManagerImpl_Create_from (t : type_desc) (a : Z)
    (args : ctor_args R) (σ : any_memory V)
    : outcome (any_memory V) unit (any_exception E) :=
  match anys σ !! a with
  | None => undefined
  | Some obj =>
      if IsSmall t then
        match construct_from t args σ with
        | Some made => ManagerImpl_Create t a made σ
        | None => undefined
        end
      else
        match operator_new (free_store σ) with
        | None => threw new_bad_alloc σ
        | Some _ =>
            match construct_from t args σ with
            | Some made => ManagerImpl_Create t a made σ
            | None => undefined
            end
        end
  end.

(** [ManagerImpl<T>::Manage(Op op, const any *src, Arg *arg)]: the
    result is what is left in [*arg].  [Clone] and [Xfer] are never
    called with [arg->any_ptr == src]; that case is left undefined. *)
Definition ManagerImpl_Manage (t : type_desc) (op : Op) (src : Z)
    (arg : Arg) (σ : any_memory V)
    : outcome (any_memory V) Arg (any_exception E) :=
  match anys σ !! src with
  | None => undefined
  | Some obj =>
      match op with
      | Access =>
          match ManagerImpl_Access t src (storage obj) with
          | Some l => returned (arg_obj l) σ
          | None => undefined
          end
      | GetTypeInfo => returned (arg_typeinfo (typeid_of (type_id t))) σ
      | Clone =>
          match arg with
          | arg_any_ptr dst =>
              if decide (dst = src) then undefined
              else if is_copy_constructible t then
                match ManagerImpl_Access t src (storage obj) with
                | None => undefined
                | Some l =>
                    match read_object t l σ with
                    | None => undefined
                    | Some source_val =>
                        and_then
                          (ManagerImpl_Create t dst
                             (copy_construct t source_val) σ)
                          (λ _ σ1, returned arg (set_manager dst (Some t) σ1))
                    end
                end
              else threw std_logic_error σ
          | _ => undefined
          end
      | Destroy =>
          match ManagerImpl_Destroy t src σ with
          | Some σ1 => returned arg σ1
          | None => undefined
          end
      | Xfer =>
          match arg with
          | arg_any_ptr dst =>
              if decide (dst = src) then undefined
              else
                match ManagerImpl_Access t src (storage obj) with
                | None => undefined
                | Some l =>
                    match read_object t l σ with
                    | None => undefined
                    | Some source_val =>
                        and_then
                          (ManagerImpl_Create t dst
                             (fst (move_construct t source_val)) σ)
                          (λ _ σ1,
                             let σ2 := set_manager dst (Some t) σ1 in
                             let σ3 :=
                               write_object t l
                                 (snd (move_construct t source_val)) σ2 in
                             match ManagerImpl_Destroy t src σ3 with
                             | Some σ4 =>
                                 returned arg (set_manager src None σ4)
                             | None => undefined
                             end)
                    end
                end
          | _ => undefined
          end
      end
  end.

(** Calling through [manager]: a null function pointer cannot be
    called. *)
Definition call_manager (a : Z) (op : Op) (src : Z) (arg : Arg)
    (σ : any_memory V) : outcome (any_memory V) Arg (any_exception E) :=
  match anys σ !! a with
  | Some obj =>
      match manager obj with
      | Some t => ManagerImpl_Manage t op src arg σ
      | None => undefined
      end
  | None => undefined
  end.

(** [has_value()]. *)
Definition any_has_value (this : Z) (σ : any_memory V) : option bool :=
  match anys σ !! this with
  | Some obj => Some (match manager obj with Some _ => true | None => false end)
  | None => None
  end.

(** [type()]. *)
Definition any_type (this : Z) (σ : any_memory V)
    : outcome (any_memory V) type_info (any_exception E) :=
  match any_has_value this σ with
  | None => undefined
  | Some false => returned typeid_void σ
  | Some true =>
      and_then (call_manager this GetTypeInfo this arg_unset σ)
        (λ arg σ1, match arg with
                   | arg_typeinfo ti => returned ti σ1
                   | _ => undefined
                   end)
  end.

(** [constexpr any() noexcept], and the default member initialisers
    every constructor starts from; [this] is the address of the new
    object. *)
Definition any_default (this : Z) (σ : any_memory V)
    : outcome (any_memory V) unit (any_exception E) :=
  match anys σ !! this with
  | Some _ => undefined
  | None => returned tt (set_any this (mk_any_object None (in_ptr nullptr)) σ)
  end.

(** [reset() noexcept]. *)
Definition any_reset (this : Z) (σ : any_memory V)
    : outcome (any_memory V) unit (any_exception E) :=
  match any_has_value this σ with
  | None => undefined
  | Some false => returned tt σ
  | Some true =>
      noexcept
        (and_then (call_manager this Destroy this arg_unset σ)
           (λ _ σ1, returned tt (set_manager this None σ1)))
  end.

(** [~any() { reset(); }]. *)
Definition any_destroy (this : Z) (σ : any_memory V)
    : outcome (any_memory V) unit (any_exception E) :=
  and_then (any_reset this σ) (λ _ σ1, returned tt (forget_any this σ1)).

(** [emplace<T>(args...)]: [reset()] comes first, so that the
    constructor of [T] reads its arguments after the old object has been
    destroyed; the reference it returns is the place of the new
    object. *)
Definition any_emplace_from (this : Z) (t : type_desc) (args : ctor_args R)
    (σ : any_memory V) : outcome (any_memory V) location (any_exception E) :=
  and_then (any_reset this σ)
    (λ _ σ1,
       and_then (ManagerImpl_Create_from t this args σ1)
         (λ _ σ2,
            let σ3 := set_manager this (Some t) σ2 in
            match anys σ3 !! this with
            | Some obj =>
                match ManagerImpl_Access t this (storage obj) with
                | Some l => returned l σ3
                | None => undefined
                end
            | None => undefined
            end)).

(** [emplace<T>(args...)] on arguments that refer to no object held by
    an [any]. *)
Definition any_emplace (this : Z) (t : type_desc) (args : R)
    (σ : any_memory V) : outcome (any_memory V) location (any_exception E) :=
  any_emplace_from this t (args_values args) σ.

(** [any(T &&value)] and [any(std::in_place_type_t<T>, args...)]; when
    the constructor throws, the object never existed. *)
Definition any_construct_value_from (this : Z) (t : type_desc)
    (args : ctor_args R) (σ : any_memory V)
    : outcome (any_memory V) unit (any_exception E) :=
  and_then (any_default this σ)
    (λ _ σ1,
       on_throw
         (and_then (any_emplace_from this t args σ1)
            (λ _ σ2, returned tt σ2))
         (forget_any this)).

(** The same on arguments that refer to no object held by an [any]. *)
Definition any_construct_value (this : Z) (t : type_desc) (args : R)
    (σ : any_memory V) : outcome (any_memory V) unit (any_exception E) :=
  any_construct_value_from this t (args_values args) σ.

(** [any(const any &other)]. *)
Definition any_copy_construct (this other : Z) (σ : any_memory V)
    : outcome (any_memory V) unit (any_exception E) :=
  match any_has_value other σ with
  | None => undefined
  | Some full =>
      and_then (any_default this σ)
        (λ _ σ1,
           if full then
             on_throw
               (and_then
                  (call_manager other Clone other (arg_any_ptr this) σ1)
                  (λ _ σ2, returned tt σ2))
               (forget_any this)
           else returned tt (set_manager this None σ1))
  end.

(** [any(any &&other) noexcept]. *)
Definition any_move_construct (this other : Z) (σ : any_memory V)
    : outcome (any_memory V) unit (any_exception E) :=
  match any_has_value other σ with
  | None => undefined
  | Some full =>
      and_then (any_default this σ)
        (λ _ σ1,
           if full then
             noexcept
               (and_then
                  (call_manager other Xfer other (arg_any_ptr this) σ1)
                  (λ _ σ2, returned tt σ2))
           else returned tt (set_manager this None σ1))
  end.

(** [swap(any &other) noexcept]; [tmp] is the address of the local
    [any tmp]. *)
Definition any_swap (this other tmp : Z) (σ : any_memory V)
    : outcome (any_memory V) unit (any_exception E) :=
  match any_has_value this σ, any_has_value other σ with
  | Some false, Some false => returned tt σ
  | Some true, Some true =>
      if decide (this = other) then returned tt σ
      else
        noexcept
          (and_then (any_default tmp σ) (λ _ σ1,
           and_then (call_manager this Xfer this (arg_any_ptr tmp) σ1)
             (λ _ σ2,
           and_then (call_manager other Xfer other (arg_any_ptr this) σ2)
             (λ _ σ3,
           and_then (call_manager tmp Xfer tmp (arg_any_ptr other) σ3)
             (λ _ σ4, any_destroy tmp σ4)))))
  | Some false, Some true =>
      noexcept
        (and_then (call_manager other Xfer other (arg_any_ptr this) σ)
           (λ _ σ1, returned tt σ1))
  | Some true, Some false =>
      noexcept
        (and_then (call_manager this Xfer this (arg_any_ptr other) σ)
           (λ _ σ1, returned tt σ1))
  | _, _ => undefined
  end.

(** [operator=(const any &rhs)], which swaps [any(rhs)] with the
    object: [tmp] is the
    address of the temporary, [tmp'] of the local of [swap]. *)
Definition any_copy_assign (this rhs tmp tmp' : Z) (σ : any_memory V)
    : outcome (any_memory V) unit (any_exception E) :=
  and_then (any_copy_construct tmp rhs σ) (λ _ σ1,
  and_then (any_swap tmp this tmp' σ1) (λ _ σ2, any_destroy tmp σ2)).

(** [operator=(any &&rhs) noexcept], which swaps [any(std::move(rhs))]
    with the object. *)
Definition any_move_assign (this rhs tmp tmp' : Z) (σ : any_memory V)
    : outcome (any_memory V) unit (any_exception E) :=
  noexcept
    (and_then (any_move_construct tmp rhs σ) (λ _ σ1,
     and_then (any_swap tmp this tmp' σ1) (λ _ σ2, any_destroy tmp σ2))).

(** [operator=(T &&rhs)], which swaps [any(std::forward<T>(rhs))] with
    the object: the temporary is built before the object is touched. *)
Definition any_assign_value_from (this : Z) (t : type_desc)
    (args : ctor_args R) (tmp tmp' : Z) (σ : any_memory V)
    : outcome (any_memory V) unit (any_exception E) :=
  and_then (any_construct_value_from tmp t args σ) (λ _ σ1,
  and_then (any_swap tmp this tmp' σ1) (λ _ σ2, any_destroy tmp σ2)).

(** The same on a value that refers to no object held by an [any]. *)
Definition any_assign_value (this : Z) (t : type_desc) (args : R)
    (tmp tmp' : Z) (σ : any_memory V)
    : outcome (any_memory V) unit (any_exception E) :=
  any_assign_value_from this t (args_values args) tmp tmp' σ.

(** [any_cast<T>(any *operand) noexcept] for the target [typeid(T)]:
    [None] is the null pointer. *)
Definition any_cast_ptr (T : type_info) (operand : Z) (σ : any_memory V)
    : outcome (any_memory V) (option location) (any_exception E) :=
  if decide (operand = nullptr) then returned None σ
  else
    noexcept
      (and_then (any_type operand σ)
         (λ ti σ1,
            if decide (ti = T) then
              and_then (call_manager operand Access operand arg_unset σ1)
                (λ arg σ2, match arg with
                           | arg_obj l => returned (Some l) σ2
                           | _ => undefined
                           end)
            else returned None σ1)).

(** [any_cast<T>(any &operand)] up to the final conversion: the place of
    the contained object, or [bad_any_cast]. *)
Definition any_cast_ref (T : type_info) (operand : Z) (σ : any_memory V)
    : outcome (any_memory V) location (any_exception E) :=
  and_then (any_cast_ptr T operand σ)
    (λ ptr σ1, match ptr with
               | Some l => returned l σ1
               | None => threw bad_any_cast σ1
               end).

(** [any_cast<T>(any &&operand)] for an object type [T]: the result is
    move-constructed from the contained object. *)
Definition any_cast_move (t : type_desc) (operand : Z) (σ : any_memory V)
    : outcome (any_memory V) V (any_exception E) :=
  and_then (any_cast_ptr (typeid_of (type_id t)) operand σ)
    (λ ptr σ1,
       match ptr with
       | None => threw bad_any_cast σ1
       | Some l =>
           match read_object t l σ1 with
           | None => undefined
           | Some v =>
               let σ2 := write_object t l (snd (move_construct t v)) σ1 in
               match fst (move_construct t v) with
               | inr v' => returned v' σ2
               | inl e => threw (thrown_by_T e) σ2
               end
           end
       end).
End any_ops.

(** The calls a program makes on [any] objects.  [this] of a constructor
    is the address of the new object; [tmp] and [tmp'] are the addresses
    of the temporary of an assignment and of the local of [swap]. *)
Inductive any_call (R : Type) : Type :=
  | call_default (this : Z)
  | call_construct_value (this : Z) (t : type_desc) (args : ctor_args R)
  | call_copy_construct (this other : Z)
  | call_move_construct (this other : Z)
  | call_destroy (this : Z)
  | call_copy_assign (this rhs tmp tmp' : Z)
  | call_move_assign (this rhs tmp tmp' : Z)
  | call_assign_value (this : Z) (t : type_desc) (args : ctor_args R)
      (tmp tmp' : Z)
  | call_emplace (this : Z) (t : type_desc) (args : ctor_args R)
  | call_reset (this : Z)
  | call_swap (this other tmp : Z).
Arguments call_default {R} this.
Arguments call_construct_value {R} this t args.
Arguments call_copy_construct {R} this other.
Arguments call_move_construct {R} this other.
Arguments call_destroy {R} this.
Arguments call_copy_assign {R} this rhs tmp tmp'.
Arguments call_move_assign {R} this rhs tmp tmp'.
Arguments call_assign_value {R} this t args tmp tmp'.
Arguments call_emplace {R} this t args.
Arguments call_reset {R} this.
Arguments call_swap {R} this other tmp.

Section any_programs.
Context {V R E : Type}.
Variable construct : type_desc → R → E + V.
Variable copy_construct : type_desc → V → E + V.
Variable move_construct : type_desc → V → (E + V) * V.
Variable operator_new : gmap Z (type_desc * V) → option pointer.

Definition run_call (c : any_call R) (σ : any_memory V)
    : outcome (any_memory V) unit (any_exception E) :=
  match c with
  | call_default this => any_default this σ
  | call_construct_value this t args =>
      any_construct_value_from construct copy_construct move_construct
        operator_new this t args σ
  | call_copy_construct this other =>
      any_copy_construct copy_construct move_construct operator_new
        this other σ
  | call_move_construct this other =>
      any_move_construct copy_construct move_construct operator_new
        this other σ
  | call_destroy this =>
      any_destroy copy_construct move_construct operator_new this σ
  | call_copy_assign this rhs tmp tmp' =>
      any_copy_assign copy_construct move_construct operator_new
        this rhs tmp tmp' σ
  | call_move_assign this rhs tmp tmp' =>
      any_move_assign copy_construct move_construct operator_new
        this rhs tmp tmp' σ
  | call_assign_value this t args tmp tmp' =>
      any_assign_value_from construct copy_construct move_construct
        operator_new this t args tmp tmp' σ
  | call_emplace this t args =>
      and_then
        (any_emplace_from construct copy_construct move_construct
           operator_new this t args σ)
        (λ _ σ', returned tt σ')
  | call_reset this =>
      any_reset copy_construct move_construct operator_new this σ
  | call_swap this other tmp =>
      any_swap copy_construct move_construct operator_new this other tmp σ
  end.

(** The place of the object the [any] at [a] contains, as [Access]
    finds it. *)
Definition any_place (a : Z) (σ : any_memory V) : option location :=
  match anys σ !! a with
  | Some obj =>
      match manager obj with
      | Some t => ManagerImpl_Access t a (storage obj)
      | None => None
      end
  | None => None
  end.

(** An lvalue argument compiles when [T] is copy constructible, and it
    refers to a [T] that is alive when the call is made. *)
Definition args_ready (t : type_desc) (args : ctor_args R)
    (σ : any_memory V) : Prop :=
  match args with
  | args_values _ => True
  | args_lvalue l =>
      is_copy_constructible t = true ∧ is_Some (read_object t l σ)
  end.

(** The objects a call names exist, the addresses of the objects it
    makes are free, and an lvalue argument refers to a live object; for
    [emplace], which destroys the contained object before it reads its
    arguments, an lvalue argument in addition does not refer to the
    object that [this] contains. *)
Definition call_ready (c : any_call R) (σ : any_memory V) : Prop :=
  match c with
  | call_default this => anys σ !! this = None
  | call_construct_value this t args =>
      anys σ !! this = None ∧ args_ready t args σ
  | call_copy_construct this other | call_move_construct this other =>
      anys σ !! this = None ∧ is_Some (anys σ !! other)
  | call_emplace this t args =>
      is_Some (anys σ !! this) ∧ args_ready t args σ ∧
      ∀ l, args = args_lvalue l → any_place this σ ≠ Some l
  | call_destroy this | call_reset this =>
      is_Some (anys σ !! this)
  | call_copy_assign this rhs tmp tmp'
  | call_move_assign this rhs tmp tmp' =>
      is_Some (anys σ !! this) ∧ is_Some (anys σ !! rhs) ∧
      anys σ !! tmp = None ∧ anys σ !! tmp' = None ∧ tmp ≠ tmp'
  | call_assign_value this t args tmp tmp' =>
      is_Some (anys σ !! this) ∧
      anys σ !! tmp = None ∧ anys σ !! tmp' = None ∧ tmp ≠ tmp' ∧
      args_ready t args σ
  | call_swap this other tmp =>
      is_Some (anys σ !! this) ∧ is_Some (anys σ !! other) ∧
      anys σ !! tmp = None
  end.

(** One call of a program that goes on: it returned, or it threw and the
    exception was caught. *)
Inductive any_step : any_memory V → any_memory V → Prop :=
  | any_step_returned c σ σ' :
      call_ready c σ → run_call c σ = returned tt σ' → any_step σ σ'
  | any_step_threw c x σ σ' :
      call_ready c σ → run_call c σ = threw x σ' → any_step σ σ'.
End any_programs.

Definition any_initial {V : Type} : any_memory V := mk_any_memory ∅ ∅ [].

(** The [any] at [a] contains the object [v] of type [t]: its manager is
    the one of [t], and [v] is where [Access] looks for it. *)
Definition any_contains {V : Type} (σ : any_memory V) (a : Z)
    (t : type_desc) (v : V) : Prop :=
  ∃ obj, anys σ !! a = Some obj ∧ manager obj = Some t ∧
         if IsSmall t then storage obj = in_buffer (Some (t, v))
         else ∃ p, storage obj = in_ptr p ∧ p ≠ nullptr ∧
                   free_store σ !! p = Some (t, v).

(** The [any] at [a] is empty, and no object is left in its buffer. *)
Definition any_empty {V : Type} (σ : any_memory V) (a : Z) : Prop :=
  ∃ obj, anys σ !! a = Some obj ∧ manager obj = None ∧
         ∀ o, storage obj ≠ in_buffer (Some o).

(** The object on the free store that the [any] at [a] answers for. *)
Definition owned_cell {V : Type} (σ : any_memory V) (a : Z) : option pointer :=
  match anys σ !! a with
  | Some obj =>
      match manager obj with
      | Some t => if IsSmall t then None
                  else match storage obj with
                       | in_ptr p => Some p
                       | in_buffer _ => None
                       end
      | None => None
      end
  | None => None
  end.

(** Every [any] is empty or contains an object; no two share an object
    of the free store, and every object there belongs to one. *)
Record any_wf {V : Type} (σ : any_memory V) : Prop := mk_any_wf {
  wf_objects : ∀ a obj, anys σ !! a = Some obj →
                        any_empty σ a ∨ ∃ t v, any_contains σ a t v;
  wf_unshared : ∀ a1 a2 p, owned_cell σ a1 = Some p →
                           owned_cell σ a2 = Some p → a1 = a2;
  wf_no_leak : ∀ p o, free_store σ !! p = Some o →
                      ∃ a, owned_cell σ a = Some p
}.

(** [σ'] differs from [σ] only in the [any] at [a] and in the objects of
    the free store it answers for: one it drops is deleted, one it takes
    on is new. *)
Definition any_changes_only {V : Type} (a : Z) (σ σ' : any_memory V) : Prop :=
  (∀ a', a' ≠ a → anys σ' !! a' = anys σ !! a') ∧
  (∀ p, owned_cell σ a ≠ Some p → owned_cell σ' a ≠ Some p →
        free_store σ' !! p = free_store σ !! p) ∧
  (∀ p, owned_cell σ a = Some p → owned_cell σ' a ≠ Some p →
        free_store σ' !! p = None) ∧
  (∀ p, owned_cell σ' a = Some p →
        owned_cell σ a = Some p ∨ free_store σ !! p = None).

(** The [any] objects outside [touched] are as they were: what they
    contain, that they are empty, that they do not exist. *)
Definition any_others_kept {V : Type} (touched : list Z)
    (σ σ' : any_memory V) : Prop :=
  ∀ a, a ∉ touched →
       (∀ t v, any_contains σ a t v → any_contains σ' a t v) ∧
       (any_empty σ a → any_empty σ' a) ∧
       (anys σ !! a = None → anys σ' !! a = None).

(** Sample contained types: an [int], a record of 64 bytes, and a
    [std::unique_ptr].  Their values are integers; constructors throw on
    negative arguments, copies are exact, a move leaves 0 behind, and
    [operator new] hands out an address that is not in use. *)
Definition sample_int : type_desc := mk_type_desc 1 4 4 true true.
Definition sample_record : type_desc := mk_type_desc 2 64 8 true true.
Definition sample_unique_ptr : type_desc := mk_type_desc 3 8 8 true false.

Definition sample_construct (t : type_desc) (args : Z) : nat + Z :=
  if decide (args < 0) then inl 1%nat else inr args.
Definition sample_copy (t : type_desc) (v : Z) : nat + Z := inr v.
Definition sample_move (t : type_desc) (v : Z) : (nat + Z) * Z := (inr v, 0).
Definition sample_new (store : gmap Z (type_desc * Z)) : option Z :=
  Some (fresh (({[nullptr]} : gset Z) ∪ dom store)).

(** An [int] 42 at address 10, a record 7 at address 20, an empty [any]
    at address 30 and a [unique_ptr] 5 at address 40. *)
Ltac sample_any_run :=
  eapply rtc_l;
    [ eapply (any_step_returned sample_construct sample_copy sample_move
                sample_new
                (call_construct_value 10 sample_int (args_values 42)));
      [ split; [vm_compute; reflexivity | exact I]
      | vm_compute; reflexivity ] |];
  eapply rtc_l;
    [ eapply (any_step_returned sample_construct sample_copy sample_move
                sample_new
                (call_construct_value 20 sample_record (args_values 7)));
      [ split; [vm_compute; reflexivity | exact I]
      | vm_compute; reflexivity ] |];
  eapply rtc_l;
    [ eapply (any_step_returned sample_construct sample_copy sample_move
                sample_new (call_default 30));
      [ vm_compute; reflexivity | vm_compute; reflexivity ] |];
  eapply rtc_l;
    [ eapply (any_step_returned sample_construct sample_copy sample_move
                sample_new
                (call_construct_value 40 sample_unique_ptr (args_values 5)));
      [ split; [vm_compute; reflexivity | exact I]
      | vm_compute; reflexivity ] |];
  apply rtc_refl.

(* ===================================================================== *)
(** * Part II — properties                                                *)
(* ===================================================================== *)

(** ** Machine integers *)

Lemma to_size_t_small (z : Z) : is_size_t z → to_size_t z = z.
Proof. intros Hz. unfold to_size_t. apply Z.mod_small. exact Hz. Qed.

Lemma size_modulus_eq : size_modulus = 18446744073709551616.
Proof. reflexivity. Qed.

Lemma max_live_handles_eq : max_live_handles = 2305843009213693952.
Proof. reflexivity. Qed.

(** Going through [long] and back gives the value again. *)
Lemma to_size_t_to_long (z : Z) : is_size_t z → to_size_t (to_long z) = z.
Proof.
  unfold is_size_t, to_size_t, to_long. rewrite size_modulus_eq.
  intros Hz.
  destruct (Z_lt_ge_dec z (2 ^ 63)) as [Hlt | Hge].
  - rewrite (Z.mod_small (z + 2 ^ 63)) by lia.
    rewrite Z.mod_small; lia.
  - replace (z + 2 ^ 63) with (z - 2 ^ 63 + 1 * 18446744073709551616) by lia.
    rewrite Z.mod_add by lia.
    rewrite (Z.mod_small (z - 2 ^ 63)) by lia.
    replace (z - 2 ^ 63 - 2 ^ 63) with (z + (-1) * 18446744073709551616)
      by lia.
    rewrite Z.mod_add by lia. apply Z.mod_small. lia.
Qed.

(** ** unique_buffer *)

Section unique_buffer_facts.
Context {D W : Type}.
Variable invoke : D → pointer → W → W.

Lemma unique_buffer_reset_empty (u : unique_buffer D) (w : W) :
  data_ (ub_base u) = nullptr →
  unique_buffer_reset invoke u w = (mk_unique_buffer (ub_base u) None, w).
Proof. intros Hnull. unfold unique_buffer_reset. by rewrite decide_True. Qed.

Lemma unique_buffer_reset_owning (u : unique_buffer D) (w : W) :
  data_ (ub_base u) ≠ nullptr →
  unique_buffer_reset invoke u w =
    (mk_unique_buffer (mk_buffer_base nullptr 0 Host) None,
     match deleter_ u with
     | Some d => invoke d (data_ (ub_base u)) w
     | None => w
     end).
Proof. intros Hown. unfold unique_buffer_reset. by rewrite decide_False. Qed.

(** Destroying a handle whose pointer is null leaves the world alone. *)
Lemma unique_buffer_destroy_empty (u : unique_buffer D) (w : W) :
  data_ (ub_base u) = nullptr → unique_buffer_destroy invoke u w = w.
Proof.
  intros Hnull. unfold unique_buffer_destroy.
  by rewrite unique_buffer_reset_empty.
Qed.

Lemma unique_buffer_default_empty :
  data_ (ub_base (@unique_buffer_default D)) = nullptr.
Proof. reflexivity. Qed.

(** C5. Move construction and move assignment hand (ptr, count, location,
    deleter) over to the destination and leave the source in the empty
    state, which converts to false, equals nullptr and is destroyed without
    any deleter call; assigning an object to itself changes nothing; and
    assigning into a handle that owns a buffer calls the deleter of that
    old buffer on the old pointer, the destination ending up with the
    state of the source. *)
Theorem unique_buffer_move_semantics
    (this other : Z) (objs : gmap Z (unique_buffer D)) (w : W)
    (t o : unique_buffer D) :
  objs !! this = Some t → objs !! other = Some o → this ≠ other →
  (* move construction from [o] *)
  (let '(fresh, src) := unique_buffer_move_construct o in
   fresh = o ∧ src = unique_buffer_default ∧
   unique_buffer_bool src = false ∧ unique_buffer_eq_nullptr src = true ∧
   ∀ w0, unique_buffer_destroy invoke src w0 = w0) ∧
  (* move assignment [this = std::move(other)] *)
  (∃ objs' w',
     unique_buffer_move_assign invoke this other objs w = Some (objs', w') ∧
     objs' !! this = Some o ∧
     objs' !! other = Some unique_buffer_default ∧
     (∀ a, a ≠ this → a ≠ other → objs' !! a = objs !! a) ∧
     w' = (if decide (data_ (ub_base t) = nullptr) then w
           else match deleter_ t with
                | Some d => invoke d (data_ (ub_base t)) w
                | None => w
                end) ∧
     (∀ src, objs' !! other = Some src →
        unique_buffer_bool src = false ∧
        unique_buffer_eq_nullptr src = true ∧
        unique_buffer_get src = nullptr ∧
        ∀ w0, unique_buffer_destroy invoke src w0 = w0)) ∧
  (* self-assignment *)
  unique_buffer_move_assign invoke this this objs w = Some (objs, w) ∧
  unique_buffer_move_assign invoke other other objs w = Some (objs, w).
Proof.
  intros Ht Ho Hne. repeat split.
  - simpl. by destruct o as [[p n l] d].
  - unfold unique_buffer_move_assign. rewrite Ht, Ho.
    rewrite decide_False by done.
    destruct (unique_buffer_reset invoke t w) as [t1 w1] eqn:Hreset.
    simpl. eexists _, _. split; [reflexivity |].
    split; [| split; [| split; [| split]]].
    + rewrite lookup_insert_eq. by destruct o as [[p n l] d].
    + rewrite lookup_insert_ne by done. by rewrite lookup_insert_eq.
    + intros a Hat Hao. by rewrite !lookup_insert_ne.
    + unfold unique_buffer_reset in Hreset.
      destruct (decide (data_ (ub_base t) = nullptr));
        by inversion Hreset.
    + intros src. rewrite lookup_insert_ne by done.
      rewrite lookup_insert_eq. intros [= <-]. done.
  - unfold unique_buffer_move_assign. rewrite Ht. by rewrite decide_True.
  - unfold unique_buffer_move_assign. rewrite Ho. by rewrite decide_True.
Qed.
End unique_buffer_facts.

Lemma unique_buffer_move_semantics_witness :
  let t : unique_buffer nat := unique_buffer_adopt 4096 5 (Some 7%nat) Host in
  let o : unique_buffer nat := unique_buffer_adopt 8192 3 (Some 9%nat) Device in
  let objs : gmap Z (unique_buffer nat) := <[1 := t]> (<[2 := o]> ∅) in
  objs !! 1 = Some t ∧ objs !! 2 = Some o ∧ 1 ≠ 2 ∧
  ∃ objs',
    unique_buffer_move_assign record_call 1 2 objs []
      = Some (objs', [(7%nat, 4096)]) ∧
    objs' !! 1 = Some o ∧ objs' !! 2 = Some unique_buffer_default.
Proof.
  intros t o objs.
  assert (H1 : objs !! 1 = Some t) by reflexivity.
  assert (H2 : objs !! 2 = Some o) by reflexivity.
  assert (H3 : (1 : Z) ≠ 2) by lia.
  split; [exact H1 |]. split; [exact H2 |]. split; [exact H3 |].
  destruct (unique_buffer_move_semantics record_call 1 2 objs [] t o
              H1 H2 H3) as (_ & (objs' & w' & Hrun & Hthis & Hother & _ & Hw & _) & _).
  exists objs'. subst w'. simpl in Hrun. auto.
Defined.

(** ** The round trip through a transfer record *)



(** Without a deleter the round trip calls nothing at all. *)
Lemma unique_buffer_release_roundtrip_no_deleter {D : Type}
    (u : unique_buffer D) (log : call_log D) :
  deleter_ u = None →
  unique_buffer_destroy record_call
    (unique_buffer_from_released (fst (unique_buffer_release u)))
    (unique_buffer_destroy record_call (snd (unique_buffer_release u)) log)
    = log.
Proof.
  intros Hdel. destruct u as [[p n l] del]. simpl in *. subst del.
  unfold unique_buffer_from_released, unique_buffer_destroy,
    unique_buffer_reset. simpl.
  destruct (decide (p = nullptr)); reflexivity.
Qed.

(** ** MemPool *)

Lemma fold_left_push_back {A B : Type} (f : A → B) (l : list A)
    (acc : list B) :
  fold_left (λ fl i, fl ++ [f i]) l acc = acc ++ map f l.
Proof.
  revert acc. induction l as [| a l IH]; intros acc; simpl.
  - by rewrite app_nil_r.
  - rewrite IH. by rewrite <- app_assoc.
Qed.

(** The free list holds the block starts in ascending block-index order. *)
Lemma build_free_list_map (sizeof_T data stride block_count : Z) :
  build_free_list sizeof_T data stride block_count
  = map (block_start sizeof_T data stride) (seqZ 0 block_count).
Proof. unfold build_free_list. by rewrite fold_left_push_back. Qed.

Lemma MemPool_allocate_empty (pool : MemPool) :
  free_blocks_ pool = [] →
  MemPool_allocate pool = (inl std_runtime_error, pool).
Proof. intros Hfree. unfold MemPool_allocate. by rewrite Hfree. Qed.

(** [allocate] pops the back of the free list. *)
Lemma MemPool_allocate_back (pool : MemPool) (fl : list pointer)
    (A : pointer) :
  free_blocks_ pool = fl ++ [A] →
  MemPool_allocate pool =
    (inr (unique_buffer_adopt A (block_size_ pool) (Some return_to_pool)
                              (pool_location_ pool)),
     mk_MemPool (block_size_ pool) (stride_ pool) (block_count_ pool)
                (pool_location_ pool) (pool_data_ pool) fl).
Proof.
  intros Hfree. unfold MemPool_allocate. rewrite Hfree.
  rewrite last_snoc. by rewrite removelast_last.
Qed.

(** Last in, first out: a block that was just returned is the next one
    handed out, and the pool is then as it was before the return. *)
Lemma MemPool_release_then_allocate (A : pointer) (q : MemPool) :
  MemPool_allocate (MemPool_release_block A q) =
    (inr (unique_buffer_adopt A (block_size_ q) (Some return_to_pool)
                              (pool_location_ q)), q).
Proof.
  rewrite (MemPool_allocate_back _ (free_blocks_ q) A) by reflexivity.
  by destruct q.
Qed.

(** Resetting (or destroying) a leased handle returns its block. *)
Lemma unique_buffer_reset_leased (h : unique_buffer pool_deleter)
    (q : MemPool) :
  data_ (ub_base h) ≠ nullptr → deleter_ h = Some return_to_pool →
  unique_buffer_reset pool_invoke h q =
    (unique_buffer_default, MemPool_release_block (data_ (ub_base h)) q).
Proof.
  intros Hown Hdel. rewrite unique_buffer_reset_owning by done.
  by rewrite Hdel.
Qed.

(** Right after construction the observers report the arguments, and
    every block is free. *)
Lemma MemPool_new_geometry (sizeof_T Alignment : Z)
    (aligned_alloc : Z → Z → pointer) (tdc : bool)
    (construct_block : pointer → Z → bool)
    (vector_max_size : Z) (vector_allocate : Z → bool)
    (block_size block_count : Z) (loc : MemoryLocation) (pool : MemPool) :
  MemPool_new sizeof_T Alignment aligned_alloc tdc construct_block
              vector_max_size vector_allocate
              block_size block_count loc = inr pool →
  MemPool_block_size pool = block_size ∧
  MemPool_capacity pool = block_count ∧
  stride_ pool = pool_stride sizeof_T Alignment block_size ∧
  pool_data_ pool ≠ nullptr ∧
  free_blocks_ pool
    = map (block_start sizeof_T (pool_data_ pool) (stride_ pool))
          (seqZ 0 block_count) ∧
  length (free_blocks_ pool) = Z.to_nat block_count.
Proof.
  unfold MemPool_new. intros Hnew.
  destruct (decide (block_size = 0 ∨ block_count = 0)); [done |].
  destruct (decide (aligned_alloc Alignment _ = nullptr)); [done |].
  destruct (negb tdc && negb _); [done |].
  destruct (vector_reserve _ _ _); [done |].
  inversion Hnew; subst; clear Hnew. simpl.
  rewrite build_free_list_map, length_map, length_seqZ. done.
Qed.

(** Leasing as many blocks as are free succeeds, hands the blocks out from
    the back of the free list, and leaves the pool exhausted. *)
Lemma MemPool_allocate_n_all (pool : MemPool) :
  ∃ hs q,
    MemPool_allocate_n (length (free_blocks_ pool)) pool = Some (hs, q) ∧
    free_blocks_ q = [] ∧
    map (λ h, data_ (ub_base h)) hs = rev (free_blocks_ pool) ∧
    Forall (λ h, deleter_ h = Some return_to_pool) hs ∧
    MemPool_allocate q = (inl std_runtime_error, q).
Proof.
  destruct pool as [bs st bc loc dt fl]. simpl.
  induction fl as [| A fl IH] using rev_ind.
  - simpl. eexists _, _. repeat split; done.
  - destruct IH as (hs & q & Hrun & Hq & Hdata & Hdel & Hfull).
    rewrite length_app. simpl. rewrite Nat.add_1_r. simpl.
    rewrite (MemPool_allocate_back _ fl A) by reflexivity. simpl.
    rewrite Hrun. eexists _, _. split; [reflexivity |].
    split; [exact Hq |]. split; [| split; [| exact Hfull]].
    + simpl. rewrite Hdata. by rewrite rev_app_distr.
    + constructor; done.
Qed.

(** C6. When every block of the pool is leased, [allocate] throws
    [std::runtime_error] and leaves the pool as it was; once one leased
    handle has been reset (its deleter has run) the next [allocate]
    succeeds; and in any pool, a block that has just been freed — through
    [release_block] or through the deleter of its handle — is the block
    the next [allocate] returns.  A pool built with [block_count] N hands
    out N blocks in a row, and then it is in that exhausted state. *)
Theorem MemPool_exhaustion_and_lifo
    (pool : MemPool) (h : unique_buffer pool_deleter) :
  free_blocks_ pool = [] →
  data_ (ub_base h) ≠ nullptr → deleter_ h = Some return_to_pool →
  MemPool_allocate pool = (inl std_runtime_error, pool) ∧
  (∃ b, MemPool_allocate (snd (unique_buffer_reset pool_invoke h pool))
          = (inr b, pool) ∧
        data_ (ub_base b) = data_ (ub_base h) ∧
        count_ (ub_base b) = block_size_ pool) ∧
  MemPool_available (snd (unique_buffer_reset pool_invoke h pool)) = 1 ∧
  (∀ (q : MemPool) (A : pointer),
     ∃ b, MemPool_allocate (MemPool_release_block A q) = (inr b, q) ∧
          data_ (ub_base b) = A) ∧
  (∀ q : MemPool,
     ∃ b, MemPool_allocate (unique_buffer_destroy pool_invoke h q)
            = (inr b, q) ∧
          data_ (ub_base b) = data_ (ub_base h)) ∧
  (∀ sizeof_T Alignment aligned_alloc tdc construct_block vector_max_size
     vector_allocate block_size N loc pool0,
     MemPool_new sizeof_T Alignment aligned_alloc tdc construct_block
                 vector_max_size vector_allocate
                 block_size N loc = inr pool0 →
     MemPool_capacity pool0 = N ∧
     MemPool_available pool0 = Z.of_nat (Z.to_nat N) ∧
     ∃ hs q,
       MemPool_allocate_n (Z.to_nat N) pool0 = Some (hs, q) ∧
       length hs = Z.to_nat N ∧
       free_blocks_ q = [] ∧
       MemPool_allocate q = (inl std_runtime_error, q)).
Proof.
  intros Hfree Hown Hdel.
  split; [by apply MemPool_allocate_empty |].
  rewrite unique_buffer_reset_leased by done. simpl.
  split; [| split; [| split; [| split]]].
  - eexists. split; [apply MemPool_release_then_allocate | done].
  - unfold MemPool_available. simpl. by rewrite Hfree.
  - intros q A. eexists.
    split; [apply MemPool_release_then_allocate | done].
  - intros q. unfold unique_buffer_destroy.
    rewrite unique_buffer_reset_leased by done. simpl.
    eexists. split; [apply MemPool_release_then_allocate | done].
  - intros sizeof_T Alignment aligned_alloc tdc construct_block
      vector_max_size vector_allocate block_size N loc pool0 Hnew.
    destruct (MemPool_new_geometry _ _ _ _ _ _ _ _ _ _ _ Hnew)
      as (_ & Hcap & _ & _ & _ & Hlen).
    destruct (MemPool_allocate_n_all pool0)
      as (hs & q & Hrun & Hq & Hdata & _ & Hfull).
    split; [exact Hcap |].
    split; [unfold MemPool_available; by rewrite Hlen |].
    exists hs, q. rewrite <- Hlen. split; [exact Hrun |].
    split; [| split; [exact Hq | exact Hfull]].
    rewrite <- (length_map (λ h0 : unique_buffer pool_deleter,
                              data_ (ub_base h0)) hs).
    rewrite Hdata. apply length_rev.
Qed.

Lemma MemPool_exhaustion_and_lifo_witness :
  ∃ pool0 h1 h2 pool,
    MemPool_new 4 64 (λ _ _, 4096) true (λ _ _, true)
      (2 ^ 60 - 1) (λ _, true) 16 2 Host = inr pool0 ∧
    MemPool_allocate_n 2 pool0 = Some ([h1; h2], pool) ∧
    free_blocks_ pool = [] ∧
    data_ (ub_base h1) ≠ nullptr ∧ deleter_ h1 = Some return_to_pool ∧
    MemPool_allocate pool = (inl std_runtime_error, pool) ∧
    ∃ b, MemPool_allocate (snd (unique_buffer_reset pool_invoke h1 pool))
           = (inr b, pool) ∧
         data_ (ub_base b) = 4160.
Proof.
  set (pool := mk_MemPool 16 16 2 Host 4096 []).
  set (h1 := unique_buffer_adopt 4160 16 (Some return_to_pool) Host).
  assert (H1 : free_blocks_ pool = []) by reflexivity.
  assert (H2 : data_ (ub_base h1) ≠ nullptr)
    by (simpl; unfold nullptr; lia).
  assert (H3 : deleter_ h1 = Some return_to_pool) by reflexivity.
  eexists _, h1, _, pool.
  split; [vm_compute; reflexivity |].
  split; [vm_compute; reflexivity |].
  split; [exact H1 |]. split; [exact H2 |]. split; [exact H3 |].
  destruct (MemPool_exhaustion_and_lifo pool h1 H1 H2 H3)
    as (Hfull & (b & Hnext & Hdata & _) & _).
  split; [exact Hfull |]. exists b. split; [exact Hnext | exact Hdata].
Defined.

(** *** The stride *)

(** When [sizeof(T)] divides the alignment and the rounding does not
    overflow [std::size_t], the padded block is the least multiple of the
    alignment that holds [block_size] elements. *)
Lemma pool_stride_aligned (sizeof_T Alignment block_size : Z) :
  0 < sizeof_T → 0 < Alignment → (sizeof_T | Alignment) →
  0 < block_size →
  block_size * sizeof_T + Alignment - 1 < size_modulus →
  let padded := pool_stride sizeof_T Alignment block_size * sizeof_T in
  padded mod Alignment = 0 ∧
  block_size * sizeof_T ≤ padded ∧
  ∀ m, m mod Alignment = 0 → block_size * sizeof_T ≤ m → padded ≤ m.
Proof.
  intros Hs HA [k Hk] Hb Hfit padded.
  assert (Hbyte : pool_byte_size sizeof_T block_size = block_size * sizeof_T).
  { unfold pool_byte_size. apply to_size_t_small. unfold is_size_t. nia. }
  set (x := block_size * sizeof_T + Alignment - 1).
  assert (Hx : 0 ≤ x < size_modulus) by (unfold x; nia).
  pose proof (Z.mul_div_le x Alignment HA) as Hle.
  pose proof (Z.mul_succ_div_gt x Alignment HA) as Hgt.
  assert (Hq : 0 ≤ x / Alignment) by (apply Z.div_pos; lia).
  assert (Hal : pool_aligned_byte_size sizeof_T Alignment block_size
                = x / Alignment * Alignment).
  { unfold pool_aligned_byte_size. rewrite Hbyte. fold x.
    rewrite (to_size_t_small x) by exact Hx.
    apply to_size_t_small. unfold is_size_t. nia. }
  assert (Hpad : padded = x / Alignment * Alignment).
  { unfold padded, pool_stride. rewrite Hal.
    replace (x / Alignment * Alignment)
      with (x / Alignment * k * sizeof_T) by (rewrite Hk; ring).
    rewrite Z.div_mul by lia. reflexivity. }
  rewrite Hpad. split; [apply Z.mod_mul; lia |].
  split; [unfold x in *; nia |].
  intros m Hm Hbm.
  apply Z.mod_divide in Hm; [| lia]. destruct Hm as [j ->].
  assert (x / Alignment < j + 1) by (unfold x in *; nia). nia.
Qed.

(** With such a stride and an aligned base, every block start is aligned. *)
Lemma block_start_aligned (sizeof_T Alignment block_size data i : Z) :
  0 < sizeof_T → 0 < Alignment → (sizeof_T | Alignment) →
  0 < block_size →
  block_size * sizeof_T + Alignment - 1 < size_modulus →
  data mod Alignment = 0 →
  is_size_t (i * pool_stride sizeof_T Alignment block_size) →
  block_start sizeof_T data
    (pool_stride sizeof_T Alignment block_size) i mod Alignment = 0.
Proof.
  intros Hs HA Hdiv Hb Hfit Hdata Hi.
  destruct (pool_stride_aligned sizeof_T Alignment block_size
              Hs HA Hdiv Hb Hfit) as (Hpad & _).
  unfold block_start, ptr_add. rewrite (to_size_t_small _ Hi).
  apply Z.mod_divide; [lia |].
  apply Z.mod_divide in Hdata; [| lia].
  apply Z.mod_divide in Hpad; [| lia].
  apply Z.divide_add_r; [exact Hdata |].
  rewrite <- Z.mul_assoc. by apply Z.divide_mul_r.
Qed.

(** C2. For elements of three bytes and the default alignment of 64, the
    constructor computes a stride of 21 elements for blocks of one
    element: the padded block is 63 bytes, which is no multiple of 64, and
    with the base at address 4096 the second block starts at 4159; this is
    the address the first [allocate] returns, and it is not aligned. *)
Theorem pool_stride_three_byte_elements :
  pool_stride 3 64 1 = 21 ∧
  pool_stride 3 64 1 * 3 = 63 ∧
  (pool_stride 3 64 1 * 3) mod 64 ≠ 0 ∧
  ∃ pool h pool1,
    MemPool_new 3 64 (λ _ _, 4096) true (λ _ _, true)
      (2 ^ 60 - 1) (λ _, true) 1 2 Host = inr pool ∧
    pool_data_ pool mod 64 = 0 ∧
    free_blocks_ pool = [4096; 4159] ∧
    MemPool_allocate pool = (inr h, pool1) ∧
    data_ (ub_base h) = 4159 ∧
    data_ (ub_base h) mod 64 = 63.
Proof.
  split; [reflexivity |]. split; [reflexivity |]. split; [done |].
  eexists _, _, _. split; [vm_compute; reflexivity |].
  split; [reflexivity |]. split; [reflexivity |].
  split; [vm_compute; reflexivity |]. split; reflexivity.
Qed.

(** *** One-byte elements, alignment 128, three blocks of 100 *)

(** C3 (as first stated).  The first two addresses handed out by that
    pool, with its base at 4096, are 4352 and 4224: the second is below the first, so they are
    not [D] and [D + 128] for any [D]. *)
Lemma pool_scenario_descending_addresses :
  ∃ pool h1 pool1 h2 pool2,
    MemPool_new 1 128 (λ _ _, 4096) true (λ _ _, true)
      (2 ^ 60 - 1) (λ _, true) 100 3 Host
      = inr pool ∧
    MemPool_allocate pool = (inr h1, pool1) ∧
    MemPool_allocate pool1 = (inr h2, pool2) ∧
    data_ (ub_base h1) = 4352 ∧ data_ (ub_base h2) = 4224 ∧
    ¬ ∃ base : Z, data_ (ub_base h1) = base ∧
                  data_ (ub_base h2) = base + 128.
Proof.
  eexists _, _, _, _, _.
  split; [vm_compute; reflexivity |].
  split; [vm_compute; reflexivity |].
  split; [vm_compute; reflexivity |].
  split; [reflexivity |]. split; [reflexivity |].
  simpl. intros (base & <- & Hsecond). lia.
Qed.

(** C3 (amended). For one-byte elements, alignment 128, blocks of 100
    elements and 3 blocks, with the region at the aligned address [base]:
    the stride is 128, three [allocate] calls in a row return
    [base + 256], [base + 128] and [base] in that order, a fourth one
    throws [std::runtime_error], and after the handle obtained first has
    been reset the next [allocate] returns its address [base + 256]. *)
Theorem pool_scenario_128
    (aligned_alloc : Z → Z → pointer) (tdc : bool)
    (construct_block : pointer → Z → bool)
    (vector_max_size : Z) (vector_allocate : Z → bool)
    (loc : MemoryLocation) (pool : MemPool) :
  let base := aligned_alloc 128 384 in
  0 ≤ base → base mod 128 = 0 →
  MemPool_new 1 128 aligned_alloc tdc construct_block
              vector_max_size vector_allocate 100 3 loc
    = inr pool →
  stride_ pool = 128 ∧
  ∃ h1 pool1 h2 pool2 h3 pool3,
    MemPool_allocate pool = (inr h1, pool1) ∧
    MemPool_allocate pool1 = (inr h2, pool2) ∧
    MemPool_allocate pool2 = (inr h3, pool3) ∧
    data_ (ub_base h1) = base + 256 ∧
    data_ (ub_base h2) = base + 128 ∧
    data_ (ub_base h3) = base ∧
    count_ (ub_base h1) = 100 ∧
    MemPool_allocate pool3 = (inl std_runtime_error, pool3) ∧
    ∃ h4 pool4,
      MemPool_allocate (snd (unique_buffer_reset pool_invoke h1 pool3))
        = (inr h4, pool4) ∧
      data_ (ub_base h4) = base + 256.
Proof.
  intros base Hpos Haligned Hnew.
  destruct (MemPool_new_geometry _ _ _ _ _ _ _ _ _ _ _ Hnew)
    as (Hbs & Hcap & Hstride & Hdata & Hfree & _).
  assert (Hdt : pool_data_ pool = base).
  { unfold MemPool_new in Hnew. simpl in Hnew.
    change (pool_total_bytes 1 128 100 3) with 384 in Hnew.
    fold base in Hnew.
    destruct (decide (base = nullptr)); [done |].
    destruct (negb tdc && negb _); [done |].
    destruct (vector_reserve _ _ _); [done |]. by inversion Hnew. }
  change (pool_stride 1 128 100) with 128 in Hstride.
  rewrite Hstride, Hdt in Hfree. unfold MemPool_block_size in Hbs.
  change (seqZ 0 3) with [0; 1; 2] in Hfree.
  unfold block_start, ptr_add in Hfree. simpl in Hfree.
  change (to_size_t 0) with 0 in Hfree.
  change (to_size_t (1 * 128)) with 128 in Hfree.
  change (to_size_t (2 * 128)) with 256 in Hfree.
  rewrite ?Z.mul_1_r, ?Z.add_0_r in Hfree.
  split; [exact Hstride |].
  destruct pool as [bs st bc l dt fl]. simpl in *. subst.
  eexists _, _, _, _, _, _.
  split; [apply (MemPool_allocate_back _ [base; base + 128]); reflexivity |].
  split; [apply (MemPool_allocate_back _ [base]); reflexivity |].
  split; [apply (MemPool_allocate_back _ []); reflexivity |].
  split; [reflexivity |]. split; [reflexivity |]. split; [reflexivity |].
  split; [reflexivity |].
  split; [by apply MemPool_allocate_empty |].
  rewrite unique_buffer_reset_leased; [| simpl; unfold nullptr; lia | done].
  simpl. eexists _, _.
  split; [apply MemPool_release_then_allocate | reflexivity].
Qed.

Lemma pool_scenario_128_witness :
  ∃ pool,
    0 ≤ 4096 ∧ 4096 mod 128 = 0 ∧
    MemPool_new 1 128 (λ _ _, 4096) true (λ _ _, true)
      (2 ^ 60 - 1) (λ _, true) 100 3 Host
      = inr pool ∧
    ∃ h1 pool1, MemPool_allocate pool = (inr h1, pool1) ∧
                data_ (ub_base h1) = 4352.
Proof.
  eexists.
  assert (H1 : 0 ≤ (λ _ _ : Z, 4096) 128 384) by (simpl; lia).
  assert (H2 : (λ _ _ : Z, 4096) 128 384 mod 128 = 0) by reflexivity.
  split; [exact H1 |]. split; [exact H2 |].
  split; [vm_compute; reflexivity |].
  destruct (pool_scenario_128 (λ _ _, 4096) true (λ _ _, true)
              (2 ^ 60 - 1) (λ _, true) Host _ H1 H2 eq_refl)
    as (_ & h1 & pool1 & _ & _ & _ & _ & Hrun & _ & _ & Hdata & _).
  exists h1, pool1. split; [exact Hrun | exact Hdata].
Defined.

(** ** shared_buffer *)

(** *** Counting the owners of a control block *)

Lemma owners_insert_fresh (c h v : Z) (hs : gmap Z Z) :
  hs !! h = None →
  owners c (<[h := v]> hs)
  = (owners c hs + (if decide (v = c) then 1 else 0))%nat.
Proof.
  intros Hfresh. unfold owners. rewrite map_filter_insert. simpl.
  destruct (decide (v = c)) as [Heq | Hne].
  - rewrite map_size_insert_None; [lia |].
    apply map_lookup_filter_None_2. by left.
  - rewrite delete_id by done. lia.
Qed.

Lemma owners_delete_live (c h v : Z) (hs : gmap Z Z) :
  hs !! h = Some v →
  (owners c (delete h hs) + (if decide (v = c) then 1 else 0))%nat
  = owners c hs.
Proof.
  intros Hlive.
  rewrite <- (insert_delete_id hs h v Hlive) at 2.
  rewrite owners_insert_fresh by apply lookup_delete_eq. done.
Qed.

Lemma owners_insert_live (c h v0 v : Z) (hs : gmap Z Z) :
  hs !! h = Some v0 →
  (owners c (<[h := v]> hs) + (if decide (v0 = c) then 1 else 0))%nat
  = (owners c hs + (if decide (v = c) then 1 else 0))%nat.
Proof.
  intros Hlive.
  rewrite <- (insert_delete_eq hs).
  rewrite owners_insert_fresh by apply lookup_delete_eq.
  rewrite <- (owners_delete_live c h v0 hs Hlive). lia.
Qed.

Lemma owners_le_size (c : Z) (hs : gmap Z Z) :
  (owners c hs ≤ size hs)%nat.
Proof. unfold owners. apply map_size_filter. Qed.

(** A block that some handle points to has at least one owner. *)
Lemma owners_pos (c h : Z) (hs : gmap Z Z) :
  hs !! h = Some c → (1 ≤ owners c hs)%nat.
Proof.
  intros Hlive. rewrite <- (owners_delete_live c h c hs Hlive).
  rewrite decide_True by done. lia.
Qed.

(** A block that no handle points to has none. *)
Lemma owners_none (c : Z) (hs : gmap Z Z) :
  (∀ h, hs !! h ≠ Some c) → owners c hs = 0%nat.
Proof.
  intros Hnone. unfold owners. apply map_size_empty_iff.
  apply map_empty. intros h. apply map_lookup_filter_None_2.
  destruct (hs !! h) as [v |] eqn:Hh; [right | by left].
  intros v' [= <-] Hv. simpl in Hv. subst v. by apply (Hnone h).
Qed.

(** Two handles pointing to a block with a single owner are the same. *)
Lemma owners_one_unique (c h1 h2 : Z) (hs : gmap Z Z) :
  owners c hs = 1%nat → hs !! h1 = Some c → hs !! h2 = Some c → h1 = h2.
Proof.
  intros Hone H1 H2. destruct (decide (h1 = h2)) as [| Hne]; [done |].
  pose proof (owners_delete_live c h1 c hs H1) as Hdel.
  rewrite decide_True in Hdel by done.
  assert (Hstill : delete h1 hs !! h2 = Some c)
    by (by rewrite lookup_delete_ne).
  pose proof (owners_pos c h2 _ Hstill). lia.
Qed.

(** *** The invariant and the primitive updates *)

Section shared_buffer_invariant.
Context {D W : Type}.
Variable invoke : D → pointer → W → W.

Local Abbreviation state := (shared_state D W).

(** The invariant does not look at the world or at the history. *)
Lemma shared_wf_plus_same_memory (x : Z) (σ σ' : state) :
  handles σ' = handles σ → ctrls σ' = ctrls σ →
  shared_wf_plus x σ → shared_wf_plus x σ'.
Proof.
  intros Hh Hc [HR HL HB].
  split; rewrite ?Hh, ?Hc; [exact HR | exact HL | exact HB].
Qed.

Lemma shared_wf_dead_unowned (x c : Z) (σ : state) :
  shared_wf_plus x σ → c ≠ nullptr → ctrls σ !! c = None →
  owners c (handles σ) = 0%nat.
Proof.
  intros [_ HL _] Hc Hdead. apply owners_none. intros h Hh.
  destruct (HL h c Hh Hc) as [cb Hcb]. by rewrite Hdead in Hcb.
Qed.

Lemma shared_wf_ref_bounds (x c : Z) (cb : control_block D) (σ : state) :
  shared_wf_plus x σ → ctrls σ !! c = Some cb →
  1 ≤ cb_ref cb ≤ max_live_handles + 1.
Proof.
  intros [HR _ HB] Hcb. destruct (HB c cb Hcb) as (_ & _ & _ & Href & Hpos).
  pose proof (owners_le_size c (handles σ)).
  destruct (decide (c = x)); lia.
Qed.

(** A new object holding no buffer. *)
Lemma shared_wf_new_null (x this : Z) (σ : state) :
  shared_wf_plus x σ → handles σ !! this = None →
  room_for_handle σ →
  shared_wf_plus x (set_handle this nullptr σ).
Proof.
  intros [HR HL HB] Hfresh Hroom. unfold room_for_handle in Hroom.
  split; simpl.
  - rewrite map_size_insert_None by done. lia.
  - intros h c. rewrite lookup_insert. case_decide.
    + intros [= <-]. done.
    + apply HL.
  - intros c cb Hcb. destruct (HB c cb Hcb) as (Hc & Hp & Hs & Href & Hpos).
    repeat split; try done.
    rewrite owners_insert_fresh by done.
    rewrite decide_False by (by intros <-). lia.
Qed.

(** [fetch_add] on a live block: the block is now one ahead of its
    handles. *)
Lemma fetch_add_ref_wf (x : Z) (cb : control_block D) (σ : state) :
  shared_wf σ → ctrls σ !! x = Some cb →
  ∃ σ1, fetch_add_ref x σ = Some σ1 ∧
        shared_wf_plus x σ1 ∧
        handles σ1 = handles σ ∧
        ctrls σ1 = <[x := mk_control_block (cb_ref cb + 1) (cb_ptr cb)
                             (cb_size cb) (cb_deleter cb) (cb_location cb)]>
                     (ctrls σ) ∧
        ext σ1 = ext σ ∧
        history σ1 = history σ ++ [op_fetch_add x].
Proof.
  intros Hwf Hcb. pose proof (shared_wf_ref_bounds _ _ _ _ Hwf Hcb) as Hb.
  destruct Hwf as [HR HL HB].
  unfold fetch_add_ref. rewrite Hcb. simpl.
  rewrite to_size_t_small
    by (unfold is_size_t; rewrite size_modulus_eq;
        rewrite max_live_handles_eq in Hb; lia).
  eexists. split; [reflexivity |]. split; [| done].
  destruct (HB x cb Hcb) as (Hx & Hp & Hs & Href & Hpos).
  rewrite decide_False in Href by done.
  split; simpl.
  - exact HR.
  - intros h c Hh Hc. rewrite lookup_insert. case_decide; [done |].
    by apply (HL h).
  - intros c cb'. rewrite lookup_insert. case_decide as Hcx.
    + intros [= <-]. subst c. simpl. rewrite decide_True by done.
      repeat split; try done; lia.
    + intros Hcb'.
      destruct (HB c cb' Hcb') as (Hc & Hp' & Hs' & Href' & Hpos').
      rewrite decide_False in Href' by done.
      rewrite decide_False by congruence.
      repeat split; try done; lia.
Qed.

(** A handle that held nothing takes the reference the block is ahead
    by. *)
Lemma shared_wf_adopt (x this : Z) (σ : state) :
  shared_wf_plus x σ → x ≠ nullptr → is_Some (ctrls σ !! x) →
  (handles σ !! this = None ∧ room_for_handle σ)
  ∨ handles σ !! this = Some nullptr →
  shared_wf (set_handle this x σ).
Proof.
  intros [HR HL HB] Hx Hlive Hthis. unfold room_for_handle in Hthis.
  split; simpl.
  - destruct Hthis as [[Hfresh Hroom] | Hnull].
    + rewrite map_size_insert_None by done. lia.
    + rewrite map_size_insert_Some by done. lia.
  - intros h c. rewrite lookup_insert. case_decide.
    + intros [= <-]. done.
    + apply HL.
  - intros c cb Hcb. destruct (HB c cb Hcb) as (Hc & Hp & Hs & Href & Hpos).
    repeat split; try done.
    rewrite (decide_False (P := c = nullptr)) by done.
    destruct Hthis as [[Hfresh Hroom] | Hnull].
    + rewrite owners_insert_fresh by done.
      destruct (decide (c = x)), (decide (x = c)); try congruence; lia.
    + pose proof (owners_insert_live c this nullptr x _ Hnull) as Hown.
      rewrite (decide_False (P := nullptr = c)) in Hown by (by intros <-).
      destruct (decide (c = x)), (decide (x = c)); try congruence; lia.
Qed.

Lemma call_deleter_handles (d : option D) (p : pointer) (σ : state) :
  handles (call_deleter invoke d p σ) = handles σ.
Proof. by destruct d. Qed.

Lemma call_deleter_ctrls (d : option D) (p : pointer) (σ : state) :
  ctrls (call_deleter invoke d p σ) = ctrls σ.
Proof. by destruct d. Qed.

Lemma call_deleter_history (d : option D) (p : pointer) (σ : state) :
  history (call_deleter invoke d p σ) = history σ.
Proof. by destruct d. Qed.

Lemma call_deleter_ext (d : option D) (p : pointer) (σ : state) :
  ext (call_deleter invoke d p σ)
  = match d with Some f => invoke f p (ext σ) | None => ext σ end.
Proof. by destruct d. Qed.

(** [release_ctrl] always completes in a well-formed memory: it empties
    the handle, takes one off the count of its block, and frees the block
    (after calling the deleter) exactly when the count was one. *)
Lemma shared_buffer_release_ctrl_wf (x this c : Z) (σ : state) :
  shared_wf_plus x σ → handles σ !! this = Some c →
  ∃ σ', shared_buffer_release_ctrl invoke this σ = Some σ' ∧
        shared_wf_plus x σ' ∧
        handles σ' = <[this := nullptr]> (handles σ) ∧
        (∀ c', c' ≠ c → ctrls σ' !! c' = ctrls σ !! c') ∧
        (is_Some (ctrls σ !! x) → is_Some (ctrls σ' !! x)) ∧
        (c = nullptr → σ' = σ) ∧
        (∀ cb, c ≠ nullptr → ctrls σ !! c = Some cb →
           history σ' = history σ ++ [op_fetch_sub c] ∧
           if decide (cb_ref cb = 1) then
             ctrls σ' !! c = None ∧
             ext σ' = match cb_deleter cb with
                      | Some d => invoke d (cb_ptr cb) (ext σ)
                      | None => ext σ
                      end
           else
             ctrls σ' !! c
               = Some (mk_control_block (cb_ref cb - 1) (cb_ptr cb)
                         (cb_size cb) (cb_deleter cb) (cb_location cb)) ∧
             ext σ' = ext σ).
Proof.
  intros Hwf Hthis. unfold shared_buffer_release_ctrl. rewrite Hthis. simpl.
  destruct (decide (c = nullptr)) as [Hnull | Hc].
  { exists σ. subst c. split; [done |]. split; [exact Hwf |].
    split; [by rewrite insert_id |]. repeat split; done. }
  destruct (wf_live _ _ Hwf this c Hthis Hc) as [cb Hcb]. rewrite Hcb. simpl.
  pose proof (shared_wf_ref_bounds _ _ _ _ Hwf Hcb) as Hb.
  destruct Hwf as [HR HL HB].
  destruct (HB c cb Hcb) as (_ & Hp & Hs & Href & Hpos).
  pose proof (owners_pos c this _ Hthis) as Hown.
  rewrite to_size_t_small
    by (unfold is_size_t; rewrite size_modulus_eq;
        rewrite max_live_handles_eq in Hb; lia).
  eexists. split; [reflexivity |].
  destruct (decide (cb_ref cb = 1)) as [Hone | Hmany].
  - (* the last owner *)
    assert (Hcx : c ≠ x) by (intros ->; rewrite decide_True in Href; lia).
    rewrite decide_False in Href by done.
    assert (Hsole : ∀ h, handles σ !! h = Some c → h = this).
    { intros h Hh.
      apply (owners_one_unique c h this (handles σ)); [lia | done..]. }
    split; [| split; [| split; [| split; [| split]]]].
    + split; simpl; rewrite ?call_deleter_handles, ?call_deleter_ctrls; simpl.
      * rewrite map_size_insert_Some by done. lia.
      * intros h c' Hh Hc'. rewrite lookup_insert in Hh.
        destruct (decide (this = h)); [by simplify_eq |].
        rewrite lookup_delete_ne.
        -- rewrite lookup_insert_ne; [by apply (HL h) |].
           intros ->. by specialize (Hsole h Hh).
        -- intros ->. by specialize (Hsole h Hh).
      * intros c' cb'. rewrite lookup_delete.
        destruct (decide (c = c')); [done |].
        rewrite lookup_insert_ne by done. intros Hcb'.
        destruct (HB c' cb' Hcb') as (Hc' & Hp' & Hs' & Href' & Hpos').
        pose proof (owners_insert_live c' this c nullptr _ Hthis) as Hins.
        rewrite (decide_False (P := nullptr = c')) in Hins by (by intros <-).
        rewrite (decide_False (P := c = c')) in Hins by done.
        repeat split; try done; lia.
    + simpl. by rewrite call_deleter_handles.
    + intros c' Hc'. simpl. rewrite call_deleter_ctrls. simpl.
      rewrite lookup_delete_ne by done. by rewrite lookup_insert_ne.
    + intros Hx. simpl. rewrite call_deleter_ctrls. simpl.
      rewrite lookup_delete_ne by done. by rewrite lookup_insert_ne.
    + done.
    + intros cb0 _ [= <-]. simpl.
      rewrite call_deleter_history, call_deleter_ctrls, call_deleter_ext.
      simpl. split; [done |].
      rewrite decide_True by done. by rewrite lookup_delete_eq.
  - (* other owners remain *)
    split; [| split; [done | split; [| split; [| split]]]].
    + split; simpl.
      * rewrite map_size_insert_Some by done. lia.
      * intros h c' Hh Hc'. rewrite lookup_insert in Hh.
        destruct (decide (this = h)); [by simplify_eq |].
        rewrite lookup_insert.
        destruct (decide (c = c')); [by eexists |]. by apply (HL h).
      * intros c' cb'. rewrite lookup_insert.
        pose proof (owners_insert_live c' this c nullptr _ Hthis) as Hins.
        destruct (decide (c = c')) as [<- | Hcc].
        -- intros [= <-]. simpl.
           rewrite (decide_False (P := nullptr = c)) in Hins by (by intros <-).
           repeat split; try done; destruct (decide (c = x)); lia.
        -- intros Hcb'.
           destruct (HB c' cb' Hcb') as (Hc' & Hp' & Hs' & Href' & Hpos').
           rewrite (decide_False (P := nullptr = c')) in Hins by (by intros <-).
           repeat split; try done; lia.
    + intros c' Hc'. simpl. by rewrite lookup_insert_ne.
    + intros Hx. simpl. rewrite lookup_insert.
      destruct (decide (c = x)); [by eexists | done].
    + done.
    + intros cb0 _ [= <-]. split; [done |].
      rewrite decide_False by done. simpl. by rewrite lookup_insert_eq.
Qed.

(** Updates that only move references between handles. *)
Lemma shared_wf_rehandle (x : Z) (σ : state) (hs : gmap Z Z) :
  shared_wf_plus x σ →
  Z.of_nat (size hs) ≤ max_live_handles →
  (∀ h c, hs !! h = Some c → c ≠ nullptr →
          ∃ h', handles σ !! h' = Some c) →
  (∀ c, c ≠ nullptr → owners c hs = owners c (handles σ)) →
  shared_wf_plus x (mk_shared_state hs (ctrls σ) (ext σ) (history σ)).
Proof.
  intros [HR HL HB] Hsize Hlive Hown. split; simpl.
  - exact Hsize.
  - intros h c Hh Hc. destruct (Hlive h c Hh Hc) as [h' Hh'].
    by apply (HL h').
  - intros c cb Hcb. destruct (HB c cb Hcb) as (Hc & Hp & Hs & Href & Hpos).
    rewrite (Hown c Hc). done.
Qed.

(** Moving the reference of [other] into [this]. *)
Lemma shared_wf_transfer (this other c : Z) (σ : state) :
  shared_wf σ → this ≠ other → handles σ !! other = Some c →
  (handles σ !! this = None ∧ room_for_handle σ)
  ∨ handles σ !! this = Some nullptr →
  shared_wf (set_handle other nullptr (set_handle this c σ)).
Proof.
  intros Hwf Hne Hother Hthis. unfold room_for_handle in Hthis.
  pose proof (wf_room _ _ Hwf) as HR.
  assert (Hmid : <[this := c]> (handles σ) !! other = Some c)
    by (by rewrite lookup_insert_ne).
  apply (shared_wf_rehandle nullptr σ); [exact Hwf | simpl..].
  - rewrite map_size_insert_Some by (by eexists).
    destruct Hthis as [[Hfresh Hroom] | Hnull].
    + rewrite map_size_insert_None by done. lia.
    + rewrite map_size_insert_Some by done. lia.
  - intros h c' Hh Hc'. rewrite lookup_insert in Hh.
    destruct (decide (other = h)); [by simplify_eq |].
    rewrite lookup_insert in Hh.
    destruct (decide (this = h)); [simplify_eq; by exists other |].
    by exists h.
  - intros c' Hc'.
    pose proof (owners_insert_live c' other c nullptr _ Hmid) as H2.
    rewrite (decide_False (P := nullptr = c')) in H2 by (by intros <-).
    destruct Hthis as [[Hfresh Hroom] | Hnull].
    + pose proof (owners_insert_fresh c' this c _ Hfresh) as H1. lia.
    + pose proof (owners_insert_live c' this nullptr c _ Hnull) as H1.
      rewrite (decide_False (P := nullptr = c')) in H1 by (by intros <-).
      lia.
Qed.

(** Exchanging the references of two handles. *)
Lemma shared_wf_exchange (this other a b : Z) (σ : state) :
  shared_wf σ → handles σ !! this = Some a → handles σ !! other = Some b →
  shared_wf (set_handle other a (set_handle this b σ)).
Proof.
  intros Hwf Hthis Hother.
  pose proof (wf_room _ _ Hwf) as HR.
  apply (shared_wf_rehandle nullptr σ); [exact Hwf | simpl..].
  - rewrite !map_size_insert_Some; [done | by eexists |].
    rewrite lookup_insert. destruct (decide (this = other)); by eexists.
  - intros h c' Hh Hc'. rewrite lookup_insert in Hh.
    destruct (decide (other = h)); [simplify_eq; by exists this |].
    rewrite lookup_insert in Hh.
    destruct (decide (this = h)); [simplify_eq; by exists other |].
    by exists h.
  - intros c' Hc'.
    pose proof (owners_insert_live c' this a b _ Hthis) as H1.
    destruct (decide (this = other)) as [-> | Hne].
    + simplify_eq. rewrite insert_insert_eq.
      destruct (decide (a = c')); lia.
    + assert (Hmid : <[this := b]> (handles σ) !! other = Some b)
        by (by rewrite lookup_insert_ne).
      pose proof (owners_insert_live c' other b a _ Hmid) as H2. lia.
Qed.

(** Removing an object that holds no buffer. *)
Lemma shared_wf_forget (x this : Z) (σ : state) :
  shared_wf_plus x σ → handles σ !! this = Some nullptr →
  shared_wf_plus x
    (mk_shared_state (delete this (handles σ)) (ctrls σ) (ext σ)
                     (history σ)).
Proof.
  intros Hwf Hthis. pose proof (wf_room _ _ Hwf) as HR.
  apply shared_wf_rehandle; [exact Hwf | ..].
  - rewrite map_size_delete_Some by done. lia.
  - intros h c Hh Hc. rewrite lookup_delete in Hh.
    destruct (decide (this = h)); [done |]. by exists h.
  - intros c Hc.
    pose proof (owners_delete_live c this nullptr _ Hthis) as H1.
    rewrite (decide_False (P := nullptr = c)) in H1 by (by intros <-). lia.
Qed.

(** *** The operations, one by one *)

Lemma shared_buffer_default_wf (this : Z) (σ σ' : state) :
  shared_wf σ → room_for_handle σ →
  shared_buffer_default this σ = Some σ' → shared_wf σ'.
Proof.
  intros Hwf Hroom. unfold shared_buffer_default.
  destruct (handles σ !! this) eqn:Hthis; [done |].
  intros [= <-]. by apply shared_wf_new_null.
Qed.

Lemma noexcept_boundary_returns {A : Type} (r : option (exception + A))
    (a : A) :
  noexcept_boundary r = Some (inr a) ↔ r = Some (inr a).
Proof. destruct r as [[e | a'] |]; simpl; split; congruence. Qed.

(** A control block that cannot be allocated ends the program when the
    buffer comes from a released or a unique one, while the constructor
    from a pointer lets [std::bad_alloc] through. *)
Lemma shared_buffer_from_released_no_block (this : Z)
    (rb : released_buffer D) (σ : state) :
  handles σ !! this = None → rb_ptr rb ≠ nullptr → rb_count rb ≠ 0 →
  shared_buffer_construct this None (rb_ptr rb) (rb_count rb)
    (rb_deleter rb) (rb_location rb) σ = Some (inl std_bad_alloc) ∧
  shared_buffer_from_released this None rb σ = Some (inl std_terminate).
Proof.
  intros Hthis Hptr Hcount.
  unfold shared_buffer_from_released, shared_buffer_construct.
  rewrite Hthis. rewrite decide_False by tauto. done.
Qed.

Lemma shared_buffer_construct_wf (this : Z) (cnew : option Z) (ptr : pointer)
    (size : Z) (deleter : option D) (loc : MemoryLocation) (σ σ' : state) :
  shared_wf σ → room_for_handle σ → is_size_t size →
  shared_buffer_construct this cnew ptr size deleter loc σ = Some (inr σ') →
  shared_wf σ'.
Proof.
  intros Hwf Hroom Hsize. unfold shared_buffer_construct.
  destruct (handles σ !! this) eqn:Hthis; [done |].
  destruct (decide (ptr = nullptr ∨ size = 0)) as [Hempty | Hfull].
  { intros [= <-]. by apply shared_wf_new_null. }
  destruct cnew as [c |]; [| done].
  destruct (decide (c = nullptr ∨ is_Some (ctrls σ !! c))) as [| Hc]; [done |].
  intros [= <-].
  assert (Hcn : c ≠ nullptr) by tauto.
  assert (Hdead : ctrls σ !! c = None).
  { destruct (ctrls σ !! c) eqn:E; [| done]. exfalso. apply Hc. right.
    by eexists. }
  pose proof (shared_wf_dead_unowned _ _ _ Hwf Hcn Hdead) as Hnone.
  destruct Hwf as [HR HL HB]. unfold room_for_handle in Hroom.
  unfold is_size_t in Hsize.
  split; simpl.
  - rewrite map_size_insert_None by done. lia.
  - intros h c' Hh Hc'. rewrite lookup_insert in Hh.
    rewrite lookup_insert.
    destruct (decide (c = c')); [by eexists |].
    destruct (decide (this = h)); [by simplify_eq |]. by apply (HL h).
  - intros c' cb. rewrite lookup_insert.
    rewrite owners_insert_fresh by done.
    destruct (decide (c = c')) as [<- | Hcc].
    + intros [= <-]. simpl. rewrite Hnone.
      rewrite (decide_False (P := c = nullptr)) by done.
      repeat split; try done; try lia; tauto.
    + intros Hcb. destruct (HB c' cb Hcb) as (? & ? & ? & ? & ?).
      repeat split; try done; lia.
Qed.

Lemma shared_buffer_copy_construct_wf (this other c : Z) (σ : state) :
  shared_wf σ → room_for_handle σ →
  handles σ !! this = None → handles σ !! other = Some c →
  ∃ σ', shared_buffer_copy_construct this other σ = Some σ' ∧
        shared_wf σ' ∧
        handles σ' = <[this := c]> (handles σ) ∧
        ext σ' = ext σ ∧
        (c = nullptr → ctrls σ' = ctrls σ ∧ history σ' = history σ) ∧
        (∀ cb, c ≠ nullptr → ctrls σ !! c = Some cb →
           ctrls σ' = <[c := mk_control_block (cb_ref cb + 1) (cb_ptr cb)
                                (cb_size cb) (cb_deleter cb)
                                (cb_location cb)]> (ctrls σ) ∧
           history σ' = history σ ++ [op_fetch_add c]).
Proof.
  intros Hwf Hroom Hthis Hother. unfold shared_buffer_copy_construct.
  rewrite Hthis, Hother. simpl.
  destruct (decide (c = nullptr)) as [-> | Hc].
  { eexists. split; [reflexivity |].
    split; [by apply shared_wf_new_null |]. repeat split; done. }
  destruct (wf_live _ _ Hwf other c Hother Hc) as [cb Hcb].
  destruct (fetch_add_ref_wf c cb σ Hwf Hcb)
    as (σ1 & Hfa & Hwf1 & Hh1 & Hc1 & He1 & Hl1).
  unfold fetch_add_ref in Hfa |- *. simpl. rewrite Hcb in Hfa |- *.
  simpl in Hfa |- *. injection Hfa as <-.
  eexists. split; [reflexivity |].
  split; [| split; [done | split; [done | split; [done |]]]].
  - apply (shared_wf_plus_same_memory nullptr
             (set_handle this c
                (log_op (op_fetch_add c)
                   (set_ref c cb (to_size_t (cb_ref cb + 1)) σ))));
      [reflexivity | reflexivity |].
    apply (shared_wf_adopt c); [exact Hwf1 | exact Hc | |].
    + simpl. rewrite lookup_insert_eq. by eexists.
    + left. split; [exact Hthis | exact Hroom].
  - intros cb0 _ [= <-]. simpl in Hc1 |- *. split; [exact Hc1 | done].
Qed.

Lemma shared_buffer_copy_assign_wf (this other old new : Z) (σ : state) :
  shared_wf σ → this ≠ other →
  handles σ !! this = Some old → handles σ !! other = Some new →
  ∃ σ', shared_buffer_copy_assign invoke this other σ = Some σ' ∧
        shared_wf σ' ∧
        handles σ' = <[this := new]> (handles σ) ∧
        history σ' = history σ
          ++ (if decide (new = nullptr) then [] else [op_fetch_add new])
          ++ (if decide (old = nullptr) then [] else [op_fetch_sub old]).
Proof.
  intros Hwf Hne Hthis Hother. unfold shared_buffer_copy_assign.
  rewrite Hthis, Hother. simpl. rewrite decide_False by done.
  destruct (decide (new = nullptr)) as [-> | Hnew]; simpl.
  - destruct (shared_buffer_release_ctrl_wf nullptr this old σ Hwf Hthis)
      as (σ2 & Hrun & Hwf2 & Hh2 & _ & _ & Hnull & Hlive).
    rewrite Hrun. simpl. eexists. split; [reflexivity |].
    split; [| split].
    + apply (shared_wf_plus_same_memory nullptr σ2); [| done | exact Hwf2].
      simpl. rewrite Hh2. by rewrite insert_insert_eq.
    + simpl. rewrite Hh2. by rewrite insert_insert_eq.
    + simpl. destruct (decide (old = nullptr)) as [Hold | Hold].
      * rewrite (Hnull Hold). by rewrite ?app_nil_r.
      * destruct (wf_live _ _ Hwf this old Hthis Hold) as [cb Hcb].
        by destruct (Hlive cb Hold Hcb) as [-> _].
  - destruct (wf_live _ _ Hwf other new Hother Hnew) as [cb Hcb].
    destruct (fetch_add_ref_wf new cb σ Hwf Hcb)
      as (σ1 & Hfa & Hwf1 & Hh1 & Hc1 & He1 & Hl1).
    rewrite Hfa. simpl.
    assert (Hthis1 : handles σ1 !! this = Some old) by (by rewrite Hh1).
    assert (Hlive1 : is_Some (ctrls σ1 !! new)).
    { rewrite Hc1, lookup_insert_eq. by eexists. }
    destruct (shared_buffer_release_ctrl_wf new this old σ1 Hwf1 Hthis1)
      as (σ2 & Hrun & Hwf2 & Hh2 & _ & Hkeep & Hnull & Hlive).
    rewrite Hrun. simpl. eexists. split; [reflexivity |].
    split; [| split].
    + apply (shared_wf_adopt new); [exact Hwf2 | exact Hnew | by apply Hkeep |].
      right. rewrite Hh2. apply lookup_insert_eq.
    + simpl. rewrite Hh2, Hh1. by rewrite insert_insert_eq.
    + simpl. destruct (decide (old = nullptr)) as [Hold | Hold].
      * rewrite (Hnull Hold). rewrite Hl1. by rewrite ?app_nil_r.
      * destruct (wf_live _ _ Hwf1 this old Hthis1 Hold) as [cb1 Hcb1].
        destruct (Hlive cb1 Hold Hcb1) as [-> _]. rewrite Hl1.
        by rewrite <- app_assoc.
Qed.

Lemma shared_buffer_move_construct_wf (this other : Z) (σ σ' : state) :
  shared_wf σ → room_for_handle σ →
  shared_buffer_move_construct this other σ = Some σ' → shared_wf σ'.
Proof.
  intros Hwf Hroom. unfold shared_buffer_move_construct.
  destruct (handles σ !! this) eqn:Hthis; [done |].
  destruct (handles σ !! other) as [c |] eqn:Hother; [| done]. simpl.
  intros [= <-]. apply shared_wf_transfer; [done | | done | by left].
  intros ->. by rewrite Hthis in Hother.
Qed.

Lemma shared_buffer_move_assign_wf (this other c0 c : Z) (σ : state) :
  shared_wf σ → this ≠ other →
  handles σ !! this = Some c0 → handles σ !! other = Some c →
  ∃ σ', shared_buffer_move_assign invoke this other σ = Some σ' ∧
        shared_wf σ' ∧
        handles σ' = <[other := nullptr]> (<[this := c]> (handles σ)).
Proof.
  intros Hwf Hne Hthis Hother. unfold shared_buffer_move_assign.
  rewrite Hthis, Hother. simpl. rewrite decide_False by done.
  destruct (shared_buffer_release_ctrl_wf nullptr this c0 σ Hwf Hthis)
    as (σ1 & Hrun & Hwf1 & Hh1 & _).
  rewrite Hrun. simpl.
  assert (Hother1 : handles σ1 !! other = Some c).
  { rewrite Hh1. by rewrite lookup_insert_ne. }
  rewrite Hother1. simpl. eexists. split; [reflexivity |]. split.
  - apply shared_wf_transfer; [exact Hwf1 | exact Hne | exact Hother1 |].
    right. rewrite Hh1. apply lookup_insert_eq.
  - simpl. rewrite Hh1. by rewrite insert_insert_eq.
Qed.

Lemma shared_buffer_destroy_wf (this c : Z) (σ : state) :
  shared_wf σ → handles σ !! this = Some c →
  ∃ σ', shared_buffer_destroy invoke this σ = Some σ' ∧
        shared_wf σ' ∧
        handles σ' = delete this (handles σ).
Proof.
  intros Hwf Hthis. unfold shared_buffer_destroy.
  destruct (shared_buffer_release_ctrl_wf nullptr this c σ Hwf Hthis)
    as (σ1 & Hrun & Hwf1 & Hh1 & _).
  rewrite Hrun. simpl. eexists. split; [reflexivity |]. split.
  - apply shared_wf_forget; [exact Hwf1 |]. rewrite Hh1.
    apply lookup_insert_eq.
  - simpl. rewrite Hh1. by rewrite delete_insert_eq.
Qed.

Lemma shared_buffer_reset_wf (this c : Z) (σ : state) :
  shared_wf σ → handles σ !! this = Some c →
  ∃ σ', shared_buffer_reset invoke this σ = Some σ' ∧
        shared_wf σ' ∧
        handles σ' = <[this := nullptr]> (handles σ).
Proof.
  intros Hwf Hthis. unfold shared_buffer_reset.
  destruct (shared_buffer_release_ctrl_wf nullptr this c σ Hwf Hthis)
    as (σ1 & Hrun & Hwf1 & Hh1 & _).
  rewrite Hrun. simpl. eexists. split; [reflexivity |]. split.
  - apply (shared_wf_plus_same_memory nullptr σ1); [| done | exact Hwf1].
    simpl. rewrite Hh1. by rewrite insert_insert_eq.
  - simpl. rewrite Hh1. by rewrite insert_insert_eq.
Qed.

Lemma shared_buffer_swap_wf (this other : Z) (σ σ' : state) :
  shared_wf σ → shared_buffer_swap this other σ = Some σ' → shared_wf σ'.
Proof.
  intros Hwf. unfold shared_buffer_swap.
  destruct (handles σ !! this) as [a |] eqn:Hthis; [| done].
  destruct (handles σ !! other) as [b |] eqn:Hother; [| done]. simpl.
  intros [= <-]. by apply shared_wf_exchange.
Qed.

(** [release()] always completes in a well-formed memory.  It hands the
    buffer out exactly when the count it finds is one; then the block is
    freed without calling the deleter.  Otherwise nothing but the history
    changes. *)
Lemma shared_buffer_release_wf (this c : Z) (σ : state) :
  shared_wf σ → handles σ !! this = Some c →
  ∃ r σ', shared_buffer_release this σ = Some (r, σ') ∧
          shared_wf σ' ∧ ext σ' = ext σ ∧
          (c = nullptr → r = None ∧ σ' = σ) ∧
          (∀ cb, c ≠ nullptr → ctrls σ !! c = Some cb →
             if decide (cb_ref cb = 1) then
               r = Some (mk_released_buffer (cb_ptr cb) (cb_size cb)
                                            (cb_deleter cb) (cb_location cb)) ∧
               handles σ' = <[this := nullptr]> (handles σ) ∧
               ctrls σ' = delete c (ctrls σ) ∧
               history σ' = history σ ++ [op_compare_exchange c 1 0 true]
             else
               r = None ∧ handles σ' = handles σ ∧ ctrls σ' = ctrls σ ∧
               history σ' = history σ ++ [op_compare_exchange c 1 0 false]).
Proof.
  intros Hwf Hthis. unfold shared_buffer_release. rewrite Hthis. simpl.
  destruct (decide (c = nullptr)) as [Hnull | Hc].
  { eexists _, _. split; [reflexivity |]. split; [exact Hwf |].
    split; [done |]. split; [done |]. intros cb Hc. done. }
  destruct (wf_live _ _ Hwf this c Hthis Hc) as [cb Hcb].
  unfold compare_exchange_ref. rewrite Hcb. simpl.
  destruct (decide (cb_ref cb = 1)) as [Hone | Hmany]; simpl.
  - rewrite lookup_insert_eq. simpl.
    eexists _, _. split; [reflexivity |].
    split; [| split; [done | split; [done |]]].
    + destruct (shared_buffer_release_ctrl_wf nullptr this c σ Hwf Hthis)
        as (σr & _ & Hwfr & Hhr & Hothers & _ & _ & Hshape).
      destruct (Hshape cb Hc Hcb) as [_ Hfreed].
      rewrite decide_True in Hfreed by done. destruct Hfreed as [Hgone _].
      apply (shared_wf_plus_same_memory nullptr σr); [| | exact Hwfr].
      * simpl. by rewrite Hhr.
      * simpl. apply map_eq. intros c'. rewrite delete_insert_eq.
        rewrite lookup_delete. destruct (decide (c = c')) as [<- | Hcc].
        -- by rewrite Hgone.
        -- symmetry. by apply Hothers.
    + intros cb0 _ [= <-]. rewrite decide_True by done. simpl.
      rewrite delete_insert_eq. done.
  - eexists _, _. split; [reflexivity |].
    split; [| split; [done | split; [done |]]].
    + by apply (shared_wf_plus_same_memory nullptr σ).
    + intros cb0 _ [= <-]. rewrite decide_False by done. done.
Qed.

(** *** Every reachable memory is well formed *)

Lemma shared_step_wf (σ σ' : state) :
  shared_step invoke σ σ' → shared_wf σ → shared_wf σ'.
Proof.
  intros Hstep Hwf.
  destruct Hstep as
    [ this σ σ' Hroom Hrun
    | this cnew ptr size deleter loc σ σ' Hroom Hsize Hrun
    | this cnew rb σ σ' Hroom Hsize Hrun
    | this cnew u_b u' σ σ' Hroom Hsize Hrun
    | this other σ σ' Hroom Hrun
    | this other σ σ' Hrun
    | this other σ σ' Hroom Hrun
    | this other σ σ' Hrun
    | this σ σ' Hrun
    | this r σ σ' Hrun
    | this σ σ' Hrun
    | this other σ σ' Hrun ].
  - by apply (shared_buffer_default_wf this σ).
  - by apply (shared_buffer_construct_wf this cnew ptr size deleter loc σ).
  - unfold shared_buffer_from_released in Hrun.
    apply noexcept_boundary_returns in Hrun.
    by apply (shared_buffer_construct_wf _ _ _ _ _ _ σ _ Hwf Hroom Hsize Hrun).
  - unfold shared_buffer_from_unique, shared_buffer_from_released in Hrun.
    cbn [unique_buffer_release] in Hrun. injection Hrun as Hrun _.
    apply noexcept_boundary_returns in Hrun.
    by apply (shared_buffer_construct_wf _ _ _ _ _ _ σ _ Hwf Hroom Hsize Hrun).
  - pose proof Hrun as Hrun'. unfold shared_buffer_copy_construct in Hrun'.
    destruct (handles σ !! this) eqn:Hthis; [done |].
    destruct (handles σ !! other) as [c |] eqn:Hother; [| done].
    destruct (shared_buffer_copy_construct_wf this other c σ
                Hwf Hroom Hthis Hother) as (σ2 & Hrun2 & Hwf2 & _).
    rewrite Hrun in Hrun2. by injection Hrun2 as ->.
  - pose proof Hrun as Hrun'. unfold shared_buffer_copy_assign in Hrun'.
    destruct (handles σ !! this) as [old |] eqn:Hthis; [| done].
    destruct (handles σ !! other) as [new |] eqn:Hother; [| done].
    simpl in Hrun'.
    destruct (decide (this = other)) as [-> | Hne]; [by simplify_eq |].
    destruct (shared_buffer_copy_assign_wf this other old new σ
                Hwf Hne Hthis Hother) as (σ2 & Hrun2 & Hwf2 & _).
    rewrite Hrun in Hrun2. by injection Hrun2 as ->.
  - by apply (shared_buffer_move_construct_wf this other σ).
  - pose proof Hrun as Hrun'. unfold shared_buffer_move_assign in Hrun'.
    destruct (handles σ !! this) as [c0 |] eqn:Hthis; [| done].
    destruct (handles σ !! other) as [c |] eqn:Hother; [| done].
    simpl in Hrun'.
    destruct (decide (this = other)) as [-> | Hne]; [by simplify_eq |].
    destruct (shared_buffer_move_assign_wf this other c0 c σ
                Hwf Hne Hthis Hother) as (σ2 & Hrun2 & Hwf2 & _).
    rewrite Hrun in Hrun2. by injection Hrun2 as ->.
  - pose proof Hrun as Hrun'.
    unfold shared_buffer_destroy, shared_buffer_release_ctrl in Hrun'.
    destruct (handles σ !! this) as [c |] eqn:Hthis; [| done].
    destruct (shared_buffer_destroy_wf this c σ Hwf Hthis)
      as (σ2 & Hrun2 & Hwf2 & _).
    rewrite Hrun in Hrun2. by injection Hrun2 as ->.
  - pose proof Hrun as Hrun'. unfold shared_buffer_release in Hrun'.
    destruct (handles σ !! this) as [c |] eqn:Hthis; [| done].
    destruct (shared_buffer_release_wf this c σ Hwf Hthis)
      as (r2 & σ2 & Hrun2 & Hwf2 & _).
    rewrite Hrun in Hrun2. by injection Hrun2 as -> ->.
  - pose proof Hrun as Hrun'.
    unfold shared_buffer_reset, shared_buffer_release_ctrl in Hrun'.
    destruct (handles σ !! this) as [c |] eqn:Hthis; [| done].
    destruct (shared_buffer_reset_wf this c σ Hwf Hthis)
      as (σ2 & Hrun2 & Hwf2 & _).
    rewrite Hrun in Hrun2. by injection Hrun2 as ->.
  - by apply (shared_buffer_swap_wf this other σ).
Qed.

Lemma shared_initial_wf (w : W) : shared_wf (shared_initial (D := D) w).
Proof.
  split; simpl.
  - rewrite map_size_empty. rewrite max_live_handles_eq. lia.
  - intros h c Hh. by rewrite lookup_empty in Hh.
  - intros c cb Hcb. by rewrite lookup_empty in Hcb.
Qed.

Lemma shared_reachable_wf (σ : state) :
  shared_reachable invoke σ → shared_wf σ.
Proof.
  intros [w Hrtc].
  assert (Hclosed : ∀ σ0 σ1 : state,
            rtc (shared_step invoke) σ0 σ1 → shared_wf σ0 → shared_wf σ1).
  { intros σ0 σ1 Hpath. induction Hpath as [| σa σb σc Hstep _ IH]; [done |].
    intros Hwf. apply IH. by apply (shared_step_wf σa). }
  apply (Hclosed _ _ Hrtc). apply shared_initial_wf.
Qed.

(** *** What the observers report *)

Lemma shared_buffer_observers_null (this : Z) (σ : state) :
  handles σ !! this = Some nullptr →
  shared_buffer_data this σ = Some nullptr ∧
  shared_buffer_size this σ = Some 0 ∧
  shared_buffer_empty this σ = Some true ∧
  shared_buffer_location this σ = Some Host ∧
  shared_buffer_use_count this σ = Some 0 ∧
  shared_buffer_bool this σ = Some false ∧
  shared_buffer_view this σ = Some (mk_buffer_base nullptr 0 Host).
Proof.
  intros Hthis.
  unfold shared_buffer_view, shared_buffer_empty, shared_buffer_data,
    shared_buffer_size, shared_buffer_location, shared_buffer_use_count,
    shared_buffer_bool, read_ctrl.
  rewrite Hthis. simpl. repeat split.
Qed.

Lemma shared_buffer_observers_live (this c : Z) (cb : control_block D)
    (σ : state) :
  handles σ !! this = Some c → c ≠ nullptr → ctrls σ !! c = Some cb →
  shared_buffer_data this σ = Some (cb_ptr cb) ∧
  shared_buffer_size this σ = Some (cb_size cb) ∧
  shared_buffer_empty this σ = Some (cb_size cb =? 0) ∧
  shared_buffer_location this σ = Some (cb_location cb) ∧
  shared_buffer_use_count this σ = Some (to_size_t (to_long (cb_ref cb))) ∧
  shared_buffer_bool this σ = Some true ∧
  shared_buffer_view this σ
    = Some (mk_buffer_base (cb_ptr cb) (cb_size cb) (cb_location cb)).
Proof.
  intros Hthis Hc Hcb.
  unfold shared_buffer_view, shared_buffer_empty, shared_buffer_data,
    shared_buffer_size, shared_buffer_location, shared_buffer_use_count,
    shared_buffer_bool, read_ctrl.
  rewrite Hthis. simpl. rewrite !decide_False by done. rewrite Hcb. simpl.
  rewrite bool_decide_eq_false_2 by done. repeat split.
Qed.

(** In a well-formed memory [use_count()] is the number of handles that
    share the block. *)
Lemma shared_buffer_use_count_owners (this c : Z) (σ : state) :
  shared_wf σ → handles σ !! this = Some c → c ≠ nullptr →
  shared_buffer_use_count this σ
    = Some (Z.of_nat (owners c (handles σ))) ∧
  ∃ cb, ctrls σ !! c = Some cb ∧
        cb_ref cb = Z.of_nat (owners c (handles σ)).
Proof.
  intros Hwf Hthis Hc.
  destruct (wf_live _ _ Hwf this c Hthis Hc) as [cb Hcb].
  pose proof (shared_wf_ref_bounds _ _ _ _ Hwf Hcb) as Hb.
  destruct (wf_block _ _ Hwf c cb Hcb) as (_ & _ & _ & Href & _).
  rewrite decide_False in Href by done.
  destruct (shared_buffer_observers_live this c cb σ Hthis Hc Hcb)
    as (_ & _ & _ & _ & Huse & _).
  rewrite Huse. rewrite to_size_t_to_long.
  - split; [f_equal; lia |]. exists cb. split; [done | lia].
  - unfold is_size_t. rewrite size_modulus_eq.
    rewrite max_live_handles_eq in Hb. lia.
Qed.

(** *** The buffer behind a live block never changes *)

Lemma same_buffer_refl (cb : control_block D) : same_buffer cb cb.
Proof. by repeat split. Qed.

Lemma buffers_kept_same_ctrls (σ σ' : state) :
  ctrls σ' = ctrls σ → buffers_kept σ σ'.
Proof.
  intros Heq c cb cb' Hcb Hcb'. rewrite Heq, Hcb in Hcb'.
  injection Hcb' as <-. apply same_buffer_refl.
Qed.

Lemma shared_buffer_release_ctrl_keeps (x this : Z) (σ σ' : state) :
  shared_wf_plus x σ →
  shared_buffer_release_ctrl invoke this σ = Some σ' →
  buffers_kept σ σ'.
Proof.
  intros Hwf Hrun.
  destruct (handles σ !! this) as [c |] eqn:Hthis;
    [| by unfold shared_buffer_release_ctrl in Hrun; rewrite Hthis in Hrun].
  destruct (shared_buffer_release_ctrl_wf x this c σ Hwf Hthis)
    as (σ2 & Hrun2 & _ & _ & Hothers & _ & Hnull & Hshape).
  rewrite Hrun in Hrun2. injection Hrun2 as <-.
  intros c' cb cb' Hcb Hcb'.
  destruct (decide (c' = c)) as [-> | Hne].
  - destruct (decide (c = nullptr)) as [Hc | Hc].
    + rewrite (Hnull Hc), Hcb in Hcb'. injection Hcb' as <-.
      apply same_buffer_refl.
    + destruct (Hshape cb Hc Hcb) as [_ Hcase].
      destruct (decide (cb_ref cb = 1)).
      * destruct Hcase as [Hgone _]. by rewrite Hgone in Hcb'.
      * destruct Hcase as [Hstays _]. rewrite Hstays in Hcb'.
        injection Hcb' as <-. by repeat split.
  - rewrite (Hothers c' Hne), Hcb in Hcb'. injection Hcb' as <-.
    apply same_buffer_refl.
Qed.

Lemma shared_step_keeps_buffers (σ σ' : state) :
  shared_wf σ → shared_step invoke σ σ' → buffers_kept σ σ'.
Proof.
  intros Hwf Hstep.
  assert (Hconstruct : ∀ this cnew ptr size deleter loc,
    shared_buffer_construct this cnew ptr size deleter loc σ = Some (inr σ') →
    buffers_kept σ σ').
  { intros this cnew ptr size deleter loc. unfold shared_buffer_construct.
    destruct (handles σ !! this); [done |].
    destruct (decide (ptr = nullptr ∨ size = 0)).
    { intros [= <-]. by apply buffers_kept_same_ctrls. }
    destruct cnew as [c |]; [| done].
    destruct (decide (c = nullptr ∨ is_Some (ctrls σ !! c))) as [| Hc];
      [done |].
    intros [= <-] c' cb cb' Hcb. simpl. rewrite lookup_insert.
    destruct (decide (c = c')) as [<- | _].
    - exfalso. apply Hc. right. by eexists.
    - rewrite Hcb. intros [= <-]. apply same_buffer_refl. }
  destruct Hstep as
    [ this σ σ' Hroom Hrun
    | this cnew ptr size deleter loc σ σ' Hroom Hsize Hrun
    | this cnew rb σ σ' Hroom Hsize Hrun
    | this cnew u_b u' σ σ' Hroom Hsize Hrun
    | this other σ σ' Hroom Hrun
    | this other σ σ' Hrun
    | this other σ σ' Hroom Hrun
    | this other σ σ' Hrun
    | this σ σ' Hrun
    | this r σ σ' Hrun
    | this σ σ' Hrun
    | this other σ σ' Hrun ].
  - unfold shared_buffer_default in Hrun.
    destruct (handles σ !! this); [done |]. injection Hrun as <-.
    by apply buffers_kept_same_ctrls.
  - by apply (Hconstruct this cnew ptr size deleter loc).
  - unfold shared_buffer_from_released in Hrun.
    apply noexcept_boundary_returns in Hrun.
    by apply (Hconstruct this cnew (rb_ptr rb) (rb_count rb) (rb_deleter rb)
                         (rb_location rb)).
  - unfold shared_buffer_from_unique, shared_buffer_from_released in Hrun.
    cbn [unique_buffer_release] in Hrun. injection Hrun as Hrun _.
    apply noexcept_boundary_returns in Hrun.
    by apply (Hconstruct _ _ _ _ _ _ Hrun).
  - pose proof Hrun as Hrun'. unfold shared_buffer_copy_construct in Hrun'.
    destruct (handles σ !! this) eqn:Hthis; [done |].
    destruct (handles σ !! other) as [c |] eqn:Hother; [| done].
    destruct (shared_buffer_copy_construct_wf this other c σ
                Hwf Hroom Hthis Hother)
      as (σ2 & Hrun2 & _ & _ & _ & Hnull & Hlive).
    rewrite Hrun in Hrun2. injection Hrun2 as <-.
    destruct (decide (c = nullptr)) as [Hc | Hc].
    + apply buffers_kept_same_ctrls. by apply Hnull.
    + destruct (wf_live _ _ Hwf other c Hother Hc) as [cb0 Hcb0].
      destruct (Hlive cb0 Hc Hcb0) as [Hctrls _].
      intros c' cb cb' Hcb. rewrite Hctrls, lookup_insert.
      destruct (decide (c = c')) as [<- | _].
      * rewrite Hcb0 in Hcb. injection Hcb as <-. intros [= <-].
        by repeat split.
      * rewrite Hcb. intros [= <-]. apply same_buffer_refl.
  - unfold shared_buffer_copy_assign in Hrun.
    destruct (handles σ !! this) as [old |] eqn:Hthis; [| done].
    destruct (handles σ !! other) as [new |] eqn:Hother; [| done].
    simpl in Hrun.
    destruct (decide (this = other)) as [-> | Hne].
    { injection Hrun as <-. by apply buffers_kept_same_ctrls. }
    destruct (decide (new = nullptr)) as [Hnew | Hnew]; simpl in Hrun.
    + destruct (shared_buffer_release_ctrl invoke this σ) as [σ2 |] eqn:Hrel;
        [| done].
      simpl in Hrun. injection Hrun as <-.
      intros c cb cb' Hcb Hcb'.
      by apply (shared_buffer_release_ctrl_keeps nullptr this σ σ2 Hwf Hrel c).
    + destruct (wf_live _ _ Hwf other new Hother Hnew) as [cb0 Hcb0].
      destruct (fetch_add_ref_wf new cb0 σ Hwf Hcb0)
        as (σ1 & Hfa & Hwf1 & Hh1 & Hc1 & _).
      rewrite Hfa in Hrun. simpl in Hrun.
      destruct (shared_buffer_release_ctrl invoke this σ1) as [σ2 |] eqn:Hrel;
        [| done].
      simpl in Hrun. injection Hrun as <-.
      pose proof (shared_buffer_release_ctrl_keeps new this σ1 σ2 Hwf1 Hrel)
        as Hkeep.
      intros c cb cb' Hcb Hcb'. simpl in Hcb'.
      destruct (decide (new = c)) as [<- | Hnc].
      * rewrite Hcb0 in Hcb. injection Hcb as <-.
        assert (Hmid : ctrls σ1 !! new
                       = Some (mk_control_block (cb_ref cb0 + 1) (cb_ptr cb0)
                                 (cb_size cb0) (cb_deleter cb0)
                                 (cb_location cb0)))
          by (by rewrite Hc1, lookup_insert_eq).
        apply (Hkeep new _ cb' Hmid Hcb').
      * assert (Hmid : ctrls σ1 !! c = Some cb)
          by (by rewrite Hc1, lookup_insert_ne).
        apply (Hkeep c cb cb' Hmid Hcb').
  - unfold shared_buffer_move_construct in Hrun.
    destruct (handles σ !! this); [done |].
    destruct (handles σ !! other); [| done]. simpl in Hrun.
    injection Hrun as <-. by apply buffers_kept_same_ctrls.
  - unfold shared_buffer_move_assign in Hrun.
    destruct (handles σ !! this); [| done].
    destruct (handles σ !! other); [| done]. simpl in Hrun.
    destruct (decide (this = other)).
    { injection Hrun as <-. by apply buffers_kept_same_ctrls. }
    destruct (shared_buffer_release_ctrl invoke this σ) as [σ1 |] eqn:Hrel;
      [| done].
    simpl in Hrun. destruct (handles σ1 !! other); [| done].
    simpl in Hrun. injection Hrun as <-.
    intros c cb cb' Hcb Hcb'.
    by apply (shared_buffer_release_ctrl_keeps nullptr this σ σ1 Hwf Hrel c).
  - unfold shared_buffer_destroy in Hrun.
    destruct (shared_buffer_release_ctrl invoke this σ) as [σ1 |] eqn:Hrel;
      [| done].
    simpl in Hrun. injection Hrun as <-.
    intros c cb cb' Hcb Hcb'.
    by apply (shared_buffer_release_ctrl_keeps nullptr this σ σ1 Hwf Hrel c).
  - pose proof Hrun as Hrun'. unfold shared_buffer_release in Hrun'.
    destruct (handles σ !! this) as [c |] eqn:Hthis; [| done].
    destruct (shared_buffer_release_wf this c σ Hwf Hthis)
      as (r2 & σ2 & Hrun2 & _ & _ & Hnull & Hlive).
    rewrite Hrun in Hrun2. injection Hrun2 as <- <-.
    destruct (decide (c = nullptr)) as [Hc | Hc].
    + destruct (Hnull Hc) as [_ ->]. by apply buffers_kept_same_ctrls.
    + destruct (wf_live _ _ Hwf this c Hthis Hc) as [cb0 Hcb0].
      specialize (Hlive cb0 Hc Hcb0).
      destruct (decide (cb_ref cb0 = 1)).
      * destruct Hlive as (_ & _ & Hctrls & _).
        intros c' cb cb' Hcb. rewrite Hctrls, lookup_delete.
        destruct (decide (c = c')); [done |].
        rewrite Hcb. intros [= <-]. apply same_buffer_refl.
      * destruct Hlive as (_ & _ & Hctrls & _).
        by apply buffers_kept_same_ctrls.
  - unfold shared_buffer_reset in Hrun.
    destruct (shared_buffer_release_ctrl invoke this σ) as [σ1 |] eqn:Hrel;
      [| done].
    simpl in Hrun. injection Hrun as <-.
    intros c cb cb' Hcb Hcb'.
    by apply (shared_buffer_release_ctrl_keeps nullptr this σ σ1 Hwf Hrel c).
  - unfold shared_buffer_swap in Hrun.
    destruct (handles σ !! this); [| done].
    destruct (handles σ !! other); [| done]. simpl in Hrun.
    injection Hrun as <-. by apply buffers_kept_same_ctrls.
Qed.

(** *** The claims about shared handles *)

(** C1. For every shared handle of a reachable memory, [release()]
    succeeds exactly when [use_count()] is 1, which it finds out with one
    compare-and-swap from 1 to 0.  On success the handle is empty, the
    record carries the pointer, count, deleter and location of the control
    block, the block is freed and the world the deleters act on is
    untouched.  On failure — an empty handle included — the result is
    no value, and the handles, the control blocks and the world are as
    before. *)
Theorem shared_buffer_release_unique_owner (σ : state) (this c : Z) :
  shared_reachable invoke σ → handles σ !! this = Some c →
  ∃ r σ',
    shared_buffer_release this σ = Some (r, σ') ∧
    (is_Some r ↔ shared_buffer_use_count this σ = Some 1) ∧
    (∀ rb, r = Some rb →
       ∃ cb, c ≠ nullptr ∧ ctrls σ !! c = Some cb ∧ cb_ref cb = 1 ∧
             rb = mk_released_buffer (cb_ptr cb) (cb_size cb)
                                     (cb_deleter cb) (cb_location cb) ∧
             shared_buffer_data this σ = Some (rb_ptr rb) ∧
             handles σ' = <[this := nullptr]> (handles σ) ∧
             shared_buffer_bool this σ' = Some false ∧
             ctrls σ' = delete c (ctrls σ) ∧
             ext σ' = ext σ ∧
             history σ' = history σ ++ [op_compare_exchange c 1 0 true]) ∧
    (r = None →
       handles σ' = handles σ ∧ ctrls σ' = ctrls σ ∧ ext σ' = ext σ ∧
       shared_buffer_bool this σ' = shared_buffer_bool this σ ∧
       shared_buffer_use_count this σ' = shared_buffer_use_count this σ ∧
       (c = nullptr → history σ' = history σ) ∧
       (c ≠ nullptr →
          history σ' = history σ ++ [op_compare_exchange c 1 0 false])).
Proof.
  intros Hreach Hthis. pose proof (shared_reachable_wf σ Hreach) as Hwf.
  destruct (shared_buffer_release_wf this c σ Hwf Hthis)
    as (r & σ' & Hrun & Hwf' & Hext & Hnull & Hlive).
  exists r, σ'. split; [exact Hrun |].
  destruct (decide (c = nullptr)) as [Hc | Hc].
  - destruct (Hnull Hc) as [-> ->]. subst c.
    destruct (shared_buffer_observers_null this σ Hthis)
      as (_ & _ & _ & _ & Huse & _).
    split; [| split; [done |]].
    + rewrite Huse. split; [intros [? [=]] | by intros [=]].
    + intros _. repeat split; done.
  - destruct (shared_buffer_use_count_owners this c σ Hwf Hthis Hc)
      as (Huse & cb & Hcb & Href).
    specialize (Hlive cb Hc Hcb).
    destruct (shared_buffer_observers_live this c cb σ Hthis Hc Hcb)
      as (Hdata & _).
    destruct (decide (cb_ref cb = 1)) as [Hone | Hmany].
    + destruct Hlive as (-> & Hh & Hctrls & Hhist).
      split.
      { rewrite Huse, <- Href, Hone. split; [done | by eexists]. }
      split; [| done].
      intros rb [= <-]. exists cb.
      repeat split; try done.
      unfold shared_buffer_bool. rewrite Hh, lookup_insert_eq. done.
    + destruct Hlive as (-> & Hh & Hctrls & Hhist).
      split.
      { rewrite Huse, <- Href. split; [intros [? [=]] | intros [= ?]; done]. }
      split; [done |]. intros _.
      unfold shared_buffer_bool, shared_buffer_use_count, read_ctrl.
      rewrite Hh, Hctrls. repeat split; done.
Qed.

(** C7. Copy-constructing from a non-empty shared handle makes
    [use_count()] of the original and of the copy one more than it was;
    destroying or resetting the copy takes it back down by one.  Copy
    assignment first adds one to the count of the block it acquires and
    only then takes one off the block it held. *)
Theorem shared_buffer_copy_counts (σ : state) (this other c n : Z) :
  shared_reachable invoke σ → room_for_handle σ →
  handles σ !! this = None → handles σ !! other = Some c → c ≠ nullptr →
  shared_buffer_use_count other σ = Some n →
  (∃ σ1,
     shared_buffer_copy_construct this other σ = Some σ1 ∧
     shared_buffer_use_count other σ1 = Some (n + 1) ∧
     shared_buffer_use_count this σ1 = Some (n + 1) ∧
     (∃ σ2, shared_buffer_destroy invoke this σ1 = Some σ2 ∧
            shared_buffer_use_count other σ2 = Some n) ∧
     (∃ σ2, shared_buffer_reset invoke this σ1 = Some σ2 ∧
            shared_buffer_use_count other σ2 = Some n ∧
            shared_buffer_use_count this σ2 = Some 0)) ∧
  (∀ dst old, dst ≠ other → handles σ !! dst = Some old → old ≠ nullptr →
     ∃ σ3,
       shared_buffer_copy_assign invoke dst other σ = Some σ3 ∧
       history σ3 = history σ ++ [op_fetch_add c; op_fetch_sub old] ∧
       handles σ3 !! dst = Some c ∧
       shared_buffer_use_count dst σ3 = shared_buffer_use_count other σ3 ∧
       shared_buffer_use_count other σ3
         = Some (if decide (old = c) then n else n + 1)).
Proof.
  intros Hreach Hroom Hthis Hother Hc Hn.
  pose proof (shared_reachable_wf σ Hreach) as Hwf.
  destruct (shared_buffer_use_count_owners other c σ Hwf Hother Hc)
    as (Huse & _). rewrite Huse in Hn. injection Hn as <-.
  assert (Hne : this ≠ other) by (intros ->; by rewrite Hthis in Hother).
  split.
  - destruct (shared_buffer_copy_construct_wf this other c σ
                Hwf Hroom Hthis Hother) as (σ1 & Hrun1 & Hwf1 & Hh1 & _).
    exists σ1. split; [exact Hrun1 |].
    assert (Hother1 : handles σ1 !! other = Some c)
      by (by rewrite Hh1, lookup_insert_ne).
    assert (Hthis1 : handles σ1 !! this = Some c)
      by (by rewrite Hh1, lookup_insert_eq).
    destruct (shared_buffer_use_count_owners other c σ1 Hwf1 Hother1 Hc)
      as (Huse1 & _).
    destruct (shared_buffer_use_count_owners this c σ1 Hwf1 Hthis1 Hc)
      as (Huse1' & _).
    pose proof (owners_insert_fresh c this c _ Hthis) as Hcount.
    rewrite decide_True in Hcount by done.
    rewrite Huse1, Huse1', Hh1, Hcount.
    split; [f_equal; lia |]. split; [f_equal; lia |]. split.
    + destruct (shared_buffer_destroy_wf this c σ1 Hwf1 Hthis1)
        as (σ2 & Hrun2 & Hwf2 & Hh2). exists σ2. split; [exact Hrun2 |].
      rewrite Hh1, delete_insert_id in Hh2 by done.
      assert (Hother2 : handles σ2 !! other = Some c) by (by rewrite Hh2).
      destruct (shared_buffer_use_count_owners other c σ2 Hwf2 Hother2 Hc)
        as (-> & _). by rewrite Hh2.
    + destruct (shared_buffer_reset_wf this c σ1 Hwf1 Hthis1)
        as (σ2 & Hrun2 & Hwf2 & Hh2). exists σ2. split; [exact Hrun2 |].
      rewrite Hh1, insert_insert_eq in Hh2.
      assert (Hother2 : handles σ2 !! other = Some c)
        by (by rewrite Hh2, lookup_insert_ne).
      assert (Hthis2 : handles σ2 !! this = Some nullptr)
        by (by rewrite Hh2, lookup_insert_eq).
      destruct (shared_buffer_use_count_owners other c σ2 Hwf2 Hother2 Hc)
        as (-> & _).
      destruct (shared_buffer_observers_null this σ2 Hthis2)
        as (_ & _ & _ & _ & -> & _).
      split; [| done]. rewrite Hh2, owners_insert_fresh by done.
      rewrite decide_False by (by intros <-). f_equal. lia.
  - intros dst old Hdne Hdst Hold.
    destruct (shared_buffer_copy_assign_wf dst other old c σ
                Hwf Hdne Hdst Hother) as (σ3 & Hrun3 & Hwf3 & Hh3 & Hhist).
    exists σ3. split; [exact Hrun3 |].
    rewrite !decide_False in Hhist by done.
    split; [exact Hhist |].
    assert (Hdst3 : handles σ3 !! dst = Some c)
      by (by rewrite Hh3, lookup_insert_eq).
    assert (Hother3 : handles σ3 !! other = Some c)
      by (by rewrite Hh3, lookup_insert_ne).
    split; [exact Hdst3 |].
    destruct (shared_buffer_use_count_owners other c σ3 Hwf3 Hother3 Hc)
      as (-> & _).
    destruct (shared_buffer_use_count_owners dst c σ3 Hwf3 Hdst3 Hc)
      as (-> & _).
    split; [done |]. rewrite Hh3.
    pose proof (owners_insert_live c dst old c _ Hdst) as Hcount.
    rewrite (decide_True (P := c = c)) in Hcount by done.
    f_equal. destruct (decide (old = c)); lia.
Qed.

(** C10. In every memory reachable by constructing, copying, moving,
    releasing, resetting, swapping and destroying shared handles, a handle
    whose control-block reference is not null has a live block whose
    pointer is not null and whose size is positive; hence [empty()], the
    negated boolean conversion, [data() == nullptr] and
    [use_count() == 0] all agree on every handle.  No step changes the
    pointer, size, deleter or location of a block that stays live. *)
Theorem shared_buffer_observers_agree (σ : state) (this c : Z) :
  shared_reachable invoke σ → handles σ !! this = Some c →
  (c ≠ nullptr →
     ∃ cb, ctrls σ !! c = Some cb ∧ cb_ptr cb ≠ nullptr ∧ 0 < cb_size cb) ∧
  (∃ e b p u,
     shared_buffer_empty this σ = Some e ∧
     shared_buffer_bool this σ = Some b ∧
     shared_buffer_data this σ = Some p ∧
     shared_buffer_use_count this σ = Some u ∧
     (e = true ↔ b = false) ∧
     (b = false ↔ p = nullptr) ∧
     (p = nullptr ↔ u = 0) ∧
     (c = nullptr ↔ e = true)) ∧
  (∀ σ', shared_step invoke σ σ' → buffers_kept σ σ').
Proof.
  intros Hreach Hthis. pose proof (shared_reachable_wf σ Hreach) as Hwf.
  split; [| split].
  - intros Hc. destruct (wf_live _ _ Hwf this c Hthis Hc) as [cb Hcb].
    destruct (wf_block _ _ Hwf c cb Hcb) as (_ & Hp & Hs & _).
    by exists cb.
  - destruct (decide (c = nullptr)) as [-> | Hc].
    + destruct (shared_buffer_observers_null this σ Hthis)
        as (Hdata & _ & Hempty & _ & Huse & Hbool & _).
      exists true, false, nullptr, 0. repeat split; done.
    + destruct (shared_buffer_use_count_owners this c σ Hwf Hthis Hc)
        as (Huse & cb & Hcb & Href).
      destruct (wf_block _ _ Hwf c cb Hcb) as (_ & Hp & Hs & _ & Hpos).
      destruct (shared_buffer_observers_live this c cb σ Hthis Hc Hcb)
        as (Hdata & _ & Hempty & _ & _ & Hbool & _).
      exists false, true, (cb_ptr cb), (Z.of_nat (owners c (handles σ))).
      assert (Hnz : (cb_size cb =? 0) = false) by (apply Z.eqb_neq; lia).
      rewrite Hnz in Hempty.
      repeat split; try done; try lia.
  - intros σ' Hstep. by apply shared_step_keeps_buffers.
Qed.

(** C9 (amended). A handle built from a null pointer and a zero count
    converts to false and reports a null pointer and size 0.  The unique
    handle keeps the deleter and the location it was given — it is the
    default-constructed handle exactly when no deleter was passed and the
    location is Host — but never calls that deleter.  The shared handle,
    built from a null pointer or from a zero count, is in the very state
    default construction gives: no control block is allocated, the
    deleter is dropped and the location reads Host. *)
Theorem null_construction_is_empty (σ : state) (this : Z)
    (cnew : option Z) (ptr : pointer) (size : Z) (d : option D)
    (loc : MemoryLocation) :
  handles σ !! this = None → ptr = nullptr ∨ size = 0 →
  (let u := unique_buffer_adopt nullptr 0 d loc in
   unique_buffer_bool u = false ∧
   unique_buffer_eq_nullptr u = true ∧
   unique_buffer_get u = nullptr ∧
   buffer_base_data (ub_base u) = nullptr ∧
   buffer_base_size (ub_base u) = 0 ∧
   buffer_base_empty (ub_base u) = true ∧
   buffer_base_location (ub_base u) = loc ∧
   unique_buffer_get_deleter u = d ∧
   (∀ w, unique_buffer_destroy invoke u w = w) ∧
   (u = unique_buffer_default ↔ d = None ∧ loc = Host)) ∧
  (∃ σ',
     shared_buffer_construct this cnew ptr size d loc σ = Some (inr σ') ∧
     shared_buffer_default this σ = Some σ' ∧
     ctrls σ' = ctrls σ ∧ ext σ' = ext σ ∧ history σ' = history σ ∧
     shared_buffer_bool this σ' = Some false ∧
     shared_buffer_data this σ' = Some nullptr ∧
     shared_buffer_size this σ' = Some 0 ∧
     shared_buffer_empty this σ' = Some true ∧
     shared_buffer_location this σ' = Some Host ∧
     shared_buffer_use_count this σ' = Some 0).
Proof.
  intros Hfresh Hempty. split.
  - simpl. do 8 (split; [done |]).
    split; [intros w; by apply unique_buffer_destroy_empty |].
    split; [intros [= -> ->]; done | intros [-> ->]; done].
  - exists (set_handle this nullptr σ).
    unfold shared_buffer_construct, shared_buffer_default. rewrite Hfresh.
    rewrite decide_True by done.
    assert (Hthis : handles (set_handle this nullptr σ) !! this
                    = Some nullptr) by apply lookup_insert_eq.
    destruct (shared_buffer_observers_null this _ Hthis)
      as (Hdata & Hsize & Hemp & Hloc & Huse & Hbool & _).
    repeat split; done.
Qed.

Lemma unique_buffer_reset_view_invariant (u : unique_buffer D) (w : W) :
  view_invariant (ub_base u) →
  view_invariant (ub_base (fst (unique_buffer_reset invoke u w))).
Proof.
  intros Hu. unfold unique_buffer_reset.
  destruct (decide (data_ (ub_base u) = nullptr)); simpl; [exact Hu | done].
Qed.

Lemma shared_buffer_view_invariant (σ : state) (this : Z) (b : buffer_base) :
  shared_wf σ → shared_buffer_view this σ = Some b → view_invariant b.
Proof.
  intros Hwf Hview.
  destruct (handles σ !! this) as [c |] eqn:Hthis.
  - destruct (decide (c = nullptr)) as [-> | Hc].
    + destruct (shared_buffer_observers_null this σ Hthis)
        as (_ & _ & _ & _ & _ & _ & Hv).
      rewrite Hv in Hview. injection Hview as <-. done.
    + destruct (wf_live _ _ Hwf this c Hthis Hc) as [cb Hcb].
      destruct (wf_block _ _ Hwf c cb Hcb) as (_ & Hp & Hs & _).
      destruct (shared_buffer_observers_live this c cb σ Hthis Hc Hcb)
        as (_ & _ & _ & _ & _ & _ & Hv).
      rewrite Hv in Hview. injection Hview as <-.
      unfold view_invariant. simpl. split; [done | lia].
  - unfold shared_buffer_view, shared_buffer_data, read_ctrl in Hview.
    by rewrite Hthis in Hview.
Qed.

(** C8 (amended). The invariant [ptr == null ⇔ count == 0] holds for the
    default-constructed unique handle, for the self-allocating
    constructor when the count is not zero, and for the adopting
    constructors exactly when their arguments satisfy it.  Move
    construction, move assignment, release, reset and swap keep it.  The
    view of a unique handle is the pointer, count and location of the
    handle, so it satisfies the invariant exactly when the handle does;
    every shared handle of a reachable memory has a view, which satisfies
    it and is null exactly when the handle has no control block. *)
Theorem view_invariant_of_handles
    (operator_new : Z → option pointer) (array_delete : D)
    (u v : unique_buffer D) (σ : state) :
  (∀ n p, operator_new n = Some p → p ≠ nullptr) →
  view_invariant (ub_base u) → view_invariant (ub_base v) →
  shared_reachable invoke σ →
  view_invariant (ub_base (@unique_buffer_default D)) ∧
  (∀ count loc h,
     count ≠ 0 →
     unique_buffer_alloc operator_new array_delete count loc = inr h →
     view_invariant (ub_base h)) ∧
  (∀ ptr count d loc,
     view_invariant (ub_base (unique_buffer_adopt (D := D) ptr count d loc))
     ↔ (ptr = nullptr ↔ count = 0)) ∧
  (∀ rb : released_buffer D,
     view_invariant (ub_base (unique_buffer_from_released rb))
     ↔ (rb_ptr rb = nullptr ↔ rb_count rb = 0)) ∧
  view_invariant (ub_base (fst (unique_buffer_move_construct u))) ∧
  view_invariant (ub_base (snd (unique_buffer_move_construct u))) ∧
  (∀ objs this other w objs' w',
     (∀ a x, objs !! a = Some x → view_invariant (ub_base x)) →
     unique_buffer_move_assign invoke this other objs w = Some (objs', w') →
     ∀ a x, objs' !! a = Some x → view_invariant (ub_base x)) ∧
  view_invariant (ub_base (snd (unique_buffer_release u))) ∧
  (rb_ptr (fst (unique_buffer_release u)) = nullptr
   ↔ rb_count (fst (unique_buffer_release u)) = 0) ∧
  (∀ w, view_invariant (ub_base (fst (unique_buffer_reset invoke u w)))) ∧
  view_invariant (ub_base (fst (unique_buffer_swap u v))) ∧
  view_invariant (ub_base (snd (unique_buffer_swap u v))) ∧
  (∀ h : unique_buffer D,
     unique_buffer_view h = ub_base h ∧
     (view_invariant (unique_buffer_view h) ↔ view_invariant (ub_base h))) ∧
  (∀ this b, shared_buffer_view this σ = Some b → view_invariant b) ∧
  (∀ this c, handles σ !! this = Some c →
     ∃ b, shared_buffer_view this σ = Some b ∧ view_invariant b ∧
          (data_ b = nullptr ↔ c = nullptr)).
Proof.
  intros Hnew Hu Hv Hreach.
  split; [done |]. split.
  { intros count loc h Hcount. unfold unique_buffer_alloc.
    destruct (operator_new count) as [p |] eqn:Hp; [| done].
    intros [= <-]. unfold view_invariant. simpl.
    pose proof (Hnew count p Hp). done. }
  split; [done |]. split; [done |]. split; [exact Hu |]. split; [done |].
  split.
  { intros objs this other w objs' w' Hall. unfold unique_buffer_move_assign.
    destruct (objs !! this) as [t |] eqn:Ht; [| done].
    destruct (objs !! other) as [o |] eqn:Ho; [| done].
    destruct (decide (this = other)).
    { intros [= <- <-]. exact Hall. }
    destruct (unique_buffer_reset invoke t w) as [t1 w1].
    simpl. intros [= <- <-] a x. rewrite lookup_insert.
    destruct (decide (this = a)).
    { intros [= <-]. exact (Hall other o Ho). }
    rewrite lookup_insert. destruct (decide (other = a)).
    { intros [= <-]. done. }
    apply Hall. }
  split; [done |]. split; [exact Hu |].
  split; [intros w; by apply unique_buffer_reset_view_invariant |].
  split; [exact Hv |]. split; [exact Hu |]. split.
  { intros h.
    assert (unique_buffer_view h = ub_base h) as Hsame.
    { unfold unique_buffer_view. by destruct (ub_base h). }
    split; [exact Hsame |]. by rewrite Hsame. }
  pose proof (shared_reachable_wf σ Hreach) as Hwf.
  split; [intros this b; by apply shared_buffer_view_invariant |].
  intros this c Hthis. destruct (decide (c = nullptr)) as [-> | Hc].
  - destruct (shared_buffer_observers_null this σ Hthis)
      as (_ & _ & _ & _ & _ & _ & Hview).
    eexists. split; [exact Hview |]. by split.
  - destruct (wf_live _ _ Hwf this c Hthis Hc) as [cb Hcb].
    destruct (wf_block _ _ Hwf c cb Hcb) as (_ & Hp & Hs & _).
    destruct (shared_buffer_observers_live this c cb σ Hthis Hc Hcb)
      as (_ & _ & _ & _ & _ & _ & Hview).
    eexists. split; [exact Hview |]. split.
    + unfold view_invariant. simpl. split; [done | lia].
    + simpl. by split.
Qed.
End shared_buffer_invariant.

(** *** Concrete memories *)

Lemma shared_buffer_release_unique_owner_witness :
  ∃ σ : shared_state nat (call_log nat),
    shared_reachable record_call σ ∧ handles σ !! 10 = Some 100 ∧
    ∃ r σ', shared_buffer_release 10 σ = Some (r, σ') ∧
            (is_Some r ↔ shared_buffer_use_count 10 σ = Some 1).
Proof.
  eexists.
  assert (Hreach : shared_reachable (D := nat) record_call _)
    by sample_memory_reachable.
  split; [exact Hreach |].
  assert (Hthis : handles
            (set_handle 10 100
               (mk_shared_state (D := nat) (W := call_log nat) ∅
                  (<[100 := mk_control_block 1 4096 5 (Some 7%nat) Host]> ∅)
                  [] [])) !! 10 = Some 100) by reflexivity.
  split; [exact Hthis |].
  destruct (shared_buffer_release_unique_owner record_call _ 10 100
              Hreach Hthis) as (r & σ' & Hrun & Hiff & _).
  exists r, σ'. split; [exact Hrun | exact Hiff].
Defined.

Lemma shared_buffer_copy_counts_witness :
  ∃ σ : shared_state nat (call_log nat),
    shared_reachable record_call σ ∧ room_for_handle σ ∧
    handles σ !! 11 = None ∧ handles σ !! 10 = Some 100 ∧ 100 ≠ nullptr ∧
    shared_buffer_use_count 10 σ = Some 1 ∧
    ∃ σ1, shared_buffer_copy_construct 11 10 σ = Some σ1 ∧
          shared_buffer_use_count 10 σ1 = Some (1 + 1) ∧
          shared_buffer_use_count 11 σ1 = Some (1 + 1).
Proof.
  eexists.
  assert (Hreach : shared_reachable (D := nat) record_call _)
    by sample_memory_reachable.
  split; [exact Hreach |].
  set (σ := set_handle 10 100
              (mk_shared_state (D := nat) (W := call_log nat) ∅
                 (<[100 := mk_control_block 1 4096 5 (Some 7%nat) Host]> ∅)
                 [] [])) in *.
  assert (Hroom : room_for_handle σ) by (vm_compute; reflexivity).
  assert (Hthis : handles σ !! 11 = None) by reflexivity.
  assert (Hother : handles σ !! 10 = Some 100) by reflexivity.
  assert (Hc : 100 ≠ nullptr) by (unfold nullptr; lia).
  assert (Hn : shared_buffer_use_count 10 σ = Some 1) by reflexivity.
  split; [exact Hroom |]. split; [exact Hthis |]. split; [exact Hother |].
  split; [exact Hc |]. split; [exact Hn |].
  destruct (shared_buffer_copy_counts record_call σ 11 10 100 1
              Hreach Hroom Hthis Hother Hc Hn)
    as ((σ1 & Hrun & Huse & Huse' & _) & _).
  exists σ1. split; [exact Hrun |]. split; [exact Huse | exact Huse'].
Defined.

Lemma shared_buffer_observers_agree_witness :
  ∃ σ : shared_state nat (call_log nat),
    shared_reachable record_call σ ∧ handles σ !! 10 = Some 100 ∧
    ∃ cb, ctrls σ !! 100 = Some cb ∧ cb_ptr cb ≠ nullptr ∧ 0 < cb_size cb.
Proof.
  eexists.
  assert (Hreach : shared_reachable (D := nat) record_call _)
    by sample_memory_reachable.
  split; [exact Hreach |].
  assert (Hthis : handles
            (set_handle 10 100
               (mk_shared_state (D := nat) (W := call_log nat) ∅
                  (<[100 := mk_control_block 1 4096 5 (Some 7%nat) Host]> ∅)
                  [] [])) !! 10 = Some 100) by reflexivity.
  split; [exact Hthis |].
  destruct (shared_buffer_observers_agree record_call _ 10 100 Hreach Hthis)
    as (Hlive & _).
  apply Hlive. unfold nullptr. lia.
Defined.

(** C9 (as first stated).  A unique handle built from a null pointer, a
    zero count and a deleter holds that deleter, which the default-constructed handle does not; the
    record it releases carries the deleter too. *)
Lemma null_unique_buffer_keeps_deleter :
  let u : unique_buffer nat := unique_buffer_adopt nullptr 0 (Some 7%nat) Host in
  unique_buffer_get_deleter u = Some 7%nat ∧
  unique_buffer_get_deleter (@unique_buffer_default nat) = None ∧
  rb_deleter (fst (unique_buffer_release u)) = Some 7%nat ∧
  u ≠ unique_buffer_default.
Proof. repeat split. intros [=]. Qed.

Lemma null_construction_is_empty_witness :
  let σ : shared_state nat (call_log nat) := shared_initial [] in
  handles σ !! 10 = None ∧ (nullptr = nullptr ∨ 0 = 0) ∧
  ∃ σ',
    shared_buffer_construct 10 None nullptr 0 (Some 7%nat) Device σ
      = Some (inr σ') ∧
    shared_buffer_default 10 σ = Some σ' ∧
    ctrls σ' = ctrls σ.
Proof.
  intros σ.
  assert (H1 : handles σ !! 10 = None) by reflexivity.
  assert (H2 : nullptr = nullptr ∨ 0 = 0) by (left; reflexivity).
  split; [exact H1 |]. split; [exact H2 |].
  destruct (null_construction_is_empty record_call σ 10 None nullptr 0
              (Some 7%nat) Device H1 H2)
    as (_ & σ' & Hrun & Hdefault & Hctrls & _).
  exists σ'. split; [exact Hrun |]. split; [exact Hdefault | exact Hctrls].
Defined.

(** C8 (as first stated).  The adopting constructor accepts a non-null
    pointer with a zero count, and the self-allocating constructor builds one: [new T[0]]
    yields a non-null address, here 4096.  Neither handle satisfies the
    invariant of views. *)
Lemma view_invariant_broken_by_zero_count :
  ¬ view_invariant
      (ub_base (unique_buffer_adopt (D := nat) 4096 0 None Host)) ∧
  ¬ view_invariant
      (unique_buffer_view (unique_buffer_adopt (D := nat) 4096 0 None Host)) ∧
  ∃ h : unique_buffer nat,
    unique_buffer_alloc (λ _, Some 4096) 0%nat 0 Host = inr h ∧
    ¬ view_invariant (ub_base h).
Proof.
  assert (Hbad : ¬ view_invariant (mk_buffer_base 4096 0 Host)).
  { unfold view_invariant. simpl. intros [_ Hback].
    specialize (Hback eq_refl). unfold nullptr in Hback. lia. }
  split; [exact Hbad |]. split; [exact Hbad |].
  eexists. split; [reflexivity | exact Hbad].
Qed.

Lemma view_invariant_of_handles_witness :
  let u : unique_buffer nat := unique_buffer_adopt 4096 5 (Some 7%nat) Host in
  let v : unique_buffer nat := unique_buffer_default in
  let σ : shared_state nat (call_log nat) := shared_initial [] in
  (∀ n p : Z, (λ _ : Z, Some 4096) n = Some p → p ≠ nullptr) ∧
  view_invariant (ub_base u) ∧ view_invariant (ub_base v) ∧
  shared_reachable record_call σ ∧
  view_invariant (ub_base (fst (unique_buffer_swap u v))) ∧
  view_invariant (ub_base (fst (unique_buffer_reset record_call u []))) ∧
  unique_buffer_view u = mk_buffer_base 4096 5 Host ∧
  ¬ view_invariant
      (unique_buffer_view (unique_buffer_adopt (D := nat) 4096 0 None Host)).
Proof.
  intros u v σ.
  assert (H1 : ∀ n p : Z, (λ _ : Z, Some 4096) n = Some p → p ≠ nullptr).
  { intros n p [= <-]. unfold nullptr. lia. }
  assert (H2 : view_invariant (ub_base u)).
  { unfold view_invariant, nullptr. simpl. lia. }
  assert (H3 : view_invariant (ub_base v)) by done.
  assert (H4 : shared_reachable record_call σ).
  { exists []. apply rtc_refl. }
  split; [exact H1 |]. split; [exact H2 |]. split; [exact H3 |].
  split; [exact H4 |].
  destruct (view_invariant_of_handles record_call (λ _, Some 4096) 0%nat
              u v σ H1 H2 H3 H4)
    as (_ & _ & Hadopt & _ & _ & _ & _ & _ & _ & Hreset & Hswap & _ & Hview
        & _).
  split; [exact Hswap |]. split; [apply Hreset |].
  split; [by destruct (Hview u) as [-> _] |].
  intros Hbad.
  destruct (Hview (unique_buffer_adopt 4096 0 None Host)) as [_ Hiff].
  pose proof (proj1 Hiff Hbad) as Hbase.
  pose proof (proj1 (Hadopt 4096 0 None Host) Hbase) as [_ Hback].
  specialize (Hback eq_refl). unfold nullptr in Hback. lia.
Defined.

(* ===================================================================== *)
(** * Part III — further properties of the code                           *)
(* ===================================================================== *)

(** ** MemPool: construction *)


(** ** MemPool: the layout of the region *)

(** Without overflow the stride is never smaller than the block. *)
Lemma pool_stride_covers_block (sizeof_T Alignment block_size : Z) :
  0 < sizeof_T → 0 < Alignment → 0 < block_size →
  block_size * sizeof_T + Alignment - 1 < size_modulus →
  block_size ≤ pool_stride sizeof_T Alignment block_size.
Proof.
  intros Hs HA Hb Hfit.
  assert (Hbyte : pool_byte_size sizeof_T block_size = block_size * sizeof_T).
  { unfold pool_byte_size. apply to_size_t_small. unfold is_size_t. nia. }
  set (x := block_size * sizeof_T + Alignment - 1).
  assert (Hx : 0 ≤ x < size_modulus) by (unfold x; nia).
  pose proof (Z.mul_div_le x Alignment HA) as Hle.
  assert (Hq : 0 ≤ x / Alignment) by (apply Z.div_pos; lia).
  unfold pool_stride, pool_aligned_byte_size. rewrite Hbyte. fold x.
  rewrite (to_size_t_small x) by exact Hx.
  assert (Hpad : is_size_t (x / Alignment * Alignment)).
  { unfold is_size_t. split; [apply Z.mul_nonneg_nonneg; lia | lia]. }
  rewrite (to_size_t_small _ Hpad).
  apply Z.div_le_lower_bound; [lia |].
  pose proof (Z.mul_succ_div_gt x Alignment HA) as Hgt.
  rewrite Z.mul_succ_r in Hgt. subst x. lia.
Qed.

(** When neither the rounding nor the size of the region overflows, the
    blocks lie inside the region that was requested from the allocator, in
    ascending order, and no two of them overlap. *)
Lemma pool_blocks_disjoint
    (sizeof_T Alignment block_size block_count data i j : Z) :
  0 < sizeof_T → 0 < Alignment → 0 < block_size →
  block_size * sizeof_T + Alignment - 1 < size_modulus →
  pool_stride sizeof_T Alignment block_size * sizeof_T * block_count
    < size_modulus →
  0 ≤ i → i < j → j < block_count →
  let stride := pool_stride sizeof_T Alignment block_size in
  data ≤ block_start sizeof_T data stride i ∧
  block_start sizeof_T data stride i + block_size * sizeof_T
    ≤ block_start sizeof_T data stride j ∧
  block_start sizeof_T data stride j + block_size * sizeof_T
    ≤ data + pool_total_bytes sizeof_T Alignment block_size block_count.
Proof.
  intros Hs HA Hb Hfit Hregion Hi Hij Hj stride.
  pose proof (pool_stride_covers_block sizeof_T Alignment block_size
                Hs HA Hb Hfit) as Hcover.
  fold stride in Hcover, Hregion.
  set (pitch := stride * sizeof_T) in *.
  assert (Hpitch : stride ≤ pitch) by (unfold pitch; nia).
  assert (Hblock : block_size * sizeof_T ≤ pitch)
    by (unfold pitch; apply Z.mul_le_mono_nonneg_r; lia).
  assert (Hmono : ∀ a b, 0 ≤ a → a ≤ b → a * pitch ≤ b * pitch)
    by (intros a b Ha Hab; apply Z.mul_le_mono_nonneg_r; lia).
  pose proof (Hmono i j Hi ltac:(lia)) as Hij_le.
  pose proof (Hmono (i + 1) j ltac:(lia) ltac:(lia)) as Hnext.
  pose proof (Hmono (j + 1) block_count ltac:(lia) ltac:(lia)) as Hlast.
  assert (Hscale : ∀ a, 0 ≤ a → 0 ≤ a * stride ∧ a * stride ≤ a * pitch).
  { intros a Ha. split; [apply Z.mul_nonneg_nonneg; lia |].
    apply Z.mul_le_mono_nonneg_l; lia. }
  destruct (Hscale i Hi) as [Hi0 Hi1].
  destruct (Hscale j ltac:(lia)) as [Hj0 Hj1].
  assert (Hi' : to_size_t (i * stride) = i * stride)
    by (apply to_size_t_small; unfold is_size_t; lia).
  assert (Hj' : to_size_t (j * stride) = j * stride)
    by (apply to_size_t_small; unfold is_size_t; lia).
  assert (Htotal : pool_total_bytes sizeof_T Alignment block_size block_count
                   = pitch * block_count).
  { unfold pool_total_bytes. fold stride. fold pitch.
    rewrite (to_size_t_small pitch) by (unfold is_size_t; lia).
    apply to_size_t_small. unfold is_size_t. lia. }
  unfold block_start, ptr_add. rewrite Hi', Hj', Htotal.
  replace (i * stride * sizeof_T) with (i * pitch) by (unfold pitch; ring).
  replace (j * stride * sizeof_T) with (j * pitch) by (unfold pitch; ring).
  split; [lia |]. split; lia.
Qed.

(** ** MemPool: what clients can rely on *)

Lemma last_Some_snoc {A : Type} (l : list A) (x : A) :
  last l = Some x → l = removelast l ++ [x].
Proof.
  destruct l as [| y l] using rev_ind; [done |].
  rewrite last_snoc. intros [= ->]. by rewrite removelast_last.
Qed.

Lemma MemPool_allocate_throws_unchanged (pool pool' : MemPool)
    (e : exception) :
  MemPool_allocate pool = (inl e, pool') →
  pool' = pool ∧ e = std_runtime_error ∧ free_blocks_ pool = [].
Proof.
  unfold MemPool_allocate.
  destruct (last (free_blocks_ pool)) as [A |] eqn:Hlast; [done |].
  intros [= <- <-]. repeat split. by apply last_None.
Qed.

(** What stays true of a pool and the handles leased from it: the
    geometry is the one of the pool [origin], the leased blocks together
    with the free ones are the blocks [blocks], and every leased handle is
    as [allocate] issued it. *)
Lemma pool_client_step_invariant (origin : MemPool) (blocks : list pointer)
    (s s' : MemPool * list (unique_buffer pool_deleter)) :
  pool_client_step s s' →
  (block_size_ s.1 = block_size_ origin ∧
   stride_ s.1 = stride_ origin ∧ block_count_ s.1 = block_count_ origin ∧
   pool_location_ s.1 = pool_location_ origin ∧
   pool_data_ s.1 = pool_data_ origin) →
  leased_blocks s.2 ++ free_blocks_ s.1 ≡ₚ blocks →
  Forall (λ p, p ≠ nullptr) blocks →
  Forall (issued_by origin) s.2 →
  (block_size_ s'.1 = block_size_ origin ∧
   stride_ s'.1 = stride_ origin ∧ block_count_ s'.1 = block_count_ origin ∧
   pool_location_ s'.1 = pool_location_ origin ∧
   pool_data_ s'.1 = pool_data_ origin) ∧
  leased_blocks s'.2 ++ free_blocks_ s'.1 ≡ₚ blocks ∧
  Forall (issued_by origin) s'.2.
Proof.
  intros Hstep Hgeo Hperm Hnonnull Hlive.
  destruct Hstep as [pool live h pool' Hrun | pool live e pool' Hrun
                    | pool live1 h live2 h' pool' Hrun]; simpl in *.
  - unfold MemPool_allocate in Hrun.
    destruct (last (free_blocks_ pool)) as [A |] eqn:Hlast; [| done].
    injection Hrun as <- <-. simpl.
    pose proof (last_Some_snoc _ _ Hlast) as Hsnoc.
    split; [done |]. split.
    + rewrite <- Hperm. rewrite Hsnoc at 2.
      rewrite (Permutation_app_comm (removelast _) [A]). simpl.
      by rewrite Permutation_middle.
    + constructor; [| done]. destruct Hgeo as (Hbs & _ & _ & Hloc & _).
      repeat split; simpl; try done.
      rewrite Forall_forall in Hnonnull. apply Hnonnull.
      rewrite <- Hperm. apply elem_of_app. right. rewrite Hsnoc.
      apply elem_of_app. right. by apply list_elem_of_singleton.
  - destruct (MemPool_allocate_throws_unchanged _ _ _ Hrun) as (-> & _).
    done.
  - apply Forall_app in Hlive as [Hlive1 Hlive2].
    apply Forall_cons in Hlive2 as [(Hown & _ & _ & Hdel) Hlive2].
    rewrite unique_buffer_reset_leased in Hrun by done.
    injection Hrun as <- <-. simpl.
    split; [done |]. split; [| by apply Forall_app].
    rewrite <- Hperm. unfold leased_blocks. rewrite !map_app. simpl.
    rewrite <- !app_assoc. apply Permutation_app_head.
    rewrite app_assoc. rewrite <- Permutation_cons_append. done.
Qed.

Lemma pool_client_invariant (origin : MemPool)
    (s : MemPool * list (unique_buffer pool_deleter)) :
  Forall (λ p, p ≠ nullptr) (free_blocks_ origin) →
  rtc pool_client_step (origin, []) s →
  (block_size_ s.1 = block_size_ origin ∧
   stride_ s.1 = stride_ origin ∧ block_count_ s.1 = block_count_ origin ∧
   pool_location_ s.1 = pool_location_ origin ∧
   pool_data_ s.1 = pool_data_ origin) ∧
  leased_blocks s.2 ++ free_blocks_ s.1 ≡ₚ free_blocks_ origin ∧
  Forall (issued_by origin) s.2.
Proof.
  intros Hnonnull Hpath.
  assert (Hclosed : ∀ s0 s1,
    rtc pool_client_step s0 s1 →
    ((block_size_ s0.1 = block_size_ origin ∧
      stride_ s0.1 = stride_ origin ∧
      block_count_ s0.1 = block_count_ origin ∧
      pool_location_ s0.1 = pool_location_ origin ∧
      pool_data_ s0.1 = pool_data_ origin) ∧
     leased_blocks s0.2 ++ free_blocks_ s0.1 ≡ₚ free_blocks_ origin ∧
     Forall (issued_by origin) s0.2) →
    (block_size_ s1.1 = block_size_ origin ∧
     stride_ s1.1 = stride_ origin ∧
     block_count_ s1.1 = block_count_ origin ∧
     pool_location_ s1.1 = pool_location_ origin ∧
     pool_data_ s1.1 = pool_data_ origin) ∧
    leased_blocks s1.2 ++ free_blocks_ s1.1 ≡ₚ free_blocks_ origin ∧
    Forall (issued_by origin) s1.2).
  { intros s0 s1 Hrtc.
    induction Hrtc as [| sa sb sc Hstep _ IH]; [done |].
    intros (Hgeo & Hperm & Hlive). apply IH.
    by apply (pool_client_step_invariant origin (free_blocks_ origin) sa sb). }
  apply (Hclosed _ _ Hpath). simpl. repeat split; done.
Qed.

Section pool_clients.
Variables (sizeof_T Alignment : Z) (aligned_alloc : Z → Z → pointer).
Variables (tdc : bool) (construct_block : pointer → Z → bool).
Variables (vector_max_size : Z) (vector_allocate : Z → bool).
Variables (block_size block_count : Z) (loc : MemoryLocation).
Variables (origin pool : MemPool).
Variable live : list (unique_buffer pool_deleter).

Hypothesis Hnew :
  MemPool_new sizeof_T Alignment aligned_alloc tdc construct_block
              vector_max_size vector_allocate
              block_size block_count loc = inr origin.
Hypothesis Hpath : rtc pool_client_step (origin, []) (pool, live).
(** Addresses and sizes are not negative. *)
Hypothesis Hsize : 0 ≤ sizeof_T.
Hypothesis Hcount : 0 ≤ block_count.
Hypothesis Hbase : 0 ≤ pool_data_ origin.

Lemma pool_fresh_blocks_nonnull :
  Forall (λ p, p ≠ nullptr) (free_blocks_ origin).
Proof.
  destruct (MemPool_new_geometry _ _ _ _ _ _ _ _ _ _ _ Hnew)
    as (_ & _ & _ & Hdata & Hfree & _).
  rewrite Hfree. apply Forall_forall. intros p Hp.
  apply list_elem_of_fmap in Hp as (i & -> & _).
  unfold block_start, ptr_add, nullptr in *.
  assert (0 ≤ to_size_t (i * stride_ origin))
    by (unfold to_size_t; apply Z.mod_pos_bound; reflexivity).
  nia.
Qed.

Lemma pool_fresh_location : pool_location_ origin = loc.
Proof.
  pose proof Hnew as Hrun. unfold MemPool_new in Hrun.
  destruct (decide (block_size = 0 ∨ block_count = 0)); [done |].
  destruct (decide (aligned_alloc Alignment _ = nullptr)); [done |].
  destruct (negb tdc && negb _); [done |].
  destruct (vector_reserve _ _ _); [done |]. by injection Hrun as <-.
Qed.

(** Every block a client holds, and every free one, is one of the blocks
    the constructor laid out. *)
Lemma pool_client_block_index (p : pointer) :
  p ∈ leased_blocks live ++ free_blocks_ pool →
  ∃ i, 0 ≤ i < block_count ∧
       p = block_start sizeof_T (pool_data_ origin)
             (pool_stride sizeof_T Alignment block_size) i.
Proof.
  destruct (pool_client_invariant origin (pool, live)
              pool_fresh_blocks_nonnull Hpath) as (_ & Hperm & _).
  destruct (MemPool_new_geometry _ _ _ _ _ _ _ _ _ _ _ Hnew)
    as (_ & _ & Hstride & _ & Hfree & _).
  simpl in Hperm. rewrite Hperm, Hfree, Hstride. intros Hp.
  apply list_elem_of_fmap in Hp as (i & -> & Hi).
  apply elem_of_seqZ in Hi. exists i. split; [lia | done].
Qed.

(** X2. Whatever a client has done with a pool, the handles it holds and
    the free blocks add up to the capacity; [allocate] throws exactly
    when all blocks are out; and every handle it holds is non-empty, has
    the requested block size (not the stride), the location of the pool
    and the deleter that gives the block back. *)
Theorem pool_client_conservation :
  MemPool_available pool + Z.of_nat (length live) = MemPool_capacity pool ∧
  MemPool_capacity pool = block_count ∧
  MemPool_block_size pool = block_size ∧
  (MemPool_allocate pool = (inl std_runtime_error, pool)
   ↔ Z.of_nat (length live) = block_count) ∧
  Forall (λ h, unique_buffer_bool h = true ∧
               count_ (ub_base h) = block_size ∧
               location_ (ub_base h) = loc ∧
               deleter_ h = Some return_to_pool) live.
Proof.
  destruct (pool_client_invariant origin (pool, live)
              pool_fresh_blocks_nonnull Hpath)
    as ((Hbs & _ & Hbc & _ & _) & Hperm & Hlive).
  destruct (MemPool_new_geometry _ _ _ _ _ _ _ _ _ _ _ Hnew)
    as (Hbs0 & Hcap0 & _ & _ & _ & Hlen).
  simpl in *. unfold MemPool_capacity, MemPool_block_size in *.
  pose proof pool_fresh_location as Hloc0.
  assert (Hsum : (length live + length (free_blocks_ pool))%nat
                 = Z.to_nat block_count).
  { rewrite <- Hlen. apply Permutation_length in Hperm.
    rewrite length_app in Hperm. unfold leased_blocks in Hperm.
    by rewrite length_map in Hperm. }
  unfold MemPool_available.
  split; [lia |]. split; [lia |]. split; [lia |]. split.
  - split.
    + intros Hfull. unfold MemPool_allocate in Hfull.
      destruct (last (free_blocks_ pool)) as [A |] eqn:Hlast; [done |].
      apply last_None in Hlast. rewrite Hlast in Hsum. simpl in Hsum. lia.
    + intros Hall. apply MemPool_allocate_empty.
      destruct (free_blocks_ pool); [done |]. simpl in Hsum. lia.
  - eapply Forall_impl; [exact Hlive |].
    intros h (Hown & Hcnt & Hloc & Hdel). unfold unique_buffer_bool.
    rewrite bool_decide_eq_false_2 by done. repeat split; try done; congruence.
Qed.

(** X3. When the layout does not overflow, two handles that a client holds at
    the same time never share memory: their blocks are disjoint, lie
    inside the region the pool allocated, and are not in the free list. *)
Theorem pool_client_blocks_disjoint (k1 k2 : nat)
    (h1 h2 : unique_buffer pool_deleter) :
  0 < sizeof_T → 0 < Alignment → 0 < block_size →
  block_size * sizeof_T + Alignment - 1 < size_modulus →
  pool_stride sizeof_T Alignment block_size * sizeof_T * block_count
    < size_modulus →
  k1 ≠ k2 → live !! k1 = Some h1 → live !! k2 = Some h2 →
  let bytes := block_size * sizeof_T in
  (data_ (ub_base h1) + bytes ≤ data_ (ub_base h2)
   ∨ data_ (ub_base h2) + bytes ≤ data_ (ub_base h1)) ∧
  pool_data_ pool ≤ data_ (ub_base h1) ∧
  data_ (ub_base h1) + bytes
    ≤ pool_data_ pool
      + pool_total_bytes sizeof_T Alignment block_size block_count ∧
  data_ (ub_base h1) ∉ free_blocks_ pool.
Proof.
  intros Hs HA Hb Hfit Hregion Hk Hk1 Hk2 bytes.
  destruct (pool_client_invariant origin (pool, live)
              pool_fresh_blocks_nonnull Hpath)
    as ((_ & _ & _ & _ & Hdata) & Hperm & _).
  destruct (MemPool_new_geometry _ _ _ _ _ _ _ _ _ _ _ Hnew)
    as (_ & _ & Hstride & _ & Hfree & _).
  simpl in Hperm, Hdata.
  set (stride := pool_stride sizeof_T Alignment block_size) in *.
  set (base := pool_data_ origin) in *.
  assert (Hlayout : ∀ i j, 0 ≤ i → i < j → j < block_count →
            base ≤ block_start sizeof_T base stride i ∧
            block_start sizeof_T base stride i + bytes
              ≤ block_start sizeof_T base stride j ∧
            block_start sizeof_T base stride j + bytes
              ≤ base + pool_total_bytes sizeof_T Alignment block_size
                         block_count).
  { intros i j Hi Hij Hj.
    exact (pool_blocks_disjoint sizeof_T Alignment block_size block_count
             base i j Hs HA Hb Hfit Hregion Hi Hij Hj). }
  assert (Hnodup : NoDup (leased_blocks live ++ free_blocks_ pool)).
  { rewrite Hperm, Hfree, Hstride. apply NoDup_fmap_2_strong.
    - intros i j Hi Hj Heq. apply elem_of_seqZ in Hi, Hj.
      destruct (Z.lt_trichotomy i j) as [Hlt | [-> | Hgt]]; [| done |].
      + destruct (Hlayout i j ltac:(lia) Hlt ltac:(lia)) as (_ & Hsep & _).
        unfold bytes in Hsep. nia.
      + destruct (Hlayout j i ltac:(lia) Hgt ltac:(lia)) as (_ & Hsep & _).
        unfold bytes in Hsep. nia.
    - apply NoDup_seqZ. }
  apply NoDup_app in Hnodup as (Hleased & Hapart & _).
  assert (Hin1 : data_ (ub_base h1) ∈ leased_blocks live).
  { apply list_elem_of_fmap. exists h1. split; [done |].
    by apply list_elem_of_lookup_2 with k1. }
  assert (Hin2 : data_ (ub_base h2) ∈ leased_blocks live).
  { apply list_elem_of_fmap. exists h2. split; [done |].
    by apply list_elem_of_lookup_2 with k2. }
  destruct (pool_client_block_index (data_ (ub_base h1)))
    as (i & Hi & Hp1); [apply elem_of_app; by left |].
  destruct (pool_client_block_index (data_ (ub_base h2)))
    as (j & Hj & Hp2); [apply elem_of_app; by left |].
  fold stride base in Hp1, Hp2.
  assert (Hne : data_ (ub_base h1) ≠ data_ (ub_base h2)).
  { intros Heq. apply Hk.
    apply (NoDup_lookup (leased_blocks live) k1 k2 (data_ (ub_base h1)));
      [done | | ]; unfold leased_blocks; rewrite list_lookup_fmap.
    - by rewrite Hk1.
    - rewrite Hk2. simpl. by rewrite Heq. }
  assert (Hij : i ≠ j) by (intros ->; congruence).
  rewrite Hdata. rewrite Hp1, Hp2.
  split; [| split; [| split]].
  - destruct (Z.lt_trichotomy i j) as [Hlt | [-> | Hgt]]; [| done |].
    + left. by destruct (Hlayout i j ltac:(lia) Hlt ltac:(lia)) as (_ & ? & _).
    + right. by destruct (Hlayout j i ltac:(lia) Hgt ltac:(lia)) as (_ & ? & _).
  - destruct (Z.lt_trichotomy i j) as [Hlt | [-> | Hgt]]; [| done |].
    + by destruct (Hlayout i j ltac:(lia) Hlt ltac:(lia)) as (? & _).
    + destruct (Hlayout j i ltac:(lia) Hgt ltac:(lia)) as (? & ? & _).
      unfold bytes in *. nia.
  - destruct (Z.lt_trichotomy i j) as [Hlt | [-> | Hgt]]; [| done |].
    + destruct (Hlayout i j ltac:(lia) Hlt ltac:(lia)) as (_ & ? & ?).
      unfold bytes in *. nia.
    + by destruct (Hlayout j i ltac:(lia) Hgt ltac:(lia)) as (_ & _ & ?).
  - rewrite <- Hp1. by apply Hapart.
Qed.

(** X4. When [sizeof(T)] divides the alignment, the layout does not overflow
    and the region is aligned, every handle a client holds points to an
    aligned address, and so does every free block. *)
Theorem pool_client_blocks_aligned :
  0 < sizeof_T → 0 < Alignment → (sizeof_T | Alignment) → 0 < block_size →
  block_size * sizeof_T + Alignment - 1 < size_modulus →
  pool_stride sizeof_T Alignment block_size * sizeof_T * block_count
    < size_modulus →
  pool_data_ origin mod Alignment = 0 →
  Forall (λ h, data_ (ub_base h) mod Alignment = 0) live ∧
  Forall (λ p, p mod Alignment = 0) (free_blocks_ pool).
Proof.
  intros Hs HA Hdiv Hb Hfit Hregion Haligned.
  assert (Hall : ∀ p, p ∈ leased_blocks live ++ free_blocks_ pool →
                      p mod Alignment = 0).
  { intros p Hp. destruct (pool_client_block_index p Hp) as (i & Hi & ->).
    apply block_start_aligned; try done.
    pose proof (pool_stride_covers_block sizeof_T Alignment block_size
                  Hs HA Hb Hfit) as Hcover.
    set (stride := pool_stride sizeof_T Alignment block_size) in *.
    unfold is_size_t. split; [apply Z.mul_nonneg_nonneg; lia |].
    assert (i * stride ≤ block_count * stride)
      by (apply Z.mul_le_mono_nonneg_r; lia).
    assert (block_count * stride ≤ block_count * stride * sizeof_T)
      by (apply Z.le_mul_diag_r; [apply Z.mul_pos_pos |]; lia).
    lia. }
  split; apply Forall_forall.
  - intros h Hh. apply Hall. apply elem_of_app. left.
    apply list_elem_of_fmap. by exists h.
  - intros p Hp. apply Hall. apply elem_of_app. by right.
Qed.
End pool_clients.

Lemma pool_client_conservation_witness :
  ∃ origin pool live,
    MemPool_new 4 64 (λ _ _, 4096) true (λ _ _, true)
      (2 ^ 60 - 1) (λ _, true) 16 2 Host
      = inr origin ∧
    rtc pool_client_step (origin, []) (pool, live) ∧
    0 ≤ 4 ∧ 0 ≤ 2 ∧ 0 ≤ pool_data_ origin ∧
    length live = 2%nat ∧
    MemPool_available pool + Z.of_nat (length live) = MemPool_capacity pool.
Proof.
  eexists (mk_MemPool 16 16 2 Host 4096 [4096; 4160]), _, _.
  assert (H1 : MemPool_new 4 64 (λ _ _, 4096) true (λ _ _, true)
                 (2 ^ 60 - 1) (λ _, true) 16 2 Host
               = inr (mk_MemPool 16 16 2 Host 4096 [4096; 4160]))
    by (vm_compute; reflexivity).
  assert (H2 : rtc pool_client_step
                 (mk_MemPool 16 16 2 Host 4096 [4096; 4160], []) _)
    by two_leases.
  assert (H3 : 0 ≤ 4) by lia. assert (H4 : 0 ≤ 2) by lia.
  assert (H5 : 0 ≤ pool_data_ (mk_MemPool 16 16 2 Host 4096 [4096; 4160]))
    by (simpl; lia).
  split; [exact H1 |]. split; [exact H2 |]. split; [exact H3 |].
  split; [exact H4 |]. split; [exact H5 |]. split; [reflexivity |].
  by destruct (pool_client_conservation _ _ _ _ _ _ _ _ _ _ _ _ _
                 H1 H2 H3 H4 H5) as (Hsum & _).
Defined.

Lemma pool_client_blocks_disjoint_witness :
  ∃ origin pool live h1 h2,
    MemPool_new 4 64 (λ _ _, 4096) true (λ _ _, true)
      (2 ^ 60 - 1) (λ _, true) 16 2 Host
      = inr origin ∧
    rtc pool_client_step (origin, []) (pool, live) ∧
    live !! 0%nat = Some h1 ∧ live !! 1%nat = Some h2 ∧
    (data_ (ub_base h1) + 16 * 4 ≤ data_ (ub_base h2)
     ∨ data_ (ub_base h2) + 16 * 4 ≤ data_ (ub_base h1)).
Proof.
  eexists (mk_MemPool 16 16 2 Host 4096 [4096; 4160]), _, _, _, _.
  assert (H1 : MemPool_new 4 64 (λ _ _, 4096) true (λ _ _, true)
                 (2 ^ 60 - 1) (λ _, true) 16 2 Host
               = inr (mk_MemPool 16 16 2 Host 4096 [4096; 4160]))
    by (vm_compute; reflexivity).
  assert (H2 : rtc pool_client_step
                 (mk_MemPool 16 16 2 Host 4096 [4096; 4160], []) _)
    by two_leases.
  assert (H3 : 0 ≤ 4) by lia. assert (H4 : 0 ≤ 2) by lia.
  assert (H5 : 0 ≤ pool_data_ (mk_MemPool 16 16 2 Host 4096 [4096; 4160]))
    by (simpl; lia).
  assert (H6 : 0 < 4) by lia. assert (H7 : 0 < 64) by lia.
  assert (H8 : 0 < 16) by lia.
  assert (H9 : 16 * 4 + 64 - 1 < size_modulus) by reflexivity.
  assert (H10 : pool_stride 4 64 16 * 4 * 2 < size_modulus) by reflexivity.
  assert (H11 : 0%nat ≠ 1%nat) by lia.
  split; [exact H1 |]. split; [exact H2 |].
  split; [reflexivity |]. split; [reflexivity |].
  by destruct (pool_client_blocks_disjoint _ _ _ _ _ _ _ _ _ _ _ _ _
                 H1 H2 H3 H4 H5 0%nat 1%nat _ _ H6 H7 H8 H9 H10 H11
                 eq_refl eq_refl) as (Hsep & _).
Defined.

Lemma pool_client_blocks_aligned_witness :
  ∃ origin pool live,
    MemPool_new 4 64 (λ _ _, 4096) true (λ _ _, true)
      (2 ^ 60 - 1) (λ _, true) 16 2 Host
      = inr origin ∧
    rtc pool_client_step (origin, []) (pool, live) ∧
    (4 | 64) ∧ pool_data_ origin mod 64 = 0 ∧ length live = 2%nat ∧
    Forall (λ h, data_ (ub_base h) mod 64 = 0) live.
Proof.
  eexists (mk_MemPool 16 16 2 Host 4096 [4096; 4160]), _, _.
  assert (H1 : MemPool_new 4 64 (λ _ _, 4096) true (λ _ _, true)
                 (2 ^ 60 - 1) (λ _, true) 16 2 Host
               = inr (mk_MemPool 16 16 2 Host 4096 [4096; 4160]))
    by (vm_compute; reflexivity).
  assert (H2 : rtc pool_client_step
                 (mk_MemPool 16 16 2 Host 4096 [4096; 4160], []) _)
    by two_leases.
  assert (H3 : 0 ≤ 4) by lia.
  assert (H5 : 0 ≤ pool_data_ (mk_MemPool 16 16 2 Host 4096 [4096; 4160]))
    by (simpl; lia).
  assert (H6 : 0 < 4) by lia. assert (H7 : 0 < 64) by lia.
  assert (Hdiv : (4 | 64)) by (exists 16; reflexivity).
  assert (H8 : 0 < 16) by lia.
  assert (H9 : 16 * 4 + 64 - 1 < size_modulus) by reflexivity.
  assert (H10 : pool_stride 4 64 16 * 4 * 2 < size_modulus) by reflexivity.
  assert (H11 : pool_data_ (mk_MemPool 16 16 2 Host 4096 [4096; 4160])
                mod 64 = 0) by reflexivity.
  split; [exact H1 |]. split; [exact H2 |]. split; [exact Hdiv |].
  split; [exact H11 |]. split; [reflexivity |].
  by destruct (pool_client_blocks_aligned _ _ _ _ _ _ _ _ _ _ _ _ _
                 H1 H2 H3 H5 H6 H7 Hdiv H8 H9 H10 H11) as (Hlive & _).
Defined.

(** ** shared_buffer: what every reachable memory guarantees *)

(** A block with an owner count above zero has a handle pointing to it. *)
Lemma owners_witness (c : Z) (hs : gmap Z Z) :
  (1 ≤ owners c hs)%nat → ∃ h, hs !! h = Some c.
Proof.
  unfold owners. intros Hpos.
  destruct (map_choose (filter (λ kv : Z * Z, kv.2 = c) hs))
    as (h & v & Hv).
  - intros Hempty. rewrite Hempty, map_size_empty in Hpos. lia.
  - apply map_lookup_filter_Some in Hv as [Hh Hc]. simpl in Hc. subst v.
    by exists h.
Qed.

Section shared_buffer_guarantees.
Context {D W : Type}.
Variable invoke : D → pointer → W → W.

Local Abbreviation state := (shared_state D W).

(** X5. The count of every live control block is exactly the number of live
    handles that point to it and is never zero, so no control block is
    orphaned; no handle points to a freed block; and [use_count()] of a
    non-empty handle is the number of handles that share its buffer. *)
Theorem shared_buffer_counts_exact (σ : state) :
  shared_reachable invoke σ →
  (∀ c cb, ctrls σ !! c = Some cb →
     cb_ref cb = Z.of_nat (owners c (handles σ)) ∧
     1 ≤ cb_ref cb < size_modulus ∧
     ∃ h, handles σ !! h = Some c) ∧
  (∀ h c, handles σ !! h = Some c → c ≠ nullptr →
     is_Some (ctrls σ !! c) ∧
     shared_buffer_use_count h σ
       = Some (Z.of_nat (owners c (handles σ)))) ∧
  (∀ h1 h2 c, handles σ !! h1 = Some c → handles σ !! h2 = Some c →
     shared_buffer_use_count h1 σ = shared_buffer_use_count h2 σ ∧
     shared_buffer_data h1 σ = shared_buffer_data h2 σ).
Proof.
  intros Hreach. pose proof (shared_reachable_wf invoke σ Hreach) as Hwf.
  split; [| split].
  - intros c cb Hcb.
    destruct (wf_block _ _ Hwf c cb Hcb) as (Hc & _ & _ & Href & Hpos).
    rewrite decide_False in Href by done.
    pose proof (shared_wf_ref_bounds _ _ _ _ Hwf Hcb) as Hb.
    rewrite max_live_handles_eq in Hb.
    split; [lia |]. split; [rewrite size_modulus_eq; lia |].
    apply owners_witness. lia.
  - intros h c Hh Hc. split; [by apply (wf_live _ _ Hwf h) |].
    by destruct (shared_buffer_use_count_owners h c σ Hwf Hh Hc) as [? _].
  - intros h1 h2 c H1 H2.
    unfold shared_buffer_use_count, shared_buffer_data, read_ctrl.
    by rewrite H1, H2.
Qed.

(** X6. No member function ever reaches a freed control block: on the live
    handles of a reachable memory every operation and every observer is
    defined. *)
Theorem shared_buffer_operations_defined (σ : state) (this other : Z)
    (c c' : Z) :
  shared_reachable invoke σ →
  handles σ !! this = Some c → handles σ !! other = Some c' →
  is_Some (shared_buffer_copy_assign invoke this other σ) ∧
  is_Some (shared_buffer_move_assign invoke this other σ) ∧
  is_Some (shared_buffer_swap this other σ) ∧
  is_Some (shared_buffer_reset invoke this σ) ∧
  is_Some (shared_buffer_destroy invoke this σ) ∧
  is_Some (shared_buffer_release this σ) ∧
  is_Some (shared_buffer_data this σ) ∧
  is_Some (shared_buffer_size this σ) ∧
  is_Some (shared_buffer_empty this σ) ∧
  is_Some (shared_buffer_location this σ) ∧
  is_Some (shared_buffer_view this σ) ∧
  is_Some (shared_buffer_use_count this σ) ∧
  is_Some (shared_buffer_bool this σ) ∧
  (∀ fresh, handles σ !! fresh = None →
     is_Some (shared_buffer_copy_construct fresh this σ) ∧
     is_Some (shared_buffer_move_construct fresh this σ)).
Proof.
  intros Hreach Hthis Hother.
  pose proof (shared_reachable_wf invoke σ Hreach) as Hwf.
  assert (Hobs : is_Some (shared_buffer_data this σ) ∧
                 is_Some (shared_buffer_size this σ) ∧
                 is_Some (shared_buffer_empty this σ) ∧
                 is_Some (shared_buffer_location this σ) ∧
                 is_Some (shared_buffer_view this σ) ∧
                 is_Some (shared_buffer_use_count this σ) ∧
                 is_Some (shared_buffer_bool this σ)).
  { destruct (decide (c = nullptr)) as [-> | Hc].
    - destruct (shared_buffer_observers_null this σ Hthis)
        as (-> & -> & -> & -> & -> & -> & ->). repeat split; by eexists.
    - destruct (wf_live _ _ Hwf this c Hthis Hc) as [cb Hcb].
      destruct (shared_buffer_observers_live this c cb σ Hthis Hc Hcb)
        as (-> & -> & -> & -> & -> & -> & ->). repeat split; by eexists. }
  split.
  { destruct (decide (this = other)) as [<- | Hne].
    - unfold shared_buffer_copy_assign. rewrite Hthis. simpl.
      rewrite decide_True by done. by eexists.
    - destruct (shared_buffer_copy_assign_wf invoke this other c c' σ
                  Hwf Hne Hthis Hother) as (σ' & -> & _). by eexists. }
  split.
  { destruct (decide (this = other)) as [<- | Hne].
    - unfold shared_buffer_move_assign. rewrite Hthis. simpl.
      rewrite decide_True by done. by eexists.
    - destruct (shared_buffer_move_assign_wf invoke this other c c' σ
                  Hwf Hne Hthis Hother) as (σ' & -> & _). by eexists. }
  split.
  { unfold shared_buffer_swap. rewrite Hthis, Hother. by eexists. }
  split.
  { destruct (shared_buffer_reset_wf invoke this c σ Hwf Hthis)
      as (σ' & -> & _). by eexists. }
  split.
  { destruct (shared_buffer_destroy_wf invoke this c σ Hwf Hthis)
      as (σ' & -> & _). by eexists. }
  split.
  { destruct (shared_buffer_release_wf invoke this c σ Hwf Hthis)
      as (r & σ' & -> & _). by eexists. }
  destruct Hobs as (? & ? & ? & ? & ? & ? & ?).
  do 7 (split; [done |]).
  intros fresh Hfresh. split.
  - unfold shared_buffer_copy_construct. rewrite Hfresh, Hthis. simpl.
    destruct (decide (c = nullptr)) as [| Hc]; [by eexists |].
    destruct (wf_live _ _ Hwf this c Hthis Hc) as [cb Hcb].
    unfold fetch_add_ref. simpl. rewrite Hcb. by eexists.
  - unfold shared_buffer_move_construct. rewrite Hfresh, Hthis. by eexists.
Qed.

(** The observers of a handle depend only on its [ctrl_] and on the
    control blocks. *)
Lemma shared_buffer_observers_ext (h h' : Z) (σ σ' : state) :
  handles σ' !! h' = handles σ !! h → ctrls σ' = ctrls σ →
  shared_buffer_data h' σ' = shared_buffer_data h σ ∧
  shared_buffer_size h' σ' = shared_buffer_size h σ ∧
  shared_buffer_empty h' σ' = shared_buffer_empty h σ ∧
  shared_buffer_location h' σ' = shared_buffer_location h σ ∧
  shared_buffer_view h' σ' = shared_buffer_view h σ ∧
  shared_buffer_use_count h' σ' = shared_buffer_use_count h σ ∧
  shared_buffer_bool h' σ' = shared_buffer_bool h σ.
Proof.
  intros Hh Hc.
  unfold shared_buffer_view, shared_buffer_empty, shared_buffer_data,
    shared_buffer_size, shared_buffer_location, shared_buffer_use_count,
    shared_buffer_bool, read_ctrl.
  rewrite Hh, Hc. repeat split.
Qed.

(** X7. Dropping a handle, by [reset()] or by its destructor: the deleter
    runs exactly when the handle was the last owner — once, on the
    pointer of the block, which is then freed; with other owners left the
    world is untouched and each of them sees the count go down by one. *)
Theorem shared_buffer_last_owner_teardown (σ : state) (this c : Z)
    (cb : control_block D) :
  shared_reachable invoke σ →
  handles σ !! this = Some c → c ≠ nullptr → ctrls σ !! c = Some cb →
  ∃ σd σr,
    shared_buffer_destroy invoke this σ = Some σd ∧
    shared_buffer_reset invoke this σ = Some σr ∧
    handles σd = delete this (handles σ) ∧
    handles σr = <[this := nullptr]> (handles σ) ∧
    ctrls σd = ctrls σr ∧ ext σd = ext σr ∧
    history σd = history σ ++ [op_fetch_sub c] ∧
    history σr = history σ ++ [op_fetch_sub c] ∧
    (shared_buffer_use_count this σ = Some 1 →
       ctrls σr = delete c (ctrls σ) ∧
       ext σr = match cb_deleter cb with
                | Some d => invoke d (cb_ptr cb) (ext σ)
                | None => ext σ
                end) ∧
    (shared_buffer_use_count this σ ≠ Some 1 →
       ext σr = ext σ ∧
       ctrls σr = <[c := mk_control_block (cb_ref cb - 1) (cb_ptr cb)
                            (cb_size cb) (cb_deleter cb) (cb_location cb)]>
                    (ctrls σ) ∧
       ∀ h, h ≠ this → handles σ !! h = Some c →
            shared_buffer_use_count h σr = Some (cb_ref cb - 1) ∧
            shared_buffer_data h σr = shared_buffer_data h σ).
Proof.
  intros Hreach Hthis Hc Hcb.
  pose proof (shared_reachable_wf invoke σ Hreach) as Hwf.
  destruct (shared_buffer_use_count_owners this c σ Hwf Hthis Hc)
    as (Huse & cb0 & Hcb0 & Href).
  rewrite Hcb in Hcb0. injection Hcb0 as <-.
  pose proof (shared_wf_ref_bounds _ _ _ _ Hwf Hcb) as Hb.
  rewrite max_live_handles_eq in Hb.
  destruct (shared_buffer_release_ctrl_wf invoke nullptr this c σ Hwf Hthis)
    as (σ1 & Hrun & Hwf1 & Hh1 & Hothers & _ & _ & Hshape).
  destruct (Hshape cb Hc Hcb) as [Hhist Hcase].
  unfold shared_buffer_destroy, shared_buffer_reset. rewrite Hrun. simpl.
  eexists _, _. split; [reflexivity |]. split; [reflexivity |]. simpl.
  split; [rewrite Hh1; by rewrite delete_insert_eq |].
  split; [rewrite Hh1; by rewrite insert_insert_eq |].
  split; [done |]. split; [done |]. split; [done |]. split; [done |].
  rewrite Huse, <- Href.
  destruct (decide (cb_ref cb = 1)) as [Hone | Hmany].
  - destruct Hcase as [Hgone Hext]. split.
    + intros _. split; [| done]. apply map_eq. intros c1.
      rewrite lookup_delete. destruct (decide (c = c1)) as [<- | Hne];
        [done | by apply Hothers].
    + intros Hnot. by rewrite Hone in Hnot.
  - destruct Hcase as [Hstays Hext]. split.
    + intros [= ?]. done.
    + intros _. split; [done |].
      assert (Hctrls : ctrls σ1
                = <[c := mk_control_block (cb_ref cb - 1) (cb_ptr cb)
                            (cb_size cb) (cb_deleter cb) (cb_location cb)]>
                    (ctrls σ)).
      { apply map_eq. intros c1. rewrite lookup_insert.
        destruct (decide (c = c1)) as [<- | Hne]; [done | by apply Hothers]. }
      split; [exact Hctrls |].
      intros h Hne Hh.
      assert (Hh' : handles (set_handle this nullptr σ1) !! h = Some c).
      { simpl. rewrite Hh1, insert_insert_eq. by rewrite lookup_insert_ne. }
      destruct (shared_buffer_observers_live h c _ _ Hh' Hc Hstays)
        as (-> & _ & _ & _ & -> & _).
      destruct (shared_buffer_observers_live h c cb σ Hh Hc Hcb)
        as (-> & _).
      simpl. split; [| done]. f_equal. apply to_size_t_to_long.
      unfold is_size_t. rewrite size_modulus_eq. lia.
Qed.

(** X8. Swapping two handles exchanges what they report and touches neither
    the control blocks nor the world; swapping again restores the
    memory. *)
Theorem shared_buffer_swap_exchanges (σ : state) (this other a b : Z) :
  handles σ !! this = Some a → handles σ !! other = Some b →
  ∃ σ',
    shared_buffer_swap this other σ = Some σ' ∧
    ctrls σ' = ctrls σ ∧ ext σ' = ext σ ∧ history σ' = history σ ∧
    shared_buffer_data this σ' = shared_buffer_data other σ ∧
    shared_buffer_data other σ' = shared_buffer_data this σ ∧
    shared_buffer_size this σ' = shared_buffer_size other σ ∧
    shared_buffer_size other σ' = shared_buffer_size this σ ∧
    shared_buffer_use_count this σ' = shared_buffer_use_count other σ ∧
    shared_buffer_use_count other σ' = shared_buffer_use_count this σ ∧
    shared_buffer_bool this σ' = shared_buffer_bool other σ ∧
    shared_buffer_bool other σ' = shared_buffer_bool this σ ∧
    (∀ h, h ≠ this → h ≠ other → handles σ' !! h = handles σ !! h) ∧
    shared_buffer_swap this other σ' = Some σ.
Proof.
  intros Hthis Hother. unfold shared_buffer_swap at 1.
  rewrite Hthis, Hother. simpl. eexists. split; [reflexivity |].
  set (σ' := set_handle other a (set_handle this b σ)).
  assert (Hthis' : handles σ' !! this = handles σ !! other).
  { simpl. rewrite lookup_insert.
    destruct (decide (other = this)) as [-> | Hne].
    - rewrite Hthis in Hother. by rewrite Hthis.
    - by rewrite lookup_insert_eq. }
  assert (Hother' : handles σ' !! other = handles σ !! this).
  { simpl. by rewrite lookup_insert_eq. }
  destruct (shared_buffer_observers_ext other this σ σ' Hthis' eq_refl)
    as (? & ? & _ & _ & _ & ? & ?).
  destruct (shared_buffer_observers_ext this other σ σ' Hother' eq_refl)
    as (? & ? & _ & _ & _ & ? & ?).
  do 3 (split; [done |]). do 8 (split; [done |]).
  split.
  { intros h Hn1 Hn2. simpl. by rewrite !lookup_insert_ne. }
  unfold shared_buffer_swap. rewrite Hthis', Hother', Hthis, Hother. simpl.
  f_equal. destruct σ as [hs cs e l]. unfold set_handle. simpl in *.
  f_equal. apply map_eq. intros k. rewrite !lookup_insert.
  repeat case_decide; congruence.
Qed.

(** X9. Moving steals the reference.  Move construction touches no count and
    no control block: the new handle reports what the source reported and
    the source is empty.  Move assignment first drops what the target
    held — the only atomic operation is the [fetch_sub] on that block —
    and then does the same; when both handles shared one block the count
    ends up one lower. *)
Theorem shared_buffer_move_transfers (σ : state)
    (this other fresh c0 c : Z) :
  shared_reachable invoke σ → handles σ !! fresh = None →
  handles σ !! this = Some c0 → handles σ !! other = Some c →
  this ≠ other →
  (∃ σ1,
     shared_buffer_move_construct fresh other σ = Some σ1 ∧
     ctrls σ1 = ctrls σ ∧ ext σ1 = ext σ ∧ history σ1 = history σ ∧
     shared_buffer_bool other σ1 = Some false ∧
     shared_buffer_use_count other σ1 = Some 0 ∧
     shared_buffer_data fresh σ1 = shared_buffer_data other σ ∧
     shared_buffer_size fresh σ1 = shared_buffer_size other σ ∧
     shared_buffer_location fresh σ1 = shared_buffer_location other σ ∧
     shared_buffer_use_count fresh σ1 = shared_buffer_use_count other σ) ∧
  (∃ σ2,
     shared_buffer_move_assign invoke this other σ = Some σ2 ∧
     history σ2 = history σ
       ++ (if decide (c0 = nullptr) then [] else [op_fetch_sub c0]) ∧
     shared_buffer_bool other σ2 = Some false ∧
     shared_buffer_use_count other σ2 = Some 0 ∧
     shared_buffer_data this σ2 = shared_buffer_data other σ ∧
     shared_buffer_size this σ2 = shared_buffer_size other σ ∧
     shared_buffer_location this σ2 = shared_buffer_location other σ ∧
     (c ≠ nullptr →
        ∃ n, shared_buffer_use_count other σ = Some n ∧
             shared_buffer_use_count this σ2
               = Some (if decide (c0 = c) then n - 1 else n))).
Proof.
  intros Hreach Hfresh Hthis Hother Hne.
  pose proof (shared_reachable_wf invoke σ Hreach) as Hwf.
  assert (Hfo : fresh ≠ other) by (intros ->; by rewrite Hfresh in Hother).
  split.
  - unfold shared_buffer_move_construct. rewrite Hfresh, Hother. simpl.
    eexists. split; [reflexivity |].
    set (σ1 := set_handle other nullptr (set_handle fresh c σ)).
    assert (Ho1 : handles σ1 !! other = Some nullptr)
      by apply lookup_insert_eq.
    assert (Hf1 : handles σ1 !! fresh = handles σ !! other).
    { simpl. rewrite lookup_insert_ne by done.
      by rewrite lookup_insert_eq. }
    destruct (shared_buffer_observers_null other σ1 Ho1)
      as (_ & _ & _ & _ & ? & ? & _).
    destruct (shared_buffer_observers_ext other fresh σ σ1 Hf1 eq_refl)
      as (? & ? & _ & ? & _ & ? & _).
    repeat split; done.
  - unfold shared_buffer_move_assign. rewrite Hthis, Hother. simpl.
    rewrite decide_False by done.
    destruct (shared_buffer_release_ctrl_wf invoke nullptr this c0 σ
                Hwf Hthis)
      as (σ1 & Hrun & Hwf1 & Hh1 & _ & _ & Hnull & Hshape).
    rewrite Hrun. simpl.
    assert (Hother1 : handles σ1 !! other = Some c)
      by (rewrite Hh1; by rewrite lookup_insert_ne).
    rewrite Hother1. simpl. eexists. split; [reflexivity |].
    set (σ2 := set_handle other nullptr (set_handle this c σ1)).
    assert (Hwf2 : shared_wf σ2).
    { apply shared_wf_transfer; [exact Hwf1 | exact Hne | exact Hother1 |].
      right. rewrite Hh1. apply lookup_insert_eq. }
    assert (Ho2 : handles σ2 !! other = Some nullptr)
      by apply lookup_insert_eq.
    assert (Ht2 : handles σ2 !! this = Some c).
    { simpl. rewrite lookup_insert_ne by done. apply lookup_insert_eq. }
    assert (Hkeep : buffers_kept σ σ2).
    { intros k cb cb' Hk Hk'.
      by apply (shared_buffer_release_ctrl_keeps invoke nullptr this σ σ1
                  Hwf Hrun k). }
    destruct (shared_buffer_observers_null other σ2 Ho2)
      as (_ & _ & _ & _ & ? & ? & _).
    split.
    { simpl. destruct (decide (c0 = nullptr)) as [Hc0 | Hc0].
      - rewrite (Hnull Hc0). by rewrite app_nil_r.
      - destruct (wf_live _ _ Hwf this c0 Hthis Hc0) as [cb0 Hcb0].
        by destruct (Hshape cb0 Hc0 Hcb0) as [-> _]. }
    split; [done |]. split; [done |].
    destruct (decide (c = nullptr)) as [-> | Hc].
    + destruct (shared_buffer_observers_null this σ2 Ht2)
        as (-> & -> & _ & -> & _).
      destruct (shared_buffer_observers_null other σ Hother)
        as (-> & -> & _ & -> & _).
      repeat split; done.
    + destruct (wf_live _ _ Hwf other c Hother Hc) as [cb Hcb].
      destruct (wf_live _ _ Hwf2 this c Ht2 Hc) as [cb2 Hcb2].
      destruct (Hkeep c cb cb2 Hcb Hcb2) as (Hp & Hs & _ & Hl).
      destruct (shared_buffer_observers_live this c cb2 σ2 Ht2 Hc Hcb2)
        as (-> & -> & _ & -> & _).
      destruct (shared_buffer_observers_live other c cb σ Hother Hc Hcb)
        as (-> & -> & _ & -> & _).
      rewrite Hp, Hs, Hl. do 3 (split; [done |]). intros _.
      destruct (shared_buffer_use_count_owners other c σ Hwf Hother Hc)
        as (-> & _).
      destruct (shared_buffer_use_count_owners this c σ2 Hwf2 Ht2 Hc)
        as (-> & _).
      eexists. split; [reflexivity |]. f_equal. simpl. rewrite Hh1.
      rewrite insert_insert_eq.
      pose proof (owners_insert_live c this c0 c _ Hthis) as H1.
      assert (Hmid : <[this := c]> (handles σ) !! other = Some c)
        by (by rewrite lookup_insert_ne).
      pose proof (owners_insert_live c other c nullptr _ Hmid) as H2.
      rewrite (decide_True (P := c = c)) in H1, H2 by done.
      rewrite (decide_False (P := nullptr = c)) in H2 by (by intros <-).
      pose proof (owners_pos c other _ Hother).
      destruct (decide (c0 = c)); lia.
Qed.

(** X10. Turning a unique handle that owns a non-empty buffer into a shared
    handle: the unique handle is left empty, the shared handle is the
    sole owner of the same pointer, count and location, and nothing has
    been called yet; destroying the shared handle then calls the original
    deleter, once, on the original pointer, and the memory is as it was
    before the conversion. *)
Theorem shared_buffer_from_unique_roundtrip (σ : state) (this c : Z)
    (u_b : unique_buffer D) :
  handles σ !! this = None → c ≠ nullptr → ctrls σ !! c = None →
  data_ (ub_base u_b) ≠ nullptr → count_ (ub_base u_b) ≠ 0 →
  ∃ σ1,
    shared_buffer_from_unique this (Some c) u_b σ
      = (Some (inr σ1), unique_buffer_default) ∧
    shared_buffer_bool this σ1 = Some true ∧
    shared_buffer_data this σ1 = Some (data_ (ub_base u_b)) ∧
    shared_buffer_size this σ1 = Some (count_ (ub_base u_b)) ∧
    shared_buffer_location this σ1 = Some (location_ (ub_base u_b)) ∧
    shared_buffer_use_count this σ1 = Some 1 ∧
    ext σ1 = ext σ ∧ history σ1 = history σ ∧
    ∃ σ2,
      shared_buffer_destroy invoke this σ1 = Some σ2 ∧
      handles σ2 = handles σ ∧ ctrls σ2 = ctrls σ ∧
      ext σ2 = match deleter_ u_b with
               | Some d => invoke d (data_ (ub_base u_b)) (ext σ)
               | None => ext σ
               end.
Proof.
  intros Hfresh Hc Hdead Hptr Hcount.
  unfold shared_buffer_from_unique, shared_buffer_from_released,
    shared_buffer_construct. simpl. rewrite Hfresh.
  rewrite decide_False by tauto.
  rewrite decide_False
    by (rewrite Hdead; intros [? | [? [=]]]; done).
  eexists. split; [reflexivity |].
  set (cb := mk_control_block 1 (data_ (ub_base u_b)) (count_ (ub_base u_b))
               (deleter_ u_b) (location_ (ub_base u_b))).
  set (σ1 := set_handle this c _).
  assert (Hthis1 : handles σ1 !! this = Some c) by apply lookup_insert_eq.
  assert (Hcb1 : ctrls σ1 !! c = Some cb) by apply lookup_insert_eq.
  destruct (shared_buffer_observers_live this c cb σ1 Hthis1 Hc Hcb1)
    as (-> & -> & _ & -> & -> & -> & _).
  do 5 (split; [done |]). split; [done |]. split; [done |].
  unfold shared_buffer_destroy, shared_buffer_release_ctrl.
  rewrite Hthis1. simpl. rewrite decide_False by done.
  rewrite lookup_insert_eq. simpl. eexists. split; [reflexivity |]. simpl.
  rewrite call_deleter_handles, call_deleter_ctrls, call_deleter_ext. simpl.
  split; [| split; [| done]].
  - rewrite delete_insert_eq. by rewrite delete_insert_id.
  - rewrite insert_insert_eq, delete_insert_eq. by rewrite delete_id.
Qed.

(** X11. The same conversion for a unique handle whose pointer is null or whose
    count is zero: both handles end up empty, no control block is
    allocated, and the deleter the unique handle held is dropped without
    being called — for a non-null pointer with a zero count, as
    [unique_buffer(0)] builds, nobody owns the buffer any more. *)
Theorem shared_buffer_from_unique_drops_empty (σ : state) (this : Z)
    (cnew : option Z) (u_b : unique_buffer D) :
  handles σ !! this = None →
  data_ (ub_base u_b) = nullptr ∨ count_ (ub_base u_b) = 0 →
  ∃ σ1 u',
    shared_buffer_from_unique this cnew u_b σ = (Some (inr σ1), u') ∧
    shared_buffer_default this σ = Some σ1 ∧
    ctrls σ1 = ctrls σ ∧ ext σ1 = ext σ ∧
    shared_buffer_bool this σ1 = Some false ∧
    shared_buffer_data this σ1 = Some nullptr ∧
    unique_buffer_bool u' = false ∧ deleter_ u' = None ∧
    (∀ w, unique_buffer_destroy invoke u' w = w) ∧
    ∃ σ2, shared_buffer_destroy invoke this σ1 = Some σ2 ∧
          ext σ2 = ext σ ∧ ctrls σ2 = ctrls σ ∧ handles σ2 = handles σ.
Proof.
  intros Hfresh Hempty.
  unfold shared_buffer_from_unique, shared_buffer_from_released,
    shared_buffer_construct, shared_buffer_default. simpl. rewrite Hfresh.
  rewrite decide_True by done.
  eexists _, _. split; [reflexivity |]. split; [reflexivity |].
  set (σ1 := set_handle this nullptr σ).
  assert (Hthis1 : handles σ1 !! this = Some nullptr)
    by apply lookup_insert_eq.
  destruct (shared_buffer_observers_null this σ1 Hthis1)
    as (-> & _ & _ & _ & _ & -> & _).
  do 6 (split; [done |]).
  split; [intros w; by apply unique_buffer_destroy_empty |].
  unfold shared_buffer_destroy, shared_buffer_release_ctrl.
  rewrite Hthis1. simpl. eexists. split; [reflexivity |]. simpl.
  split; [done |]. split; [done |]. by rewrite delete_insert_id.
Qed.

(** X12. A buffer can leave a shared handle and come back: when the handle is
    the only owner, [release()] followed by construction from the record
    gives a sole owner of the same pointer, size and location with the
    same deleter, the deleter is not called on the way, and the record
    equally rebuilds a unique handle with these four fields. *)
Theorem shared_buffer_release_reconstruct (σ : state)
    (this fresh c cnew : Z) (cb : control_block D) :
  shared_reachable invoke σ →
  handles σ !! this = Some c → c ≠ nullptr → ctrls σ !! c = Some cb →
  shared_buffer_use_count this σ = Some 1 →
  handles σ !! fresh = None → cnew ≠ nullptr →
  ctrls σ !! cnew = None ∨ cnew = c →
  ∃ rb σ1 σ2,
    shared_buffer_release this σ = Some (Some rb, σ1) ∧
    shared_buffer_from_released fresh (Some cnew) rb σ1 = Some (inr σ2) ∧
    shared_buffer_bool this σ2 = Some false ∧
    shared_buffer_data fresh σ2 = shared_buffer_data this σ ∧
    shared_buffer_size fresh σ2 = shared_buffer_size this σ ∧
    shared_buffer_location fresh σ2 = shared_buffer_location this σ ∧
    shared_buffer_use_count fresh σ2 = Some 1 ∧
    (∃ cb2, ctrls σ2 !! cnew = Some cb2 ∧ same_buffer cb cb2) ∧
    ext σ2 = ext σ ∧
    unique_buffer_from_released rb
      = unique_buffer_adopt (cb_ptr cb) (cb_size cb) (cb_deleter cb)
                            (cb_location cb).
Proof.
  intros Hreach Hthis Hc Hcb Huse Hfresh Hcnew Hfree.
  pose proof (shared_reachable_wf invoke σ Hreach) as Hwf.
  destruct (shared_buffer_use_count_owners this c σ Hwf Hthis Hc)
    as (Huse' & cb0 & Hcb0 & Href).
  rewrite Hcb in Hcb0. injection Hcb0 as <-.
  rewrite Huse' in Huse. injection Huse as Hone. rewrite <- Href in Hone.
  destruct (wf_block _ _ Hwf c cb Hcb) as (_ & Hp & Hs & _).
  destruct (shared_buffer_release_wf invoke this c σ Hwf Hthis)
    as (r & σ1 & Hrun & Hwf1 & Hext & _ & Hlive).
  specialize (Hlive cb Hc Hcb). rewrite decide_True in Hlive by done.
  destruct Hlive as (-> & Hh1 & Hc1 & Hl1).
  eexists _, σ1, _. split; [exact Hrun |].
  assert (Hft : fresh ≠ this) by (intros ->; by rewrite Hfresh in Hthis).
  assert (Hfresh1 : handles σ1 !! fresh = None)
    by (rewrite Hh1; by rewrite lookup_insert_ne).
  assert (Hdead1 : ctrls σ1 !! cnew = None).
  { rewrite Hc1. destruct Hfree as [Hfree | ->].
    - rewrite lookup_delete. by destruct (decide (c = cnew)).
    - apply lookup_delete_eq. }
  unfold shared_buffer_from_released, shared_buffer_construct. simpl.
  rewrite Hfresh1. rewrite decide_False by lia.
  rewrite decide_False
    by (rewrite Hdead1; intros [? | [? [=]]]; done).
  split; [reflexivity |].
  set (cb2 := mk_control_block 1 (cb_ptr cb) (cb_size cb) (cb_deleter cb)
                (cb_location cb)).
  set (σ2 := set_handle fresh cnew _).
  assert (Hf2 : handles σ2 !! fresh = Some cnew) by apply lookup_insert_eq.
  assert (Hcb2 : ctrls σ2 !! cnew = Some cb2) by apply lookup_insert_eq.
  assert (Ht2 : handles σ2 !! this = Some nullptr).
  { simpl. rewrite lookup_insert_ne by done. rewrite Hh1.
    apply lookup_insert_eq. }
  destruct (shared_buffer_observers_live fresh cnew cb2 σ2 Hf2 Hcnew Hcb2)
    as (-> & -> & _ & -> & -> & _).
  destruct (shared_buffer_observers_live this c cb σ Hthis Hc Hcb)
    as (-> & -> & _ & -> & _).
  destruct (shared_buffer_observers_null this σ2 Ht2)
    as (_ & _ & _ & _ & _ & -> & _).
  do 5 (split; [done |]).
  split; [exists cb2; split; [done | by repeat split] |].
  split; [simpl; exact Hext | done].
Qed.
End shared_buffer_guarantees.

(** *** Concrete memories for these guarantees *)

Lemma shared_buffer_counts_exact_witness :
  ∃ σ : shared_state nat (call_log nat),
    shared_reachable record_call σ ∧
    ∀ c cb, ctrls σ !! c = Some cb →
            cb_ref cb = Z.of_nat (owners c (handles σ)).
Proof.
  eexists.
  assert (Hreach : shared_reachable (D := nat) record_call _)
    by sample_memory_reachable.
  split; [exact Hreach |].
  destruct (shared_buffer_counts_exact record_call _ Hreach) as (Hexact & _).
  intros c cb Hcb. by destruct (Hexact c cb Hcb) as (? & _).
Defined.

Lemma shared_buffer_operations_defined_witness :
  ∃ σ : shared_state nat (call_log nat),
    shared_reachable record_call σ ∧
    handles σ !! 10 = Some 100 ∧ handles σ !! 11 = Some nullptr ∧
    is_Some (shared_buffer_copy_assign record_call 11 10 σ).
Proof.
  eexists.
  assert (Hreach : shared_reachable (D := nat) record_call _)
    by sample_pair_reachable.
  split; [exact Hreach |].
  set (σ := set_handle 11 nullptr (set_handle 10 100 _)) in *.
  assert (H1 : handles σ !! 10 = Some 100) by reflexivity.
  assert (H2 : handles σ !! 11 = Some nullptr) by reflexivity.
  split; [exact H1 |]. split; [exact H2 |].
  by destruct (shared_buffer_operations_defined record_call σ 11 10
                 nullptr 100 Hreach H2 H1) as (? & _).
Defined.

Lemma shared_buffer_last_owner_teardown_witness :
  ∃ σ : shared_state nat (call_log nat),
    shared_reachable record_call σ ∧
    handles σ !! 10 = Some 100 ∧ 100 ≠ nullptr ∧
    ctrls σ !! 100 = Some (mk_control_block 1 4096 5 (Some 7%nat) Host) ∧
    shared_buffer_use_count 10 σ = Some 1 ∧
    ∃ σd, shared_buffer_destroy record_call 10 σ = Some σd ∧
          history σd = history σ ++ [op_fetch_sub 100].
Proof.
  eexists.
  assert (Hreach : shared_reachable (D := nat) record_call _)
    by sample_memory_reachable.
  split; [exact Hreach |].
  set (σ := set_handle 10 100 _) in *.
  assert (H1 : handles σ !! 10 = Some 100) by reflexivity.
  assert (H2 : 100 ≠ nullptr) by (unfold nullptr; lia).
  assert (H3 : ctrls σ !! 100
               = Some (mk_control_block 1 4096 5 (Some 7%nat) Host))
    by reflexivity.
  split; [exact H1 |]. split; [exact H2 |]. split; [exact H3 |].
  split; [reflexivity |].
  destruct (shared_buffer_last_owner_teardown record_call σ 10 100 _
              Hreach H1 H2 H3)
    as (σd & σr & Hrun & _ & _ & _ & _ & _ & Hhist & _).
  exists σd. split; [exact Hrun | exact Hhist].
Defined.

Lemma shared_buffer_swap_exchanges_witness :
  let σ : shared_state nat (call_log nat) :=
    set_handle 11 nullptr
      (set_handle 10 100
         (mk_shared_state ∅
            (<[100 := mk_control_block 1 4096 5 (Some 7%nat) Host]> ∅)
            [] [])) in
  handles σ !! 10 = Some 100 ∧ handles σ !! 11 = Some nullptr ∧
  ∃ σ', shared_buffer_swap 10 11 σ = Some σ' ∧
        shared_buffer_swap 10 11 σ' = Some σ.
Proof.
  intros σ.
  assert (H1 : handles σ !! 10 = Some 100) by reflexivity.
  assert (H2 : handles σ !! 11 = Some nullptr) by reflexivity.
  split; [exact H1 |]. split; [exact H2 |].
  destruct (shared_buffer_swap_exchanges σ 10 11 100 nullptr H1 H2)
    as (σ' & Hrun & Hrest).
  exists σ'. split; [exact Hrun |].
  by destruct Hrest as (_ & _ & _ & _ & _ & _ & _ & _ & _ & _ & _ & _ & ?).
Defined.

Lemma shared_buffer_move_transfers_witness :
  ∃ σ : shared_state nat (call_log nat),
    shared_reachable record_call σ ∧ handles σ !! 12 = None ∧
    handles σ !! 11 = Some nullptr ∧ handles σ !! 10 = Some 100 ∧
    11 ≠ 10 ∧
    ∃ σ2, shared_buffer_move_assign record_call 11 10 σ = Some σ2 ∧
          shared_buffer_bool 10 σ2 = Some false.
Proof.
  eexists.
  assert (Hreach : shared_reachable (D := nat) record_call _)
    by sample_pair_reachable.
  split; [exact Hreach |].
  set (σ := set_handle 11 nullptr (set_handle 10 100 _)) in *.
  assert (H0 : handles σ !! 12 = None) by reflexivity.
  assert (H1 : handles σ !! 11 = Some nullptr) by reflexivity.
  assert (H2 : handles σ !! 10 = Some 100) by reflexivity.
  assert (H3 : 11 ≠ 10) by lia.
  split; [exact H0 |]. split; [exact H1 |]. split; [exact H2 |].
  split; [exact H3 |].
  destruct (shared_buffer_move_transfers record_call σ 11 10 12 nullptr 100
              Hreach H0 H1 H2 H3) as (_ & σ2 & Hrun & _ & Hbool & _).
  exists σ2. split; [exact Hrun | exact Hbool].
Defined.

Lemma shared_buffer_from_unique_roundtrip_witness :
  let σ : shared_state nat (call_log nat) := shared_initial [] in
  let u : unique_buffer nat := unique_buffer_adopt 4096 5 (Some 7%nat) Host in
  handles σ !! 10 = None ∧ 100 ≠ nullptr ∧ ctrls σ !! 100 = None ∧
  data_ (ub_base u) ≠ nullptr ∧ count_ (ub_base u) ≠ 0 ∧
  ∃ σ1 σ2,
    shared_buffer_from_unique 10 (Some 100) u σ
      = (Some (inr σ1), unique_buffer_default) ∧
    shared_buffer_destroy record_call 10 σ1 = Some σ2 ∧
    ext σ2 = [(7%nat, 4096)].
Proof.
  intros σ u.
  assert (H1 : handles σ !! 10 = None) by reflexivity.
  assert (H2 : 100 ≠ nullptr) by (unfold nullptr; lia).
  assert (H3 : ctrls σ !! 100 = None) by reflexivity.
  assert (H4 : data_ (ub_base u) ≠ nullptr) by (simpl; unfold nullptr; lia).
  assert (H5 : count_ (ub_base u) ≠ 0) by (simpl; lia).
  split; [exact H1 |]. split; [exact H2 |]. split; [exact H3 |].
  split; [exact H4 |]. split; [exact H5 |].
  destruct (shared_buffer_from_unique_roundtrip record_call σ 10 100 u
              H1 H2 H3 H4 H5)
    as (σ1 & Hrun & _ & _ & _ & _ & _ & _ & _ & σ2 & Hdel & _ & _ & Hext).
  exists σ1, σ2. split; [exact Hrun |]. split; [exact Hdel | exact Hext].
Defined.

Lemma shared_buffer_from_unique_drops_empty_witness :
  let σ : shared_state nat (call_log nat) := shared_initial [] in
  let u : unique_buffer nat := unique_buffer_adopt 4096 0 (Some 7%nat) Host in
  handles σ !! 10 = None ∧
  (data_ (ub_base u) = nullptr ∨ count_ (ub_base u) = 0) ∧
  ∃ σ1 u',
    shared_buffer_from_unique 10 (Some 100) u σ = (Some (inr σ1), u') ∧
    shared_buffer_bool 10 σ1 = Some false ∧ deleter_ u' = None.
Proof.
  intros σ u.
  assert (H1 : handles σ !! 10 = None) by reflexivity.
  assert (H2 : data_ (ub_base u) = nullptr ∨ count_ (ub_base u) = 0)
    by (right; reflexivity).
  split; [exact H1 |]. split; [exact H2 |].
  destruct (shared_buffer_from_unique_drops_empty record_call σ 10
              (Some 100) u H1 H2)
    as (σ1 & u' & Hrun & _ & _ & _ & Hbool & _ & _ & Hdel & _).
  exists σ1, u'. split; [exact Hrun |]. split; [exact Hbool | exact Hdel].
Defined.

Lemma shared_buffer_release_reconstruct_witness :
  ∃ σ : shared_state nat (call_log nat),
    shared_reachable record_call σ ∧
    handles σ !! 10 = Some 100 ∧ 100 ≠ nullptr ∧
    ctrls σ !! 100 = Some (mk_control_block 1 4096 5 (Some 7%nat) Host) ∧
    shared_buffer_use_count 10 σ = Some 1 ∧
    handles σ !! 12 = None ∧ 100 ≠ nullptr ∧
    (ctrls σ !! 100 = None ∨ 100 = 100) ∧
    ∃ rb σ1 σ2,
      shared_buffer_release 10 σ = Some (Some rb, σ1) ∧
      shared_buffer_from_released 12 (Some 100) rb σ1 = Some (inr σ2) ∧
      shared_buffer_use_count 12 σ2 = Some 1.
Proof.
  eexists.
  assert (Hreach : shared_reachable (D := nat) record_call _)
    by sample_memory_reachable.
  split; [exact Hreach |].
  set (σ := set_handle 10 100 _) in *.
  assert (H1 : handles σ !! 10 = Some 100) by reflexivity.
  assert (H2 : 100 ≠ nullptr) by (unfold nullptr; lia).
  assert (H3 : ctrls σ !! 100
               = Some (mk_control_block 1 4096 5 (Some 7%nat) Host))
    by reflexivity.
  assert (H4 : shared_buffer_use_count 10 σ = Some 1) by reflexivity.
  assert (H5 : handles σ !! 12 = None) by reflexivity.
  assert (H6 : ctrls σ !! 100 = None ∨ 100 = 100) by (right; reflexivity).
  split; [exact H1 |]. split; [exact H2 |]. split; [exact H3 |].
  split; [exact H4 |]. split; [exact H5 |]. split; [exact H2 |].
  split; [exact H6 |].
  destruct (shared_buffer_release_reconstruct record_call σ 10 12 100 100 _
              Hreach H1 H2 H3 H4 H5 H2 H6)
    as (rb & σ1 & σ2 & Hrun & Hnew & _ & _ & _ & _ & Huse & _).
  exists rb, σ1, σ2. split; [exact Hrun |]. split; [exact Hnew | exact Huse].
Defined.

(** ** unique_buffer: no buffer is freed twice, none is lost *)

Section unique_buffer_accounting.
Context {D : Type}.
Implicit Types (objs : gmap Z (unique_buffer D)) (u : unique_buffer D).
Implicit Types (recs : list (released_buffer D)) (log : call_log D).

Lemma held_insert_fresh (p h : Z) u objs :
  objs !! h = None →
  held p (<[h := u]> objs)
  = (held p objs + (if decide (unique_buffer_get u = p) then 1 else 0))%nat.
Proof.
  intros Hfresh. unfold held. rewrite fmap_insert.
  apply owners_insert_fresh. by rewrite lookup_fmap, Hfresh.
Qed.

Lemma held_insert_live (p h : Z) u0 u objs :
  objs !! h = Some u0 →
  (held p (<[h := u]> objs)
   + (if decide (unique_buffer_get u0 = p) then 1 else 0))%nat
  = (held p objs + (if decide (unique_buffer_get u = p) then 1 else 0))%nat.
Proof.
  intros Hlive. unfold held. rewrite fmap_insert.
  apply owners_insert_live. by rewrite lookup_fmap, Hlive.
Qed.

Lemma held_delete_live (p h : Z) u0 objs :
  objs !! h = Some u0 →
  (held p (delete h objs)
   + (if decide (unique_buffer_get u0 = p) then 1 else 0))%nat
  = held p objs.
Proof.
  intros Hlive. unfold held. rewrite fmap_delete.
  apply owners_delete_live. by rewrite lookup_fmap, Hlive.
Qed.

Lemma in_flight_cons (p : Z) (rb : released_buffer D) recs :
  in_flight p (rb :: recs)
  = (in_flight p recs + (if decide (rb_ptr rb = p) then 1 else 0))%nat.
Proof.
  unfold in_flight. rewrite filter_cons.
  destruct (decide (rb_ptr rb = p)); simpl; lia.
Qed.

Lemma in_flight_app (p : Z) recs (recs' : list (released_buffer D)) :
  in_flight p (recs ++ recs') = (in_flight p recs + in_flight p recs')%nat.
Proof. unfold in_flight. by rewrite filter_app, length_app. Qed.

Lemma deleted_app (p : Z) log (log' : call_log D) :
  deleted p (log ++ log') = (deleted p log + deleted p log')%nat.
Proof. unfold deleted, call_log in *. by rewrite filter_app, length_app. Qed.

(** What [reset()] leaves and what it logs. *)
Lemma unique_buffer_reset_get u log :
  unique_buffer_get (fst (unique_buffer_reset record_call u log)) = nullptr.
Proof.
  unfold unique_buffer_reset, unique_buffer_get.
  by destruct (decide (data_ (ub_base u) = nullptr)).
Qed.

Lemma unique_buffer_reset_log u log :
  snd (unique_buffer_reset record_call u log)
  = log ++ (if decide (unique_buffer_get u = nullptr) then []
            else match deleter_ u with
                 | Some d => [(d, unique_buffer_get u)]
                 | None => []
                 end).
Proof.
  unfold unique_buffer_reset, unique_buffer_get, record_call.
  destruct (decide (data_ (ub_base u) = nullptr)); simpl.
  - by rewrite app_nil_r.
  - destruct (deleter_ u); [done | by rewrite app_nil_r].
Qed.

Lemma deleted_one (p : Z) (d : D) (q : Z) :
  deleted p [(d, q)] = if decide (q = p) then 1%nat else 0%nat.
Proof. unfold deleted. cbn. by destruct (decide (q = p)). Qed.

Lemma unique_buffer_reset_deleted (p : Z) u log :
  p ≠ nullptr →
  (deleted p (snd (unique_buffer_reset record_call u log))
   ≤ deleted p log + (if decide (unique_buffer_get u = p) then 1 else 0))%nat
  ∧
  ((unique_buffer_get u ≠ nullptr → is_Some (deleter_ u)) →
   deleted p (snd (unique_buffer_reset record_call u log))
   = (deleted p log + (if decide (unique_buffer_get u = p) then 1 else 0))%nat).
Proof.
  intros Hp. rewrite unique_buffer_reset_log, deleted_app.
  destruct (decide (unique_buffer_get u = nullptr)) as [Hnull | Hown].
  - rewrite (decide_False (P := unique_buffer_get u = p)) by congruence.
    change (deleted p []) with 0%nat. split; [lia | intros _; lia].
  - destruct (deleter_ u) as [d |] eqn:Hdel.
    + rewrite deleted_one. split; [lia | intros _; lia].
    + change (deleted p []) with 0%nat. split.
      * destruct (decide (unique_buffer_get u = p)); lia.
      * intros Harmed. by destruct (Harmed Hown) as [? [=]].
Qed.

Lemma unique_buffer_reset_calls u log :
  ∃ calls, snd (unique_buffer_reset record_call u log) = log ++ calls.
Proof. eexists. apply unique_buffer_reset_log. Qed.

(** [armed] under the changes the operations make to the store. *)
Lemma armed_insert objs recs log log' (h : Z) u :
  armed (objs, recs, log) →
  (unique_buffer_get u ≠ nullptr → is_Some (deleter_ u)) →
  armed (<[h := u]> objs, recs, log').
Proof.
  intros [Hobjs Hrecs] Hu. split; [| exact Hrecs]. simpl in *.
  intros h' u' Hlook Hown.
  destruct (decide (h' = h)) as [-> | Hne].
  - rewrite lookup_insert_eq in Hlook. injection Hlook as <-. by apply Hu.
  - rewrite lookup_insert_ne in Hlook by done. by eapply Hobjs.
Qed.

Lemma armed_delete objs recs log log' (h : Z) :
  armed (objs, recs, log) → armed (delete h objs, recs, log').
Proof.
  intros [Hobjs Hrecs]. split; [| exact Hrecs]. simpl in *.
  intros h' u' Hlook. apply lookup_delete_Some in Hlook as [_ Hlook].
  by eapply Hobjs.
Qed.

Lemma armed_records objs recs recs' log log' :
  armed (objs, recs, log) →
  (∀ rb, rb ∈ recs' →
         rb ∈ recs ∨ (rb_ptr rb ≠ nullptr → is_Some (rb_deleter rb))) →
  armed (objs, recs', log').
Proof.
  intros [Hobjs Hrecs] Hsub. split; [exact Hobjs |]. simpl in *.
  intros rb Hin Hown. destruct (Hsub rb Hin) as [Hold | Hnew].
  - by apply Hrecs.
  - by apply Hnew.
Qed.

Lemma armed_lookup objs recs log (h : Z) u :
  armed (objs, recs, log) → objs !! h = Some u →
  unique_buffer_get u ≠ nullptr → is_Some (deleter_ u).
Proof. intros [Hobjs _]. apply Hobjs. Qed.

Lemma armed_null_handle u :
  unique_buffer_get u = nullptr →
  unique_buffer_get u ≠ nullptr → is_Some (deleter_ u).
Proof. by intros ->. Qed.

Ltac settle_counts :=
  repeat match goal with
         | H : context [decide ?P] |- _ => destruct (decide P)
         | |- context [decide ?P] => destruct (decide P)
         end;
  try congruence; try lia.

(** One operation never adds an owner of a buffer or a call on it that
    is not paid for by an owner, and loses none when owners can free. *)
Lemma unique_step_accounting (p : Z)
    (s s' : gmap Z (unique_buffer D) * list (released_buffer D) * call_log D) :
  p ≠ nullptr → unique_step s s' →
  (accounted p s' ≤ accounted p s)%nat ∧
  (∃ calls, s'.2 = s.2 ++ calls) ∧
  (armed s → armed s' ∧ accounted p s' = accounted p s).
Proof.
  intros Hp Hstep. unfold accounted.
  destruct Hstep as
    [objs recs log this Hfresh
    | objs recs1 rb recs2 log this Hfresh
    | objs recs log this other o Hfresh Hother
    | objs recs log this other objs' log' Hassign
    | objs recs log this u Hthis
    | objs recs log this u Hthis
    | objs recs log this u Hthis
    | objs recs log this other a b Hne Hthis Hother]; cbn [fst snd].
  - pose proof (held_insert_fresh p this unique_buffer_default objs Hfresh)
      as Hheld.
    change (unique_buffer_get (D := D) unique_buffer_default)
      with nullptr in Hheld.
    split; [settle_counts |].
    split; [exists []; by rewrite app_nil_r |].
    intros Harmed. split; [| settle_counts].
    apply (armed_insert _ _ log); [done | by apply armed_null_handle].
  - pose proof (held_insert_fresh p this (unique_buffer_from_released rb)
                  objs Hfresh) as Hheld.
    change (unique_buffer_get (unique_buffer_from_released rb))
      with (rb_ptr rb) in Hheld.
    rewrite !in_flight_app, in_flight_cons.
    split; [settle_counts |].
    split; [exists []; by rewrite app_nil_r |].
    intros Harmed. split; [| settle_counts].
    apply (armed_insert _ _ log).
    + apply (armed_records objs (recs1 ++ rb :: recs2) _ log); [done |].
      intros rb' Hin. left. rewrite elem_of_app, elem_of_cons.
      apply elem_of_app in Hin as [Hin | Hin]; auto.
    + destruct Harmed as [_ Hrecs]. apply (Hrecs rb).
      simpl. rewrite elem_of_app, elem_of_cons. auto.
  - assert (this ≠ other) as Hne by congruence.
    pose proof (held_insert_live p other o
                  (snd (unique_buffer_move_construct o)) objs Hother)
      as Hheld1.
    pose proof (held_insert_fresh p this
                  (fst (unique_buffer_move_construct o))
                  (<[other := snd (unique_buffer_move_construct o)]> objs))
      as Hheld2.
    rewrite lookup_insert_ne in Hheld2 by done.
    specialize (Hheld2 Hfresh).
    change (unique_buffer_get (snd (unique_buffer_move_construct o)))
      with nullptr in Hheld1.
    change (unique_buffer_get (fst (unique_buffer_move_construct o)))
      with (unique_buffer_get o) in Hheld2.
    split; [settle_counts |].
    split; [exists []; by rewrite app_nil_r |].
    intros Harmed. split; [| settle_counts].
    apply (armed_insert _ _ log); [apply (armed_insert _ _ log); [done |] |].
    + by apply armed_null_handle.
    + apply (armed_lookup objs recs log other o Harmed Hother).
  - unfold unique_buffer_move_assign in Hassign.
    destruct (objs !! this) as [t |] eqn:Hthis; [| done].
    destruct (objs !! other) as [o |] eqn:Hother; [| done].
    destruct (decide (this = other)) as [Heq | Hne].
    { injection Hassign as <- <-.
      split; [lia |]. split; [exists []; by rewrite app_nil_r |].
      intros Harmed. by split. }
    destruct (unique_buffer_reset record_call t log) as [t1 log1] eqn:Hreset.
    simpl in Hassign. injection Hassign as <- <-.
    pose proof (unique_buffer_reset_deleted p t log Hp) as [Hle Heq].
    pose proof (unique_buffer_reset_calls t log) as Hcalls.
    rewrite Hreset in Hle, Heq, Hcalls. simpl in Hle, Heq, Hcalls.
    pose proof (held_insert_live p other o
                  (snd (unique_buffer_steal_from t1 o)) objs Hother)
      as Hheld1.
    pose proof (held_insert_live p this t
                  (fst (unique_buffer_steal_from t1 o))
                  (<[other := snd (unique_buffer_steal_from t1 o)]> objs))
      as Hheld2.
    rewrite lookup_insert_ne in Hheld2 by done.
    specialize (Hheld2 Hthis).
    change (unique_buffer_get (snd (unique_buffer_steal_from t1 o)))
      with nullptr in Hheld1.
    change (unique_buffer_get (fst (unique_buffer_steal_from t1 o)))
      with (unique_buffer_get o) in Hheld2.
    cbn [fst snd unique_buffer_steal_from] in Hheld1, Hheld2.
    split; [settle_counts |].
    split; [done |].
    intros Harmed.
    specialize (Heq (armed_lookup objs recs log this t Harmed Hthis)).
    split; [| settle_counts].
    apply (armed_insert _ _ log); [apply (armed_insert _ _ log); [done |] |].
    + by apply armed_null_handle.
    + apply (armed_lookup objs recs log other o Harmed Hother).
  - pose proof (held_insert_live p this u (snd (unique_buffer_release u))
                  objs Hthis) as Hheld.
    change (unique_buffer_get (snd (unique_buffer_release u)))
      with nullptr in Hheld.
    rewrite in_flight_cons.
    change (rb_ptr (fst (unique_buffer_release u)))
      with (unique_buffer_get u).
    split; [settle_counts |].
    split; [exists []; by rewrite app_nil_r |].
    intros Harmed. split; [| settle_counts].
    apply (armed_insert _ _ log); [| by apply armed_null_handle].
    apply (armed_records objs recs _ log); [done |].
    intros rb Hin. apply elem_of_cons in Hin as [-> | Hin]; [right | by left].
    apply (armed_lookup objs recs log this u Harmed Hthis).
  - pose proof (held_insert_live p this u
                  (fst (unique_buffer_reset record_call u log)) objs Hthis)
      as Hheld.
    rewrite unique_buffer_reset_get in Hheld.
    pose proof (unique_buffer_reset_deleted p u log Hp) as [Hle Heq].
    split; [settle_counts |].
    split; [apply unique_buffer_reset_calls |].
    intros Harmed.
    specialize (Heq (armed_lookup objs recs log this u Harmed Hthis)).
    split; [| settle_counts].
    apply (armed_insert _ _ log); [done |].
    apply armed_null_handle, unique_buffer_reset_get.
  - pose proof (held_delete_live p this u objs Hthis) as Hheld.
    pose proof (unique_buffer_reset_deleted p u log Hp) as [Hle Heq].
    unfold unique_buffer_destroy.
    split; [settle_counts |].
    split; [apply unique_buffer_reset_calls |].
    intros Harmed.
    specialize (Heq (armed_lookup objs recs log this u Harmed Hthis)).
    split; [| settle_counts].
    by apply (armed_delete _ _ log).
  - pose proof (held_insert_live p other b (snd (unique_buffer_swap a b))
                  objs Hother) as Hheld1.
    pose proof (held_insert_live p this a (fst (unique_buffer_swap a b))
                  (<[other := snd (unique_buffer_swap a b)]> objs))
      as Hheld2.
    rewrite lookup_insert_ne in Hheld2 by done.
    specialize (Hheld2 Hthis).
    change (unique_buffer_get (snd (unique_buffer_swap a b)))
      with (unique_buffer_get a) in Hheld1.
    change (unique_buffer_get (fst (unique_buffer_swap a b)))
      with (unique_buffer_get b) in Hheld2.
    split; [settle_counts |].
    split; [exists []; by rewrite app_nil_r |].
    intros Harmed. split; [| settle_counts].
    apply (armed_insert _ _ log); [apply (armed_insert _ _ log); [done |] |].
    + apply (armed_lookup objs recs log this a Harmed Hthis).
    + apply (armed_lookup objs recs log other b Harmed Hother).
Qed.

Lemma handles_insert (P : unique_buffer D → Prop) objs (h : Z) u :
  (∀ h' u', objs !! h' = Some u' → P u') → P u →
  ∀ h' u', <[h := u]> objs !! h' = Some u' → P u'.
Proof.
  intros Hobjs Hu h' u' Hlook. destruct (decide (h' = h)) as [-> | Hne].
  - rewrite lookup_insert_eq in Hlook. by injection Hlook as <-.
  - rewrite lookup_insert_ne in Hlook by done. by eapply Hobjs.
Qed.

(** The only call [reset()] adds is the handle's own deleter on the
    handle's own pointer. *)
Lemma unique_buffer_reset_paired (f : Z → option D) u log :
  (unique_buffer_get u ≠ nullptr → deleter_ u = f (unique_buffer_get u)) →
  (∀ d p, (d, p) ∈ log → f p = Some d) →
  ∀ d p, (d, p) ∈ snd (unique_buffer_reset record_call u log) → f p = Some d.
Proof.
  intros Hu Hlog d p. rewrite unique_buffer_reset_log.
  unfold call_log in *. rewrite elem_of_app. intros [Hin | Hin].
  { by apply Hlog. }
  destruct (decide (unique_buffer_get u = nullptr)) as [Hnull | Hown].
  { by apply elem_of_nil in Hin. }
  destruct (deleter_ u) as [d0 |] eqn:Hdel.
  - apply list_elem_of_singleton in Hin. injection Hin as -> ->.
    by rewrite <- Hu.
  - by apply elem_of_nil in Hin.
Qed.

Ltac null_owner := intros Hn; exfalso; apply Hn; reflexivity.

Lemma unique_step_paired (f : Z → option D)
    (s s' : gmap Z (unique_buffer D) * list (released_buffer D) * call_log D) :
  unique_step s s' → paired f s → paired f s'.
Proof.
  intros Hstep [Hobjs [Hrecs Hlog]].
  set (P := λ u : unique_buffer D,
         unique_buffer_get u ≠ nullptr → deleter_ u = f (unique_buffer_get u)).
  destruct Hstep as
    [objs recs log this Hfresh
    | objs recs1 rb recs2 log this Hfresh
    | objs recs log this other o Hfresh Hother
    | objs recs log this other objs' log' Hassign
    | objs recs log this u Hthis
    | objs recs log this u Hthis
    | objs recs log this u Hthis
    | objs recs log this other a b Hne Hthis Hother];
    cbn [fst snd] in Hobjs, Hrecs, Hlog.
  - split; [| by split]. cbn [fst snd].
    apply (handles_insert P); [exact Hobjs | null_owner].
  - split; [| split; [| exact Hlog]]; cbn [fst snd].
    + apply (handles_insert P); [exact Hobjs |].
      assert (rb ∈ recs1 ++ rb :: recs2) as Hin.
      { rewrite elem_of_app, elem_of_cons. auto. }
      exact (Hrecs rb Hin).
    + intros rb' Hin. apply Hrecs. rewrite elem_of_app, elem_of_cons.
      apply elem_of_app in Hin as [Hin | Hin]; auto.
  - split; [| by split]. cbn [fst snd].
    apply (handles_insert P); [apply (handles_insert P) |].
    + exact Hobjs.
    + null_owner.
    + exact (Hobjs other o Hother).
  - unfold unique_buffer_move_assign in Hassign.
    destruct (objs !! this) as [t |] eqn:Hthis; [| done].
    destruct (objs !! other) as [o |] eqn:Hother; [| done].
    destruct (decide (this = other)) as [Heq | Hne].
    { injection Hassign as <- <-. by split. }
    pose proof (unique_buffer_reset_paired f t log (Hobjs this t Hthis) Hlog)
      as Hlog1.
    destruct (unique_buffer_reset record_call t log) as [t1 log1] eqn:Hreset.
    cbn [fst snd] in Hassign, Hlog1. injection Hassign as <- <-.
    split; [| by split]. cbn [fst snd].
    apply (handles_insert P); [apply (handles_insert P) |].
    + exact Hobjs.
    + null_owner.
    + exact (Hobjs other o Hother).
  - split; [| split; [| exact Hlog]]; cbn [fst snd].
    + apply (handles_insert P); [exact Hobjs | null_owner].
    + intros rb Hin. apply elem_of_cons in Hin as [-> | Hin].
      * exact (Hobjs this u Hthis).
      * by apply Hrecs.
  - split; [| split; [exact Hrecs |]]; cbn [fst snd].
    + apply (handles_insert P); [exact Hobjs |].
      intros Hn. destruct Hn. apply unique_buffer_reset_get.
    + apply unique_buffer_reset_paired; [apply (Hobjs this u Hthis) | done].
  - split; [| split; [exact Hrecs |]]; cbn [fst snd].
    + intros h u' Hlook. apply lookup_delete_Some in Hlook as [_ Hlook].
      by apply (Hobjs h).
    + apply unique_buffer_reset_paired; [apply (Hobjs this u Hthis) | done].
  - split; [| by split]. cbn [fst snd].
    apply (handles_insert P); [apply (handles_insert P) |].
    + exact Hobjs.
    + exact (Hobjs this a Hthis).
    + exact (Hobjs other b Hother).
Qed.

(** The same over a whole run. *)
Lemma unique_run_accounting (p : Z)
    (s0 s : gmap Z (unique_buffer D) * list (released_buffer D) * call_log D) :
  p ≠ nullptr → rtc unique_step s0 s →
  (accounted p s ≤ accounted p s0)%nat ∧
  (∃ calls, s.2 = s0.2 ++ calls) ∧
  (armed s0 → armed s ∧ accounted p s = accounted p s0).
Proof.
  intros Hp Hrun. induction Hrun as [s | s1 s2 s3 Hstep _ IH].
  { split; [lia |]. split; [exists []; by rewrite app_nil_r | done]. }
  destruct (unique_step_accounting p s1 s2 Hp Hstep)
    as (Hle1 & [calls1 Hlog1] & Hkeep1).
  destruct IH as (Hle2 & [calls2 Hlog2] & Hkeep2).
  split; [lia |]. split.
  { exists (calls1 ++ calls2). by rewrite Hlog2, Hlog1, app_assoc. }
  intros Harmed. destruct (Hkeep1 Harmed) as [Harmed2 Heq2].
  destruct (Hkeep2 Harmed2) as [Harmed3 Heq3]. split; [done | lia].
Qed.

Lemma unique_run_paired (f : Z → option D)
    (s0 s : gmap Z (unique_buffer D) * list (released_buffer D) * call_log D) :
  paired f s0 → rtc unique_step s0 s → paired f s.
Proof.
  intros Hpaired Hrun. induction Hrun as [s | s1 s2 s3 Hstep _ IH]; [done |].
  apply IH. by apply (unique_step_paired f s1 s2).
Qed.

(** With no handle and no record left, only the calls are counted. *)
Lemma accounted_all_gone (p : Z) (log : call_log D) :
  accounted p (∅, [], log) = deleted p log.
Proof.
  unfold accounted, held, owners. cbn [fst snd].
  by rewrite fmap_empty, map_filter_empty.
Qed.

(** X13. A buffer is neither duplicated nor freed twice: along any run
    of constructions from records (each record used once), move
    constructions and assignments, [release()], [reset()], destructions
    and swaps, the number of handles holding a non-null pointer, plus
    the records carrying it, plus the deleter calls made on it, never
    grows.  A pointer owned once at the start is therefore passed to a
    deleter at most once, and no handle or record holds it afterwards. *)
Theorem unique_buffer_freed_at_most_once (p : Z)
    (s0 s : gmap Z (unique_buffer D) * list (released_buffer D) * call_log D) :
  p ≠ nullptr → rtc unique_step s0 s →
  (accounted p s ≤ accounted p s0)%nat ∧
  ((accounted p s0 ≤ 1)%nat → (0 < deleted p s.2)%nat →
   deleted p s.2 = 1%nat ∧ held p s.1.1 = 0%nat ∧ in_flight p s.1.2 = 0%nat).
Proof.
  intros Hp Hrun.
  destruct (unique_run_accounting p s0 s Hp Hrun) as (Hle & _ & _).
  split; [exact Hle |]. unfold accounted in *. lia.
Qed.

(** X14. No buffer is lost: when every owner of a non-null pointer
    has a deleter, this stays so along any run, and the handles holding
    a pointer, the records carrying it and the deleter calls made on it
    keep their total.  Once no handle and no record is left, each
    pointer has been passed to a deleter as often as it was owned. *)
Theorem unique_buffer_never_leaked (p : Z)
    (s0 s : gmap Z (unique_buffer D) * list (released_buffer D) * call_log D) :
  p ≠ nullptr → armed s0 → rtc unique_step s0 s →
  armed s ∧ accounted p s = accounted p s0 ∧
  (s.1.1 = ∅ → s.1.2 = [] → deleted p s.2 = accounted p s0).
Proof.
  intros Hp Harmed Hrun.
  destruct (unique_run_accounting p s0 s Hp Hrun) as (_ & _ & Hkeep).
  destruct (Hkeep Harmed) as [Harmed' Heq].
  split; [done |]. split; [done |].
  destruct s as [[objs recs] log]. cbn [fst snd].
  intros -> ->. by rewrite <- Heq, accounted_all_gone.
Qed.

(** X15. Each buffer is freed by its own deleter: if every owner of
    a pointer carries the deleter [f] assigns to that pointer, then so
    does every later owner, and every deleter call of the run is the call
    of [f p] on [p]. *)
Theorem unique_buffer_deleter_follows_pointer (f : Z → option D)
    (s0 s : gmap Z (unique_buffer D) * list (released_buffer D) * call_log D) :
  paired f s0 → rtc unique_step s0 s →
  paired f s ∧ ∃ calls, s.2 = s0.2 ++ calls ∧
                        ∀ d p, (d, p) ∈ calls → f p = Some d.
Proof.
  intros Hpaired Hrun.
  pose proof (unique_run_paired f s0 s Hpaired Hrun) as Hpaired'.
  split; [done |].
  destruct (unique_run_accounting 1 s0 s ltac:(done) Hrun)
    as (_ & [calls Hlog] & _).
  exists calls. split; [done |].
  intros d p Hin. destruct Hpaired' as (_ & _ & Hcalls). apply Hcalls.
  rewrite Hlog. unfold call_log in *. rewrite elem_of_app. by right.
Qed.

(** A log whose calls all free [p] with [d], and that frees [p] once, is
    that one call. *)
Lemma single_call_log (p : Z) (d : D) (log : call_log D) :
  (∀ d' q, (d', q) ∈ log → q = p ∧ d' = d) →
  deleted p log = 1%nat → log = [(d, p)].
Proof.
  unfold deleted, call_log in *. intros Hall Hone.
  destruct log as [| [d1 q1] [| [d2 q2] rest]].
  - done.
  - destruct (Hall d1 q1) as [-> ->]; [by left | done].
  - destruct (Hall d1 q1) as [-> ->]; [by left |].
    destruct (Hall d2 q2) as [-> ->]; [right; by left |].
    rewrite !filter_cons in Hone. cbn [snd] in Hone.
    rewrite !decide_True in Hone by done. simpl in Hone. lia.
Qed.

(** X16. The self-allocating constructor is RAII: the array that
    [new T[count]] returned is held with a [delete[]] deleter, also for
    [count = 0], and whatever moves, releases, reconstructions, resets
    and swaps follow, once every handle is gone the only deleter call
    made is one [delete[]] on that array. *)
Theorem unique_buffer_alloc_freed_once
    (operator_new : Z → option Z) (array_delete : D) (count : Z)
    (loc : MemoryLocation) (h p : Z) :
  operator_new count = Some p → p ≠ nullptr →
  ∃ u, unique_buffer_alloc operator_new array_delete count loc = inr u ∧
       unique_buffer_view u = mk_buffer_base p count loc ∧
       ∀ s, rtc unique_step (<[h := u]> ∅, [], []) s →
            s.1.1 = ∅ → s.1.2 = [] → s.2 = [(array_delete, p)].
Proof.
  intros Hnew Hp. unfold unique_buffer_alloc. rewrite Hnew.
  eexists. split; [reflexivity |]. split; [reflexivity |].
  set (u := mk_unique_buffer (mk_buffer_base p count loc) (Some array_delete)).
  set (f := λ q : Z, if decide (q = p) then Some array_delete else None).
  intros [[objs recs] log] Hrun. cbn [fst snd]. intros -> ->.
  assert (armed (<[h := u]> (∅ : gmap Z (unique_buffer D)), [], [])) as Harmed.
  { split; cbn [fst snd].
    - intros h' u' Hlook _.
      apply lookup_insert_Some in Hlook as [[_ <-] | [_ Hlook]];
        [by eexists | done].
    - intros rb Hin. by apply elem_of_nil in Hin. }
  assert (paired f (<[h := u]> (∅ : gmap Z (unique_buffer D)), [], []))
    as Hpaired.
  { split; [| split]; cbn [fst snd].
    - intros h' u' Hlook _.
      apply lookup_insert_Some in Hlook as [[_ <-] | [_ Hlook]]; [| done].
      unfold f. cbn. by rewrite decide_True.
    - intros rb Hin. by apply elem_of_nil in Hin.
    - intros d q Hin. by apply elem_of_nil in Hin. }
  destruct (unique_run_accounting p _ _ Hp Hrun) as (_ & _ & Hkeep).
  destruct (Hkeep Harmed) as [_ Heq].
  rewrite accounted_all_gone in Heq.
  pose proof (unique_run_paired f _ _ Hpaired Hrun) as (_ & _ & Hcalls).
  cbn [fst snd] in Hcalls.
  apply single_call_log.
  - intros d q Hin. specialize (Hcalls d q Hin). unfold f in Hcalls.
    destruct (decide (q = p)); [| done]. by injection Hcalls as ->.
  - rewrite Heq. unfold accounted. cbn [fst snd].
    rewrite held_insert_fresh by apply lookup_empty.
    change (unique_buffer_get u) with p. rewrite decide_True by done.
    unfold held, owners. by rewrite fmap_empty, map_filter_empty.
Qed.

End unique_buffer_accounting.

Lemma unique_buffer_freed_at_most_once_witness :
  let s0 : gmap Z (unique_buffer nat) * list (released_buffer nat)
           * call_log nat :=
    (<[1 := unique_buffer_adopt 4096 5 (Some 7%nat) Host]> ∅, [], []) in
  let s : gmap Z (unique_buffer nat) * list (released_buffer nat)
          * call_log nat :=
    (∅, [], [(7%nat, 4096)]) in
  4096 ≠ nullptr ∧ rtc unique_step s0 s ∧
  (accounted 4096 s ≤ accounted 4096 s0)%nat ∧
  deleted 4096 s.2 = 1%nat ∧ held 4096 s.1.1 = 0%nat.
Proof.
  intros s0 s.
  assert (H1 : 4096 ≠ nullptr) by (unfold nullptr; lia).
  assert (H2 : rtc unique_step s0 s) by sample_unique_run.
  split; [exact H1 |]. split; [exact H2 |].
  destruct (unique_buffer_freed_at_most_once 4096 s0 s H1 H2) as [Hle Hone].
  split; [exact Hle |].
  assert (H3 : (accounted 4096 s0 ≤ 1)%nat) by (vm_compute; lia).
  assert (H4 : (0 < deleted 4096 s.2)%nat) by (vm_compute; lia).
  destruct (Hone H3 H4) as (Hdel & Hheld & _). by split.
Defined.

Lemma unique_buffer_never_leaked_witness :
  let s0 : gmap Z (unique_buffer nat) * list (released_buffer nat)
           * call_log nat :=
    (<[1 := unique_buffer_adopt 4096 5 (Some 7%nat) Host]> ∅, [], []) in
  let s : gmap Z (unique_buffer nat) * list (released_buffer nat)
          * call_log nat :=
    (∅, [], [(7%nat, 4096)]) in
  4096 ≠ nullptr ∧ armed s0 ∧ rtc unique_step s0 s ∧
  armed s ∧ deleted 4096 s.2 = accounted 4096 s0.
Proof.
  intros s0 s.
  assert (H1 : 4096 ≠ nullptr) by (unfold nullptr; lia).
  assert (H2 : armed s0).
  { split.
    - intros h u Hlook _. unfold s0 in Hlook. cbn [fst snd] in Hlook.
      apply lookup_insert_Some in Hlook as [[_ <-] | [_ Hlook]];
        [by eexists | done].
    - intros rb Hin. by apply elem_of_nil in Hin. }
  assert (H3 : rtc unique_step s0 s) by sample_unique_run.
  split; [exact H1 |]. split; [exact H2 |]. split; [exact H3 |].
  destruct (unique_buffer_never_leaked 4096 s0 s H1 H2 H3)
    as (Harmed & _ & Hall).
  split; [exact Harmed |]. by apply Hall.
Defined.

Lemma unique_buffer_deleter_follows_pointer_witness :
  let f : Z → option nat := λ p, if decide (p = 4096) then Some 7%nat
                                 else None in
  let s0 : gmap Z (unique_buffer nat) * list (released_buffer nat)
           * call_log nat :=
    (<[1 := unique_buffer_adopt 4096 5 (Some 7%nat) Host]> ∅, [], []) in
  let s : gmap Z (unique_buffer nat) * list (released_buffer nat)
          * call_log nat :=
    (∅, [], [(7%nat, 4096)]) in
  paired f s0 ∧ rtc unique_step s0 s ∧ paired f s.
Proof.
  intros f s0 s.
  assert (H1 : paired f s0).
  { split; [| split].
    - intros h u Hlook _. unfold s0 in Hlook. cbn [fst snd] in Hlook.
      apply lookup_insert_Some in Hlook as [[_ <-] | [_ Hlook]];
        [reflexivity | done].
    - intros rb Hin. by apply elem_of_nil in Hin.
    - intros d p Hin. by apply elem_of_nil in Hin. }
  assert (H2 : rtc unique_step s0 s) by sample_unique_run.
  split; [exact H1 |]. split; [exact H2 |].
  by destruct (unique_buffer_deleter_follows_pointer f s0 s H1 H2) as [? _].
Defined.

Lemma unique_buffer_alloc_freed_once_witness :
  let operator_new : Z → option Z := λ n, Some (4096 + n) in
  let u := unique_buffer_adopt 4096 0 (Some 7%nat) Host in
  operator_new 0 = Some 4096 ∧ 4096 ≠ nullptr ∧
  unique_buffer_alloc operator_new 7%nat 0 Host = inr u ∧
  ∀ s, rtc unique_step (<[1 := u]> ∅, [], []) s →
       s.1.1 = ∅ → s.1.2 = [] → s.2 = [(7%nat, 4096)].
Proof.
  intros operator_new u.
  assert (H1 : operator_new 0 = Some 4096) by reflexivity.
  assert (H2 : 4096 ≠ nullptr) by (unfold nullptr; lia).
  split; [exact H1 |]. split; [exact H2 |].
  destruct (unique_buffer_alloc_freed_once operator_new 7%nat 0 Host 1 4096
              H1 H2) as (u' & Halloc & _ & Hrun).
  assert (u' = u) as -> by (by injection Halloc as <-).
  split; [exact Halloc | exact Hrun].
Defined.

(** ** singleton: one instance for each class *)
Section singleton_properties.
Context {A O E : Type}.
Variable construct : Z → A → E + O.
Variable allocate : gmap Z O → E + Z.
(** [make_shared] returns the address of a new object. *)
Hypothesis allocate_fresh :
  ∀ heap p, allocate heap = inr p → p ≠ nullptr ∧ heap !! p = None.

Lemma getInstance_set (d : Z) (a : A) (st : gmap Z Z * gmap Z O) (p : Z) :
  singleton_wf st → st.1 !! d = Some p →
  getInstance construct allocate d a st = (inr p, st).
Proof.
  intros [Hlive _] Hd. unfold getInstance, singleton_instance.
  rewrite Hd. cbn [default]. destruct (Hlive d p Hd) as [Hp _].
  by rewrite decide_False.
Qed.

Lemma getInstance_unset (d : Z) (a : A) (st : gmap Z Z * gmap Z O) :
  st.1 !! d = None →
  getInstance construct allocate d a st
  = match allocate st.2 with
    | inl e => (inl e, st)
    | inr p => match construct d a with
               | inl e => (inl e, st)
               | inr o => (inr p, (<[d := p]> st.1, <[p := o]> st.2))
               end
    end.
Proof.
  intros Hd. unfold getInstance, singleton_instance, make_shared.
  rewrite Hd. cbn [default]. rewrite decide_True by done.
  destruct (allocate st.2); [done |]. by destruct (construct d a).
Qed.

Lemma singleton_wf_insert (d p : Z) (o : O) (st : gmap Z Z * gmap Z O) :
  singleton_wf st → p ≠ nullptr → st.2 !! p = None →
  singleton_wf (<[d := p]> st.1, <[p := o]> st.2).
Proof.
  intros [Hlive Hinj] Hp Hfresh.
  assert (∀ d' p', st.1 !! d' = Some p' → p' ≠ p) as Hother.
  { intros d' p' Hlook ->. destruct (Hlive d' p Hlook) as [_ Hsome].
    rewrite Hfresh in Hsome. by destruct Hsome as [? [=]]. }
  split; cbn [fst snd].
  - intros d' p' Hlook. destruct (decide (d' = d)) as [-> | Hne].
    + rewrite lookup_insert_eq in Hlook. injection Hlook as <-.
      split; [done |]. rewrite lookup_insert_eq. by eexists.
    + rewrite lookup_insert_ne in Hlook by done.
      destruct (Hlive d' p' Hlook) as [Hp' Hsome]. split; [done |].
      rewrite lookup_insert_ne; [done |].
      intros <-. by apply (Hother d' p).
  - intros d1 d2 p' H1 H2.
    destruct (decide (d1 = d)) as [-> | Hne1];
      destruct (decide (d2 = d)) as [-> | Hne2]; [done | | |].
    + rewrite lookup_insert_eq in H1. injection H1 as <-.
      rewrite lookup_insert_ne in H2 by done. by destruct (Hother d2 p).
    + rewrite lookup_insert_eq in H2. injection H2 as <-.
      rewrite lookup_insert_ne in H1 by done. by destruct (Hother d1 p).
    + rewrite lookup_insert_ne in H1, H2 by done. by eapply Hinj.
Qed.

(** What one call does. *)
Lemma getInstance_outcome (d : Z) (a : A) (st : gmap Z Z * gmap Z O) :
  singleton_wf st →
  singleton_wf (getInstance construct allocate d a st).2 ∧
  (∀ d' p, st.1 !! d' = Some p →
           (getInstance construct allocate d a st).2.1 !! d' = Some p) ∧
  (∀ d', d' ≠ d →
         (getInstance construct allocate d a st).2.1 !! d' = st.1 !! d') ∧
  (∀ p o, st.2 !! p = Some o →
          (getInstance construct allocate d a st).2.2 !! p = Some o) ∧
  match (getInstance construct allocate d a st).1 with
  | inr p =>
      (getInstance construct allocate d a st).2.1 !! d = Some p ∧
      (st.1 !! d = Some p ∨
       st.1 !! d = None ∧
       ∃ o, construct d a = inr o ∧
            (getInstance construct allocate d a st).2.2 !! p = Some o)
  | inl e => (getInstance construct allocate d a st).2 = st ∧ st.1 !! d = None
  end.
Proof.
  intros Hwf. destruct (st.1 !! d) as [p0 |] eqn:Hd.
  { rewrite (getInstance_set d a st p0 Hwf Hd). cbn [fst snd].
    split; [done |]. split; [done |]. split; [done |]. split; [done |].
    split; [done | by left]. }
  rewrite (getInstance_unset d a st Hd).
  destruct (allocate st.2) as [e | p] eqn:Halloc; cbn [fst snd].
  { by repeat (split; [done |]). }
  destruct (construct d a) as [e | o] eqn:Hctor; cbn [fst snd].
  { by repeat (split; [done |]). }
  destruct (allocate_fresh st.2 p Halloc) as [Hp Hfresh].
  split; [by apply singleton_wf_insert |].
  split.
  { intros d' p' Hlook. rewrite lookup_insert_ne; [done |]. congruence. }
  split.
  { intros d' Hne. by rewrite lookup_insert_ne. }
  split.
  { intros p' o' Hlook. rewrite lookup_insert_ne; [done |]. congruence. }
  split; [by rewrite lookup_insert_eq |].
  right. split; [done |]. exists o. split; [done |].
  by rewrite lookup_insert_eq.
Qed.

Ltac step_calls :=
  repeat match goal with
         | H : context [(_ :: _) !! _] |- _ =>
             rewrite lookup_cons in H; cbv beta iota in H
         end;
  try (rewrite lookup_cons; cbv beta iota).

(** What a sequence of calls does. *)
Lemma getInstance_calls_outcome (calls : list (Z * A))
    (st : gmap Z Z * gmap Z O) :
  singleton_wf st →
  singleton_wf (getInstance_calls construct allocate calls st).2 ∧
  (∀ d p, st.1 !! d = Some p →
          (getInstance_calls construct allocate calls st).2.1 !! d = Some p) ∧
  (∀ p o, st.2 !! p = Some o →
          (getInstance_calls construct allocate calls st).2.2 !! p = Some o) ∧
  (∀ i d a p,
     calls !! i = Some (d, a) →
     (getInstance_calls construct allocate calls st).1 !! i = Some (inr p) →
     (getInstance_calls construct allocate calls st).2.1 !! d = Some p).
Proof.
  revert st. induction calls as [| [d0 a0] rest IH]; intros st Hwf.
  { cbn [getInstance_calls fst snd]. by repeat (split; [done |]). }
  cbn [getInstance_calls fst snd].
  destruct (getInstance_outcome d0 a0 st Hwf)
    as (Hwf1 & Hkeep1 & _ & Hheap1 & Hres1).
  destruct (IH _ Hwf1) as (Hwf2 & Hkeep2 & Hheap2 & Hres2).
  split; [done |]. split; [by auto |]. split; [by auto |].
  intros [| i] d a p Hcall Hres.
  - step_calls. injection Hcall as -> ->. injection Hres as Hres.
    rewrite Hres in Hres1. destruct Hres1 as [Hset _]. by apply Hkeep2.
  - step_calls. by apply (Hres2 i d a).
Qed.

(** Once the instance of a class is set, every call for the class
    returns it. *)
Lemma getInstance_calls_set (calls : list (Z * A))
    (st : gmap Z Z * gmap Z O) (d p : Z) :
  singleton_wf st → st.1 !! d = Some p →
  ∀ m a, calls !! m = Some (d, a) →
         (getInstance_calls construct allocate calls st).1 !! m
         = Some (inr p).
Proof.
  revert st. induction calls as [| [d0 a0] rest IH]; intros st Hwf Hd m a Hm.
  { done. }
  cbn [getInstance_calls fst snd].
  destruct (getInstance_outcome d0 a0 st Hwf) as (Hwf1 & Hkeep1 & _).
  destruct m as [| m]; step_calls.
  - injection Hm as -> ->. by rewrite (getInstance_set d a st p).
  - by apply (IH _ Hwf1 (Hkeep1 d p Hd) m a).
Qed.

(** The first call for a class that does not throw builds the object;
    the calls before it threw and every call after it returns the same
    object. *)
Lemma getInstance_calls_unset (calls : list (Z * A))
    (st : gmap Z Z * gmap Z O) (d : Z) :
  singleton_wf st → st.1 !! d = None →
  ∀ i a p,
    calls !! i = Some (d, a) →
    (getInstance_calls construct allocate calls st).1 !! i = Some (inr p) →
    ∃ k ak o,
      (k ≤ i)%nat ∧ calls !! k = Some (d, ak) ∧ construct d ak = inr o ∧
      (getInstance_calls construct allocate calls st).2.2 !! p = Some o ∧
      (∀ m am, (m < k)%nat → calls !! m = Some (d, am) →
               ∃ e, (getInstance_calls construct allocate calls st).1 !! m
                    = Some (inl e)) ∧
      (∀ m am, (k ≤ m)%nat → calls !! m = Some (d, am) →
               (getInstance_calls construct allocate calls st).1 !! m
               = Some (inr p)).
Proof.
  revert st. induction calls as [| [d0 a0] rest IH];
    intros st Hwf Hd i a p Hcall Hres.
  { done. }
  cbn [getInstance_calls fst snd] in Hres |- *.
  destruct (getInstance_outcome d0 a0 st Hwf)
    as (Hwf1 & Hkeep1 & Hother1 & Hheap1 & Hres1).
  destruct (getInstance_calls_outcome rest _ Hwf1)
    as (Hwf2 & Hkeep2 & Hheap2 & Hres2).
  destruct (decide (d0 = d)) as [-> | Hne].
  - destruct (getInstance construct allocate d a0 st).1 as [e | p1] eqn:Hr.
    + destruct Hres1 as [Hsame _].
      destruct i as [| i]; step_calls; [done |].
      rewrite Hsame in Hres |- *.
      destruct (IH st Hwf Hd i a p Hcall Hres)
        as (k & ak & o & Hk & Hcallk & Hctor & Hobj & Hbefore & Hafter).
      exists (S k), ak, o. split; [lia |]. split; [done |].
      split; [done |]. split; [done |]. split.
      * intros [| m] am Hm Hcm; [by exists e |].
        step_calls. apply (Hbefore m am); [lia | done].
      * intros [| m] am Hm Hcm; [lia |].
        step_calls. apply (Hafter m am); [lia | done].
    + destruct Hres1 as [Hset [Hold | [_ (o & Hctor & Hobj)]]];
        [congruence |].
      assert (p = p1) as ->.
      { destruct i as [| i]; step_calls; [congruence |].
        pose proof (getInstance_calls_set rest _ d p1 Hwf1 Hset i a Hcall)
          as Hsame. congruence. }
      exists 0%nat, a0, o. split; [lia |]. split; [done |].
      split; [done |]. split; [by apply Hheap2 |]. split.
      * intros m am Hm. lia.
      * intros [| m] am _ Hcm; [done |]. step_calls.
        by apply (getInstance_calls_set rest _ d p1 Hwf1 Hset m am).
  - destruct i as [| i]; step_calls; [congruence |].
    assert ((getInstance construct allocate d0 a0 st).2.1 !! d = None)
      as Hd1 by (by rewrite Hother1).
    destruct (IH _ Hwf1 Hd1 i a p Hcall Hres)
      as (k & ak & o & Hk & Hcallk & Hctor & Hobj & Hbefore & Hafter).
    exists (S k), ak, o. split; [lia |]. split; [done |].
    split; [done |]. split; [done |]. split.
    * intros [| m] am Hm Hcm; step_calls; [congruence |].
      apply (Hbefore m am); [lia | done].
    * intros [| m] am Hm Hcm; [lia |].
      step_calls. apply (Hafter m am); [lia | done].
Qed.

Lemma singleton_wf_initial (heap : gmap Z O) : singleton_wf (∅, heap).
Proof. split; cbn [fst snd]; intros *; by rewrite lookup_empty. Qed.

(** X17. One instance for each class: in a program that starts with
    no instance set, two calls of [getInstance] that return return the
    same non-null pointer exactly when they are calls for the same class,
    whatever their arguments are. *)
Theorem singleton_one_instance_per_class (heap : gmap Z O)
    (calls : list (Z * A)) (i j : nat) (d1 d2 : Z) (a1 a2 : A) (p1 p2 : Z) :
  calls !! i = Some (d1, a1) →
  (getInstance_calls construct allocate calls (∅, heap)).1 !! i
    = Some (inr p1) →
  calls !! j = Some (d2, a2) →
  (getInstance_calls construct allocate calls (∅, heap)).1 !! j
    = Some (inr p2) →
  (p1 = p2 ↔ d1 = d2) ∧ p1 ≠ nullptr.
Proof.
  intros Hc1 Hr1 Hc2 Hr2.
  destruct (getInstance_calls_outcome calls _ (singleton_wf_initial heap))
    as ([Hlive Hinj] & _ & _ & Hres).
  pose proof (Hres i d1 a1 p1 Hc1 Hr1) as H1.
  pose proof (Hres j d2 a2 p2 Hc2 Hr2) as H2.
  split; [| by destruct (Hlive d1 p1 H1)].
  split.
  - intros <-. by apply (Hinj d1 d2 p1).
  - intros <-. congruence.
Qed.

(** X18. The instance is built once, by the first call that does not
    throw: a call of [getInstance] that returns [p] finds at [p] the object
    the constructor made from the arguments of one earlier (or the same)
    call for the class; every call for the class before that one threw and
    left the instance unset, and every call for the class from that one on
    returns [p] and ignores its arguments. *)
Theorem singleton_built_by_first_call (heap : gmap Z O)
    (calls : list (Z * A)) (i : nat) (d : Z) (a : A) (p : Z) :
  calls !! i = Some (d, a) →
  (getInstance_calls construct allocate calls (∅, heap)).1 !! i
    = Some (inr p) →
  ∃ k ak o,
    (k ≤ i)%nat ∧ calls !! k = Some (d, ak) ∧ construct d ak = inr o ∧
    (getInstance_calls construct allocate calls (∅, heap)).2.2 !! p
      = Some o ∧
    (∀ m am, (m < k)%nat → calls !! m = Some (d, am) →
             ∃ e, (getInstance_calls construct allocate calls (∅, heap)).1
                    !! m = Some (inl e)) ∧
    (∀ m am, (k ≤ m)%nat → calls !! m = Some (d, am) →
             (getInstance_calls construct allocate calls (∅, heap)).1 !! m
             = Some (inr p)).
Proof.
  intros Hcall Hres.
  apply (getInstance_calls_unset calls _ d (singleton_wf_initial heap)
           (lookup_empty d) i a p Hcall Hres).
Qed.

End singleton_properties.

(** An allocator that hands out an address not in use. *)
Lemma fresh_address_allocates (heap : gmap Z Z) (p : Z) :
  inr (fresh (({[nullptr]} : gset Z) ∪ dom heap)) = (inr p : nat + Z) →
  p ≠ nullptr ∧ heap !! p = None.
Proof.
  intros [= <-].
  pose proof (is_fresh (({[nullptr]} : gset Z) ∪ dom heap)) as Hfresh.
  apply not_elem_of_union in Hfresh as [Hnull Hdom].
  split; [| by apply not_elem_of_dom].
  intros Heq. apply Hnull. rewrite Heq. by apply elem_of_singleton.
Qed.

Lemma singleton_one_instance_per_class_witness :
  let construct : Z → Z → nat + Z :=
    λ d a, if decide (a < 0) then inl 1%nat else inr (1000 * d + a) in
  let allocate : gmap Z Z → nat + Z :=
    λ heap, inr (fresh (({[nullptr]} : gset Z) ∪ dom heap)) in
  let calls := [(1, -5); (1, 7); (2, 3); (1, 9)] in
  (∀ heap p, allocate heap = inr p → p ≠ nullptr ∧ heap !! p = None) ∧
  ∃ p1 p2,
    (getInstance_calls construct allocate calls (∅, ∅)).1 !! 1%nat
      = Some (inr p1) ∧
    (getInstance_calls construct allocate calls (∅, ∅)).1 !! 2%nat
      = Some (inr p2) ∧
    (getInstance_calls construct allocate calls (∅, ∅)).1 !! 3%nat
      = Some (inr p1) ∧
    p1 ≠ p2.
Proof.
  intros construct allocate calls.
  assert (H0 : ∀ heap p, allocate heap = inr p →
                         p ≠ nullptr ∧ heap !! p = None)
    by exact fresh_address_allocates.
  split; [exact H0 |].
  eexists _, _.
  assert (H1 : calls !! 1%nat = Some (1, 7)) by reflexivity.
  assert (H2 : (getInstance_calls construct allocate calls (∅, ∅)).1
                 !! 1%nat = Some (inr _)) by (vm_compute; reflexivity).
  assert (H3 : calls !! 2%nat = Some (2, 3)) by reflexivity.
  assert (H4 : (getInstance_calls construct allocate calls (∅, ∅)).1
                 !! 2%nat = Some (inr _)) by (vm_compute; reflexivity).
  split; [exact H2 |]. split; [exact H4 |].
  split; [vm_compute; reflexivity |].
  intros Heq.
  destruct (singleton_one_instance_per_class construct allocate H0 ∅ calls
              1 2 1 2 7 3 _ _ H1 H2 H3 H4) as [[Hsame _] _].
  by specialize (Hsame Heq).
Defined.

Lemma singleton_built_by_first_call_witness :
  let construct : Z → Z → nat + Z :=
    λ d a, if decide (a < 0) then inl 1%nat else inr (1000 * d + a) in
  let allocate : gmap Z Z → nat + Z :=
    λ heap, inr (fresh (({[nullptr]} : gset Z) ∪ dom heap)) in
  let calls := [(1, -5); (1, 7); (2, 3); (1, 9)] in
  (∀ heap p, allocate heap = inr p → p ≠ nullptr ∧ heap !! p = None) ∧
  ∃ p k ak o,
    calls !! 3%nat = Some (1, 9) ∧
    (getInstance_calls construct allocate calls (∅, ∅)).1 !! 3%nat
      = Some (inr p) ∧
    calls !! k = Some (1, ak) ∧ construct 1 ak = inr o ∧
    (getInstance_calls construct allocate calls (∅, ∅)).2.2 !! p = Some o.
Proof.
  intros construct allocate calls.
  assert (H0 : ∀ heap p, allocate heap = inr p →
                         p ≠ nullptr ∧ heap !! p = None)
    by exact fresh_address_allocates.
  split; [exact H0 |].
  eexists _.
  assert (H1 : calls !! 3%nat = Some (1, 9)) by reflexivity.
  assert (H2 : (getInstance_calls construct allocate calls (∅, ∅)).1
                 !! 3%nat = Some (inr _)) by (vm_compute; reflexivity).
  destruct (singleton_built_by_first_call construct allocate H0 ∅ calls
              3 1 9 _ H1 H2) as (k & ak & o & _ & Hk & Hctor & Hobj & _).
  exists k, ak, o. split; [exact H1 |]. split; [exact H2 |].
  split; [exact Hk |]. split; [exact Hctor | exact Hobj].
Defined.

(** ** nstd::any *)
Section any_properties.
Context {V R E : Type}.
Variable construct : type_desc → R → E + V.
Variable copy_construct : type_desc → V → E + V.
Variable move_construct : type_desc → V → (E + V) * V.
Variable operator_new : gmap Z (type_desc * V) → option Z.
(** [operator new] returns the address of new storage. *)
Hypothesis operator_new_fresh :
  ∀ store p, operator_new store = Some p → p ≠ nullptr ∧ store !! p = None.
Implicit Types (σ : any_memory V) (t : type_desc) (v : V).

Ltac in_list :=
  let a := fresh "a" in
  intros a; rewrite !elem_of_cons;
  repeat match goal with H : _ |- _ => clear H end; tauto.

Lemma any_contains_has_value σ (a : Z) t v :
  any_contains σ a t v → any_has_value a σ = Some true.
Proof.
  intros (obj & Hobj & Hman & _). unfold any_has_value.
  by rewrite Hobj, Hman.
Qed.

Lemma any_empty_has_value σ (a : Z) :
  any_empty σ a → any_has_value a σ = Some false.
Proof.
  intros (obj & Hobj & Hman & _). unfold any_has_value.
  by rewrite Hobj, Hman.
Qed.

Lemma any_contains_not_empty σ (a : Z) t v :
  any_contains σ a t v → any_empty σ a → False.
Proof.
  intros Hfull Hempty.
  pose proof (any_contains_has_value σ a t v Hfull) as H1.
  pose proof (any_empty_has_value σ a Hempty) as H2. congruence.
Qed.

Lemma any_contains_unique σ (a : Z) t1 v1 t2 v2 :
  any_contains σ a t1 v1 → any_contains σ a t2 v2 → t1 = t2 ∧ v1 = v2.
Proof.
  intros (obj1 & Hobj1 & Hman1 & Hsto1) (obj2 & Hobj2 & Hman2 & Hsto2).
  assert (obj2 = obj1) as -> by congruence.
  assert (t2 = t1) as -> by congruence. split; [done |].
  destruct (IsSmall t1).
  - congruence.
  - destruct Hsto1 as (p1 & Hp1 & _ & Hcell1).
    destruct Hsto2 as (p2 & Hp2 & _ & Hcell2).
    assert (p2 = p1) as -> by congruence. congruence.
Qed.

Lemma owned_cell_empty σ (a : Z) : any_empty σ a → owned_cell σ a = None.
Proof.
  intros (obj & Hobj & Hman & _). unfold owned_cell. by rewrite Hobj, Hman.
Qed.

Lemma owned_cell_small σ (a : Z) t v :
  any_contains σ a t v → IsSmall t = true → owned_cell σ a = None.
Proof.
  intros (obj & Hobj & Hman & _) Hsmall. unfold owned_cell.
  by rewrite Hobj, Hman, Hsmall.
Qed.

Lemma owned_cell_large σ (a : Z) t v :
  any_contains σ a t v → IsSmall t = false →
  ∃ obj p, anys σ !! a = Some obj ∧ manager obj = Some t ∧
           storage obj = in_ptr p ∧ p ≠ nullptr ∧
           free_store σ !! p = Some (t, v) ∧ owned_cell σ a = Some p.
Proof.
  intros (obj & Hobj & Hman & Hsto) Hlarge. rewrite Hlarge in Hsto.
  destruct Hsto as (p & Hp & Hnull & Hcell).
  exists obj, p. repeat (split; [done |]).
  unfold owned_cell. by rewrite Hobj, Hman, Hlarge, Hp.
Qed.

Lemma owned_cell_live σ (a p : Z) :
  any_wf σ → owned_cell σ a = Some p →
  p ≠ nullptr ∧ is_Some (free_store σ !! p).
Proof.
  intros Hwf Hown.
  destruct (anys σ !! a) as [obj |] eqn:Hobj;
    [| by unfold owned_cell in Hown; rewrite Hobj in Hown].
  destruct (wf_objects σ Hwf a obj Hobj) as [Hempty | (t & v & Hfull)].
  { by rewrite (owned_cell_empty σ a Hempty) in Hown. }
  destruct (IsSmall t) eqn:Hsize.
  { by rewrite (owned_cell_small σ a t v Hfull Hsize) in Hown. }
  destruct (owned_cell_large σ a t v Hfull Hsize)
    as (obj' & p' & _ & _ & _ & Hnull & Hcell & Hown').
  assert (p' = p) as -> by congruence. split; [done | by eexists].
Qed.

(** What stays true of an [any] that a change does not touch. *)
Lemma owned_cell_frame σ σ' (a : Z) :
  anys σ' !! a = anys σ !! a → owned_cell σ' a = owned_cell σ a.
Proof. intros Hsame. unfold owned_cell. by rewrite Hsame. Qed.

Lemma any_empty_frame σ σ' (a : Z) :
  anys σ' !! a = anys σ !! a → any_empty σ a → any_empty σ' a.
Proof.
  intros Hsame (obj & Hobj & Hrest). exists obj. by rewrite Hsame.
Qed.

Lemma any_contains_frame σ σ' (a : Z) t v :
  anys σ' !! a = anys σ !! a →
  (∀ p, owned_cell σ a = Some p → free_store σ' !! p = free_store σ !! p) →
  any_contains σ a t v → any_contains σ' a t v.
Proof.
  intros Hsame Hcells Hfull.
  destruct (IsSmall t) eqn:Hsize.
  - destruct Hfull as (obj & Hobj & Hman & Hsto). exists obj.
    rewrite Hsame. split; [done |]. split; [done |].
    rewrite Hsize in Hsto |- *. done.
  - destruct (owned_cell_large σ a t v Hfull Hsize)
      as (obj & p & Hobj & Hman & Hsto & Hnull & Hcell & Hown).
    exists obj. rewrite Hsame. split; [done |]. split; [done |].
    rewrite Hsize. exists p. split; [done |]. split; [done |].
    by rewrite (Hcells p Hown).
Qed.

Lemma any_changes_frame σ σ' (a a' : Z) :
  any_wf σ → any_changes_only a σ σ' → a' ≠ a →
  (∀ t v, any_contains σ a' t v → any_contains σ' a' t v) ∧
  (any_empty σ a' → any_empty σ' a') ∧
  owned_cell σ' a' = owned_cell σ a' ∧
  anys σ' !! a' = anys σ !! a'.
Proof.
  intros Hwf (Hothers & Hkeep & Hdrop & Hnew) Hne.
  pose proof (Hothers a' Hne) as Hsame.
  split; [| split; [by apply any_empty_frame |
                    split; [by apply owned_cell_frame | done]]].
  intros t v Hfull. apply (any_contains_frame σ σ' a' t v Hsame); [| done].
  intros p Hown. apply Hkeep.
  - intros Hown_a. apply Hne. by apply (wf_unshared σ Hwf a' a p).
  - intros Hown_a. destruct (Hnew p Hown_a) as [Hold | Hfresh].
    + apply Hne. by apply (wf_unshared σ Hwf a' a p).
    + destruct (owned_cell_live σ a' p Hwf Hown) as [_ [o Ho]]. congruence.
Qed.

(** A change of one [any] that leaves it empty, full or gone keeps the
    memory well formed. *)
Lemma any_wf_update σ σ' (a : Z) :
  any_wf σ → any_changes_only a σ σ' →
  (anys σ' !! a = None ∨ any_empty σ' a ∨ ∃ t v, any_contains σ' a t v) →
  any_wf σ'.
Proof.
  intros Hwf Hchg Hnew_a.
  pose proof Hchg as (Hothers & Hkeep & Hdrop & Hnew). split.
  - intros a' obj Hobj. destruct (decide (a' = a)) as [-> | Hne].
    + destruct Hnew_a as [Hgone | Hok]; [congruence | done].
    + destruct (any_changes_frame σ σ' a a' Hwf Hchg Hne)
        as (Hc & He & _ & Hsame).
      rewrite Hsame in Hobj.
      destruct (wf_objects σ Hwf a' obj Hobj) as [Hempty | (t & v & Hfull)];
        [left; auto | right; eauto].
  - assert (∀ a2 p, a2 ≠ a → owned_cell σ' a = Some p →
                    owned_cell σ' a2 = Some p → False) as Hclash.
    { intros a2 p Hne2 H1 H2.
      destruct (any_changes_frame σ σ' a a2 Hwf Hchg Hne2)
        as (_ & _ & Hown2 & _).
      rewrite Hown2 in H2. destruct (Hnew p H1) as [Hold | Hfresh].
      - apply Hne2. by apply (wf_unshared σ Hwf a2 a p).
      - destruct (owned_cell_live σ a2 p Hwf H2) as [_ [o Ho]]. congruence. }
    intros a1 a2 p H1 H2.
    destruct (decide (a1 = a)) as [-> | Hne1];
      destruct (decide (a2 = a)) as [-> | Hne2]; [done | | |].
    + by destruct (Hclash a2 p).
    + by destruct (Hclash a1 p).
    + destruct (any_changes_frame σ σ' a a1 Hwf Hchg Hne1)
        as (_ & _ & Hown1 & _).
      destruct (any_changes_frame σ σ' a a2 Hwf Hchg Hne2)
        as (_ & _ & Hown2 & _).
      rewrite Hown1 in H1. rewrite Hown2 in H2.
      by apply (wf_unshared σ Hwf a1 a2 p).
  - intros p o Hcell.
    destruct (decide (owned_cell σ' a = Some p)) as [Hown' | Hnot'];
      [by exists a |].
    destruct (decide (owned_cell σ a = Some p)) as [Hown | Hnot].
    { by rewrite (Hdrop p Hown Hnot') in Hcell. }
    rewrite (Hkeep p Hnot Hnot') in Hcell.
    destruct (wf_no_leak σ Hwf p o Hcell) as [a0 Ha0].
    exists a0. assert (a0 ≠ a) as Hne0 by (by intros ->).
    destruct (any_changes_frame σ σ' a a0 Hwf Hchg Hne0)
      as (_ & _ & Hown0 & _).
    by rewrite Hown0.
Qed.

Lemma any_others_kept_refl (touched : list Z) σ : any_others_kept touched σ σ.
Proof. by intros a _. Qed.

Lemma any_others_kept_trans (touched : list Z) σ1 σ2 σ3 :
  any_others_kept touched σ1 σ2 → any_others_kept touched σ2 σ3 →
  any_others_kept touched σ1 σ3.
Proof.
  intros H12 H23 a Ha. destruct (H12 a Ha) as (Hc1 & He1 & Hn1).
  destruct (H23 a Ha) as (Hc2 & He2 & Hn2). repeat split; auto.
Qed.

Lemma any_others_kept_more (touched touched' : list Z) σ σ' :
  (∀ a, a ∈ touched → a ∈ touched') →
  any_others_kept touched σ σ' → any_others_kept touched' σ σ'.
Proof. intros Hsub Hkept a Ha. apply Hkept. intros Hin. by apply Ha, Hsub. Qed.

Lemma any_changes_kept σ σ' (a : Z) (touched : list Z) :
  any_wf σ → any_changes_only a σ σ' → a ∈ touched →
  any_others_kept touched σ σ'.
Proof.
  intros Hwf Hchg Hin a' Ha'.
  assert (a' ≠ a) as Hne by (by intros ->).
  destruct (any_changes_frame σ σ' a a' Hwf Hchg Hne) as (Hc & He & _ & Hsame).
  split; [done |]. split; [done |]. by rewrite Hsame.
Qed.

(** Changes of one [any] that involve no object of the free store. *)
Lemma any_changes_local σ σ' (a : Z) :
  (∀ a', a' ≠ a → anys σ' !! a' = anys σ !! a') →
  free_store σ' = free_store σ →
  owned_cell σ a = None → owned_cell σ' a = None →
  any_changes_only a σ σ'.
Proof.
  intros Hothers Hstore Hold Hnew. split; [done |].
  split; [by intros; rewrite Hstore |]. split; intros p; congruence.
Qed.

(** The [any] at [a] takes on the new object at [p]. *)
Lemma any_changes_take σ σ' (a p : Z) (o : type_desc * V) :
  (∀ a', a' ≠ a → anys σ' !! a' = anys σ !! a') →
  free_store σ' = <[p := o]> (free_store σ) →
  free_store σ !! p = None →
  owned_cell σ a = None → owned_cell σ' a = Some p →
  any_changes_only a σ σ'.
Proof.
  intros Hothers Hstore Hfresh Hold Hnew. split; [done |]. split.
  { intros q _ Hq. rewrite Hstore, lookup_insert_ne; [done |]. congruence. }
  split; intros q Hq; [congruence |].
  right. congruence.
Qed.

(** The [any] at [a] deletes the object at [p] it answered for. *)
Lemma any_changes_drop σ σ' (a p : Z) :
  (∀ a', a' ≠ a → anys σ' !! a' = anys σ !! a') →
  free_store σ' = delete p (free_store σ) →
  owned_cell σ a = Some p → owned_cell σ' a = None →
  any_changes_only a σ σ'.
Proof.
  intros Hothers Hstore Hold Hnew. split; [done |]. split.
  { intros q Hq _. rewrite Hstore, lookup_delete_ne; [done |]. congruence. }
  split; intros q Hq; [| congruence].
  intros _. assert (q = p) as -> by congruence.
  by rewrite Hstore, lookup_delete_eq.
Qed.

(** The object at [p] that the [any] at [a] answers for changes. *)
Lemma any_changes_write σ σ' (a p : Z) (o : type_desc * V) :
  (∀ a', a' ≠ a → anys σ' !! a' = anys σ !! a') →
  free_store σ' = <[p := o]> (free_store σ) →
  owned_cell σ a = Some p → owned_cell σ' a = Some p →
  any_changes_only a σ σ'.
Proof.
  intros Hothers Hstore Hold Hnew. split; [done |]. split.
  { intros q Hq _. rewrite Hstore, lookup_insert_ne; [done |]. congruence. }
  split; intros q Hq; [congruence |].
  left. congruence.
Qed.

(** *** The steps the operations are made of *)

Lemma any_default_returns σ (this : Z) :
  any_wf σ → anys σ !! this = None →
  ∃ σ', any_default (E := E) this σ = returned tt σ' ∧
        any_wf σ' ∧ any_empty σ' this ∧ any_changes_only this σ σ' ∧
        destroyed σ' = destroyed σ ∧ free_store σ' = free_store σ.
Proof.
  intros Hwf Hfresh. unfold any_default. rewrite Hfresh.
  eexists. split; [reflexivity |].
  set (σ' := set_any this _ σ).
  assert (any_empty σ' this) as Hempty.
  { eexists. split; [apply lookup_insert_eq |]. by split. }
  assert (any_changes_only this σ σ') as Hchg.
  { apply any_changes_local.
    - intros a' Hne. by apply lookup_insert_ne.
    - done.
    - unfold owned_cell. by rewrite Hfresh.
    - by apply owned_cell_empty. }
  split; [apply (any_wf_update σ σ' this); auto |].
  split; [done |]. split; [done |]. by split.
Qed.

Lemma any_contains_access σ (a : Z) t v :
  any_contains σ a t v →
  ∃ obj l, anys σ !! a = Some obj ∧ manager obj = Some t ∧
           ManagerImpl_Access t a (storage obj) = Some l ∧
           read_object t l σ = Some v ∧
           (IsSmall t = true → l = buffer_of a).
Proof.
  intros (obj & Hobj & Hman & Hsto). unfold ManagerImpl_Access, read_object.
  destruct (IsSmall t) eqn:Hsize.
  - exists obj, (buffer_of a). repeat (split; [done |]).
    split; [| done]. cbn. rewrite Hobj, Hsto. by rewrite decide_True.
  - destruct Hsto as (p & Hp & Hnull & Hcell).
    exists obj, (heap_at p). rewrite Hp. repeat (split; [done |]).
    split; [| done]. cbn. rewrite Hcell. by rewrite decide_True.
Qed.

(** [Destroy] and [manager = nullptr] on an [any] that contains an
    object. *)
Lemma any_drain σ (a : Z) t v :
  any_wf σ → any_contains σ a t v →
  ∃ σ1, ManagerImpl_Destroy t a σ = Some σ1 ∧
        any_wf (set_manager a None σ1) ∧
        any_empty (set_manager a None σ1) a ∧
        any_changes_only a σ (set_manager a None σ1) ∧
        destroyed (set_manager a None σ1) = destroyed σ ++ [(t, v)] ∧
        (IsSmall t = true →
         free_store (set_manager a None σ1) = free_store σ).
Proof.
  intros Hwf Hfull. unfold ManagerImpl_Destroy.
  destruct (IsSmall t) eqn:Hsize.
  - pose proof (owned_cell_small σ a t v Hfull Hsize) as Hown.
    destruct Hfull as (obj & Hobj & Hman & Hsto). rewrite Hsize in Hsto.
    rewrite Hobj, Hsto, decide_True by done.
    eexists. split; [reflexivity |].
    unfold set_manager. cbn [anys]. rewrite lookup_insert_eq.
    cbn [storage]. unfold set_any. cbn [anys free_store destroyed].
    rewrite insert_insert_eq.
    set (σ' := mk_any_memory _ _ _).
    assert (any_empty σ' a) as Hempty.
    { eexists. split; [apply lookup_insert_eq |]. by split. }
    assert (any_changes_only a σ σ') as Hchg.
    { apply any_changes_local; [| done | done | by apply owned_cell_empty].
      intros a' Hne. by apply lookup_insert_ne. }
    split; [apply (any_wf_update σ σ' a); auto |].
    split; [done |]. split; [done |]. by split.
  - destruct (owned_cell_large σ a t v Hfull Hsize)
      as (obj & p & Hobj & Hman & Hsto & Hnull & Hcell & Hown).
    rewrite Hobj, Hsto, decide_False, Hcell, decide_True by done.
    eexists. split; [reflexivity |].
    unfold set_manager. cbn [anys]. rewrite Hobj.
    unfold set_any. cbn [anys free_store destroyed].
    set (σ' := mk_any_memory _ _ _).
    assert (any_empty σ' a) as Hempty.
    { eexists. split; [apply lookup_insert_eq |]. split; [done |].
      cbn. by rewrite Hsto. }
    assert (any_changes_only a σ σ') as Hchg.
    { apply (any_changes_drop σ σ' a p);
        [| done | done | by apply owned_cell_empty].
      intros a' Hne. by apply lookup_insert_ne. }
    split; [apply (any_wf_update σ σ' a); auto |].
    split; [done |]. split; [done |]. by split.
Qed.

(** [Create] and [manager = &Manage] on an empty [any]: a new object, or
    an exception that leaves everything as it was. *)
Lemma any_create_cases σ (a : Z) t (made : E + V) :
  any_wf σ → any_empty σ a →
  match ManagerImpl_Create operator_new t a made σ with
  | returned _ σ1 =>
      ∃ v, made = inr v ∧
           (IsSmall t = true ∨ is_Some (operator_new (free_store σ))) ∧
           any_wf (set_manager a (Some t) σ1) ∧
           any_contains (set_manager a (Some t) σ1) a t v ∧
           any_changes_only a σ (set_manager a (Some t) σ1) ∧
           destroyed (set_manager a (Some t) σ1) = destroyed σ ∧
           (IsSmall t = true →
            free_store (set_manager a (Some t) σ1) = free_store σ)
  | threw x σ1 =>
      σ1 = σ ∧
      (x = new_bad_alloc ∧ IsSmall t = false ∧
       operator_new (free_store σ) = None
       ∨ ∃ e, x = thrown_by_T e ∧ made = inl e ∧
              (IsSmall t = true ∨ is_Some (operator_new (free_store σ))))
  | terminated => False
  | undefined => False
  end.
Proof.
  intros Hwf Hempty. pose proof (owned_cell_empty σ a Hempty) as Hown.
  destruct Hempty as (obj & Hobj & Hman & Hsto).
  unfold ManagerImpl_Create. rewrite Hobj.
  destruct (IsSmall t) eqn:Hsize.
  - destruct made as [e | v].
    { split; [done |]. right. exists e. by auto. }
    exists v. split; [done |]. split; [by left |].
    unfold set_storage. rewrite Hobj.
    unfold set_manager, set_any. cbn [anys free_store destroyed].
    rewrite lookup_insert_eq. cbn [storage]. rewrite insert_insert_eq.
    set (σ' := mk_any_memory _ _ _).
    assert (any_contains σ' a t v) as Hfull.
    { eexists. split; [apply lookup_insert_eq |]. split; [done |].
      by rewrite Hsize. }
    assert (any_changes_only a σ σ') as Hchg.
    { apply any_changes_local;
        [| done | done | by apply (owned_cell_small σ' a t v)].
      intros a' Hne. by apply lookup_insert_ne. }
    split; [apply (any_wf_update σ σ' a); eauto |].
    split; [done |]. split; [done |]. by split.
  - destruct (operator_new (free_store σ)) as [p |] eqn:Hnew.
    2: { split; [done |]. by left. }
    destruct (operator_new_fresh _ p Hnew) as [Hnull Hfresh].
    destruct made as [e | v].
    { split; [done |]. right. exists e. split; [done |]. split; [done |].
      right. by eexists. }
    exists v. split; [done |]. split; [right; by eexists |].
    unfold set_storage. cbn [anys]. rewrite Hobj.
    unfold set_manager, set_any. cbn [anys free_store destroyed].
    rewrite lookup_insert_eq. cbn [storage]. rewrite insert_insert_eq.
    set (σ' := mk_any_memory _ _ _).
    assert (any_contains σ' a t v) as Hfull.
    { eexists. split; [apply lookup_insert_eq |]. split; [done |].
      rewrite Hsize. exists p. split; [done |]. split; [done |].
      apply lookup_insert_eq. }
    assert (any_changes_only a σ σ') as Hchg.
    { apply (any_changes_take σ σ' a p (t, v)); [| done | done | done |].
      - intros a' Hne. by apply lookup_insert_ne.
      - unfold owned_cell, σ'. cbn [anys]. rewrite lookup_insert_eq.
        cbn [manager storage]. by rewrite Hsize. }
    split; [apply (any_wf_update σ σ' a); eauto |].
    split; [done |]. split; [done |]. by split.
Qed.

(** The move constructor's leftovers in the contained object. *)
Lemma any_write_object σ (a : Z) t v v' (obj : any_object V) (l : location) :
  any_wf σ → any_contains σ a t v → anys σ !! a = Some obj →
  ManagerImpl_Access t a (storage obj) = Some l →
  any_wf (write_object t l v' σ) ∧
  any_contains (write_object t l v' σ) a t v' ∧
  any_changes_only a σ (write_object t l v' σ) ∧
  destroyed (write_object t l v' σ) = destroyed σ ∧
  (∃ obj', anys (write_object t l v' σ) !! a = Some obj' ∧
           ManagerImpl_Access t a (storage obj') = Some l) ∧
  (IsSmall t = true → free_store (write_object t l v' σ) = free_store σ).
Proof.
  intros Hwf Hfull Hobj Hacc. unfold ManagerImpl_Access in Hacc.
  destruct (IsSmall t) eqn:Hsize.
  - injection Hacc as <-.
    pose proof (owned_cell_small σ a t v Hfull Hsize) as Hown.
    destruct Hfull as (obj0 & Hobj0 & Hman & Hsto).
    assert (obj0 = obj) as -> by congruence.
    unfold write_object, set_storage. rewrite Hobj. unfold set_any.
    set (σ' := mk_any_memory _ _ _).
    assert (any_contains σ' a t v') as Hfull.
    { eexists. split; [apply lookup_insert_eq |]. split; [done |].
      by rewrite Hsize. }
    assert (any_changes_only a σ σ') as Hchg.
    { apply any_changes_local;
        [| done | done | by apply (owned_cell_small σ' a t v')].
      intros a' Hne. by apply lookup_insert_ne. }
    split; [apply (any_wf_update σ σ' a); eauto |].
    split; [done |]. split; [done |]. split; [done |].
    split; [| done].
    eexists. split; [apply lookup_insert_eq |].
    unfold ManagerImpl_Access. by rewrite Hsize.
  - destruct (owned_cell_large σ a t v Hfull Hsize)
      as (obj0 & p & Hobj0 & Hman & Hsto & Hnull & Hcell & Hown).
    assert (obj0 = obj) as -> by congruence.
    rewrite Hsto in Hacc. injection Hacc as <-.
    unfold write_object.
    set (σ' := mk_any_memory _ _ _).
    assert (any_contains σ' a t v') as Hfull'.
    { exists obj. split; [done |]. split; [done |].
      rewrite Hsize. exists p. split; [done |]. split; [done |].
      apply lookup_insert_eq. }
    assert (any_changes_only a σ σ') as Hchg.
    { apply (any_changes_write σ σ' a p (t, v')); [done | done | done |].
      unfold owned_cell in Hown |- *. done. }
    split; [apply (any_wf_update σ σ' a); eauto |].
    split; [done |]. split; [done |]. split; [done |].
    split; [| done].
    exists obj. split; [done |].
    unfold ManagerImpl_Access. by rewrite Hsize, Hsto.
Qed.

(** [Op::Xfer] from an [any] that contains an object into an empty
    one. *)
Lemma any_Xfer_cases σ (src dst : Z) t v :
  any_wf σ → any_contains σ src t v → any_empty σ dst →
  match ManagerImpl_Manage copy_construct move_construct operator_new
          t Xfer src (arg_any_ptr dst) σ with
  | returned _ σ' =>
      ∃ v1, fst (move_construct t v) = inr v1 ∧
            (IsSmall t = true ∨ is_Some (operator_new (free_store σ))) ∧
            any_wf σ' ∧ any_contains σ' dst t v1 ∧ any_empty σ' src ∧
            any_others_kept [src; dst] σ σ' ∧
            destroyed σ' = destroyed σ ++ [(t, snd (move_construct t v))] ∧
            (IsSmall t = true → free_store σ' = free_store σ)
  | threw x σ' =>
      σ' = σ ∧
      (x = new_bad_alloc ∧ IsSmall t = false ∧
       operator_new (free_store σ) = None
       ∨ ∃ e, x = thrown_by_T e ∧ fst (move_construct t v) = inl e ∧
              (IsSmall t = true ∨ is_Some (operator_new (free_store σ))))
  | terminated => False
  | undefined => False
  end.
Proof.
  intros Hwf Hfull Hempty.
  assert (dst ≠ src) as Hne.
  { intros ->. by apply (any_contains_not_empty σ src t v). }
  destruct (any_contains_access σ src t v Hfull)
    as (obj & l & Hobj & Hman & Hacc & Hread & _).
  unfold ManagerImpl_Manage. rewrite Hobj, decide_False, Hacc, Hread by done.
  pose proof (any_create_cases σ dst t (fst (move_construct t v)) Hwf Hempty)
    as Hcreate.
  destruct (ManagerImpl_Create operator_new t dst
              (fst (move_construct t v)) σ) as [[] σ1 | x σ1 | |];
    cbn [and_then]; [| done | done | done].
  destruct Hcreate
    as (v1 & Hmade & Hcond & Hwf2 & Hfull2 & Hchg2 & Hlog2 & Hstore2).
  set (σ2 := set_manager dst (Some t) σ1) in *.
  assert (src ≠ dst) as Hne' by done.
  destruct (any_changes_frame σ σ2 dst src Hwf Hchg2 Hne')
    as (Hkeep2 & _ & _ & Hsame2).
  pose proof (Hkeep2 t v Hfull) as Hfull_src2.
  assert (anys σ2 !! src = Some obj) as Hobj2 by (by rewrite Hsame2).
  destruct (any_write_object σ2 src t v (snd (move_construct t v)) obj l
              Hwf2 Hfull_src2 Hobj2 Hacc)
    as (Hwf3 & Hfull3 & Hchg3 & Hlog3 & _ & Hstore3).
  set (σ3 := write_object t l (snd (move_construct t v)) σ2) in *.
  destruct (any_drain σ3 src t (snd (move_construct t v)) Hwf3 Hfull3)
    as (σ4 & Hdestroy & Hwf5 & Hempty5 & Hchg5 & Hlog5 & Hstore5).
  rewrite Hdestroy.
  set (σ5 := set_manager src None σ4) in *.
  exists v1. split; [done |]. split; [done |]. split; [done |].
  destruct (any_changes_frame σ2 σ3 src dst Hwf2 Hchg3 Hne)
    as (Hkeep3 & _ & _ & _).
  destruct (any_changes_frame σ3 σ5 src dst Hwf3 Hchg5 Hne)
    as (Hkeep5 & _ & _ & _).
  split; [by apply Hkeep5, Hkeep3 |]. split; [done |].
  split.
  { apply (any_others_kept_trans _ σ σ2 σ5).
    - apply (any_changes_kept σ σ2 dst); [done | done |].
      apply elem_of_cons. right. by apply list_elem_of_singleton.
    - apply (any_others_kept_trans _ σ2 σ3 σ5).
      + apply (any_changes_kept σ2 σ3 src); [done | done |].
        by apply elem_of_cons; left.
      + apply (any_changes_kept σ3 σ5 src); [done | done |].
        by apply elem_of_cons; left. }
  split; [by rewrite Hlog5, Hlog3, Hlog2 |].
  intros Hsize. by rewrite Hstore5, Hstore3, Hstore2.
Qed.

(** [Op::Clone] from an [any] that contains an object into an empty
    one. *)
Lemma any_Clone_cases σ (src dst : Z) t v :
  any_wf σ → any_contains σ src t v → any_empty σ dst →
  match ManagerImpl_Manage copy_construct move_construct operator_new
          t Clone src (arg_any_ptr dst) σ with
  | returned _ σ' =>
      is_copy_constructible t = true ∧
      ∃ v1, copy_construct t v = inr v1 ∧
            any_wf σ' ∧ any_contains σ' dst t v1 ∧ any_contains σ' src t v ∧
            any_others_kept [dst] σ σ' ∧
            destroyed σ' = destroyed σ ∧
            (IsSmall t = true → free_store σ' = free_store σ)
  | threw x σ' =>
      σ' = σ ∧
      (is_copy_constructible t = false ∧ x = std_logic_error
       ∨ is_copy_constructible t = true ∧
         (x = new_bad_alloc ∧ IsSmall t = false ∧
          operator_new (free_store σ) = None
          ∨ ∃ e, x = thrown_by_T e ∧ copy_construct t v = inl e))
  | terminated => False
  | undefined => False
  end.
Proof.
  intros Hwf Hfull Hempty.
  assert (dst ≠ src) as Hne.
  { intros ->. by apply (any_contains_not_empty σ src t v). }
  destruct (any_contains_access σ src t v Hfull)
    as (obj & l & Hobj & Hman & Hacc & Hread & _).
  unfold ManagerImpl_Manage. rewrite Hobj, decide_False by done.
  destruct (is_copy_constructible t) eqn:Hcopy; [| split; [done | by left]].
  rewrite Hacc, Hread.
  pose proof (any_create_cases σ dst t (copy_construct t v) Hwf Hempty)
    as Hcreate.
  destruct (ManagerImpl_Create operator_new t dst (copy_construct t v) σ)
    as [[] σ1 | x σ1 | |]; cbn [and_then]; [| | done | done].
  - destruct Hcreate
      as (v1 & Hmade & Hcond & Hwf2 & Hfull2 & Hchg2 & Hlog2 & Hstore2).
    split; [done |]. exists v1. split; [done |]. split; [done |].
    split; [done |].
    assert (src ≠ dst) as Hne' by done.
    destruct (any_changes_frame σ _ dst src Hwf Hchg2 Hne')
      as (Hkeep2 & _ & _ & _).
    split; [by apply Hkeep2 |].
    split; [| by split].
    apply (any_changes_kept σ _ dst); [done | done |].
    by apply list_elem_of_singleton.
  - destruct Hcreate as [-> Hwhy]. split; [done |]. right. split; [done |].
    destruct Hwhy as [Halloc | (e & -> & Hmade & _)]; [by left |].
    right. by exists e.
Qed.

Lemma call_manager_contains σ (a : Z) t v (op : Op) (src : Z) (arg : Arg) :
  any_contains σ a t v →
  call_manager copy_construct move_construct operator_new a op src arg σ
  = ManagerImpl_Manage copy_construct move_construct operator_new
      t op src arg σ.
Proof.
  intros (obj & Hobj & Hman & _). unfold call_manager. by rewrite Hobj, Hman.
Qed.

(** *** The member functions *)

Lemma any_reset_returns σ (this : Z) :
  any_wf σ → is_Some (anys σ !! this) →
  ∃ σ', any_reset copy_construct move_construct operator_new this σ
        = returned tt σ' ∧
        any_wf σ' ∧ any_empty σ' this ∧ any_changes_only this σ σ' ∧
        (any_empty σ this → σ' = σ) ∧
        (∀ t v, any_contains σ this t v →
                destroyed σ' = destroyed σ ++ [(t, v)] ∧
                (IsSmall t = true → free_store σ' = free_store σ)).
Proof.
  intros Hwf [obj Hobj]. unfold any_reset.
  destruct (wf_objects σ Hwf this obj Hobj) as [Hempty | (t & v & Hfull)].
  - rewrite (any_empty_has_value σ this Hempty).
    exists σ. split; [done |]. split; [done |]. split; [done |].
    split.
    { apply any_changes_local; try done; by apply owned_cell_empty. }
    split; [done |].
    intros t v Hfull. by destruct (any_contains_not_empty σ this t v).
  - rewrite (any_contains_has_value σ this t v Hfull).
    rewrite (call_manager_contains σ this t v _ _ _ Hfull).
    destruct (any_drain σ this t v Hwf Hfull)
      as (σ1 & Hdestroy & Hwf' & Hempty' & Hchg & Hlog & Hstore).
    unfold ManagerImpl_Manage. rewrite Hobj, Hdestroy. cbn [and_then noexcept].
    eexists. split; [reflexivity |]. split; [done |]. split; [done |].
    split; [done |]. split.
    { intros Hempty. by destruct (any_contains_not_empty σ this t v). }
    intros t' v' Hfull'.
    destruct (any_contains_unique σ this t v t' v' Hfull Hfull') as [<- <-].
    by split.
Qed.

Lemma any_forget_empty σ (a : Z) :
  any_wf σ → any_empty σ a →
  any_wf (forget_any a σ) ∧ anys (forget_any a σ) !! a = None ∧
  any_changes_only a σ (forget_any a σ).
Proof.
  intros Hwf Hempty.
  assert (anys (forget_any a σ) !! a = None) as Hgone
    by apply lookup_delete_eq.
  assert (any_changes_only a σ (forget_any a σ)) as Hchg.
  { apply any_changes_local; [| done | by apply owned_cell_empty |].
    - intros a' Hne. by apply lookup_delete_ne.
    - unfold owned_cell. by rewrite Hgone. }
  split; [apply (any_wf_update σ _ a); auto |]. by split.
Qed.

(** Taking back an object that was only just made. *)
Lemma any_forget_new σ σ' (a : Z) :
  anys σ !! a = None →
  anys σ' = <[a := mk_any_object None (in_ptr nullptr)]> (anys σ) →
  free_store σ' = free_store σ → destroyed σ' = destroyed σ →
  forget_any a σ' = σ.
Proof.
  intros Hfresh Hanys Hstore Hlog. unfold forget_any.
  rewrite Hanys, Hstore, Hlog, delete_insert_id by done. by destruct σ.
Qed.

Lemma any_destroy_returns σ (this : Z) :
  any_wf σ → is_Some (anys σ !! this) →
  ∃ σ', any_destroy copy_construct move_construct operator_new this σ
        = returned tt σ' ∧
        any_wf σ' ∧ anys σ' !! this = None ∧
        any_others_kept [this] σ σ' ∧
        (any_empty σ this → destroyed σ' = destroyed σ ∧
                            free_store σ' = free_store σ) ∧
        (∀ t v, any_contains σ this t v →
                destroyed σ' = destroyed σ ++ [(t, v)] ∧
                (IsSmall t = true → free_store σ' = free_store σ)).
Proof.
  intros Hwf Hlive. unfold any_destroy.
  destruct (any_reset_returns σ this Hwf Hlive)
    as (σ1 & -> & Hwf1 & Hempty1 & Hchg1 & Hsame & Hlog).
  cbn [and_then].
  destruct (any_forget_empty σ1 this Hwf1 Hempty1) as (Hwf2 & Hgone & Hchg2).
  eexists. split; [reflexivity |]. split; [done |]. split; [done |].
  split.
  { apply (any_others_kept_trans _ σ σ1).
    - apply (any_changes_kept σ σ1 this); [done | done |].
      by apply list_elem_of_singleton.
    - apply (any_changes_kept σ1 _ this); [done | done |].
      by apply list_elem_of_singleton. }
  split.
  - intros Hempty. by rewrite (Hsame Hempty).
  - intros t v Hfull. apply (Hlog t v Hfull).
Qed.

Lemma set_manager_id σ (a : Z) (obj : any_object V) :
  anys σ !! a = Some obj → set_manager a (manager obj) σ = σ.
Proof.
  intros Hobj. unfold set_manager, set_any. rewrite Hobj.
  destruct obj as [m s]. cbn [manager storage].
  rewrite insert_id by done. by destruct σ.
Qed.

Lemma any_default_forget σ σ' (this : Z) :
  anys σ !! this = None →
  any_default (E := E) this σ = returned tt σ' → forget_any this σ' = σ.
Proof.
  intros Hfresh. unfold any_default. rewrite Hfresh. intros [= <-].
  by apply any_forget_new.
Qed.

(** *** Forwarded arguments *)

Lemma any_create_from_made σ (a : Z) t (args : ctor_args R)
    (made : E + V) :
  construct_from construct copy_construct t args σ = Some made →
  ManagerImpl_Create_from construct copy_construct operator_new t a args σ
  = ManagerImpl_Create operator_new t a made σ.
Proof.
  intros Hmade. unfold ManagerImpl_Create_from, ManagerImpl_Create.
  rewrite Hmade. destruct (anys σ !! a); [| done].
  destruct (IsSmall t); [done |].
  by destruct (operator_new (free_store σ)).
Qed.

Lemma args_ready_made σ t (args : ctor_args R) :
  args_ready t args σ →
  ∃ made, construct_from construct copy_construct t args σ = Some made.
Proof.
  destruct args as [r | l]; cbn [args_ready construct_from].
  - intros _. by eexists.
  - intros [_ [v ->]]. by eexists.
Qed.

(** What a constructor makes of its arguments is not affected by a
    change to an [any] they do not refer to. *)
Lemma construct_from_changes σ σ' (a : Z) t (args : ctor_args R) :
  any_changes_only a σ σ' →
  (∀ l, args = args_lvalue l →
        l ≠ buffer_of a ∧
        ∀ p, l = heap_at p →
             owned_cell σ a ≠ Some p ∧ owned_cell σ' a ≠ Some p) →
  construct_from construct copy_construct t args σ'
  = construct_from construct copy_construct t args σ.
Proof.
  intros (Hanys & Hsame & _ & _) Hfar.
  destruct args as [r | l]; cbn [construct_from]; [done |].
  destruct (Hfar l eq_refl) as [Hbuf Hheap].
  assert (read_object t l σ' = read_object t l σ) as ->; [| done].
  unfold read_object, object_at. destruct l as [a' | p].
  - rewrite Hanys; [done | congruence].
  - destruct (Hheap p eq_refl). by rewrite Hsame.
Qed.

(** An object that can be read in the buffer of an [any] is the one the
    [any] contains. *)
Lemma any_place_buffer σ (a : Z) t v :
  any_wf σ → read_object t (buffer_of a) σ = Some v →
  any_place a σ = Some (buffer_of a).
Proof.
  intros Hwf Hread. unfold read_object, object_at in Hread.
  destruct (anys σ !! a) as [obj |] eqn:Hobj; [| done].
  destruct (storage obj) as [p | [[t' v'] |]] eqn:Hsto; [done | | done].
  destruct (wf_objects σ Hwf a obj Hobj)
    as [(obj' & Hobj' & _ & Hnone) | (t0 & v0 & obj' & Hobj' & Hman & Hin)].
  - assert (obj' = obj) as -> by congruence. by destruct (Hnone (t', v')).
  - assert (obj' = obj) as -> by congruence.
    unfold any_place. rewrite Hobj, Hman. unfold ManagerImpl_Access.
    destruct (IsSmall t0); [done |].
    destruct Hin as (p & Hp & _). congruence.
Qed.

Lemma any_place_cell σ (a p : Z) :
  owned_cell σ a = Some p → any_place a σ = Some (heap_at p).
Proof.
  unfold owned_cell, any_place, ManagerImpl_Access.
  destruct (anys σ !! a) as [obj |]; [| done].
  destruct (manager obj) as [t0 |]; [| done].
  destruct (IsSmall t0); [done |].
  destruct (storage obj); [| done]. by intros [= ->].
Qed.

(** [reset()] leaves alone what an argument refers to, unless that is
    the object it destroys. *)
Lemma any_reset_keeps_arguments σ σ1 (this : Z) t (args : ctor_args R) :
  any_wf σ → is_Some (anys σ !! this) →
  (∀ l, args = args_lvalue l →
        is_Some (read_object t l σ) ∧ any_place this σ ≠ Some l) →
  any_reset copy_construct move_construct operator_new this σ
  = returned tt σ1 →
  construct_from construct copy_construct t args σ1
  = construct_from construct copy_construct t args σ.
Proof.
  intros Hwf Hlive Hfar Hreset.
  destruct (any_reset_returns σ this Hwf Hlive)
    as (σ' & Hreset' & _ & Hempty1 & Hchg1 & _).
  rewrite Hreset in Hreset'. injection Hreset' as <-.
  apply (construct_from_changes σ σ1 this); [done |].
  intros l ->. destruct (Hfar l eq_refl) as [[v Hread] Hplace]. split.
  - intros ->. by rewrite (any_place_buffer σ this t v Hwf Hread) in Hplace.
  - intros p ->. split.
    + intros Hown. by rewrite (any_place_cell σ this p Hown) in Hplace.
    + by rewrite (owned_cell_empty σ1 this Hempty1).
Qed.

(** A new, empty [any] is nothing an argument can refer to. *)
Lemma any_default_keeps_arguments σ σ1 (this : Z) t (args : ctor_args R) :
  any_wf σ → anys σ !! this = None → args_ready t args σ →
  any_default (E := E) this σ = returned tt σ1 →
  construct_from construct copy_construct t args σ1
  = construct_from construct copy_construct t args σ.
Proof.
  intros Hwf Hfresh Hready Hdefault.
  destruct (any_default_returns σ this Hwf Hfresh)
    as (σ' & Hdefault' & _ & Hempty1 & Hchg1 & _).
  rewrite Hdefault in Hdefault'. injection Hdefault' as <-.
  apply (construct_from_changes σ σ1 this); [done |].
  intros l ->. destruct Hready as [_ [v Hread]]. split.
  - intros ->. unfold read_object, object_at in Hread.
    by rewrite Hfresh in Hread.
  - intros p ->. split.
    + unfold owned_cell. by rewrite Hfresh.
    + by rewrite (owned_cell_empty σ1 this Hempty1).
Qed.

Lemma args_ready_reset σ (this : Z) t (args : ctor_args R) :
  any_wf σ → is_Some (anys σ !! this) → args_ready t args σ →
  (∀ l, args = args_lvalue l → any_place this σ ≠ Some l) →
  ∃ made,
    ∀ σ1, any_reset copy_construct move_construct operator_new this σ
          = returned tt σ1 →
          construct_from construct copy_construct t args σ1 = Some made.
Proof.
  intros Hwf Hlive Hready Hfar.
  destruct (args_ready_made σ t args Hready) as [made Hmade].
  exists made. intros σ1 Hreset.
  rewrite (any_reset_keeps_arguments σ σ1 this t args Hwf Hlive); [done | |
    done].
  intros l ->. split; [apply Hready | by apply Hfar].
Qed.

Lemma args_ready_default σ (this : Z) t (args : ctor_args R) :
  any_wf σ → anys σ !! this = None → args_ready t args σ →
  ∃ made,
    ∀ σ1, any_default (E := E) this σ = returned tt σ1 →
          construct_from construct copy_construct t args σ1 = Some made.
Proof.
  intros Hwf Hfresh Hready.
  destruct (args_ready_made σ t args Hready) as [made Hmade].
  exists made. intros σ1 Hdefault.
  by rewrite (any_default_keeps_arguments σ σ1 this t args).
Qed.

Lemma any_emplace_from_cases σ (this : Z) t (args : ctor_args R)
    (made : E + V) :
  any_wf σ → is_Some (anys σ !! this) →
  (∀ σ1, any_reset copy_construct move_construct operator_new this σ
         = returned tt σ1 →
         construct_from construct copy_construct t args σ1 = Some made) →
  match any_emplace_from construct copy_construct move_construct
          operator_new this t args σ with
  | returned l σ' =>
      ∃ v, made = inr v ∧
           any_wf σ' ∧ any_contains σ' this t v ∧
           read_object t l σ' = Some v ∧
           any_others_kept [this] σ σ' ∧
           (any_empty σ this → destroyed σ' = destroyed σ) ∧
           (∀ t0 v0, any_contains σ this t0 v0 →
                     destroyed σ' = destroyed σ ++ [(t0, v0)])
  | threw x σ' =>
      any_wf σ' ∧ any_empty σ' this ∧ any_others_kept [this] σ σ' ∧
      (x = new_bad_alloc ∧ IsSmall t = false ∧
       operator_new (free_store σ') = None
       ∨ ∃ e, x = thrown_by_T e ∧ made = inl e) ∧
      (any_empty σ this → σ' = σ) ∧
      (∀ t0 v0, any_contains σ this t0 v0 →
                destroyed σ' = destroyed σ ++ [(t0, v0)])
  | terminated => False
  | undefined => False
  end.
Proof.
  intros Hwf Hlive Hargs. unfold any_emplace_from.
  destruct (any_reset_returns σ this Hwf Hlive)
    as (σ1 & Hreset & Hwf1 & Hempty1 & Hchg1 & Hsame & Hlog).
  rewrite Hreset. cbn [and_then].
  rewrite (any_create_from_made σ1 this t args made (Hargs σ1 Hreset)).
  assert (any_others_kept [this] σ σ1) as Hkept1.
  { apply (any_changes_kept σ σ1 this); [done | done |].
    by apply list_elem_of_singleton. }
  pose proof (any_create_cases σ1 this t made Hwf1 Hempty1)
    as Hcreate.
  destruct (ManagerImpl_Create operator_new t this made σ1)
    as [[] σ2 | x σ2 | |]; cbn [and_then]; [| | done | done].
  - destruct Hcreate
      as (v & Hmade & _ & Hwf3 & Hfull3 & Hchg3 & Hlog3 & _).
    destruct (any_contains_access _ this t v Hfull3)
      as (obj & l & Hobj & _ & Hacc & Hread & _).
    rewrite Hobj, Hacc.
    exists v. split; [done |]. split; [done |]. split; [done |].
    split; [done |]. split.
    { apply (any_others_kept_trans _ σ σ1); [done |].
      apply (any_changes_kept σ1 _ this); [done | done |].
      by apply list_elem_of_singleton. }
    split.
    + intros Hempty. by rewrite Hlog3, (Hsame Hempty).
    + intros t0 v0 Hfull. rewrite Hlog3. by apply (Hlog t0 v0).
  - destruct Hcreate as [-> Hwhy].
    split; [done |]. split; [done |]. split; [done |]. split.
    { destruct Hwhy as [(-> & Hsize & Hnew) | (e & -> & Hmade & _)];
        [by left | right; by exists e]. }
    split; [done |]. intros t0 v0 Hfull. by apply (Hlog t0 v0).
Qed.

Lemma any_emplace_cases σ (this : Z) t (args : R) :
  any_wf σ → is_Some (anys σ !! this) →
  match any_emplace construct copy_construct move_construct operator_new
          this t args σ with
  | returned l σ' =>
      ∃ v, construct t args = inr v ∧
           any_wf σ' ∧ any_contains σ' this t v ∧
           read_object t l σ' = Some v ∧
           any_others_kept [this] σ σ' ∧
           (any_empty σ this → destroyed σ' = destroyed σ) ∧
           (∀ t0 v0, any_contains σ this t0 v0 →
                     destroyed σ' = destroyed σ ++ [(t0, v0)])
  | threw x σ' =>
      any_wf σ' ∧ any_empty σ' this ∧ any_others_kept [this] σ σ' ∧
      (x = new_bad_alloc ∧ IsSmall t = false ∧
       operator_new (free_store σ') = None
       ∨ ∃ e, x = thrown_by_T e ∧ construct t args = inl e) ∧
      (any_empty σ this → σ' = σ) ∧
      (∀ t0 v0, any_contains σ this t0 v0 →
                destroyed σ' = destroyed σ ++ [(t0, v0)])
  | terminated => False
  | undefined => False
  end.
Proof.
  intros Hwf Hlive.
  exact (any_emplace_from_cases σ this t (args_values args)
           (construct t args) Hwf Hlive (λ _ _, eq_refl)).
Qed.

Lemma any_construct_value_from_cases σ (this : Z) t (args : ctor_args R)
    (made : E + V) :
  any_wf σ → anys σ !! this = None →
  (∀ σ1, any_default (E := E) this σ = returned tt σ1 →
         construct_from construct copy_construct t args σ1 = Some made) →
  match any_construct_value_from construct copy_construct move_construct
          operator_new this t args σ with
  | returned _ σ' =>
      ∃ v, made = inr v ∧
           any_wf σ' ∧ any_contains σ' this t v ∧
           any_others_kept [this] σ σ' ∧ destroyed σ' = destroyed σ
  | threw x σ' =>
      σ' = σ ∧
      (x = new_bad_alloc ∧ IsSmall t = false ∧
       operator_new (free_store σ) = None
       ∨ ∃ e, x = thrown_by_T e ∧ made = inl e)
  | terminated => False
  | undefined => False
  end.
Proof.
  intros Hwf Hfresh Hargs. unfold any_construct_value_from.
  destruct (any_default_returns σ this Hwf Hfresh)
    as (σ1 & Hdefault & Hwf1 & Hempty1 & Hchg1 & Hlog1 & Hstore1).
  rewrite Hdefault. cbn [and_then].
  assert (is_Some (anys σ1 !! this)) as Hlive1.
  { destruct Hempty1 as (obj & Hobj & _). by eexists. }
  assert (∀ σ2, any_reset copy_construct move_construct operator_new
                  this σ1 = returned tt σ2 →
                construct_from construct copy_construct t args σ2
                = Some made) as Hargs1.
  { intros σ2 Hreset.
    destruct (any_reset_returns σ1 this Hwf1 Hlive1)
      as (σ2' & Hreset' & _ & _ & _ & Hsame & _).
    rewrite Hreset in Hreset'. injection Hreset' as <-.
    rewrite (Hsame Hempty1). by apply Hargs. }
  pose proof (any_emplace_from_cases σ1 this t args made Hwf1 Hlive1 Hargs1)
    as Hemplace.
  destruct (any_emplace_from construct copy_construct move_construct
              operator_new this t args σ1) as [l σ2 | x σ2 | |];
    cbn [and_then on_throw]; [| | done | done].
  - destruct Hemplace as (v & Hmade & Hwf2 & Hfull2 & _ & Hkept2 & Hlog2 & _).
    exists v. split; [done |]. split; [done |]. split; [done |]. split.
    + apply (any_others_kept_trans _ σ σ1); [| done].
      apply (any_changes_kept σ σ1 this); [done | done |].
      by apply list_elem_of_singleton.
    + by rewrite (Hlog2 Hempty1).
  - destruct Hemplace as (_ & _ & _ & Hwhy & Hsame & _).
    rewrite (Hsame Hempty1) in Hwhy |- *. rewrite Hstore1 in Hwhy.
    split; [| done].
    by apply (any_default_forget σ σ1 this).
Qed.

Lemma any_construct_value_cases σ (this : Z) t (args : R) :
  any_wf σ → anys σ !! this = None →
  match any_construct_value construct copy_construct move_construct
          operator_new this t args σ with
  | returned _ σ' =>
      ∃ v, construct t args = inr v ∧
           any_wf σ' ∧ any_contains σ' this t v ∧
           any_others_kept [this] σ σ' ∧ destroyed σ' = destroyed σ
  | threw x σ' =>
      σ' = σ ∧
      (x = new_bad_alloc ∧ IsSmall t = false ∧
       operator_new (free_store σ) = None
       ∨ ∃ e, x = thrown_by_T e ∧ construct t args = inl e)
  | terminated => False
  | undefined => False
  end.
Proof.
  intros Hwf Hfresh.
  exact (any_construct_value_from_cases σ this t (args_values args)
           (construct t args) Hwf Hfresh (λ _ _, eq_refl)).
Qed.

Lemma any_copy_construct_cases σ (this other : Z) :
  any_wf σ → anys σ !! this = None → is_Some (anys σ !! other) →
  match any_copy_construct copy_construct move_construct operator_new
          this other σ with
  | returned _ σ' =>
      any_wf σ' ∧ any_others_kept [this] σ σ' ∧
      destroyed σ' = destroyed σ ∧
      (any_empty σ other → any_empty σ' this ∧
                           free_store σ' = free_store σ) ∧
      (∀ t v, any_contains σ other t v →
              is_copy_constructible t = true ∧
              ∃ v1, copy_construct t v = inr v1 ∧ any_contains σ' this t v1 ∧
                    (IsSmall t = true → free_store σ' = free_store σ))
  | threw x σ' =>
      σ' = σ ∧
      ∃ t v, any_contains σ other t v ∧
             (is_copy_constructible t = false ∧ x = std_logic_error
              ∨ is_copy_constructible t = true ∧
                (x = new_bad_alloc ∧ IsSmall t = false
                 ∨ ∃ e, x = thrown_by_T e ∧ copy_construct t v = inl e))
  | terminated => False
  | undefined => False
  end.
Proof.
  intros Hwf Hfresh [obj Hobj]. unfold any_copy_construct.
  assert (other ≠ this) as Hne by congruence.
  destruct (any_default_returns σ this Hwf Hfresh)
    as (σ1 & Hdefault & Hwf1 & Hempty1 & Hchg1 & Hlog1 & Hstore1).
  destruct (any_changes_frame σ σ1 this other Hwf Hchg1 Hne)
    as (Hkeep1 & Hkeep1' & _ & _).
  assert (any_others_kept [this] σ σ1) as Hkept1.
  { apply (any_changes_kept σ σ1 this); [done | done |].
    by apply list_elem_of_singleton. }
  destruct (wf_objects σ Hwf other obj Hobj) as [Hempty | (t & v & Hfull)].
  - rewrite (any_empty_has_value σ other Hempty), Hdefault. cbn [and_then].
    destruct Hempty1 as (obj1 & Hobj1 & Hman1 & Hsto1).
    rewrite <- Hman1, (set_manager_id σ1 this obj1 Hobj1).
    split; [done |]. split; [done |]. split; [done |]. split.
    { intros _. split; [| done]. by exists obj1. }
    intros t v Hfull. by destruct (any_contains_not_empty σ other t v).
  - rewrite (any_contains_has_value σ other t v Hfull), Hdefault.
    cbn [and_then].
    pose proof (Hkeep1 t v Hfull) as Hfull1.
    rewrite (call_manager_contains σ1 other t v _ _ _ Hfull1).
    pose proof (any_Clone_cases σ1 other this t v Hwf1 Hfull1 Hempty1)
      as Hclone.
    destruct (ManagerImpl_Manage copy_construct move_construct operator_new
                t Clone other (arg_any_ptr this) σ1) as [r σ2 | x σ2 | |];
      cbn [and_then on_throw]; [| | done | done].
    + destruct Hclone
        as (Hcopy & v1 & Hmade & Hwf2 & Hfull2 & _ & Hkept2 & Hlog2 & Hstore2).
      split; [done |]. split.
      { by apply (any_others_kept_trans _ σ σ1). }
      split; [congruence |]. split.
      { intros Hempty. by destruct (any_contains_not_empty σ other t v). }
      intros t' v' Hfull'.
      destruct (any_contains_unique σ other t v t' v' Hfull Hfull')
        as [<- <-].
      split; [done |]. exists v1. split; [done |]. split; [done |].
      intros Hsize. by rewrite (Hstore2 Hsize).
    + destruct Hclone as [-> Hwhy]. split.
      { by apply (any_default_forget σ σ1 this). }
      exists t, v. split; [done |].
      destruct Hwhy as [Hmove | [Hcopy [(-> & Hsize & _) | Hthrown]]];
        [by left | right; split; [done | by left]
         | right; split; [done | by right]].
Qed.

Lemma any_move_construct_cases σ (this other : Z) :
  any_wf σ → anys σ !! this = None → is_Some (anys σ !! other) →
  match any_move_construct copy_construct move_construct operator_new
          this other σ with
  | returned _ σ' =>
      any_wf σ' ∧ any_empty σ' other ∧
      any_others_kept [this; other] σ σ' ∧
      (any_empty σ other → any_empty σ' this ∧
                           destroyed σ' = destroyed σ ∧
                           free_store σ' = free_store σ) ∧
      (∀ t v, any_contains σ other t v →
              ∃ v1, fst (move_construct t v) = inr v1 ∧
                    any_contains σ' this t v1 ∧
                    destroyed σ'
                    = destroyed σ ++ [(t, snd (move_construct t v))] ∧
                    (IsSmall t = true → free_store σ' = free_store σ) ∧
                    (IsSmall t = true
                     ∨ is_Some (operator_new (free_store σ))))
  | terminated =>
      ∃ t v, any_contains σ other t v ∧
             (IsSmall t = false ∧ operator_new (free_store σ) = None
              ∨ ∃ e, fst (move_construct t v) = inl e)
  | threw _ _ => False
  | undefined => False
  end.
Proof.
  intros Hwf Hfresh [obj Hobj]. unfold any_move_construct.
  assert (other ≠ this) as Hne by congruence.
  destruct (any_default_returns σ this Hwf Hfresh)
    as (σ1 & Hdefault & Hwf1 & Hempty1 & Hchg1 & Hlog1 & Hstore1).
  destruct (any_changes_frame σ σ1 this other Hwf Hchg1 Hne)
    as (Hkeep1 & Hkeep1' & _ & _).
  assert (any_others_kept [this; other] σ σ1) as Hkept1.
  { apply (any_changes_kept σ σ1 this); [done | done |].
    by apply elem_of_cons; left. }
  destruct (wf_objects σ Hwf other obj Hobj) as [Hempty | (t & v & Hfull)].
  - rewrite (any_empty_has_value σ other Hempty), Hdefault. cbn [and_then].
    pose proof Hempty1 as (obj1 & Hobj1 & Hman1 & Hsto1).
    rewrite <- Hman1, (set_manager_id σ1 this obj1 Hobj1).
    split; [done |]. split; [by apply Hkeep1' |]. split; [done |]. split.
    { by intros _. }
    intros t v Hfull. by destruct (any_contains_not_empty σ other t v).
  - rewrite (any_contains_has_value σ other t v Hfull), Hdefault.
    cbn [and_then].
    pose proof (Hkeep1 t v Hfull) as Hfull1.
    rewrite (call_manager_contains σ1 other t v _ _ _ Hfull1).
    pose proof (any_Xfer_cases σ1 other this t v Hwf1 Hfull1 Hempty1)
      as Hxfer.
    destruct (ManagerImpl_Manage copy_construct move_construct operator_new
                t Xfer other (arg_any_ptr this) σ1) as [r σ2 | x σ2 | |];
      cbn [and_then noexcept]; [| | done | done].
    + destruct Hxfer
        as (v1 & Hmade & Hroom & Hwf2 & Hfull2 & Hempty2 & Hkept2 & Hlog2
            & Hstore2).
      split; [done |]. split; [done |]. split.
      { apply (any_others_kept_trans _ σ σ1); [done |].
        apply (any_others_kept_more [other; this]); [| done].
        in_list. }
      split.
      { intros Hempty. by destruct (any_contains_not_empty σ other t v). }
      intros t' v' Hfull'.
      destruct (any_contains_unique σ other t v t' v' Hfull Hfull')
        as [<- <-].
      exists v1. split; [done |]. split; [done |].
      split; [congruence |].
      split; [intros Hsize; by rewrite (Hstore2 Hsize) |].
      by rewrite <- Hstore1.
    + destruct Hxfer as [-> Hwhy]. exists t, v. split; [done |].
      destruct Hwhy as [(_ & Hsize & Hnew) | (e & _ & Hmade & _)].
      * left. split; [done |]. by rewrite <- Hstore1.
      * right. by exists e.
Qed.

Lemma any_others_kept_fresh (touched : list Z) (tmp : Z) σ σ' :
  any_others_kept (tmp :: touched) σ σ' →
  anys σ !! tmp = None → anys σ' !! tmp = None →
  any_others_kept touched σ σ'.
Proof.
  intros Hkept Hfresh Hgone a Ha. destruct (decide (a = tmp)) as [-> | Hne].
  - split; [| split; [| done]].
    + intros t v (obj & Hobj & _). congruence.
    + intros (obj & Hobj & _). congruence.
  - apply Hkept. rewrite elem_of_cons. intros [? | ?]; [done | by apply Ha].
Qed.

Lemma any_contains_live σ (a : Z) t v :
  any_contains σ a t v → is_Some (anys σ !! a).
Proof. intros (obj & Hobj & _). by eexists. Qed.

Lemma any_empty_live σ (a : Z) : any_empty σ a → is_Some (anys σ !! a).
Proof. intros (obj & Hobj & _). by eexists. Qed.

Lemma any_swap_cases σ (this other tmp : Z) :
  any_wf σ → is_Some (anys σ !! this) → is_Some (anys σ !! other) →
  anys σ !! tmp = None →
  match any_swap copy_construct move_construct operator_new
          this other tmp σ with
  | returned _ σ' =>
      any_wf σ' ∧ any_others_kept [this; other] σ σ' ∧
      (this = other → σ' = σ) ∧
      (any_empty σ this → any_empty σ' other) ∧
      (any_empty σ other → any_empty σ' this) ∧
      (any_empty σ this → any_empty σ other → σ' = σ) ∧
      (∀ t v, any_contains σ other t v → this ≠ other →
              ∃ v1, fst (move_construct t v) = inr v1 ∧
                    any_contains σ' this t v1) ∧
      (∀ t v, any_contains σ this t v → this ≠ other →
              ∃ v1, fst (move_construct t v) = inr v1 ∧
                    (any_empty σ other ∧ any_contains σ' other t v1
                     ∨ (∃ t' v', any_contains σ other t' v') ∧
                       ∃ v2, fst (move_construct t v1) = inr v2 ∧
                             any_contains σ' other t v2))
  | terminated =>
      ∃ t v0, (any_contains σ this t v0 ∨ any_contains σ other t v0) ∧
              (IsSmall t = false ∨ ∃ v e, fst (move_construct t v) = inl e)
  | threw _ _ => False
  | undefined => False
  end.
Proof.
  intros Hwf [obj1 Hobj1] [obj2 Hobj2] Hfresh. unfold any_swap.
  assert (tmp ≠ this) as Hne1 by congruence.
  assert (tmp ≠ other) as Hne2 by congruence.
  destruct (wf_objects σ Hwf this obj1 Hobj1) as [He1 | (t1 & v1 & Hf1)];
    destruct (wf_objects σ Hwf other obj2 Hobj2) as [He2 | (t2 & v2 & Hf2)].
  - (* both empty *)
    rewrite (any_empty_has_value σ this He1), (any_empty_has_value σ other He2).
    split; [done |]. split; [apply any_others_kept_refl |].
    split; [done |]. split; [done |]. split; [done |]. split; [done |].
    split; intros t v Hfull;
      [by destruct (any_contains_not_empty σ other t v)
      | by destruct (any_contains_not_empty σ this t v)].
  - (* this empty, other full *)
    rewrite (any_empty_has_value σ this He1),
      (any_contains_has_value σ other t2 v2 Hf2).
    rewrite (call_manager_contains σ other t2 v2 _ _ _ Hf2).
    pose proof (any_Xfer_cases σ other this t2 v2 Hwf Hf2 He1) as Hxfer.
    destruct (ManagerImpl_Manage copy_construct move_construct operator_new
                t2 Xfer other (arg_any_ptr this) σ) as [r σ' | x σ' | |];
      cbn [and_then noexcept]; [| | done | done].
    + destruct Hxfer as (w & Hmade & _ & Hwf' & Hfull' & Hempty' & Hkept & _).
      split; [done |]. split.
      { apply (any_others_kept_more [other; this]); [| done].
        in_list. }
      split.
      { intros ->. by destruct (any_contains_not_empty σ other t2 v2). }
      split; [done |]. split.
      { intros He. by destruct (any_contains_not_empty σ other t2 v2). }
      split.
      { intros _ He. by destruct (any_contains_not_empty σ other t2 v2). }
      split.
      * intros t v Hfull _.
        destruct (any_contains_unique σ other t2 v2 t v Hf2 Hfull) as [<- <-].
        by exists w.
      * intros t v Hfull. by destruct (any_contains_not_empty σ this t v).
    + destruct Hxfer as [_ Hwhy]. exists t2, v2. split; [by right |].
      destruct Hwhy as [(_ & Hsize & _) | (e & _ & Hmade & _)];
        [by left | right; by exists v2, e].
  - (* this full, other empty *)
    rewrite (any_contains_has_value σ this t1 v1 Hf1),
      (any_empty_has_value σ other He2).
    rewrite (call_manager_contains σ this t1 v1 _ _ _ Hf1).
    pose proof (any_Xfer_cases σ this other t1 v1 Hwf Hf1 He2) as Hxfer.
    destruct (ManagerImpl_Manage copy_construct move_construct operator_new
                t1 Xfer this (arg_any_ptr other) σ) as [r σ' | x σ' | |];
      cbn [and_then noexcept]; [| | done | done].
    + destruct Hxfer as (w & Hmade & _ & Hwf' & Hfull' & Hempty' & Hkept & _).
      split; [done |]. split; [done |]. split.
      { intros <-. by destruct (any_contains_not_empty σ this t1 v1). }
      split.
      { intros He. by destruct (any_contains_not_empty σ this t1 v1). }
      split; [done |]. split.
      { intros He. by destruct (any_contains_not_empty σ this t1 v1). }
      split.
      * intros t v Hfull. by destruct (any_contains_not_empty σ other t v).
      * intros t v Hfull _.
        destruct (any_contains_unique σ this t1 v1 t v Hf1 Hfull) as [<- <-].
        exists w. split; [done |]. by left.
    + destruct Hxfer as [_ Hwhy]. exists t1, v1. split; [by left |].
      destruct Hwhy as [(_ & Hsize & _) | (e & _ & Hmade & _)];
        [by left | right; by exists v1, e].
  - (* both full *)
    rewrite (any_contains_has_value σ this t1 v1 Hf1),
      (any_contains_has_value σ other t2 v2 Hf2).
    destruct (decide (this = other)) as [Heq | Hne].
    { split; [done |]. split; [apply any_others_kept_refl |].
      split; [done |]. split.
      { intros He. by destruct (any_contains_not_empty σ this t1 v1). }
      split.
      { intros He. by destruct (any_contains_not_empty σ other t2 v2). }
      split.
      { intros He. by destruct (any_contains_not_empty σ this t1 v1). }
      by split. }
    destruct (any_default_returns σ tmp Hwf Hfresh)
      as (σ1 & Hdefault & Hwf1 & Hempty1 & Hchg1 & _).
    rewrite Hdefault. cbn [and_then].
    assert (this ≠ tmp) as Hne1' by done.
    assert (other ≠ tmp) as Hne2' by done.
    destruct (any_changes_frame σ σ1 tmp this Hwf Hchg1 Hne1')
      as (Hkeep_this1 & _ & _ & _).
    destruct (any_changes_frame σ σ1 tmp other Hwf Hchg1 Hne2')
      as (Hkeep_other1 & _ & _ & _).
    pose proof (Hkeep_this1 t1 v1 Hf1) as Hf1_1.
    pose proof (Hkeep_other1 t2 v2 Hf2) as Hf2_1.
    assert (any_others_kept [tmp; this; other] σ σ1) as Hkept1.
    { apply (any_changes_kept σ σ1 tmp); [done | done |].
      by apply elem_of_cons; left. }
    (* this -> tmp *)
    rewrite (call_manager_contains σ1 this t1 v1 _ _ _ Hf1_1).
    pose proof (any_Xfer_cases σ1 this tmp t1 v1 Hwf1 Hf1_1 Hempty1) as Hx1.
    destruct (ManagerImpl_Manage copy_construct move_construct operator_new
                t1 Xfer this (arg_any_ptr tmp) σ1) as [r2 σ2 | x σ2 | |];
      cbn [and_then noexcept]; [| | done | done].
    2: { destruct Hx1 as [_ Hwhy]. exists t1, v1. split; [by left |].
         destruct Hwhy as [(_ & Hsize & _) | (e & _ & Hmade & _)];
           [by left | right; by exists v1, e]. }
    destruct Hx1 as (w1 & Hm1 & _ & Hwf2 & Hf_tmp2 & He_this2 & Hkept2 & _).
    assert (other ∉ [this; tmp]) as Hout2.
    { rewrite !elem_of_cons, elem_of_nil. intros [? | [? | []]]; congruence. }
    destruct (Hkept2 other Hout2) as (Hk2 & _ & _).
    pose proof (Hk2 t2 v2 Hf2_1) as Hf2_2.
    (* other -> this *)
    rewrite (call_manager_contains σ2 other t2 v2 _ _ _ Hf2_2).
    pose proof (any_Xfer_cases σ2 other this t2 v2 Hwf2 Hf2_2 He_this2)
      as Hx2.
    destruct (ManagerImpl_Manage copy_construct move_construct operator_new
                t2 Xfer other (arg_any_ptr this) σ2) as [r3 σ3 | x σ3 | |];
      cbn [and_then noexcept]; [| | done | done].
    2: { destruct Hx2 as [_ Hwhy]. exists t2, v2. split; [by right |].
         destruct Hwhy as [(_ & Hsize & _) | (e & _ & Hmade & _)];
           [by left | right; by exists v2, e]. }
    destruct Hx2 as (w2 & Hm2 & _ & Hwf3 & Hf_this3 & He_other3 & Hkept3 & _).
    assert (tmp ∉ [other; this]) as Hout3.
    { rewrite !elem_of_cons, elem_of_nil. intros [? | [? | []]]; congruence. }
    destruct (Hkept3 tmp Hout3) as (Hk3 & _ & _).
    pose proof (Hk3 t1 w1 Hf_tmp2) as Hf_tmp3.
    (* tmp -> other *)
    rewrite (call_manager_contains σ3 tmp t1 w1 _ _ _ Hf_tmp3).
    pose proof (any_Xfer_cases σ3 tmp other t1 w1 Hwf3 Hf_tmp3 He_other3)
      as Hx3.
    destruct (ManagerImpl_Manage copy_construct move_construct operator_new
                t1 Xfer tmp (arg_any_ptr other) σ3) as [r4 σ4 | x σ4 | |];
      cbn [and_then noexcept]; [| | done | done].
    2: { destruct Hx3 as [_ Hwhy]. exists t1, v1. split; [by left |].
         destruct Hwhy as [(_ & Hsize & _) | (e & _ & Hmade & _)];
           [by left | right; by exists w1, e]. }
    destruct Hx3 as (w3 & Hm3 & _ & Hwf4 & Hf_other4 & He_tmp4 & Hkept4 & _).
    assert (this ∉ [tmp; other]) as Hout4.
    { rewrite !elem_of_cons, elem_of_nil. intros [? | [? | []]]; congruence. }
    destruct (Hkept4 this Hout4) as (Hk4 & _ & _).
    pose proof (Hk4 t2 w2 Hf_this3) as Hf_this4.
    (* ~tmp *)
    destruct (any_destroy_returns σ4 tmp Hwf4 (any_empty_live σ4 tmp He_tmp4))
      as (σ5 & Hdestroy & Hwf5 & Hgone5 & Hkept5 & _).
    rewrite Hdestroy. cbn [noexcept].
    assert (this ∉ [tmp]) as Hout5 by (by rewrite list_elem_of_singleton).
    assert (other ∉ [tmp]) as Hout5' by (by rewrite list_elem_of_singleton).
    destruct (Hkept5 this Hout5) as (Hk5 & _ & _).
    destruct (Hkept5 other Hout5') as (Hk5' & _ & _).
    split; [done |]. split.
    { apply (any_others_kept_fresh _ tmp); [| done | done].
      apply (any_others_kept_trans _ σ σ1); [done |].
      apply (any_others_kept_trans _ σ1 σ2).
      { apply (any_others_kept_more [this; tmp]); [| done].
        in_list. }
      apply (any_others_kept_trans _ σ2 σ3).
      { apply (any_others_kept_more [other; this]); [| done].
        in_list. }
      apply (any_others_kept_trans _ σ3 σ4).
      { apply (any_others_kept_more [tmp; other]); [| done].
        in_list. }
      apply (any_others_kept_more [tmp]); [| done].
      in_list. }
    split; [done |]. split.
    { intros He. by destruct (any_contains_not_empty σ this t1 v1). }
    split.
    { intros He. by destruct (any_contains_not_empty σ other t2 v2). }
    split.
    { intros He. by destruct (any_contains_not_empty σ this t1 v1). }
    split.
    + intros t v Hfull _.
      destruct (any_contains_unique σ other t2 v2 t v Hf2 Hfull) as [<- <-].
      exists w2. split; [done |]. by apply Hk5.
    + intros t v Hfull _.
      destruct (any_contains_unique σ this t1 v1 t v Hf1 Hfull) as [<- <-].
      exists w1. split; [done |]. right. split; [by exists t2, v2 |].
      exists w3. split; [done |]. by apply Hk5'.
Qed.

(** The second half of every assignment: the temporary is swapped with
    the object and destroyed. *)
Lemma any_swap_in_cases σ (this tmp tmp' : Z) :
  any_wf σ → is_Some (anys σ !! this) → is_Some (anys σ !! tmp) →
  anys σ !! tmp' = None → tmp ≠ this →
  match and_then
          (any_swap copy_construct move_construct operator_new
             tmp this tmp' σ)
          (λ _ σ2, any_destroy copy_construct move_construct operator_new
                     tmp σ2) with
  | returned _ σ' =>
      any_wf σ' ∧ anys σ' !! tmp = None ∧
      any_others_kept [tmp; this] σ σ' ∧
      (any_empty σ tmp → any_empty σ' this) ∧
      (∀ t v, any_contains σ tmp t v →
              ∃ v', (fst (move_construct t v) = inr v'
                     ∨ ∃ v1, fst (move_construct t v) = inr v1 ∧
                             fst (move_construct t v1) = inr v') ∧
                    any_contains σ' this t v')
  | terminated =>
      ∃ t v0, (any_contains σ tmp t v0 ∨ any_contains σ this t v0) ∧
              (IsSmall t = false ∨ ∃ v e, fst (move_construct t v) = inl e)
  | threw _ _ => False
  | undefined => False
  end.
Proof.
  intros Hwf Hthis Htmp Hfresh Hne.
  pose proof (any_swap_cases σ tmp this tmp' Hwf Htmp Hthis Hfresh) as Hswap.
  destruct (any_swap copy_construct move_construct operator_new
              tmp this tmp' σ) as [r σ2 | x σ2 | |];
    cbn [and_then]; [| done | done | done].
  destruct Hswap
    as (Hwf2 & Hkept2 & _ & Hempty_in & Hempty_out & _ & Hout & Hin).
  assert (is_Some (anys σ2 !! tmp)) as Htmp2.
  { destruct Hthis as [obj Hobj].
    destruct (wf_objects σ Hwf this obj Hobj) as [He | (t & v & Hf)].
    - apply (any_empty_live σ2 tmp). by apply Hempty_out.
    - destruct (Hout t v Hf Hne) as (v1 & _ & Hf2).
      by apply (any_contains_live σ2 tmp t v1). }
  destruct (any_destroy_returns σ2 tmp Hwf2 Htmp2)
    as (σ3 & -> & Hwf3 & Hgone3 & Hkept3 & _).
  assert (this ∉ [tmp]) as Hout3.
  { rewrite list_elem_of_singleton. congruence. }
  destruct (Hkept3 this Hout3) as (Hk3 & Hk3' & _).
  split; [done |]. split; [done |]. split.
  { apply (any_others_kept_trans _ σ σ2); [done |].
    apply (any_others_kept_more [tmp]); [| done].
    in_list. }
  split; [by auto |].
  intros t v Hf. destruct (Hin t v Hf Hne) as (v1 & Hm1 & Hcases).
  destruct Hcases as [[_ Hf2] | [_ (v2 & Hm2 & Hf2)]].
  - exists v1. split; [by left | by apply Hk3].
  - exists v2. split; [right; by exists v1 | by apply Hk3].
Qed.

Lemma any_live_kept (touched : list Z) σ σ' (a : Z) :
  any_wf σ → any_others_kept touched σ σ' → a ∉ touched →
  is_Some (anys σ !! a) → is_Some (anys σ' !! a).
Proof.
  intros Hwf Hkept Ha [obj Hobj]. destruct (Hkept a Ha) as (Hc & He & _).
  destruct (wf_objects σ Hwf a obj Hobj) as [Hempty | (t & v & Hfull)].
  - by apply (any_empty_live σ' a), He.
  - by apply (any_contains_live σ' a t v), Hc.
Qed.

Lemma any_copy_assign_cases σ (this rhs tmp tmp' : Z) :
  any_wf σ → is_Some (anys σ !! this) → is_Some (anys σ !! rhs) →
  anys σ !! tmp = None → anys σ !! tmp' = None → tmp ≠ tmp' →
  match any_copy_assign copy_construct move_construct operator_new
          this rhs tmp tmp' σ with
  | returned _ σ' =>
      any_wf σ' ∧ any_others_kept [this] σ σ' ∧
      (any_empty σ rhs → any_empty σ' this) ∧
      (∀ t v, any_contains σ rhs t v →
              is_copy_constructible t = true ∧
              ∃ vc v', copy_construct t v = inr vc ∧
                       (fst (move_construct t vc) = inr v'
                        ∨ ∃ v1, fst (move_construct t vc) = inr v1 ∧
                                fst (move_construct t v1) = inr v') ∧
                       any_contains σ' this t v')
  | threw x σ' =>
      σ' = σ ∧
      ∃ t v, any_contains σ rhs t v ∧
             (is_copy_constructible t = false ∧ x = std_logic_error
              ∨ is_copy_constructible t = true ∧
                (x = new_bad_alloc ∧ IsSmall t = false
                 ∨ ∃ e, x = thrown_by_T e ∧ copy_construct t v = inl e))
  | terminated =>
      ∃ t v0, (any_contains σ rhs t v0 ∨ any_contains σ this t v0) ∧
              (IsSmall t = false ∨ ∃ v e, fst (move_construct t v) = inl e)
  | undefined => False
  end.
Proof.
  intros Hwf Hthis Hrhs Hfresh Hfresh' Hne. unfold any_copy_assign.
  assert (tmp ≠ this) as Hne_this by (destruct Hthis; congruence).
  assert (tmp ≠ rhs) as Hne_rhs by (destruct Hrhs; congruence).
  pose proof (any_copy_construct_cases σ tmp rhs Hwf Hfresh Hrhs) as Hcopy.
  destruct (any_copy_construct copy_construct move_construct operator_new
              tmp rhs σ) as [r σ1 | x σ1 | |];
    cbn [and_then]; [| done | done | done].
  destruct Hcopy as (Hwf1 & Hkept1 & _ & Hempty1 & Hfull1).
  assert (this ∉ [tmp]) as Hout_this.
  { rewrite list_elem_of_singleton. congruence. }
  assert (tmp' ∉ [tmp]) as Hout_tmp'.
  { rewrite list_elem_of_singleton. congruence. }
  pose proof (any_live_kept [tmp] σ σ1 this Hwf Hkept1 Hout_this Hthis)
    as Hthis1.
  destruct (Hkept1 tmp' Hout_tmp') as (_ & _ & Hnone').
  destruct (Hkept1 this Hout_this) as (Hk_this & _ & _).
  assert (is_Some (anys σ1 !! tmp)) as Htmp1.
  { destruct Hrhs as [obj Hobj].
    destruct (wf_objects σ Hwf rhs obj Hobj) as [He | (t & v & Hf)].
    - apply (any_empty_live σ1 tmp). by apply Hempty1.
    - destruct (Hfull1 t v Hf) as (_ & v1 & _ & Hf1 & _).
      by apply (any_contains_live σ1 tmp t v1). }
  pose proof (any_swap_in_cases σ1 this tmp tmp' Hwf1 Hthis1 Htmp1
                (Hnone' Hfresh') Hne_this) as Hswap.
  destruct (and_then
              (any_swap copy_construct move_construct operator_new
                 tmp this tmp' σ1) _) as [r3 σ3 | x σ3 | |];
    [| done | | done].
  - destruct Hswap as (Hwf3 & Hgone3 & Hkept3 & Hempty3 & Hfull3).
    split; [done |]. split.
    { apply (any_others_kept_fresh _ tmp); [| done | done].
      apply (any_others_kept_trans _ σ σ1); [| done].
      apply (any_others_kept_more [tmp]); [| done].
      in_list. }
    split.
    { intros He. apply Hempty3. by apply Hempty1. }
    intros t v Hf. destruct (Hfull1 t v Hf) as (Hcopyable & vc & Hmade & Hf1 & _).
    split; [done |]. destruct (Hfull3 t vc Hf1) as (v' & Hmoves & Hf3).
    by exists vc, v'.
  - destruct Hswap as (t & v0 & Hwho & Hwhy).
    destruct Hwho as [Htmp_full | Hthis_full].
    + destruct Hrhs as [obj Hobj].
      destruct (wf_objects σ Hwf rhs obj Hobj) as [He | (t' & v & Hf)].
      * destruct (Hempty1 He) as [He1 _].
        by destruct (any_contains_not_empty σ1 tmp t v0).
      * destruct (Hfull1 t' v Hf) as (_ & v1 & _ & Hf1 & _).
        destruct (any_contains_unique σ1 tmp t v0 t' v1 Htmp_full Hf1)
          as [-> _].
        exists t', v. split; [by left | done].
    + destruct Hthis as [obj Hobj].
      destruct (wf_objects σ Hwf this obj Hobj) as [He | (t' & v & Hf)].
      * destruct (Hkept1 this Hout_this) as (_ & Hke & _).
        by destruct (any_contains_not_empty σ1 this t v0); [| apply Hke].
      * destruct (any_contains_unique σ1 this t v0 t' v Hthis_full
                    (Hk_this t' v Hf)) as [-> _].
        exists t', v. split; [by right | done].
Qed.

(** What an [any] contains after a change that kept it. *)
Lemma any_contains_kept_back (touched : list Z) σ σ' (a : Z) t v :
  any_wf σ → any_others_kept touched σ σ' → a ∉ touched →
  is_Some (anys σ !! a) → any_contains σ' a t v →
  ∃ v0, any_contains σ a t v0.
Proof.
  intros Hwf Hkept Ha [obj Hobj] Hfull.
  destruct (Hkept a Ha) as (Hc & He & _).
  destruct (wf_objects σ Hwf a obj Hobj) as [Hempty | (t' & v' & Hfull')].
  - by destruct (any_contains_not_empty σ' a t v); [| apply He].
  - destruct (any_contains_unique σ' a t v t' v' Hfull (Hc t' v' Hfull'))
      as [-> _].
    by exists v'.
Qed.

Lemma any_move_assign_cases σ (this rhs tmp tmp' : Z) :
  any_wf σ → is_Some (anys σ !! this) → is_Some (anys σ !! rhs) →
  anys σ !! tmp = None → anys σ !! tmp' = None → tmp ≠ tmp' →
  match any_move_assign copy_construct move_construct operator_new
          this rhs tmp tmp' σ with
  | returned _ σ' =>
      any_wf σ' ∧ any_others_kept [this; rhs] σ σ' ∧
      (rhs ≠ this → any_empty σ' rhs) ∧
      (any_empty σ rhs → any_empty σ' this) ∧
      (∀ t v, any_contains σ rhs t v →
              ∃ v1 v', fst (move_construct t v) = inr v1 ∧
                       (fst (move_construct t v1) = inr v'
                        ∨ ∃ v2, fst (move_construct t v1) = inr v2 ∧
                                fst (move_construct t v2) = inr v') ∧
                       any_contains σ' this t v')
  | terminated =>
      ∃ t v0, (any_contains σ rhs t v0 ∨ any_contains σ this t v0) ∧
              (IsSmall t = false ∨ ∃ v e, fst (move_construct t v) = inl e)
  | threw _ _ => False
  | undefined => False
  end.
Proof.
  intros Hwf Hthis Hrhs Hfresh Hfresh' Hne. unfold any_move_assign.
  assert (tmp ≠ this) as Hne_this by (destruct Hthis; congruence).
  assert (tmp ≠ rhs) as Hne_rhs by (destruct Hrhs; congruence).
  pose proof (any_move_construct_cases σ tmp rhs Hwf Hfresh Hrhs) as Hmove.
  destruct (any_move_construct copy_construct move_construct operator_new
              tmp rhs σ) as [r σ1 | x σ1 | |];
    cbn [and_then noexcept]; [| done | | done].
  2: { destruct Hmove as (t & v & Hf & Hwhy). exists t, v.
       split; [by left |].
       destruct Hwhy as [[Hsize _] | [e Hmade]];
         [by left | right; by exists v, e]. }
  destruct Hmove as (Hwf1 & Hempty_rhs1 & Hkept1 & Hempty1 & Hfull1).
  assert (tmp' ∉ [tmp; rhs]) as Hout_tmp'.
  { rewrite !elem_of_cons, elem_of_nil. destruct Hrhs.
    intros [? | [? | []]]; congruence. }
  destruct (Hkept1 tmp' Hout_tmp') as (_ & _ & Hnone').
  assert (is_Some (anys σ1 !! this)) as Hthis1.
  { destruct (decide (this = rhs)) as [-> | Hne_tr].
    - by apply (any_empty_live σ1 rhs).
    - apply (any_live_kept [tmp; rhs] σ σ1 this Hwf Hkept1); [| done].
      rewrite !elem_of_cons, elem_of_nil. intros [? | [? | []]]; congruence. }
  assert (is_Some (anys σ1 !! tmp)) as Htmp1.
  { destruct Hrhs as [obj Hobj].
    destruct (wf_objects σ Hwf rhs obj Hobj) as [He | (t & v & Hf)].
    - apply (any_empty_live σ1 tmp). by apply Hempty1.
    - destruct (Hfull1 t v Hf) as (v1 & _ & Hf1 & _).
      by apply (any_contains_live σ1 tmp t v1). }
  pose proof (any_swap_in_cases σ1 this tmp tmp' Hwf1 Hthis1 Htmp1
                (Hnone' Hfresh') Hne_this) as Hswap.
  destruct (and_then
              (any_swap copy_construct move_construct operator_new
                 tmp this tmp' σ1) _) as [r3 σ3 | x σ3 | |];
    cbn [noexcept]; [| done | | done].
  - destruct Hswap as (Hwf3 & Hgone3 & Hkept3 & Hempty3 & Hfull3).
    split; [done |]. split.
    { apply (any_others_kept_fresh _ tmp); [| done | done].
      apply (any_others_kept_trans _ σ σ1).
      - apply (any_others_kept_more [tmp; rhs]); [| done].
        in_list.
      - apply (any_others_kept_more [tmp; this]); [| done].
        in_list. }
    split.
    { intros Hne_rt.
      assert (rhs ∉ [tmp; this]) as Hout.
      { rewrite !elem_of_cons, elem_of_nil.
        intros [? | [? | []]]; congruence. }
      destruct (Hkept3 rhs Hout) as (_ & Hke & _). by apply Hke. }
    split.
    { intros He. apply Hempty3. by apply Hempty1. }
    intros t v Hf. destruct (Hfull1 t v Hf) as (v1 & Hm1 & Hf1 & _).
    destruct (Hfull3 t v1 Hf1) as (v' & Hmoves & Hf3).
    by exists v1, v'.
  - destruct Hswap as (t & v0 & Hwho & Hwhy).
    destruct Hwho as [Htmp_full | Hthis_full].
    + destruct Hrhs as [obj Hobj].
      destruct (wf_objects σ Hwf rhs obj Hobj) as [He | (t' & v & Hf)].
      * destruct (Hempty1 He) as [He1 _].
        by destruct (any_contains_not_empty σ1 tmp t v0).
      * destruct (Hfull1 t' v Hf) as (v1 & _ & Hf1 & _).
        destruct (any_contains_unique σ1 tmp t v0 t' v1 Htmp_full Hf1)
          as [-> _].
        exists t', v. split; [by left | done].
    + destruct (decide (this = rhs)) as [-> | Hne_tr].
      { by destruct (any_contains_not_empty σ1 rhs t v0). }
      assert (this ∉ [tmp; rhs]) as Hout.
      { rewrite !elem_of_cons, elem_of_nil.
        intros [? | [? | []]]; congruence. }
      destruct (any_contains_kept_back [tmp; rhs] σ σ1 this t v0
                  Hwf Hkept1 Hout Hthis Hthis_full) as [v Hf].
      exists t, v. split; [by right | done].
Qed.

Lemma any_assign_value_from_cases σ (this : Z) t (args : ctor_args R)
    (made : E + V) (tmp tmp' : Z) :
  any_wf σ → is_Some (anys σ !! this) →
  anys σ !! tmp = None → anys σ !! tmp' = None → tmp ≠ tmp' →
  (∀ σ1, any_default (E := E) tmp σ = returned tt σ1 →
         construct_from construct copy_construct t args σ1 = Some made) →
  match any_assign_value_from construct copy_construct move_construct
          operator_new this t args tmp tmp' σ with
  | returned _ σ' =>
      any_wf σ' ∧ any_others_kept [this] σ σ' ∧
      ∃ v v', made = inr v ∧
              (fst (move_construct t v) = inr v'
               ∨ ∃ v1, fst (move_construct t v) = inr v1 ∧
                       fst (move_construct t v1) = inr v') ∧
              any_contains σ' this t v'
  | threw x σ' =>
      σ' = σ ∧
      (x = new_bad_alloc ∧ IsSmall t = false ∧
       operator_new (free_store σ) = None
       ∨ ∃ e, x = thrown_by_T e ∧ made = inl e)
  | terminated =>
      ∃ t0, (t0 = t ∨ ∃ v0, any_contains σ this t0 v0) ∧
            (IsSmall t0 = false
             ∨ ∃ v e, fst (move_construct t0 v) = inl e)
  | undefined => False
  end.
Proof.
  intros Hwf Hthis Hfresh Hfresh' Hne Hargs. unfold any_assign_value_from.
  assert (tmp ≠ this) as Hne_this by (destruct Hthis; congruence).
  pose proof (any_construct_value_from_cases σ tmp t args made Hwf Hfresh
                Hargs) as Hmake.
  destruct (any_construct_value_from construct copy_construct move_construct
              operator_new tmp t args σ) as [r σ1 | x σ1 | |];
    cbn [and_then]; [| done | done | done].
  destruct Hmake as (v & Hmade & Hwf1 & Hf1 & Hkept1 & _).
  assert (this ∉ [tmp]) as Hout_this.
  { rewrite list_elem_of_singleton. congruence. }
  assert (tmp' ∉ [tmp]) as Hout_tmp'.
  { rewrite list_elem_of_singleton. congruence. }
  pose proof (any_live_kept [tmp] σ σ1 this Hwf Hkept1 Hout_this Hthis)
    as Hthis1.
  destruct (Hkept1 tmp' Hout_tmp') as (_ & _ & Hnone').
  pose proof (any_swap_in_cases σ1 this tmp tmp' Hwf1 Hthis1
                (any_contains_live σ1 tmp t v Hf1)
                (Hnone' Hfresh') Hne_this) as Hswap.
  destruct (and_then
              (any_swap copy_construct move_construct operator_new
                 tmp this tmp' σ1) _) as [r3 σ3 | x σ3 | |];
    [| done | | done].
  - destruct Hswap as (Hwf3 & Hgone3 & Hkept3 & _ & Hfull3).
    split; [done |]. split.
    { apply (any_others_kept_fresh _ tmp); [| done | done].
      apply (any_others_kept_trans _ σ σ1); [| done].
      apply (any_others_kept_more [tmp]); [| done].
      in_list. }
    destruct (Hfull3 t v Hf1) as (v' & Hmoves & Hf3). by exists v, v'.
  - destruct Hswap as (t0 & v0 & Hwho & Hwhy).
    exists t0. split; [| done].
    destruct Hwho as [Htmp_full | Hthis_full].
    + left. by destruct (any_contains_unique σ1 tmp t0 v0 t v Htmp_full Hf1).
    + right.
      apply (any_contains_kept_back [tmp] σ σ1 this t0 v0 Hwf Hkept1
               Hout_this Hthis Hthis_full).
Qed.

Lemma any_assign_value_cases σ (this : Z) t (args : R) (tmp tmp' : Z) :
  any_wf σ → is_Some (anys σ !! this) →
  anys σ !! tmp = None → anys σ !! tmp' = None → tmp ≠ tmp' →
  match any_assign_value construct copy_construct move_construct
          operator_new this t args tmp tmp' σ with
  | returned _ σ' =>
      any_wf σ' ∧ any_others_kept [this] σ σ' ∧
      ∃ v v', construct t args = inr v ∧
              (fst (move_construct t v) = inr v'
               ∨ ∃ v1, fst (move_construct t v) = inr v1 ∧
                       fst (move_construct t v1) = inr v') ∧
              any_contains σ' this t v'
  | threw x σ' =>
      σ' = σ ∧
      (x = new_bad_alloc ∧ IsSmall t = false ∧
       operator_new (free_store σ) = None
       ∨ ∃ e, x = thrown_by_T e ∧ construct t args = inl e)
  | terminated =>
      ∃ t0, (t0 = t ∨ ∃ v0, any_contains σ this t0 v0) ∧
            (IsSmall t0 = false
             ∨ ∃ v e, fst (move_construct t0 v) = inl e)
  | undefined => False
  end.
Proof.
  intros Hwf Hthis Hfresh Hfresh' Hne.
  exact (any_assign_value_from_cases σ this t (args_values args)
           (construct t args) tmp tmp' Hwf Hthis Hfresh Hfresh' Hne
           (λ _ _, eq_refl)).
Qed.

(** *** The observers *)

Lemma any_type_empty σ (this : Z) :
  any_empty σ this →
  any_type copy_construct move_construct operator_new this σ
  = returned typeid_void σ.
Proof.
  intros Hempty. unfold any_type.
  by rewrite (any_empty_has_value σ this Hempty).
Qed.

Lemma any_type_contains σ (this : Z) t v :
  any_contains σ this t v →
  any_type copy_construct move_construct operator_new this σ
  = returned (typeid_of (type_id t)) σ.
Proof.
  intros Hfull. unfold any_type.
  rewrite (any_contains_has_value σ this t v Hfull).
  rewrite (call_manager_contains σ this t v _ _ _ Hfull).
  destruct Hfull as (obj & Hobj & _).
  unfold ManagerImpl_Manage. by rewrite Hobj.
Qed.

Lemma any_cast_ptr_contains σ (operand : Z) t v (T : type_info) :
  operand ≠ nullptr → any_contains σ operand t v →
  ∃ obj l, anys σ !! operand = Some obj ∧
       ManagerImpl_Access t operand (storage obj) = Some l ∧
       read_object t l σ = Some v ∧
       (IsSmall t = true → l = buffer_of operand) ∧
       any_cast_ptr copy_construct move_construct operator_new T operand σ
       = returned (if decide (typeid_of (type_id t) = T) then Some l
                   else None) σ.
Proof.
  intros Hnull Hfull. unfold any_cast_ptr.
  rewrite decide_False by done.
  rewrite (any_type_contains σ operand t v Hfull). cbn [and_then].
  destruct (any_contains_access σ operand t v Hfull)
    as (obj & l & Hobj & _ & Hacc & Hread & Hplace).
  exists obj, l. split; [done |]. split; [done |].
  split; [done |]. split; [done |].
  destruct (decide (typeid_of (type_id t) = T)) as [Heq | Hne]; [| done].
  rewrite (call_manager_contains σ operand t v _ _ _ Hfull).
  unfold ManagerImpl_Manage. by rewrite Hobj, Hacc.
Qed.

Lemma any_cast_ptr_empty σ (operand : Z) (T : type_info) :
  operand ≠ nullptr → any_empty σ operand →
  any_cast_ptr copy_construct move_construct operator_new T operand σ
  = if decide (T = typeid_void) then undefined else returned None σ.
Proof.
  intros Hnull Hempty. unfold any_cast_ptr.
  rewrite decide_False by done.
  rewrite (any_type_empty σ operand Hempty). cbn [and_then].
  destruct (decide (typeid_void = T)) as [<- | Hne].
  - rewrite decide_True by done.
    destruct Hempty as (obj & Hobj & Hman & _).
    unfold call_manager. by rewrite Hobj, Hman.
  - by rewrite decide_False by congruence.
Qed.

(** *** Programs *)

Lemma run_call_safe (c : any_call R) σ :
  any_wf σ → call_ready c σ →
  match run_call construct copy_construct move_construct operator_new c σ
  with
  | returned _ σ' => any_wf σ'
  | threw _ σ' => any_wf σ'
  | terminated => True
  | undefined => False
  end.
Proof.
  intros Hwf Hready.
  destruct c as [this | this t args | this other | this other | this
                | this rhs tmp tmp' | this rhs tmp tmp'
                | this t args tmp tmp' | this t args | this
                | this other tmp];
    cbn [run_call call_ready] in Hready |- *.
  - by destruct (any_default_returns σ this Hwf Hready) as (σ' & -> & ? & _).
  - destruct Hready as [Hfresh Hargs].
    destruct (args_ready_default σ this t args Hwf Hfresh Hargs)
      as [made Hmade].
    pose proof (any_construct_value_from_cases σ this t args made Hwf Hfresh
                  Hmade) as H.
    destruct (any_construct_value_from _ _ _ _ _ _ _ _) as [r σ' | x σ' | |];
      [by destruct H as (v & _ & ? & _) | by destruct H as [-> _]
      | done | done].
  - destruct Hready as [Hfresh Hlive].
    pose proof (any_copy_construct_cases σ this other Hwf Hfresh Hlive) as H.
    destruct (any_copy_construct _ _ _ _ _ _) as [r σ' | x σ' | |];
      [by destruct H as (? & _) | by destruct H as [-> _] | done | done].
  - destruct Hready as [Hfresh Hlive].
    pose proof (any_move_construct_cases σ this other Hwf Hfresh Hlive) as H.
    destruct (any_move_construct _ _ _ _ _ _) as [r σ' | x σ' | |];
      [by destruct H as (? & _) | done | done | done].
  - by destruct (any_destroy_returns σ this Hwf Hready) as (σ' & -> & ? & _).
  - destruct Hready as (Hthis & Hrhs & Hfresh & Hfresh' & Hne).
    pose proof (any_copy_assign_cases σ this rhs tmp tmp' Hwf Hthis Hrhs
                  Hfresh Hfresh' Hne) as H.
    destruct (any_copy_assign _ _ _ _ _ _ _ _) as [r σ' | x σ' | |];
      [by destruct H as (? & _) | by destruct H as [-> _] | done | done].
  - destruct Hready as (Hthis & Hrhs & Hfresh & Hfresh' & Hne).
    pose proof (any_move_assign_cases σ this rhs tmp tmp' Hwf Hthis Hrhs
                  Hfresh Hfresh' Hne) as H.
    destruct (any_move_assign _ _ _ _ _ _ _ _) as [r σ' | x σ' | |];
      [by destruct H as (? & _) | done | done | done].
  - destruct Hready as (Hthis & Hfresh & Hfresh' & Hne & Hargs).
    destruct (args_ready_default σ tmp t args Hwf Hfresh Hargs)
      as [made Hmade].
    pose proof (any_assign_value_from_cases σ this t args made tmp tmp' Hwf
                  Hthis Hfresh Hfresh' Hne Hmade) as H.
    destruct (any_assign_value_from _ _ _ _ _ _ _ _ _ _)
      as [r σ' | x σ' | |];
      [by destruct H as (? & _) | by destruct H as [-> _] | done | done].
  - destruct Hready as (Hthis & Hargs & Hfar).
    destruct (args_ready_reset σ this t args Hwf Hthis Hargs Hfar)
      as [made Hmade].
    pose proof (any_emplace_from_cases σ this t args made Hwf Hthis Hmade)
      as H.
    destruct (any_emplace_from _ _ _ _ _ _ _ _) as [r σ' | x σ' | |];
      cbn [and_then];
      [by destruct H as (v & _ & ? & _) | by destruct H as (? & _)
      | done | done].
  - by destruct (any_reset_returns σ this Hwf Hready) as (σ' & -> & ? & _).
  - destruct Hready as (Hthis & Hother & Hfresh).
    pose proof (any_swap_cases σ this other tmp Hwf Hthis Hother Hfresh) as H.
    destruct (any_swap _ _ _ _ _ _ _) as [r σ' | x σ' | |];
      [by destruct H as (? & _) | done | done | done].
Qed.

Lemma any_initial_wf : any_wf (any_initial (V := V)).
Proof.
  split.
  - intros a obj Hobj. unfold any_initial in Hobj. cbn [anys] in Hobj.
    by rewrite lookup_empty in Hobj.
  - intros a1 a2 p Hown. unfold owned_cell, any_initial in Hown.
    cbn [anys] in Hown. by rewrite lookup_empty in Hown.
  - intros p o Hcell. unfold any_initial in Hcell. cbn [free_store] in Hcell.
    by rewrite lookup_empty in Hcell.
Qed.

Lemma any_step_wf σ σ' :
  any_wf σ →
  any_step construct copy_construct move_construct operator_new σ σ' →
  any_wf σ'.
Proof.
  intros Hwf Hstep.
  destruct Hstep as [c σ0 σ1 Hready Hrun | c x σ0 σ1 Hready Hrun];
    pose proof (run_call_safe c σ0 Hwf Hready) as Hsafe;
    by rewrite Hrun in Hsafe.
Qed.

Lemma any_run_wf σ0 σ :
  rtc (any_step construct copy_construct move_construct operator_new) σ0 σ →
  any_wf σ0 → any_wf σ.
Proof.
  intros Hrtc. induction Hrtc as [| σ1 σ2 σ3 Hstep _ IH]; [done |].
  intros Hwf1. apply IH. by apply (any_step_wf σ1 σ2).
Qed.

(** [emplace] from the object the target contains: the object is
    destroyed before the constructor reads it. *)
Lemma any_emplace_from_own σ (this : Z) t v (l : location) :
  any_wf σ → any_contains σ this t v → any_place this σ = Some l →
  match any_emplace_from construct copy_construct move_construct
          operator_new this t (args_lvalue l) σ with
  | undefined => True
  | threw x _ => x = new_bad_alloc ∧ IsSmall t = false
  | _ => False
  end.
Proof.
  intros Hwf Hfull Hplace.
  pose proof (any_contains_live σ this t v Hfull) as Hlive.
  destruct (any_reset_returns σ this Hwf Hlive)
    as (σ1 & Hreset & _ & Hempty1 & Hchg1 & _).
  assert (read_object t l σ1 = None) as Hgone.
  { pose proof (owned_cell_empty σ1 this Hempty1) as Hown1.
    destruct Hempty1 as (obj1 & Hobj1 & _ & Hnone).
    destruct Hfull as (obj & Hobj & Hman & Hin).
    unfold any_place in Hplace. rewrite Hobj, Hman in Hplace.
    unfold ManagerImpl_Access in Hplace. unfold read_object, object_at.
    destruct (IsSmall t) eqn:Hsize.
    - injection Hplace as <-. rewrite Hobj1.
      destruct (storage obj1) as [p | [o |]] eqn:Hsto; [done | | done].
      by destruct (Hnone o).
    - destruct Hin as (p & Hsto & Hp & Hcell).
      rewrite Hsto in Hplace. injection Hplace as <-.
      destruct Hchg1 as (_ & _ & Hdropped & _).
      rewrite (Hdropped p); [done | | by rewrite Hown1].
      unfold owned_cell. by rewrite Hobj, Hman, Hsize, Hsto. }
  unfold any_emplace_from. rewrite Hreset. cbn [and_then].
  unfold ManagerImpl_Create_from. cbn [construct_from]. rewrite Hgone.
  destruct Hempty1 as (obj1 & -> & _).
  destruct (IsSmall t); [done |].
  by destruct (operator_new (free_store σ1)).
Qed.

(** X19. Programs that use [any] through its public members are
    memory safe.  A program is a sequence of constructions, assignments,
    [emplace], [reset], [swap] and destructions on existing objects,
    with exceptions caught.  An argument from which a value is
    constructed is a value that refers to no object held by an [any], or
    an lvalue for a live object of a copy constructible type; the lvalue
    given to [emplace] does not refer to the object that the target
    contains.  Starting with no objects, after any such program every
    [any] is empty or contains an object of the type its manager names,
    stored where the manager looks for it; every object on the free store
    belongs to exactly one [any] (nothing is leaked, nothing is shared);
    and the next such call does not run into undefined behaviour.  The
    condition on [emplace] cannot be dropped: [emplace] destroys the
    contained object before it constructs the new one, so [emplace] from
    an lvalue for the object that the target contains never returns, and
    its behaviour is undefined unless the type is not small and
    [operator new] throws first. *)
Theorem any_programs_memory_safe σ :
  rtc (any_step construct copy_construct move_construct operator_new)
      any_initial σ →
  any_wf σ ∧
  (∀ c, call_ready c σ →
        run_call construct copy_construct move_construct operator_new c σ
        ≠ undefined) ∧
  (∀ (this : Z) t v (l : location),
     any_contains σ this t v → is_copy_constructible t = true →
     any_place this σ = Some l →
     match run_call construct copy_construct move_construct operator_new
             (call_emplace this t (args_lvalue l)) σ with
     | undefined => True
     | threw x _ => x = new_bad_alloc ∧ IsSmall t = false
     | _ => False
     end).
Proof.
  intros Hrun.
  pose proof (any_run_wf any_initial σ Hrun any_initial_wf) as Hwf.
  split; [done |]. split.
  - intros c Hready Hundef.
    pose proof (run_call_safe c σ Hwf Hready) as Hsafe.
    by rewrite Hundef in Hsafe.
  - intros this t v l Hfull _ Hplace. cbn [run_call].
    pose proof (any_emplace_from_own σ this t v l Hwf Hfull Hplace) as Hown.
    by destruct (any_emplace_from construct copy_construct move_construct
                   operator_new this t (args_lvalue l) σ).
Qed.

(** *** What the operations guarantee *)

Lemma any_copy_construct_move_only σ (this other : Z) t v :
  any_wf σ → anys σ !! this = None → any_contains σ other t v →
  is_copy_constructible t = false →
  any_copy_construct copy_construct move_construct operator_new this other σ
  = threw std_logic_error σ.
Proof.
  intros Hwf Hfresh Hfull Hmove_only.
  pose proof (any_copy_construct_cases σ this other Hwf Hfresh
                (any_contains_live σ other t v Hfull)) as Hcopy.
  destruct (any_copy_construct copy_construct move_construct operator_new
              this other σ) as [r σ' | x σ' | |]; [| | done | done].
  - destruct Hcopy as (_ & _ & _ & _ & Hfull').
    destruct (Hfull' t v Hfull) as [Hcopyable _]. congruence.
  - destruct Hcopy as (-> & t' & v' & Hf' & Hwhy).
    destruct (any_contains_unique σ other t v t' v' Hfull Hf') as [<- <-].
    destruct Hwhy as [[_ ->] | [Hcopyable _]]; [done | congruence].
Qed.

(** X20. Copying an [any] that holds a move-only type throws
    [std::logic_error], from the copy constructor as from copy
    assignment, and nothing has changed when it does: no object was made,
    and the target of the assignment still holds what it held. *)
Theorem any_copy_of_move_only_throws σ (this rhs tmp tmp' : Z) t v :
  any_wf σ → any_contains σ rhs t v → is_copy_constructible t = false →
  anys σ !! this = None → anys σ !! tmp = None →
  any_copy_construct copy_construct move_construct operator_new this rhs σ
  = threw std_logic_error σ ∧
  ∀ target,
    any_copy_assign copy_construct move_construct operator_new
      target rhs tmp tmp' σ
    = threw std_logic_error σ.
Proof.
  intros Hwf Hfull Hmove_only Hfresh Hfresh_tmp.
  split; [by apply (any_copy_construct_move_only σ this rhs t v) |].
  intros target. unfold any_copy_assign.
  by rewrite (any_copy_construct_move_only σ tmp rhs t v).
Qed.

(** X21. Copy assignment gives the strong guarantee: if it throws,
    the memory is exactly as it was before the call.  If it returns, the
    object contains a copy of what [rhs] contained, moved into place once
    or twice (or is empty as [rhs] was), and every other [any] is as it
    was. *)
Theorem any_copy_assign_strong_guarantee σ (this rhs tmp tmp' : Z) :
  any_wf σ → is_Some (anys σ !! this) → is_Some (anys σ !! rhs) →
  anys σ !! tmp = None → anys σ !! tmp' = None → tmp ≠ tmp' →
  (∀ x σ',
     any_copy_assign copy_construct move_construct operator_new
       this rhs tmp tmp' σ = threw x σ' → σ' = σ) ∧
  (∀ σ',
     any_copy_assign copy_construct move_construct operator_new
       this rhs tmp tmp' σ = returned tt σ' →
     any_wf σ' ∧ any_others_kept [this] σ σ' ∧
     (any_empty σ rhs → any_empty σ' this) ∧
     ∀ t v, any_contains σ rhs t v →
            ∃ vc v', copy_construct t v = inr vc ∧
                     (fst (move_construct t vc) = inr v'
                      ∨ ∃ v1, fst (move_construct t vc) = inr v1 ∧
                              fst (move_construct t v1) = inr v') ∧
                     any_contains σ' this t v').
Proof.
  intros Hwf Hthis Hrhs Hfresh Hfresh' Hne.
  pose proof (any_copy_assign_cases σ this rhs tmp tmp' Hwf Hthis Hrhs
                Hfresh Hfresh' Hne) as Hcases.
  split.
  - intros x σ' Hrun. rewrite Hrun in Hcases. by destruct Hcases.
  - intros σ' Hrun. rewrite Hrun in Hcases.
    destruct Hcases as (Hwf' & Hkept & Hempty & Hfull).
    split; [done |]. split; [done |]. split; [done |].
    intros t v Hf. destruct (Hfull t v Hf) as (_ & vc & v' & H1 & H2 & H3).
    by exists vc, v'.
Qed.

(** X22. Move construction transfers the content: the new object
    contains the value the move constructor of [T] made from the old one,
    the source is empty, the leftover in the source has been destroyed,
    and every other [any] is as it was.  The constructor is [noexcept]
    and never throws: it calls [std::terminate] exactly when [T] is not
    small and [operator new] fails, or the move constructor of [T]
    throws, and it returns in every other case. *)
Theorem any_move_construct_transfers σ (this other : Z) t v :
  any_wf σ → anys σ !! this = None → any_contains σ other t v →
  match any_move_construct copy_construct move_construct operator_new
          this other σ with
  | returned _ σ' =>
      ∃ v1, fst (move_construct t v) = inr v1 ∧
            (IsSmall t = true ∨ is_Some (operator_new (free_store σ))) ∧
            any_contains σ' this t v1 ∧ any_empty σ' other ∧
            any_others_kept [this; other] σ σ' ∧
            destroyed σ' = destroyed σ ++ [(t, snd (move_construct t v))]
  | terminated =>
      IsSmall t = false ∧ operator_new (free_store σ) = None
      ∨ ∃ e, fst (move_construct t v) = inl e
  | threw _ _ => False
  | undefined => False
  end ∧
  (any_move_construct copy_construct move_construct operator_new
     this other σ = terminated
   ↔ (IsSmall t = false ∧ operator_new (free_store σ) = None
      ∨ ∃ e, fst (move_construct t v) = inl e)).
Proof.
  intros Hwf Hfresh Hfull.
  pose proof (any_move_construct_cases σ this other Hwf Hfresh
                (any_contains_live σ other t v Hfull)) as Hcases.
  destruct (any_move_construct copy_construct move_construct operator_new
              this other σ) as [r σ' | x σ' | |]; [| done | | done].
  - destruct Hcases as (_ & Hempty & Hkept & _ & Hmoved).
    destruct (Hmoved t v Hfull) as (v1 & Hmade & Hf' & Hlog & _ & Hroom).
    split; [by exists v1 |].
    split; [done |].
    intros [[Hlarge Hnew] | [e Hthrows]]; [| congruence].
    destruct Hroom as [Hsmall | [p Hp]]; congruence.
  - destruct Hcases as (t' & v' & Hf' & Hwhy).
    destruct (any_contains_unique σ other t v t' v' Hfull Hf') as [<- <-].
    by split.
Qed.

(** X23. [swap] exchanges the contents of two objects that both hold a
    value: afterwards [this] contains the value of [other] moved once, and
    [other] the value of [this] moved twice (through the local [tmp]);
    the types go with the values and every other [any] is as it was.
    Swapping an object with itself changes nothing. *)
Theorem any_swap_exchanges σ (this other tmp : Z) t1 v1 t2 v2 :
  any_wf σ → any_contains σ this t1 v1 → any_contains σ other t2 v2 →
  this ≠ other → anys σ !! tmp = None →
  match any_swap copy_construct move_construct operator_new
          this other tmp σ with
  | returned _ σ' =>
      ∃ w1 w2 w3,
        fst (move_construct t1 v1) = inr w1 ∧
        fst (move_construct t1 w1) = inr w3 ∧
        fst (move_construct t2 v2) = inr w2 ∧
        any_contains σ' this t2 w2 ∧ any_contains σ' other t1 w3 ∧
        any_others_kept [this; other] σ σ' ∧ any_wf σ'
  | terminated =>
      ∃ t, (t = t1 ∨ t = t2) ∧
           (IsSmall t = false ∨ ∃ v e, fst (move_construct t v) = inl e)
  | threw _ _ => False
  | undefined => False
  end ∧
  any_swap copy_construct move_construct operator_new this this tmp σ
  = returned tt σ.
Proof.
  intros Hwf Hf1 Hf2 Hne Hfresh. split.
  - pose proof (any_swap_cases σ this other tmp Hwf
                  (any_contains_live σ this t1 v1 Hf1)
                  (any_contains_live σ other t2 v2 Hf2) Hfresh) as Hcases.
    destruct (any_swap copy_construct move_construct operator_new
                this other tmp σ) as [r σ' | x σ' | |]; [| done | | done].
    + destruct Hcases as (Hwf' & Hkept & _ & _ & _ & _ & Hin & Hout).
      destruct (Hin t2 v2 Hf2 Hne) as (w2 & Hm2 & Hf2').
      destruct (Hout t1 v1 Hf1 Hne) as (w1 & Hm1 & Hcase).
      destruct Hcase as [[He _] | [_ (w3 & Hm3 & Hf1')]].
      { by destruct (any_contains_not_empty σ other t2 v2). }
      by exists w1, w2, w3.
    + destruct Hcases as (t & v0 & Hwho & Hwhy). exists t. split; [| done].
      destruct Hwho as [Hf | Hf].
      * left. by destruct (any_contains_unique σ this t v0 t1 v1 Hf Hf1).
      * right. by destruct (any_contains_unique σ other t v0 t2 v2 Hf Hf2).
  - unfold any_swap. rewrite (any_contains_has_value σ this t1 v1 Hf1).
    by rewrite decide_True.
Qed.

(** X24. [any_cast<T>] on a pointer returns the place of the contained
    object exactly when the operand is not null, contains an object, and
    the object's [typeid] is [typeid(T)]; the object read there is the
    contained one.  Otherwise it returns the null pointer, and the
    reference form throws [bad_any_cast] in exactly these cases.  The
    exception is [T = void] on an empty [any]: [type()] then equals
    [typeid(void)] and the null [manager] is called. *)
Theorem any_cast_ptr_matches σ (operand : Z) (T : type_info) :
  operand ≠ nullptr →
  any_cast_ptr copy_construct move_construct operator_new T nullptr σ
  = returned None σ ∧
  (∀ t v, any_contains σ operand t v →
          if decide (T = typeid_of (type_id t)) then
            ∃ l, any_cast_ptr copy_construct move_construct operator_new
                   T operand σ = returned (Some l) σ ∧
                 any_cast_ref copy_construct move_construct operator_new
                   T operand σ = returned l σ ∧
                 read_object t l σ = Some v
          else
            any_cast_ptr copy_construct move_construct operator_new
              T operand σ = returned None σ ∧
            any_cast_ref copy_construct move_construct operator_new
              T operand σ = threw bad_any_cast σ) ∧
  (any_empty σ operand →
   if decide (T = typeid_void) then
     any_cast_ptr copy_construct move_construct operator_new T operand σ
     = undefined
   else
     any_cast_ptr copy_construct move_construct operator_new T operand σ
     = returned None σ ∧
     any_cast_ref copy_construct move_construct operator_new T operand σ
     = threw bad_any_cast σ).
Proof.
  intros Hnull. split; [| split].
  - unfold any_cast_ptr. by rewrite decide_True.
  - intros t v Hfull.
    destruct (any_cast_ptr_contains σ operand t v T Hnull Hfull)
      as (obj & l & _ & _ & Hread & _ & Hcast).
    unfold any_cast_ref. rewrite Hcast.
    destruct (decide (T = typeid_of (type_id t))) as [-> | Hne].
    + rewrite decide_True by done. by exists l.
    + by rewrite decide_False by congruence.
  - intros Hempty. unfold any_cast_ref.
    rewrite (any_cast_ptr_empty σ operand T Hnull Hempty).
    by destruct (decide (T = typeid_void)).
Qed.

(** X25. [emplace] gives the basic guarantee only: it destroys the
    old value first, so when the constructor of the new value (or
    [operator new]) throws, the object is left empty and the old value is
    gone.  Value assignment builds the new value in a temporary first:
    when that throws, the memory is exactly as before. *)
Theorem any_emplace_basic_guarantee σ (this : Z) t (args : R)
    (tmp tmp' : Z) t0 v0 :
  any_wf σ → any_contains σ this t0 v0 →
  anys σ !! tmp = None → anys σ !! tmp' = None → tmp ≠ tmp' →
  (∀ x σ',
     any_emplace construct copy_construct move_construct operator_new
       this t args σ = threw x σ' →
     any_wf σ' ∧ any_empty σ' this ∧
     destroyed σ' = destroyed σ ++ [(t0, v0)]) ∧
  (∀ x σ',
     any_assign_value construct copy_construct move_construct operator_new
       this t args tmp tmp' σ = threw x σ' → σ' = σ) ∧
  (∀ e, construct t args = inl e →
        (∃ x σ',
           any_emplace construct copy_construct move_construct operator_new
             this t args σ = threw x σ') ∧
        (∃ x,
           any_assign_value construct copy_construct move_construct
             operator_new this t args tmp tmp' σ = threw x σ)).
Proof.
  intros Hwf Hfull Hfresh Hfresh' Hne.
  pose proof (any_contains_live σ this t0 v0 Hfull) as Hlive.
  pose proof (any_emplace_cases σ this t args Hwf Hlive) as Hemplace.
  pose proof (any_assign_value_cases σ this t args tmp tmp' Hwf Hlive
                Hfresh Hfresh' Hne) as Hassign.
  split; [| split].
  - intros x σ' Hrun. rewrite Hrun in Hemplace.
    destruct Hemplace as (Hwf' & Hempty & _ & _ & _ & Hlog).
    split; [done |]. split; [done |]. by apply Hlog.
  - intros x σ' Hrun. rewrite Hrun in Hassign. by destruct Hassign.
  - intros e Hthrows. split.
    + destruct (any_emplace construct copy_construct move_construct
                  operator_new this t args σ) as [l σ' | x σ' | |];
        [| by exists x, σ' | done | done].
      destruct Hemplace as (v & Hmade & _). congruence.
    + unfold any_assign_value, any_assign_value_from in Hassign |- *.
      pose proof (any_construct_value_cases σ tmp t args Hwf Hfresh) as Hmake.
      unfold any_construct_value in Hmake.
      destruct (any_construct_value_from construct copy_construct
                  move_construct operator_new tmp t (args_values args) σ)
        as [r σ' | x σ' | |]; [| | done | done].
      * destruct Hmake as (v & Hmade & _). congruence.
      * destruct Hmake as [-> _]. by exists x.
Qed.

(** X26. Small value optimisation: a type that fits the buffer, is
    not over-aligned and has a [noexcept] move constructor is kept in the
    buffer of the [any] itself.  Moving such an [any] always returns,
    leaves the free store untouched, and [any_cast] on the new object
    points into that object. *)
Theorem any_small_value_optimization σ (this other : Z) t v :
  (∀ t' v', is_nothrow_move_constructible t' = true →
            ∃ v1, fst (move_construct t' v') = inr v1) →
  any_wf σ → IsSmall t = true → this ≠ nullptr →
  anys σ !! this = None → any_contains σ other t v →
  ∃ σ' v1,
    any_move_construct copy_construct move_construct operator_new
      this other σ = returned tt σ' ∧
    free_store σ' = free_store σ ∧
    any_contains σ' this t v1 ∧
    any_cast_ptr copy_construct move_construct operator_new
      (typeid_of (type_id t)) this σ'
    = returned (Some (buffer_of this)) σ' ∧
    read_object t (buffer_of this) σ' = Some v1.
Proof.
  intros Hnothrow Hwf Hsize Hnull Hfresh Hfull.
  assert (is_nothrow_move_constructible t = true) as Htrait.
  { unfold IsSmall in Hsize. by apply andb_true_iff in Hsize as [_ ?]. }
  destruct (Hnothrow t v Htrait) as [v1 Hmade].
  pose proof (any_move_construct_cases σ this other Hwf Hfresh
                (any_contains_live σ other t v Hfull)) as Hcases.
  destruct (any_move_construct copy_construct move_construct operator_new
              this other σ) as [[] σ' | x σ' | |]; [| done | | done].
  - destruct Hcases as (Hwf' & _ & _ & _ & Hmoved).
    destruct (Hmoved t v Hfull) as (v1' & Hmade' & Hf' & _ & Hstore & _).
    assert (v1' = v1) as -> by congruence.
    exists σ', v1. split; [done |]. split; [by apply Hstore |].
    split; [done |].
    destruct (any_cast_ptr_contains σ' this t v1 (typeid_of (type_id t))
                Hnull Hf') as (obj & l & _ & _ & Hread & Hplace & Hcast).
    rewrite decide_True in Hcast by done.
    rewrite (Hplace Hsize) in Hcast, Hread. by split.
  - destruct Hcases as (t' & v' & Hf' & Hwhy).
    destruct (any_contains_unique σ other t v t' v' Hfull Hf') as [<- <-].
    destruct Hwhy as [[Hlarge _] | [e Hthrows]]; congruence.
Qed.

(** X27. Moving the value out with [any_cast<T>(std::move(a))] does
    not empty the object: it returns the value the move constructor made
    and [a] still has a value, the leftover of the move. *)
Theorem any_cast_move_keeps_value σ (operand : Z) t v v1 :
  operand ≠ nullptr → any_wf σ → any_contains σ operand t v →
  fst (move_construct t v) = inr v1 →
  ∃ σ', any_cast_move copy_construct move_construct operator_new
          t operand σ = returned v1 σ' ∧
        any_wf σ' ∧
        any_contains σ' operand t (snd (move_construct t v)) ∧
        any_has_value operand σ' = Some true ∧
        any_others_kept [operand] σ σ'.
Proof.
  intros Hnull Hwf Hfull Hmade.
  destruct (any_cast_ptr_contains σ operand t v (typeid_of (type_id t))
              Hnull Hfull) as (obj & l & Hobj & Hacc & Hread & _ & Hcast).
  rewrite decide_True in Hcast by done.
  unfold any_cast_move. rewrite Hcast. cbn [and_then].
  rewrite Hread, Hmade.
  destruct (any_write_object σ operand t v (snd (move_construct t v)) obj l
              Hwf Hfull Hobj Hacc) as (Hwf' & Hfull' & Hchg & _).
  eexists. split; [reflexivity |]. split; [done |]. split; [done |].
  split; [by apply (any_contains_has_value _ operand t
                     (snd (move_construct t v))) |].
  apply (any_changes_kept σ _ operand); [done | done |].
  by apply list_elem_of_singleton.
Qed.

(** X28. Move assignment transfers the content: the object ends up
    with what [rhs] contained, moved two or three times (into the
    temporary, then through [swap]), and [rhs] is empty unless it is the
    object itself: after [a = std::move(a)] the object still has its
    value.  Every other [any] is as it was.  The operator is [noexcept]
    and can only end in [std::terminate] when a type involved is not
    small or a move constructor throws. *)
Theorem any_move_assign_transfers σ (this rhs tmp tmp' : Z) t v :
  any_wf σ → is_Some (anys σ !! this) → any_contains σ rhs t v →
  anys σ !! tmp = None → anys σ !! tmp' = None → tmp ≠ tmp' →
  match any_move_assign copy_construct move_construct operator_new
          this rhs tmp tmp' σ with
  | returned _ σ' =>
      any_wf σ' ∧ any_others_kept [this; rhs] σ σ' ∧
      (rhs ≠ this → any_empty σ' rhs) ∧
      ∃ v1 v', fst (move_construct t v) = inr v1 ∧
               (fst (move_construct t v1) = inr v'
                ∨ ∃ v2, fst (move_construct t v1) = inr v2 ∧
                        fst (move_construct t v2) = inr v') ∧
               any_contains σ' this t v'
  | terminated =>
      ∃ t0, (t0 = t ∨ ∃ v0, any_contains σ this t0 v0) ∧
            (IsSmall t0 = false
             ∨ ∃ v0 e, fst (move_construct t0 v0) = inl e)
  | threw _ _ => False
  | undefined => False
  end.
Proof.
  intros Hwf Hthis Hfull Hfresh Hfresh' Hne.
  pose proof (any_move_assign_cases σ this rhs tmp tmp' Hwf Hthis
                (any_contains_live σ rhs t v Hfull) Hfresh Hfresh' Hne)
    as Hcases.
  destruct (any_move_assign copy_construct move_construct operator_new
              this rhs tmp tmp' σ) as [r σ' | x σ' | |]; [| done | | done].
  - destruct Hcases as (Hwf' & Hkept & Hempty & _ & Hmoved).
    split; [done |]. split; [done |]. split; [done |].
    by apply Hmoved.
  - destruct Hcases as (t0 & v0 & Hwho & Hwhy). exists t0. split; [| done].
    destruct Hwho as [Hf | Hf].
    + left. by destruct (any_contains_unique σ rhs t0 v0 t v Hf Hfull).
    + right. by exists v0.
Qed.

(** X29. What is put in comes out: an [any] constructed from a value
    has a value, reports the type of that value, and [any_cast] to that
    type points to the value the constructor made, while [any_cast] to any
    other type returns the null pointer.  The construction returns
    whenever the constructor of [T] does and, for a type that is not
    small, [operator new] does. *)
Theorem any_value_round_trip σ (this : Z) t (args : R) v :
  any_wf σ → this ≠ nullptr → anys σ !! this = None →
  construct t args = inr v →
  (IsSmall t = true ∨ is_Some (operator_new (free_store σ))) →
  ∃ σ' l,
    any_construct_value construct copy_construct move_construct operator_new
      this t args σ = returned tt σ' ∧
    any_has_value this σ' = Some true ∧
    any_type copy_construct move_construct operator_new this σ'
    = returned (typeid_of (type_id t)) σ' ∧
    any_cast_ptr copy_construct move_construct operator_new
      (typeid_of (type_id t)) this σ' = returned (Some l) σ' ∧
    read_object t l σ' = Some v ∧
    ∀ T, T ≠ typeid_of (type_id t) →
         any_cast_ptr copy_construct move_construct operator_new T this σ'
         = returned None σ'.
Proof.
  intros Hwf Hnull Hfresh Hmade Hroom.
  pose proof (any_construct_value_cases σ this t args Hwf Hfresh) as Hcases.
  destruct (any_construct_value construct copy_construct move_construct
              operator_new this t args σ) as [[] σ' | x σ' | |];
    [| | done | done].
  2: { destruct Hcases as [_ [(_ & Hlarge & Hnew) | (e & _ & Hthrows)]];
       [| congruence].
       destruct Hroom as [Hsmall | [p Hp]]; congruence. }
  destruct Hcases as (v' & Hmade' & Hwf' & Hfull & _).
  assert (v' = v) as -> by congruence.
  destruct (any_cast_ptr_contains σ' this t v (typeid_of (type_id t))
              Hnull Hfull) as (obj & l & _ & _ & Hread & _ & Hcast).
  rewrite decide_True in Hcast by done.
  exists σ', l. split; [done |].
  split; [by apply (any_contains_has_value σ' this t v) |].
  split; [by apply (any_type_contains σ' this t v) |].
  split; [done |]. split; [done |].
  intros T HT.
  destruct (any_cast_ptr_contains σ' this t v T Hnull Hfull)
    as (obj' & l' & _ & _ & _ & _ & Hcast').
  by rewrite decide_False in Hcast' by congruence.
Qed.

End any_properties.

Lemma sample_new_fresh (store : gmap Z (type_desc * Z)) (p : Z) :
  sample_new store = Some p → p ≠ nullptr ∧ store !! p = None.
Proof.
  intros [= <-].
  pose proof (is_fresh (({[nullptr]} : gset Z) ∪ dom store)) as Hfresh.
  apply not_elem_of_union in Hfresh as [Hnull Hdom].
  split; [| by apply not_elem_of_dom].
  intros Heq. apply Hnull. rewrite Heq. by apply elem_of_singleton.
Qed.

Lemma any_programs_memory_safe_witness :
  ∃ σ : any_memory Z,
    rtc (any_step sample_construct sample_copy sample_move sample_new)
        any_initial σ ∧
    any_wf σ ∧
    call_ready (call_swap (R := Z) 10 20 50) σ ∧
    run_call sample_construct sample_copy sample_move sample_new
      (call_swap 10 20 50) σ ≠ undefined ∧
    call_ready
      (call_emplace (R := Z) 30 sample_int (args_lvalue (buffer_of 10))) σ ∧
    run_call sample_construct sample_copy sample_move sample_new
      (call_emplace 30 sample_int (args_lvalue (buffer_of 10))) σ
    ≠ undefined ∧
    any_contains σ 10 sample_int 42 ∧
    any_place 10 σ = Some (buffer_of 10) ∧
    run_call sample_construct sample_copy sample_move sample_new
      (call_emplace 10 sample_int (args_lvalue (buffer_of 10))) σ
    = undefined.
Proof.
  eexists.
  assert (Hrun : rtc (any_step sample_construct sample_copy sample_move
                        sample_new) any_initial _) by sample_any_run.
  split; [exact Hrun |].
  match type of Hrun with rtc _ _ ?s => set (σ := s) in * end.
  destruct (any_programs_memory_safe sample_construct sample_copy
              sample_move sample_new sample_new_fresh σ Hrun)
    as (Hwf & Hdefined & Hown).
  split; [exact Hwf |].
  assert (Hready : call_ready (call_swap (R := Z) 10 20 50) σ).
  { split; [by eexists | split; [by eexists | vm_compute; reflexivity]]. }
  split; [exact Hready |]. split; [exact (Hdefined _ Hready) |].
  assert (Hready' :
    call_ready
      (call_emplace (R := Z) 30 sample_int (args_lvalue (buffer_of 10))) σ).
  { split; [by eexists |]. split.
    - split; [reflexivity |]. eexists. vm_compute. reflexivity.
    - intros l _. vm_compute. discriminate. }
  split; [exact Hready' |]. split; [exact (Hdefined _ Hready') |].
  assert (Hfull : any_contains σ 10 sample_int 42).
  { eexists. split; [vm_compute; reflexivity |].
    split; [reflexivity | vm_compute; reflexivity]. }
  assert (Hcopy : is_copy_constructible sample_int = true) by reflexivity.
  assert (Hplace : any_place 10 σ = Some (buffer_of 10))
    by (vm_compute; reflexivity).
  split; [exact Hfull |]. split; [exact Hplace |].
  pose proof (Hown 10 sample_int 42 (buffer_of 10) Hfull Hcopy Hplace)
    as Hself.
  destruct (run_call sample_construct sample_copy sample_move sample_new
              (call_emplace 10 sample_int (args_lvalue (buffer_of 10))) σ)
    as [r σ' | x σ' | |]; [done | | done | reflexivity].
  by destruct Hself as [_ Hlarge].
Defined.

Ltac sample_any_memory :=
  eexists;
  assert (rtc (any_step sample_construct sample_copy sample_move sample_new)
              any_initial _) as Hrun by sample_any_run;
  pose proof (any_run_wf sample_construct sample_copy sample_move sample_new
                sample_new_fresh _ _ Hrun any_initial_wf) as Hwf;
  split; [exact Hwf |];
  match type of Hwf with any_wf ?s => set (σ := s) in * end.

Ltac sample_contains_small :=
  eexists; split; [vm_compute; reflexivity |];
  split; [reflexivity | vm_compute; reflexivity].

Ltac sample_contains_large :=
  eexists; split; [vm_compute; reflexivity |];
  split; [reflexivity |]; vm_compute;
  eexists; split; [reflexivity |]; split; [done | reflexivity].

Lemma any_copy_of_move_only_throws_witness :
  ∃ σ : any_memory Z,
    any_wf σ ∧ any_contains σ 40 sample_unique_ptr 5 ∧
    is_copy_constructible sample_unique_ptr = false ∧
    anys σ !! 50 = None ∧ anys σ !! 60 = None ∧
    any_copy_construct sample_copy sample_move sample_new 50 40 σ
    = threw std_logic_error σ ∧
    any_copy_assign sample_copy sample_move sample_new 10 40 60 61 σ
    = threw std_logic_error σ.
Proof.
  sample_any_memory.
  assert (H1 : any_contains σ 40 sample_unique_ptr 5)
    by sample_contains_small.
  assert (H2 : is_copy_constructible sample_unique_ptr = false)
    by reflexivity.
  assert (H3 : anys σ !! 50 = None) by (vm_compute; reflexivity).
  assert (H4 : anys σ !! 60 = None) by (vm_compute; reflexivity).
  split; [exact H1 |]. split; [exact H2 |]. split; [exact H3 |].
  split; [exact H4 |].
  destruct (any_copy_of_move_only_throws sample_copy sample_move sample_new
              sample_new_fresh σ 50 40 60 61 sample_unique_ptr 5
              Hwf H1 H2 H3 H4) as [Hctor Hassign].
  split; [exact Hctor | exact (Hassign 10)].
Defined.

Lemma any_copy_assign_strong_guarantee_witness :
  ∃ σ : any_memory Z,
    any_wf σ ∧ is_Some (anys σ !! 10) ∧ is_Some (anys σ !! 20) ∧
    anys σ !! 60 = None ∧ anys σ !! 61 = None ∧ 60 ≠ 61 ∧
    (∀ x σ',
       any_copy_assign sample_copy sample_move sample_new 10 20 60 61 σ
       = threw x σ' → σ' = σ) ∧
    (∀ σ',
       any_copy_assign sample_copy sample_move sample_new 10 20 60 61 σ
       = returned tt σ' → any_wf σ' ∧ any_others_kept [10] σ σ').
Proof.
  sample_any_memory.
  assert (H1 : is_Some (anys σ !! 10)) by (by eexists).
  assert (H2 : is_Some (anys σ !! 20)) by (by eexists).
  assert (H3 : anys σ !! 60 = None) by (vm_compute; reflexivity).
  assert (H4 : anys σ !! 61 = None) by (vm_compute; reflexivity).
  assert (H5 : 60 ≠ 61) by lia.
  split; [exact H1 |]. split; [exact H2 |]. split; [exact H3 |].
  split; [exact H4 |]. split; [exact H5 |].
  destruct (any_copy_assign_strong_guarantee sample_copy sample_move
              sample_new sample_new_fresh σ 10 20 60 61
              Hwf H1 H2 H3 H4 H5) as [Hthrow Hreturn].
  split; [exact Hthrow |].
  intros σ' Hrun'. destruct (Hreturn σ' Hrun') as (Hwf' & Hkept & _).
  split; [exact Hwf' | exact Hkept].
Defined.

Lemma any_move_construct_transfers_witness :
  ∃ σ : any_memory Z,
    any_wf σ ∧ anys σ !! 50 = None ∧ any_contains σ 20 sample_record 7 ∧
    match any_move_construct sample_copy sample_move sample_new 50 20 σ with
    | returned _ σ' =>
        any_contains σ' 50 sample_record 7 ∧ any_empty σ' 20 ∧
        destroyed σ' = destroyed σ ++ [(sample_record, 0)]
    | _ => False
    end.
Proof.
  sample_any_memory.
  assert (H1 : anys σ !! 50 = None) by (vm_compute; reflexivity).
  assert (H2 : any_contains σ 20 sample_record 7) by sample_contains_large.
  split; [exact H1 |]. split; [exact H2 |].
  pose proof (any_move_construct_transfers sample_copy sample_move sample_new
                sample_new_fresh σ 50 20 sample_record 7 Hwf H1 H2)
    as [Hmove _].
  destruct (any_move_construct sample_copy sample_move sample_new 50 20 σ)
    as [r σ' | x σ' | |]; [| done | | done].
  - destruct Hmove as (v1 & Hmade & _ & Hfull & Hempty & _ & Hlog).
    injection Hmade as <-. by split.
  - by destruct Hmove as [[_ Hnew] | [e Hthrows]].
Defined.

Lemma any_swap_exchanges_witness :
  ∃ σ : any_memory Z,
    any_wf σ ∧ any_contains σ 10 sample_int 42 ∧
    any_contains σ 20 sample_record 7 ∧ 10 ≠ 20 ∧ anys σ !! 50 = None ∧
    match any_swap sample_copy sample_move sample_new 10 20 50 σ with
    | returned _ σ' =>
        any_contains σ' 10 sample_record 7 ∧ any_contains σ' 20 sample_int 42
    | _ => True
    end ∧
    any_swap sample_copy sample_move sample_new 10 10 50 σ = returned tt σ.
Proof.
  sample_any_memory.
  assert (H1 : any_contains σ 10 sample_int 42) by sample_contains_small.
  assert (H2 : any_contains σ 20 sample_record 7) by sample_contains_large.
  assert (H3 : 10 ≠ 20) by lia.
  assert (H4 : anys σ !! 50 = None) by (vm_compute; reflexivity).
  split; [exact H1 |]. split; [exact H2 |]. split; [exact H3 |].
  split; [exact H4 |].
  destruct (any_swap_exchanges sample_copy sample_move sample_new
              sample_new_fresh σ 10 20 50 sample_int 42 sample_record 7
              Hwf H1 H2 H3 H4) as [Hswap Hself].
  split; [| exact Hself].
  destruct (any_swap sample_copy sample_move sample_new 10 20 50 σ)
    as [r σ' | x σ' | |]; [| done | done | done].
  destruct Hswap as (w1 & w2 & w3 & Hm1 & Hm3 & Hm2 & Hf1 & Hf2 & _).
  injection Hm1 as <-. injection Hm2 as <-. injection Hm3 as <-.
  by split.
Defined.

Lemma any_cast_ptr_matches_witness :
  ∃ σ : any_memory Z,
    any_wf σ ∧ 10 ≠ nullptr ∧ any_contains σ 10 sample_int 42 ∧
    any_cast_ptr sample_copy sample_move sample_new (typeid_of 1) nullptr σ
    = returned None σ ∧
    (∃ l, any_cast_ptr sample_copy sample_move sample_new (typeid_of 1) 10 σ
          = returned (Some l) σ ∧
          read_object sample_int l σ = Some 42) ∧
    any_cast_ref sample_copy sample_move sample_new (typeid_of 2) 10 σ
    = threw bad_any_cast σ.
Proof.
  sample_any_memory.
  assert (H1 : 10 ≠ nullptr) by (unfold nullptr; lia).
  assert (H2 : any_contains σ 10 sample_int 42) by sample_contains_small.
  split; [exact H1 |]. split; [exact H2 |].
  destruct (any_cast_ptr_matches sample_copy sample_move sample_new
              σ 10 (typeid_of 1) H1) as (Hnull & Hfull & _).
  split; [exact Hnull |]. split.
  - specialize (Hfull sample_int 42 H2).
    rewrite decide_True in Hfull by reflexivity.
    destruct Hfull as (l & Hcast & _ & Hread). by exists l.
  - destruct (any_cast_ptr_matches sample_copy sample_move sample_new
                σ 10 (typeid_of 2) H1) as (_ & Hother & _).
    specialize (Hother sample_int 42 H2).
    rewrite decide_False in Hother by discriminate.
    by destruct Hother.
Defined.

Lemma any_emplace_basic_guarantee_witness :
  ∃ σ : any_memory Z,
    any_wf σ ∧ any_contains σ 10 sample_int 42 ∧
    anys σ !! 60 = None ∧ anys σ !! 61 = None ∧ 60 ≠ 61 ∧
    (∃ x σ',
       any_emplace sample_construct sample_copy sample_move sample_new
         10 sample_record (-1) σ = threw x σ' ∧
       any_empty σ' 10 ∧ destroyed σ' = destroyed σ ++ [(sample_int, 42)]) ∧
    (∃ x,
       any_assign_value sample_construct sample_copy sample_move sample_new
         10 sample_record (-1) 60 61 σ = threw x σ).
Proof.
  sample_any_memory.
  assert (H1 : any_contains σ 10 sample_int 42) by sample_contains_small.
  assert (H2 : anys σ !! 60 = None) by (vm_compute; reflexivity).
  assert (H3 : anys σ !! 61 = None) by (vm_compute; reflexivity).
  assert (H4 : 60 ≠ 61) by lia.
  split; [exact H1 |]. split; [exact H2 |]. split; [exact H3 |].
  split; [exact H4 |].
  destruct (any_emplace_basic_guarantee sample_construct sample_copy
              sample_move sample_new sample_new_fresh σ 10 sample_record (-1)
              60 61 sample_int 42 Hwf H1 H2 H3 H4)
    as (Hemplace & _ & Hthrows).
  destruct (Hthrows 1%nat eq_refl) as [(x & σ' & Hrun') Hassign].
  split; [| exact Hassign].
  exists x, σ'. split; [exact Hrun' |].
  by destruct (Hemplace x σ' Hrun') as (_ & Hempty & Hlog).
Defined.

Lemma any_small_value_optimization_witness :
  ∃ σ : any_memory Z,
    any_wf σ ∧
    (∀ t' v', is_nothrow_move_constructible t' = true →
              ∃ v1, fst (sample_move t' v') = inr v1) ∧
    IsSmall sample_int = true ∧ 50 ≠ nullptr ∧ anys σ !! 50 = None ∧
    any_contains σ 10 sample_int 42 ∧
    ∃ σ' v1,
      any_move_construct sample_copy sample_move sample_new 50 10 σ
      = returned tt σ' ∧
      free_store σ' = free_store σ ∧
      read_object sample_int (buffer_of 50) σ' = Some v1.
Proof.
  sample_any_memory.
  assert (H0 : ∀ t' v', is_nothrow_move_constructible t' = true →
                        ∃ v1, fst (sample_move t' v') = inr v1)
    by (intros t' v' _; by exists v').
  assert (H1 : IsSmall sample_int = true) by reflexivity.
  assert (H2 : 50 ≠ nullptr) by (unfold nullptr; lia).
  assert (H3 : anys σ !! 50 = None) by (vm_compute; reflexivity).
  assert (H4 : any_contains σ 10 sample_int 42) by sample_contains_small.
  split; [exact H0 |]. split; [exact H1 |]. split; [exact H2 |].
  split; [exact H3 |]. split; [exact H4 |].
  destruct (any_small_value_optimization sample_copy sample_move sample_new
              sample_new_fresh σ 50 10 sample_int 42 H0 Hwf H1 H2 H3 H4)
    as (σ' & v1 & Hmove & Hstore & _ & _ & Hread).
  exists σ', v1. split; [exact Hmove |]. split; [exact Hstore | exact Hread].
Defined.

Lemma any_cast_move_keeps_value_witness :
  ∃ σ : any_memory Z,
    any_wf σ ∧ 10 ≠ nullptr ∧ any_contains σ 10 sample_int 42 ∧
    fst (sample_move sample_int 42) = inr 42 ∧
    ∃ σ', any_cast_move sample_copy sample_move sample_new sample_int 10 σ
          = returned 42 σ' ∧
          any_contains σ' 10 sample_int 0.
Proof.
  sample_any_memory.
  assert (H1 : 10 ≠ nullptr) by (unfold nullptr; lia).
  assert (H2 : any_contains σ 10 sample_int 42) by sample_contains_small.
  assert (H3 : fst (sample_move sample_int 42) = inr 42) by reflexivity.
  split; [exact H1 |]. split; [exact H2 |]. split; [exact H3 |].
  destruct (any_cast_move_keeps_value sample_copy sample_move sample_new
              σ 10 sample_int 42 42 H1 Hwf H2 H3)
    as (σ' & Hcast & _ & Hfull & _).
  exists σ'. split; [exact Hcast | exact Hfull].
Defined.

Lemma any_move_assign_transfers_witness :
  ∃ σ : any_memory Z,
    any_wf σ ∧ is_Some (anys σ !! 10) ∧ any_contains σ 10 sample_int 42 ∧
    anys σ !! 60 = None ∧ anys σ !! 61 = None ∧ 60 ≠ 61 ∧
    match any_move_assign sample_copy sample_move sample_new 10 10 60 61 σ
    with
    | returned _ σ' => any_contains σ' 10 sample_int 42
    | _ => True
    end.
Proof.
  sample_any_memory.
  assert (H1 : is_Some (anys σ !! 10)) by (by eexists).
  assert (H2 : any_contains σ 10 sample_int 42) by sample_contains_small.
  assert (H3 : anys σ !! 60 = None) by (vm_compute; reflexivity).
  assert (H4 : anys σ !! 61 = None) by (vm_compute; reflexivity).
  assert (H5 : 60 ≠ 61) by lia.
  split; [exact H1 |]. split; [exact H2 |]. split; [exact H3 |].
  split; [exact H4 |]. split; [exact H5 |].
  pose proof (any_move_assign_transfers sample_copy sample_move sample_new
                sample_new_fresh σ 10 10 60 61 sample_int 42
                Hwf H1 H2 H3 H4 H5) as Hmove.
  destruct (any_move_assign sample_copy sample_move sample_new 10 10 60 61 σ)
    as [r σ' | x σ' | |]; [| done | done | done].
  destruct Hmove as (_ & _ & _ & v1 & v' & Hm1 & Hm2 & Hfull).
  injection Hm1 as <-.
  destruct Hm2 as [Hm2 | (v2 & Hm2 & Hm3)].
  - by injection Hm2 as <-.
  - injection Hm2 as <-. by injection Hm3 as <-.
Defined.

Lemma any_value_round_trip_witness :
  ∃ σ : any_memory Z,
    any_wf σ ∧ 50 ≠ nullptr ∧ anys σ !! 50 = None ∧
    sample_construct sample_record 9 = inr 9 ∧
    (IsSmall sample_record = true
     ∨ is_Some (sample_new (free_store σ))) ∧
    ∃ σ' l,
      any_construct_value sample_construct sample_copy sample_move sample_new
        50 sample_record 9 σ = returned tt σ' ∧
      any_cast_ptr sample_copy sample_move sample_new (typeid_of 2) 50 σ'
      = returned (Some l) σ' ∧
      read_object sample_record l σ' = Some 9 ∧
      any_cast_ptr sample_copy sample_move sample_new (typeid_of 1) 50 σ'
      = returned None σ'.
Proof.
  sample_any_memory.
  assert (H1 : 50 ≠ nullptr) by (unfold nullptr; lia).
  assert (H2 : anys σ !! 50 = None) by (vm_compute; reflexivity).
  assert (H3 : sample_construct sample_record 9 = inr 9) by reflexivity.
  assert (H4 : IsSmall sample_record = true
               ∨ is_Some (sample_new (free_store σ)))
    by (right; by eexists).
  split; [exact H1 |]. split; [exact H2 |]. split; [exact H3 |].
  split; [exact H4 |].
  destruct (any_value_round_trip sample_construct sample_copy sample_move
              sample_new sample_new_fresh σ 50 sample_record 9 9
              Hwf H1 H2 H3 H4)
    as (σ' & l & Hmake & _ & _ & Hcast & Hread & Hother).
  exists σ', l. split; [exact Hmake |]. split; [exact Hcast |].
  split; [exact Hread |]. apply Hother. discriminate.
Defined.
